(* ===== verification/_CoqProject ===== *)
-Q . S2P
Prelude.v
Topics.v
EventLog.v
MemoryLog.v
PebbleKeys.v
PebbleStorage.v
PebbleLog.v
PebbleSpec.v
LogTraces.v
Contract.v
ContractSpec.v
RoutingTable.v
Peers.v
Clients.v
MeshNode.v
NodeLifecycle.v
NodePublish.v
InFlight.v
NodeSubs.v
Gossip.v
NodeWitness.v
NodeHealth.v
PeerMessages.v
GRPCLink.v
LinkLifecycle.v
LinkStreams.v
ComposedLink.v
LinkSpec.v
LinkInvariant.v
LinkBehaviour.v
StreamRuns.v
LinkGossip.v
Inbound.v
Delivery.v
LinkWitness.v
Utf8.v
Base64.v
Json.v
JsonSpec.v
SSECursor.v
HTTP.v
SSEMessage.v
JsonValues.v
SSEStream.v
SSEReplay.v
SSERegistry.v
HTTPHandlers.v
HTTPServer.v
Middleware.v
HTTPIsolation.v
APIClient.v
StreamClient.v
StreamLines.v
StreamResume.v
SSELive.v
EndToEnd.v
StreamAcross.v
HTTPWitness.v
AcrossWitness.v
Daemon.v
CommandLine.v
Startup.v
DaemonSpec.v
CLI.v
CLISpec.v
DaemonWitness.v
StartupSpec.v
