(* ===== verification/Prelude.v ===== *)
(** * EventMesh: a verified model

    EventMesh is a mesh of nodes that exchange events by topic.  A node keeps
    every event in a log, delivers it to local clients whose subscriptions match
    its topic, and forwards it to the peers that have told it of such
    subscriptions.  Nodes talk over gRPC streams; clients talk to a node over
    HTTP, where events are streamed as server-sent events.  This library
    translates the Go code under [src/] into definitions that compute, and
    proves what makes each part and their composition correct.

    ** The program and the files

    - Topics: the four topic matchers ([routingtable], [meshnode],
      [httpapi], [httpclient]).  [Topics.v]
    - Event log ([pkg/eventlog], [internal/eventlog]): the record, the interface
      as a class, an abstract log and the class of laws [EventLogSpec]
      ([EventLog.v]); the in-memory log ([MemoryLog.v]); the durable log: keys
      ([PebbleKeys.v]), stored form ([PebbleStorage.v]), operations
      ([PebbleLog.v]), its representation invariant and laws ([PebbleSpec.v]);
      sequences of calls and the agreement of the two ([LogTraces.v]); the
      executable contract of [eventlogtest] ([Contract.v]) and both logs passing
      it ([ContractSpec.v]).
    - Routing table ([internal/routingtable]): [RoutingTable.v].
    - Peer-link interface ([pkg/peerlink]): [Peers.v], with the class of
      operations, its laws and a recording implementation.
    - Clients ([internal/meshnode/client.go], [HTTPClient] of
      [internal/httpapi]): objects in a shared heap, [Clients.v].
    - Mesh node ([internal/meshnode]): state, publishing, subscriptions, gossip
      ([MeshNode.v]); start, stop, health, statistics, discovery
      ([NodeLifecycle.v]); theorems on publishing ([NodePublish.v]), deliveries
      in flight, subscriber by subscriber ([InFlight.v]), on the subscription tables ([NodeSubs.v]), on gossip ([Gossip.v]) and on
      lifecycle, health and statistics ([NodeHealth.v]); [NodeWitness.v].
    - Peer link over gRPC ([internal/peerlink]): messages ([PeerMessages.v]),
      state, queues, metrics, receiving ([GRPCLink.v]), connecting, starting,
      heartbeats ([LinkLifecycle.v]), streams and connection goroutines
      ([LinkStreams.v]), the link a node hands out ([ComposedLink.v]); laws of
      sending ([LinkSpec.v]), the invariant over all steps ([LinkInvariant.v]),
      behaviour of the operations ([LinkBehaviour.v]), whole runs of the
      goroutines ([StreamRuns.v]), gossip over the link ([LinkGossip.v]), the
      consumers of what arrives ([Inbound.v]), events from node to node
      ([Delivery.v]); [LinkWitness.v].
    - Texts: UTF-8 and blanks ([Utf8.v]), base64 ([Base64.v]), JSON printing,
      parsing and assignment to structs ([Json.v], [JsonSpec.v],
      [JsonValues.v]).
    - HTTP API ([internal/httpapi]): cursors ([SSECursor.v]), requests and
      responses ([HTTP.v]), streamed messages ([SSEMessage.v]), the streaming
      handler ([SSEStream.v]) and its theorems ([SSEReplay.v],
      [SSERegistry.v]), the other handlers ([HTTPHandlers.v]), authentication
      and routes ([HTTPServer.v]), the middleware with headers and access log
      ([Middleware.v]), isolation of clients ([HTTPIsolation.v]).
    - HTTP client ([pkg/httpclient]): calls ([APIClient.v]), streaming
      ([StreamClient.v]), what it reads of a stream ([StreamLines.v]),
      reconnecting ([StreamResume.v]), a resumed stream beside everything else
      ([SSELive.v]), client and server together ([EndToEnd.v]), a client of one
      node and a client of another ([StreamAcross.v]); [HTTPWitness.v],
      [AcrossWitness.v].
    - Programs ([cmd]): the daemon ([Daemon.v], [DaemonSpec.v]), its command line
      ([CommandLine.v]) and what it logs ([Startup.v], [StartupSpec.v]), the
      command-line client ([CLI.v], [CLISpec.v]); [DaemonWitness.v].

    This file holds what they share: Go's errors and call outcomes, 64-bit
    arithmetic, contexts, map iteration, bytes and strings, nested maps.

    ** How the code is rendered

    A Go [error] is a value of [error]; a call that may fail or panic returns an
    [outcome]; an operation on an object takes its state and returns it.  Fields
    are 64-bit integers in [Z], with [wrap64] where the code computes.  A context
    is a [Ctx], which may be done at any later poll.  [range] over a map visits
    it in an order that the class [MapOrder] leaves open.  Clock readings are
    arguments.  An operation that holds a mutex throughout is one function; where
    the code gives the mutex up in the middle - a send looks a queue up and then
    sends, a connection goroutine takes a message, sends it and may have to put
    it back, an event from a peer is appended and then delivered, a stream waits
    for events - it is several, and [link_step], [live_step], [daemon_step] and
    the rounds of the loops interleave them.  A publish holds a read lock only:
    [PublishEventWithResult] is the whole of it with nothing in between, and
    [flight_step] takes its deliveries apart.  Objects reachable from several tables (client objects and
    their channels) live in a heap and are shared by address.

    ** Parameters: code that is not in the repository

    - [PebbleDB] with [PebbleDBLaws]: the key-value store, as an ordered map with
      atomic batches; [ProtoCodec] with [ProtoCodecLaws]: protobuf round trips.
    - [Network]: [net.Listen] and [grpc.NewClient], with any answers; a gRPC
      stream is given by the results of its calls.
    - [JWT] with [JWTLaws]: a signed token is read back until its expiry, in whole
      seconds; [TextFormats] with [TextFormatsLaws]: printed floats and times,
      [fmt]'s [%q]; [TimeLayouts]: [time.Format]; [Transport]: [http.Client.Do],
      which [EndToEnd.v] instantiates with the server, redirects of GET requests
      included.
    - [EventLog] and [PeerLink] are interfaces of the program; the node's theorems
      use [EventLogSpec] and [PeerLinkSpec] only, which both logs and the links
      satisfy.

    Every class of laws has an instance in the library (a finite map as the
    store, a bit codec, tokens made of bits, decimal times), and every theorem
    with hypotheses is applied to concrete values, in the component's file or in
    [NodeWitness.v], [LinkWitness.v], [HTTPWitness.v], [AcrossWitness.v] and
    [DaemonWitness.v].

    ** What is shown

    - Logs: each backend implements the abstract log on every sequence of calls,
      errors included, and passes the repository's contract; a durable log that is
      reopened goes on where it was; keys are isolated by topic and ordered by
      offset; the inputs on which each backend panics, which are not the same, and
      the agreement of the two on all others.
    - Routing table: it implements a finite map of (pattern, id) pairs; the
      matchers compute the same segment-wise relation.
    - Node: persist first, then deliver and forward to exactly those who match;
      what arrives from a peer stays local; the tables of a subscription agree;
      announcements make peers' views the node's interest, and so does a
      snapshot, whatever the view was; the lifecycle; the health report and the
      statistics.
    - Link: bounded queues, attempts and counters in every reachable state; which
      sends are accepted; order of sending; failed sends; heartbeats; the life of
      an inbound stream and of an outbound connection beside everything else; and
      the whole way of a subscription, and of an event, from one node, over
      queues, wire and bounded channels, into the view, the log and the clients
      of another.
    - HTTP: who may change what; tokens; the access log; publishing and reading
      over the wire; cursors; a resumed stream replays exactly what is missing; a
      client that reconnects has every event once and in order when the log rests
      meanwhile, and loses nothing unnoticed when appends and deliveries go on,
      in whatever order these happen; an event published on one node is read from
      a stream on another.
    - Programs: the command lines that are accepted; a daemon is what its flags
      say, stays up, and shuts down with nothing running and nothing lost; what it
      logs on the way; an event published by one run of the command-line client is
      shown by the next.
    - Faults of the code are theorems too: a slow consumer fails publishes, a
      disconnect can make a send panic, unreachable peers are retried without
      end and without a pause, streams of one client share their entries, messages
      beyond ten waiting are lost, the topic [..] can be published to and not be
      read, and others named in the files.

    ** Bounds

    [replay_topic] takes a number of reads: a replay of at most 10000 events in
    batches of 1000 needs at most 11, the last one empty, and [SSEReplay.v] proves
    that 11 suffice.  The JSON parser takes the length of its input as bound on
    its steps and 10000 as the depth of nesting, as [encoding/json] does.  A line
    of a stream has less than 64 KiB, [bufio.Scanner]'s limit.  Everything else is
    structural, or runs over a given list of steps.

    ** Not modelled

    - The command-line client's own flag parsing ([cobra]) and the declarations of
      its commands; log lines other than those of the daemon's [main] and the
      access log, and how the log handler prints a line.
    - The [Location] header and the page of the router's redirects, escaped paths
      ([RawPath]) and requests for [*]; the headers that handlers set themselves;
      texts of JSON errors.
    - Timers: read and write timeouts, the pause between reconnects, the periods
      of heartbeats and pings.  Rounds may happen at any time instead.  A
      shutdown does not wait here for the requests and streams that are under way.
    - Concurrency of HTTP requests below the level of whole handlers, except for
      deliveries and the replay of a stream: a request is served in one step, a
      stream in one step per round.
    - Generated protobuf code beyond the messages; the helpers of the HTTP tests
      ([testutils]). *)
From stdpp Require Export base gmap sets list strings pretty sorting.
From Stdlib Require Export Ascii.

#[export] Set Default Proof Using "Type".
#[export] Set Warnings "-clear-no-such-hyp".

(** ** Go errors

    A Go [error] is compared by identity ([errors.Is]) and rendered as text.  A
    package-level [var ErrX = errors.New(..)] has an identity of its own and is
    named here by [ErrVar]; an error built at the point of return is [ErrNew];
    [fmt.Errorf] with [%w] last is [ErrWrap] and with [%w] first is [ErrWith];
    [errors.Is] looks through both. *)
Inductive error : Type :=
  | ErrVar (name msg : string)
  | ErrNew (msg : string)
  | ErrWrap (msg : string) (inner : error)
  | ErrWith (inner : error) (msg : string).

#[export] Instance error_eq_dec : EqDecision error.
Proof. solve_decision. Defined.

(** [errors.Is(err, target)] for a package-level [target]. *)
Fixpoint errors_Is (err : error) (target : string) : bool :=
  match err with
  | ErrVar name _ => bool_decide (name = target)
  | ErrNew _ => false
  | ErrWrap _ inner | ErrWith inner _ => errors_Is inner target
  end.

(** The [Error()] method. *)
Fixpoint error_String (err : error) : string :=
  match err with
  | ErrVar _ msg | ErrNew msg => msg
  | ErrWrap msg inner => msg +:+ ": " +:+ error_String inner
  | ErrWith inner msg => error_String inner +:+ ": " +:+ msg
  end.

(** ** Outcomes

    The result of a Go call that returns [(T, error)]: a value, an error, or a
    run-time panic (an index out of range, a [make] with a bad length, a send
    on a closed channel). *)
Inductive outcome (A : Type) : Type :=
  | Ok (a : A)
  | Err (e : error)
  | Panic (msg : string).
Arguments Ok {A} a.
Arguments Err {A} e.
Arguments Panic {A} msg.

#[export] Instance outcome_eq_dec `{EqDecision A} : EqDecision (outcome A).
Proof. solve_decision. Defined.

#[export] Instance outcome_ret : MRet outcome := @Ok.
#[export] Instance outcome_bind : MBind outcome := λ A B f o,
  match o with Ok a => f a | Err e => Err e | Panic m => Panic m end.
#[export] Instance outcome_fmap : FMap outcome := λ A B f o,
  match o with Ok a => Ok (f a) | Err e => Err e | Panic m => Panic m end.

(** [if err != nil { return fmt.Errorf("msg: %w", err) }] *)
Definition wrap_err {A} (msg : string) (o : outcome A) : outcome A :=
  match o with Err e => Err (ErrWrap msg e) | _ => o end.

Definition is_Ok {A} (o : outcome A) : bool :=
  match o with Ok _ => true | _ => false end.

(** The message of the panic on a nil pointer or interface. *)
Definition nil_dereference : string := "invalid memory address or nil pointer dereference".

(** Outcomes up to an equivalence of the values. *)
Definition outcome_rel {A B} (R : A → B → Prop) (o1 : outcome A) (o2 : outcome B) : Prop :=
  match o1, o2 with
  | Ok a, Ok b => R a b
  | Err e1, Err e2 => e1 = e2
  | Panic m1, Panic m2 => m1 = m2
  | _, _ => False
  end.

(** ** Contexts

    [ctx.Done()] / [ctx.Err()] is asked at several points of an operation and a
    context, once cancelled, stays cancelled.  A context is therefore given by
    the number of times it can still be asked before it reports [ctx_cause]
    ([None]: it is never cancelled during the run considered).  Where the code
    selects between [<-ctx.Done()] and another ready case, Go picks either one;
    the counter covers both choices. *)
Record Ctx := mkCtx { ctx_polls : option nat; ctx_cause : error }.

Definition context_Canceled : error := ErrVar "context.Canceled" "context canceled".

Definition ctx_Background : Ctx := mkCtx None context_Canceled.

Definition poll (ctx : Ctx) : option error * Ctx :=
  match ctx_polls ctx with
  | None => (None, ctx)
  | Some 0 => (Some (ctx_cause ctx), ctx)
  | Some (S n) => (None, mkCtx (Some n) (ctx_cause ctx))
  end.

(** A context whose answer does not change during the operation. *)
Definition ctx_live (ctx : Ctx) : Prop := ctx_polls ctx = None.
Definition ctx_cancelled (ctx : Ctx) : Prop := ctx_polls ctx = Some 0.
Definition ctx_settled (ctx : Ctx) : Prop := ctx_live ctx ∨ ctx_cancelled ctx.

Lemma poll_live ctx : ctx_live ctx → poll ctx = (None, ctx).
Proof. unfold ctx_live, poll. by intros ->. Qed.

Lemma poll_cancelled ctx : ctx_cancelled ctx → poll ctx = (Some (ctx_cause ctx), ctx).
Proof. unfold ctx_cancelled, poll. by intros ->. Qed.

Lemma poll_settled ctx : ctx_settled ctx → (poll ctx).2 = ctx.
Proof. intros [H|H]; [by rewrite poll_live | by rewrite poll_cancelled]. Qed.

#[export] Instance ctx_live_dec ctx : Decision (ctx_live ctx).
Proof. unfold ctx_live. apply _. Defined.

(** ** Machine integers *)
Definition max_int64 : Z := 2 ^ 63 - 1.
Definition min_int64 : Z := - 2 ^ 63.

(** The two's-complement value a Go [int64] (and [int], on the 64-bit targets
    the project builds for) holds after an operation whose exact result is [z]. *)
Definition wrap64 (z : Z) : Z := (z + 2 ^ 63) `mod` 2 ^ 64 - 2 ^ 63.
Definition wrapU64 (z : Z) : Z := z `mod` 2 ^ 64.
Definition wrapU32 (z : Z) : Z := z `mod` 2 ^ 32.

Definition is_int64 (z : Z) : Prop := (- 2 ^ 63 ≤ z < 2 ^ 63)%Z.

Lemma wrap64_id z : is_int64 z → wrap64 z = z.
Proof. unfold is_int64, wrap64. intros. rewrite Z.mod_small; lia. Qed.

Lemma wrap64_range z : is_int64 (wrap64 z).
Proof.
  unfold is_int64, wrap64.
  pose proof (Z.mod_pos_bound (z + 2 ^ 63) (2 ^ 64)). lia.
Qed.

(** Wrapping commutes with sums: a loop that wraps at every step wraps the total. *)
Lemma wrap64_add_l a b : wrap64 (wrap64 a + b) = wrap64 (a + b).
Proof.
  unfold wrap64. f_equal.
  replace ((a + 2 ^ 63) `mod` 2 ^ 64 - 2 ^ 63 + b + 2 ^ 63)%Z with ((a + 2 ^ 63) `mod` 2 ^ 64 + b)%Z by lia.
  rewrite Zplus_mod_idemp_l. f_equal. lia.
Qed.

Lemma foldl_wrap64 {A} (f : A → Z) (l : list A) (c : Z) :
  is_int64 c → foldl (λ c x, wrap64 (c + f x)) c l = wrap64 (c + foldr (λ x n, (f x + n)%Z) 0%Z l).
Proof.
  intros Hc. rewrite <-(wrap64_id c) at 1 by done. clear Hc.
  revert c. induction l as [|x l IH]; intros c; simpl; [by rewrite Z.add_0_r|].
  rewrite wrap64_add_l, IH. f_equal. lia.
Qed.

Lemma wrapU64_id z : (0 ≤ z < 2 ^ 64)%Z → wrapU64 z = z.
Proof. intros. unfold wrapU64. by apply Z.mod_small. Qed.

Lemma wrapU32_id z : (0 ≤ z < 2 ^ 32)%Z → wrapU32 z = z.
Proof. intros. unfold wrapU32. by apply Z.mod_small. Qed.

(** ** Slices

    [make([]T, n)] for an 8-byte [T] panics when [n] is negative or the size in
    bytes exceeds the address space the runtime reserves (2^48 on amd64). *)
Definition max_alloc : Z := 2 ^ 48.
Definition make_slice_ok (n : Z) : bool := bool_decide (0 ≤ n)%Z && bool_decide (n * 8 ≤ max_alloc)%Z.

(** A Go string or byte slice is a sequence of 8-bit bytes. *)
Abbreviation bytes := (list ascii).
Definition bytes_of_string (s : string) : bytes := String.list_ascii_of_string s.
Definition string_of_bytes (b : bytes) : string := String.string_of_list_ascii b.

Lemma string_of_bytes_of_string s : string_of_bytes (bytes_of_string s) = s.
Proof. apply String.string_of_list_ascii_of_string. Qed.
Lemma text_app_assoc (s1 s2 s3 : string) : (s1 +:+ s2) +:+ s3 = s1 +:+ s2 +:+ s3.
Proof. induction s1 as [|c s1 IH]; [done|]. exact (f_equal (String c) IH). Qed.
Lemma text_app_nil_r (s : string) : s +:+ "" = s.
Proof. induction s as [|c s IH]; [done|]. exact (f_equal (String c) IH). Qed.
Lemma bytes_of_app s1 s2 : bytes_of_string (s1 +:+ s2) = bytes_of_string s1 ++ bytes_of_string s2.
Proof. induction s1 as [|c s1 IH]; [done|]. simpl. f_equal. exact IH. Qed.

Lemma bytes_of_string_of_bytes b : bytes_of_string (string_of_bytes b) = b.
Proof. apply String.list_ascii_of_string_of_list_ascii. Qed.
#[export] Instance bytes_of_string_inj : Inj (=) (=) bytes_of_string.
Proof.
  intros s1 s2 H. rewrite <-(string_of_bytes_of_string s1), H.
  apply string_of_bytes_of_string.
Qed.

Definition len_string (s : string) : Z := Z.of_nat (String.length s).

(** ** Map iteration

    [for k, v := range m] visits the entries of a map in an unspecified order.
    The order is an argument of every definition that ranges over a map, and
    every theorem holds for all orders. *)
Class MapOrder := {
  range_order : ∀ {A : Type}, list A → list A;
  range_order_perm : ∀ {A : Type} (l : list A), range_order l ≡ₚ l
}.

Definition range_map `{MapOrder} {V} (m : gmap string V) : list (string * V) :=
  range_order (map_to_list m).

Section range_map.
Context `{MapOrder} {V : Type}.
Implicit Types m : gmap string V.

Lemma range_map_perm m : range_map m ≡ₚ map_to_list m.
Proof. apply range_order_perm. Qed.

Lemma elem_of_range_map m k v : (k, v) ∈ range_map m ↔ m !! k = Some v.
Proof. rewrite range_map_perm. apply elem_of_map_to_list. Qed.

Lemma NoDup_range_map_keys m : NoDup (range_map m).*1.
Proof. rewrite range_map_perm. apply NoDup_fst_map_to_list. Qed.

Lemma length_range_map m : length (range_map m) = size m.
Proof. by rewrite range_map_perm, length_map_to_list. Qed.

Lemma range_map_empty : range_map (∅ : gmap string V) = [].
Proof.
  apply Permutation_nil_r. rewrite range_map_perm.
  by rewrite map_to_list_empty.
Qed.
End range_map.

(** ** Maps of maps

    Several components keep a [map\[K1\]map\[K2\]V] whose inner maps are made on
    first use.  [map_uncurry] flattens such a map to one keyed by pairs. *)
Abbreviation nested V := (gmap string (gmap string V)).

Abbreviation flat m := (map_uncurry (M12:=gmap (string * string)) m).

(** [if m\[k\] == nil { m\[k\] = make(..) }; m\[k\]\[j\] = x] *)
Definition nested_insert {V} (k j : string) (x : V) (m : nested V) : nested V :=
  <[k := <[j := x]> (default ∅ (m !! k))]> m.

(** [for k, inner := range m { for j, x := range inner { .. } }] *)
Definition range_nested `{MapOrder} {V} (m : nested V) : list (string * string * V) :=
  range_map m ≫= λ '(k, inner), (λ '(j, x), (k, j, x)) <$> range_map inner.

Lemma lookup_flat {V} (m : nested V) k j : flat m !! (k, j) = m !! k ≫= (.!! j).
Proof. apply lookup_map_uncurry. Qed.

Lemma flat_empty {V} : flat (∅ : nested V) = ∅.
Proof. apply map_eq. intros [k j]. by rewrite lookup_flat, !lookup_empty. Qed.

Lemma flat_insert {V} (m : nested V) k j x :
  flat (nested_insert k j x m) = <[(k, j) := x]> (flat m).
Proof.
  apply map_eq. intros [k' j']. unfold nested_insert. rewrite lookup_flat, lookup_insert.
  case_decide as Hk; simpl.
  - subst k'. rewrite lookup_insert. case_decide as Hj.
    + subst j'. by rewrite lookup_insert_eq.
    + rewrite lookup_insert_ne by congruence. rewrite lookup_flat. by destruct (m !! k).
  - rewrite lookup_insert_ne by congruence. by rewrite lookup_flat.
Qed.

Lemma lookup_flat_insert {V} (m : nested V) k inner k' j :
  flat (<[k := inner]> m) !! (k', j) = if decide (k = k') then inner !! j else flat m !! (k', j).
Proof. rewrite !lookup_flat, lookup_insert. by case_decide. Qed.

Section range_nested.
Context `{MapOrder} {V : Type}.
Implicit Types m : nested V.

Lemma elem_of_range_nested m k j x : (k, j, x) ∈ range_nested m ↔ flat m !! (k, j) = Some x.
Proof.
  unfold range_nested. rewrite list_elem_of_bind, lookup_flat, bind_Some. split.
  - intros ([k' inner] & Hin & Hk%elem_of_range_map). apply list_elem_of_fmap in Hin as ([j' x'] & [= <- <- <-] & Hj).
    exists inner. split; [done|]. by apply elem_of_range_map in Hj.
  - intros (inner & Hk & Hj). exists (k, inner). split; [|by apply elem_of_range_map].
    apply list_elem_of_fmap. exists (j, x). split; [done|]. by apply elem_of_range_map.
Qed.

Lemma NoDup_range_nested m : NoDup (range_nested m).
Proof.
  unfold range_nested. apply NoDup_bind.
  - intros [k1 i1] [k2 i2] [[k j] x] H1%elem_of_range_map H2%elem_of_range_map Hx1 Hx2.
    apply list_elem_of_fmap in Hx1 as ([? ?] & [= <- <- <-] & _).
    apply list_elem_of_fmap in Hx2 as ([? ?] & [= -> _ _] & _). congruence.
  - intros [k inner] _. apply NoDup_fmap_2; [intros [??] [??]; congruence|].
    eapply NoDup_fmap_1, NoDup_range_map_keys.
  - eapply NoDup_fmap_1, NoDup_range_map_keys.
Qed.

(** Nested iteration visits every entry of the flattened map once. *)
Lemma range_nested_perm m :
  range_nested m ≡ₚ (λ '((k, j), x), (k, j, x)) <$> map_to_list (flat m).
Proof.
  apply NoDup_Permutation.
  - apply NoDup_range_nested.
  - apply NoDup_fmap_2; [intros [[??]?] [[??]?]; congruence|apply NoDup_map_to_list].
  - intros [[k j] x]. rewrite elem_of_range_nested, list_elem_of_fmap. split.
    + intros Hx. exists ((k, j), x). split; [done|]. by apply elem_of_map_to_list.
    + intros ([[k' j'] x'] & [= -> -> ->] & Hx). by apply elem_of_map_to_list in Hx.
Qed.

Lemma length_range_nested m :
  Z.of_nat (size (flat m)) = foldr (λ '(_, inner) n, (Z.of_nat (size (inner : gmap string V)) + n)%Z) 0%Z (range_map m).
Proof.
  rewrite <-length_map_to_list, <-(length_fmap (λ '((k, j), x), (k, j, x))), <-range_nested_perm.
  unfold range_nested. induction (range_map m) as [|[k inner] l IH]; [done|].
  rewrite bind_cons, length_app, length_fmap, length_range_map, Nat2Z.inj_add, IH. done.
Qed.
End range_nested.

(** The iteration order used by the witnesses. *)
Definition map_order_id : MapOrder.
Proof. refine {| range_order := λ A l, l |}. intros. done. Defined.

(** ** Generic list lemmas *)
Lemma Forall2_app_one {A B} (R : A → B → Prop) l1 l2 x y :
  Forall2 R l1 l2 → R x y → Forall2 R (l1 ++ [x]) (l2 ++ [y]).
Proof. intros. apply Forall2_app; auto. Qed.

Lemma take_drop_lookup {A} (l : list A) s n i :
  take n (drop s l) !! i = if decide (i < n) then l !! (s + i) else None.
Proof.
  case_decide.
  - by rewrite lookup_take_lt, lookup_drop by lia.
  - apply lookup_take_ge. lia.
Qed.

(** A map that is filled from a list: of two entries with one key the last
    counts. *)
Definition insert_all {K A} `{Countable K} (m : gmap K A) (l : list (K * A)) : gmap K A :=
  foldl (λ m '(k, v), <[k := v]> m) m l.

Lemma insert_all_union {K A} `{Countable K} (l : list (K * A)) (m : gmap K A) :
  NoDup l.*1 → insert_all m l = list_to_map l ∪ m.
Proof.
  unfold insert_all. revert m. induction l as [|[k v] l IH]; intros m Hnd; [simpl; by rewrite (left_id_L ∅ (∪))|].
  apply NoDup_cons in Hnd as [Hk Hnd]. simpl. rewrite IH by done.
  rewrite <-insert_union_r; [by rewrite insert_union_l|].
  by apply not_elem_of_list_to_map_1.
Qed.

Lemma insert_all_perm {K A} `{Countable K} (l : list (K * A)) (m : gmap K A) :
  l ≡ₚ map_to_list m → insert_all ∅ l = m.
Proof.
  intros Hl. assert (NoDup l.*1) as Hnd by (rewrite Hl; apply NoDup_fst_map_to_list).
  rewrite insert_all_union, (right_id_L ∅ (∪)) by done.
  by rewrite (list_to_map_proper _ (map_to_list m)), list_to_map_to_list.
Qed.

Lemma insert_all_elem {K A} `{Countable K} (l : list (K * A)) (m : gmap K A) k v :
  insert_all m l !! k = Some v → (k, v) ∈ l ∨ m !! k = Some v.
Proof.
  unfold insert_all. revert m. induction l as [|[k' v'] l IH]; intros m; [by right|].
  simpl. intros [Hin|Hm]%IH; [left; by right|].
  apply lookup_insert_Some in Hm as [[-> ->]|[_ Hm]]; [left; by left|by right].
Qed.

(** ** Tactics *)

(** Case analysis on the scrutinee of a [match] or [if] of the goal or of a
    hypothesis, remembering the equation. *)
Ltac case_goal :=
  match goal with
  | |- context [match ?x with _ => _ end] => destruct x eqn:?
  end.
Ltac case_hyp H :=
  match type of H with
  | context [match ?x with _ => _ end] => destruct x eqn:?
  end.

(** Follow the guards of a handler: split every [match] of the goal, close the
    branches that return early. *)
Ltac guards := repeat (case_goal; simplify_eq/=; try done).
