(* ===== verification/Topics.v ===== *)
(** * Topic patterns

    The four copies of the topic-pattern matcher, the segment-wise relation
    they implement, and what it means for patterns with and without wildcards:
    [internal/routingtable/inmemory.go], [internal/meshnode/node_peer_events.go],
    [internal/httpapi/handlers.go] and [pkg/httpclient/streaming.go]. *)
From S2P Require Import Prelude.

(** ** [strings.Split(s, ".")] *)

(** [strings.Split] with a one-byte separator: at least one (possibly empty)
    part, one more than the number of separators. *)
Fixpoint strings_Split (s : string) (sep : ascii) : list string :=
  match s with
  | EmptyString => [""%string]
  | String c s' =>
      if bool_decide (c = sep) then ""%string :: strings_Split s' sep
      else match strings_Split s' sep with
           | [] => [String c EmptyString]
           | part :: parts => String c part :: parts
           end
  end.

(** [strings.Join(parts, sep)], the inverse used to state properties. *)
Fixpoint strings_Join (parts : list string) (sep : ascii) : string :=
  match parts with
  | [] => ""
  | [part] => part
  | part :: parts => part +:+ String sep (strings_Join parts sep)
  end.

Definition dot : ascii := "."%char.

(** ** The matchers *)

(** [for i, part := range patternParts { if part != "*" && part != topicParts[i]
    { return false } }; return true].  [topicParts[i]] is in range because the
    loop is reached only when both lists have the same length; an index out of
    range would panic, here [None]. *)
Fixpoint match_parts (patternParts topicParts : list string) (i : nat) : option bool :=
  match patternParts with
  | [] => Some true
  | part :: rest =>
      if bool_decide (part ≠ "*"%string) then
        t ← topicParts !! i;
        if bool_decide (part ≠ t) then Some false
        else match_parts rest topicParts (S i)
      else match_parts rest topicParts (S i)
  end.

(** [internal/routingtable/inmemory.go]: [matchesPattern]. *)
Definition matchesPattern (pattern topic : string) : bool :=
  if bool_decide (pattern = topic) then true
  else
    let patternParts := strings_Split pattern dot in
    let topicParts := strings_Split topic dot in
    if bool_decide (length patternParts ≠ length topicParts) then false
    else default false (match_parts patternParts topicParts 0).

(** [internal/meshnode/node_peer_events.go]: [matchesPeerSubscriptionPattern]. *)
Definition matchesPeerSubscriptionPattern (pattern topic : string) : bool :=
  if bool_decide (pattern = topic) then true
  else
    let patternParts := strings_Split pattern dot in
    let topicParts := strings_Split topic dot in
    if bool_decide (length patternParts ≠ length topicParts) then false
    else default false (match_parts patternParts topicParts 0).

(** [internal/httpapi/handlers.go]: [matchesTopicPattern]. *)
Definition matchesTopicPattern (pattern topic : string) : bool :=
  if bool_decide (pattern = topic) then true
  else
    let patternParts := strings_Split pattern dot in
    let topicParts := strings_Split topic dot in
    if bool_decide (length patternParts ≠ length topicParts) then false
    else default false (match_parts patternParts topicParts 0).

(** [pkg/httpclient/streaming.go]: [matchesStreamTopic]. *)
Definition matchesStreamTopic (pattern topic : string) : bool :=
  if bool_decide (pattern = topic) then true
  else
    let patternParts := strings_Split pattern dot in
    let topicParts := strings_Split topic dot in
    if bool_decide (length patternParts ≠ length topicParts) then false
    else default false (match_parts patternParts topicParts 0).

(** ** Specification: segment-wise matching *)

Definition seg_matches (p t : string) : Prop := p = "*"%string ∨ p = t.

Definition topic_matches (pattern topic : string) : Prop :=
  Forall2 seg_matches (strings_Split pattern dot) (strings_Split topic dot).

#[export] Instance seg_matches_dec p t : Decision (seg_matches p t).
Proof. unfold seg_matches. apply _. Defined.
#[export] Instance topic_matches_dec pattern topic : Decision (topic_matches pattern topic).
Proof. unfold topic_matches. apply _. Defined.

Lemma topic_matches_refl topic : topic_matches topic topic.
Proof. unfold topic_matches. induction (strings_Split topic dot); constructor; [by right | done]. Qed.

(** The loop never leaves the bounds of [topicParts] when the lengths agree,
    and decides segment-wise matching. *)
Lemma match_parts_spec ps ts i :
  length ps + i = length ts →
  match_parts ps ts i = Some (bool_decide (Forall2 seg_matches ps (drop i ts))).
Proof.
  revert i. induction ps as [|p ps IH]; intros i Hlen; simpl in *.
  - rewrite drop_ge by lia. by rewrite bool_decide_eq_true_2.
  - destruct (lookup_lt_is_Some_2 ts i) as [t Ht]; [lia|].
    rewrite (drop_S ts t i Ht), Ht; simpl. specialize (IH (S i) ltac:(lia)).
    destruct (decide (p = "*"%string)) as [Hstar|Hstar];
      [|destruct (decide (p = t)) as [Heq|Heq]];
      rewrite ?(bool_decide_eq_true_2 (p ≠ "*"%string)), ?(bool_decide_eq_false_2 (p ≠ "*"%string)),
        ?(bool_decide_eq_true_2 (p ≠ t)), ?(bool_decide_eq_false_2 (p ≠ t)) by auto;
      rewrite ?IH; f_equal.
    + apply bool_decide_ext. rewrite Forall2_cons; unfold seg_matches; tauto.
    + apply bool_decide_ext. rewrite Forall2_cons; unfold seg_matches; tauto.
    + symmetry. apply bool_decide_eq_false_2. rewrite Forall2_cons; unfold seg_matches; tauto.
Qed.

(** The common body of the four matchers decides [topic_matches]; the test for
    equality before it is subsumed by the loop. *)
Lemma match_parts_topic p t :
  (if bool_decide (p = t) then true
   else if bool_decide (length (strings_Split p dot) ≠ length (strings_Split t dot)) then false
   else default false (match_parts (strings_Split p dot) (strings_Split t dot) 0))
  = bool_decide (topic_matches p t).
Proof.
  case_bool_decide as Heq; [subst; by rewrite bool_decide_eq_true_2 by apply topic_matches_refl|].
  case_bool_decide as Hlen.
  - symmetry. apply bool_decide_eq_false_2. intros H. by apply Forall2_length in H.
  - rewrite match_parts_spec by lia. done.
Qed.

Lemma matchesPattern_spec p t : matchesPattern p t = bool_decide (topic_matches p t).
Proof. apply match_parts_topic. Qed.
Lemma matchesPeerSubscriptionPattern_spec p t :
  matchesPeerSubscriptionPattern p t = bool_decide (topic_matches p t).
Proof. apply match_parts_topic. Qed.
Lemma matchesTopicPattern_spec p t : matchesTopicPattern p t = bool_decide (topic_matches p t).
Proof. apply match_parts_topic. Qed.
Lemma matchesStreamTopic_spec p t : matchesStreamTopic p t = bool_decide (topic_matches p t).
Proof. apply match_parts_topic. Qed.

(** ** Splitting and joining *)

Lemma strings_Split_cons s sep : ∃ part parts, strings_Split s sep = part :: parts.
Proof.
  induction s as [|c s (part & parts & IH)]; simpl; [by eauto|].
  rewrite IH. case_bool_decide; eauto.
Qed.

Lemma strings_Join_Split s sep : strings_Join (strings_Split s sep) sep = s.
Proof.
  induction s as [|c s IH]; [done|]. simpl.
  destruct (strings_Split_cons s sep) as (part & parts & Hs). rewrite Hs in *.
  case_bool_decide as Hc.
  - subst c. change (String sep (strings_Join (part :: parts) sep) = String sep s).
    by rewrite IH.
  - destruct parts as [|part' parts].
    + simpl in *. by rewrite IH.
    + change (String c (strings_Join (part :: part' :: parts) sep) = String c s). by rewrite IH.
Qed.

#[export] Instance strings_Split_inj sep : Inj (=) (=) (λ s, strings_Split s sep).
Proof.
  intros s1 s2 H. rewrite <-(strings_Join_Split s1 sep), <-(strings_Join_Split s2 sep).
  simpl in H. by rewrite H.
Qed.

(** A pattern none of whose segments is a lone star. *)
Definition literal_pattern (pattern : string) : Prop := "*"%string ∉ strings_Split pattern dot.

#[export] Instance literal_pattern_dec p : Decision (literal_pattern p).
Proof. unfold literal_pattern. apply _. Defined.

Lemma topic_matches_literal p t : literal_pattern p → topic_matches p t → p = t.
Proof.
  intros Hlit H. apply (strings_Split_inj dot). unfold literal_pattern in Hlit.
  unfold topic_matches in H. induction H as [|a b l k Hab _ IH]; [done|].
  rewrite elem_of_cons in Hlit. f_equal; [|tauto].
  destruct Hab as [->|]; [|done]. tauto.
Qed.

Lemma topic_matches_segments p t :
  topic_matches p t → length (strings_Split p dot) = length (strings_Split t dot).
Proof. apply Forall2_length. Qed.

(** C40: the routing table, the mesh node, the HTTP API and the client library
    each carry a copy of the matcher.  All four decide the same relation:
    pattern and topic have the same number of dot-separated segments and each
    pattern segment is a star or equal to the topic's segment.  In particular a
    pattern without a star segment matches exactly itself, and a star never
    spans several segments. *)
Theorem matchers_agree (pattern topic : string) :
  (matchesPattern pattern topic = true ↔ topic_matches pattern topic) ∧
  matchesPeerSubscriptionPattern pattern topic = matchesPattern pattern topic ∧
  matchesTopicPattern pattern topic = matchesPattern pattern topic ∧
  matchesStreamTopic pattern topic = matchesPattern pattern topic ∧
  (literal_pattern pattern → matchesPattern pattern topic = bool_decide (pattern = topic)) ∧
  (matchesPattern pattern topic = true →
     length (strings_Split pattern dot) = length (strings_Split topic dot)).
Proof.
  rewrite matchesPeerSubscriptionPattern_spec, matchesTopicPattern_spec,
    matchesStreamTopic_spec, matchesPattern_spec, bool_decide_eq_true.
  split_and!; try done.
  - intros Hlit. apply bool_decide_ext. split; [by apply topic_matches_literal|].
    intros ->. apply topic_matches_refl.
  - apply topic_matches_segments.
Qed.

Example matches_docs :
  matchesPattern "orders.*" "orders.created" = true ∧
  matchesPattern "orders.*" "orders.eu.created" = false ∧
  matchesPattern "*" "orders" = true ∧ matchesPattern "*" "orders.created" = false ∧
  matchesPattern "*.urgent" "payments.urgent" = true.
Proof. by vm_compute. Qed.
