(* ===== verification/EventLog.v ===== *)
(** * The EventLog contract

    The event record of [pkg/eventlog/event.go], the [EventLog] interface of
    [pkg/eventlog/interfaces.go] as a class of operations, an abstract log
    (a finite map from topics to the list of their events) with the operations'
    specification on it, and the class [EventLogSpec] of the laws a backend
    proves and its clients rely on. *)
From S2P Require Import Prelude.

(** ** Events ([pkg/eventlog/event.go])

    A [\[\]byte] is [None] when nil; a nil slice and an empty one have the same
    contents but [!= nil] tells them apart.  [Timestamp] is the instant in
    nanoseconds since the Unix epoch. *)
Record Event := mkEvent {
  Offset : Z;
  Topic : string;
  Payload : option bytes;
  Timestamp : Z;
  Headers : gmap string string
}.

#[export] Instance Event_eq_dec : EqDecision Event.
Proof. solve_decision. Defined.

(** The bytes of a slice, nil or not. *)
Definition contents (b : option bytes) : bytes := default [] b.

(** [make([]byte, len(b))] followed by [copy]: never nil. *)
Definition copy_bytes (b : option bytes) : option bytes := Some (contents b).

Definition NewEvent (now : Z) (topic : string) (payload : option bytes) : Event :=
  {| Offset := 0; Topic := topic; Payload := copy_bytes payload;
     Timestamp := now; Headers := ∅ |}.

Definition NewEventWithHeaders (now : Z) (topic : string) (payload : option bytes)
    (headers : gmap string string) : Event :=
  {| Offset := 0; Topic := topic; Payload := copy_bytes payload;
     Timestamp := now; Headers := headers |}.

Definition WithOffset (e : Event) (offset : Z) : Event :=
  {| Offset := offset; Topic := Topic e; Payload := Payload e;
     Timestamp := Timestamp e; Headers := Headers e |}.

Definition Copy (e : Event) : Event :=
  {| Offset := Offset e; Topic := Topic e; Payload := copy_bytes (Payload e);
     Timestamp := Timestamp e; Headers := Headers e |}.

(** ** Events up to the nil/empty distinction

    What a store that serialises events preserves: everything but whether an
    empty payload was a nil slice. *)
#[export] Instance event_equiv : Equiv Event := λ e1 e2,
  Offset e1 = Offset e2 ∧ Topic e1 = Topic e2 ∧
  contents (Payload e1) = contents (Payload e2) ∧
  Timestamp e1 = Timestamp e2 ∧ Headers e1 = Headers e2.

#[export] Instance event_equivalence : Equivalence (≡@{Event}).
Proof.
  split; unfold equiv, event_equiv.
  - intros e. done.
  - intros e1 e2 (?&?&?&?&?). done.
  - intros e1 e2 e3 (?&?&?&?&?) (?&?&?&?&?). split_and!; congruence.
Qed.

#[export] Instance WithOffset_proper : Proper ((≡) ==> (=) ==> (≡)) WithOffset.
Proof. intros e1 e2 (?&?&?&?&?) o ? <-. by repeat split. Qed.
#[export] Instance Copy_proper : Proper ((≡) ==> (≡)) Copy.
Proof. intros e1 e2 (?&?&?&?&?). by repeat split. Qed.
#[export] Instance Topic_proper : Proper ((≡) ==> (=)) Topic.
Proof. intros e1 e2 He. apply He. Qed.
#[export] Instance Offset_proper : Proper ((≡) ==> (=)) Offset.
Proof. intros e1 e2 He. apply He. Qed.

Lemma Copy_equiv e : Copy e ≡ e.
Proof. by repeat split. Qed.

(** ** The interface ([pkg/eventlog/interfaces.go]) *)
Record EventLogStatistics := mkStatistics {
  TotalEvents : Z;
  TopicCounts : gmap string Z;
  TopicCount : Z
}.

(** [ReplayEvents] returns two channels; its value here is the sequence of
    events sent on the first before it is closed, and how the sending goroutine
    ended: [Ok ()], or with an error sent on the second channel. *)
Class EventLog (L : Type) := {
  AppendEvent : Ctx → string → option Event → L → outcome Event * Ctx * L;
  ReadEvents : Ctx → string → Z → Z → L → outcome (list Event) * Ctx;
  GetTopicEndOffset : Ctx → string → L → outcome Z * Ctx;
  ReplayEvents : Ctx → string → Z → L → (list Event * outcome unit) * Ctx;
  Compact : Ctx → L → outcome unit * Ctx;
  GetStatistics : Ctx → L → outcome EventLogStatistics * Ctx;
  CloseLog : L → outcome unit * L
}.

(** The errors shared by the backends ([internal/eventlog/inmemory.go]). *)
Definition ErrNegativeOffset : error := ErrVar "eventlog.ErrNegativeOffset" "offset cannot be negative".
Definition ErrNegativeMaxCount : error := ErrVar "eventlog.ErrNegativeMaxCount" "max count cannot be negative".
Definition ErrNilEvent : error := ErrVar "eventlog.ErrNilEvent" "event cannot be nil".
Definition ErrEmptyTopic : error := ErrVar "eventlog.ErrEmptyTopic" "topic cannot be empty".
Definition err_log_closed : error := ErrNew "event log is closed".

(** ** The abstract log *)
Record AbsLog := mkAbsLog {
  abs_events : gmap string (list Event);
  abs_closed : bool
}.

Definition abs_empty : AbsLog := mkAbsLog ∅ false.

(** The events of a topic, oldest first. *)
Definition abs_topic (a : AbsLog) (topic : string) : list Event :=
  default [] (abs_events a !! topic).

Definition abs_end (a : AbsLog) (topic : string) : Z := Z.of_nat (length (abs_topic a topic)).

Definition abs_push (a : AbsLog) (topic : string) (e : Event) : AbsLog :=
  {| abs_events := <[topic := abs_topic a topic ++ [WithOffset e (abs_end a topic)]]> (abs_events a);
     abs_closed := abs_closed a |}.

(** The guards every operation starts with, in the order of the code: the
    context, the arguments, then the closed flag. *)
Definition abs_guard (ctx : Ctx) (args : option error) (a : AbsLog) : option error :=
  match (poll ctx).1 with
  | Some err => Some err
  | None =>
    match args with
    | Some err => Some err
    | None => if abs_closed a then Some err_log_closed else None
    end
  end.

Definition topic_args (topic : string) : option error :=
  if bool_decide (topic = ""%string) then Some ErrEmptyTopic else None.

Definition append_args (topic : string) (event : option Event) : option error :=
  if bool_decide (topic = ""%string) then Some ErrEmptyTopic
  else match event with None => Some ErrNilEvent | Some _ => None end.

Definition read_args (topic : string) (startOffset maxCount : Z) : option error :=
  if bool_decide (topic = ""%string) then Some ErrEmptyTopic
  else if bool_decide (startOffset < 0)%Z then Some ErrNegativeOffset
  else if bool_decide (maxCount < 0)%Z then Some ErrNegativeMaxCount
  else None.

Definition replay_args (topic : string) (startOffset : Z) : option error :=
  if bool_decide (topic = ""%string) then Some ErrEmptyTopic
  else if bool_decide (startOffset < 0)%Z then Some ErrNegativeOffset
  else None.

(** The events from [startOffset] on, at most [maxCount] of them. *)
Definition abs_slice (a : AbsLog) (topic : string) (startOffset maxCount : Z) : list Event :=
  take (Z.to_nat maxCount) (drop (Z.to_nat startOffset) (abs_topic a topic)).

Definition abs_statistics (a : AbsLog) : EventLogStatistics :=
  {| TotalEvents := map_fold (λ _ evs n, (Z.of_nat (length evs) + n)%Z) 0%Z (abs_events a);
     TopicCounts := (λ evs, Z.of_nat (length evs)) <$> abs_events a;
     TopicCount := Z.of_nat (size (abs_events a)) |}.

(** The counting loop both backends run over their topics:
    [TopicCounts\[topic\] = count; TotalEvents += count], on 64-bit integers. *)
Definition count_step : Z * gmap string Z → string * Z → Z * gmap string Z :=
  λ '(n, m) '(topic, count), (wrap64 (n + count), <[topic := count]> m).

Definition sum_counts (l : list (string * Z)) : Z := foldr (λ '(_, c) n, (c + n)%Z) 0%Z l.

(** The topics of the abstract log with their number of events. *)
Definition abs_counts (a : AbsLog) : list (string * Z) :=
  (λ '(topic, events), (topic, Z.of_nat (length events))) <$> map_to_list (abs_events a).

Lemma sum_counts_nonneg l : Forall (λ '(_, c), 0 ≤ c)%Z l → (0 ≤ sum_counts l)%Z.
Proof. induction 1 as [|[t c] l]; simpl; lia. Qed.

Lemma sum_counts_perm l1 l2 : l1 ≡ₚ l2 → sum_counts l1 = sum_counts l2.
Proof.
  induction 1 as [|[t c] l1 l2 _ IH|[t c] [t' c'] l|l1 l2 l3 _ IH1 _ IH2]; simpl; lia.
Qed.

Lemma count_step_foldl l n m :
  NoDup l.*1 → Forall (λ '(_, c), 0 ≤ c)%Z l → (∀ t, t ∈ l.*1 → m !! t = None) →
  (0 ≤ n)%Z → (n + sum_counts l ≤ max_int64)%Z →
  foldl count_step (n, m) l = ((n + sum_counts l)%Z, m ∪ list_to_map l).
Proof.
  revert n m. induction l as [|[t c] l IH]; intros n m Hnd Hpos Hfresh Hn Hmax; simpl in *.
  { rewrite map_union_empty. f_equal. lia. }
  apply NoDup_cons in Hnd as [Ht Hnd]. apply Forall_cons in Hpos as [Hc Hpos].
  pose proof (sum_counts_nonneg l Hpos).
  rewrite wrap64_id by (unfold is_int64, max_int64 in *; lia).
  rewrite IH; [|done|done| |lia|lia].
  - f_equal; [lia|]. rewrite <-insert_union_l, <-insert_union_r; [done|].
    by apply Hfresh, elem_of_cons; left.
  - intros t' Hin. rewrite lookup_insert_ne by (by intros ->). by apply Hfresh, elem_of_cons; right.
Qed.

Lemma abs_counts_NoDup a : NoDup (abs_counts a).*1.
Proof.
  unfold abs_counts. rewrite <-list_fmap_compose.
  rewrite (list_fmap_ext _ fst); [apply NoDup_fst_map_to_list|]. by intros _ [??] _.
Qed.

Lemma abs_counts_map a : list_to_map (abs_counts a) = TopicCounts (abs_statistics a).
Proof.
  unfold abs_counts. simpl.
  rewrite <-(list_to_map_to_list (abs_events a)) at 2. rewrite <-list_to_map_fmap.
  f_equal. apply list_fmap_ext. by intros _ [??] _.
Qed.

Lemma abs_counts_sum a : sum_counts (abs_counts a) = TotalEvents (abs_statistics a).
Proof.
  unfold abs_counts. simpl. rewrite map_fold_foldr.
  induction (map_to_list (abs_events a)) as [|[t evs] l IH]; [done|].
  simpl. f_equal. exact IH.
Qed.

Lemma count_abs_topics a l :
  l ≡ₚ abs_counts a → (TotalEvents (abs_statistics a) ≤ max_int64)%Z →
  foldl count_step (0%Z, ∅) l = (TotalEvents (abs_statistics a), TopicCounts (abs_statistics a)).
Proof.
  intros Hl Hmax. rewrite <-abs_counts_sum, <-abs_counts_map in *.
  pose proof (abs_counts_NoDup a). rewrite count_step_foldl.
  - rewrite map_empty_union. f_equal; [by apply sum_counts_perm|].
    by apply list_to_map_proper; [rewrite Hl|].
  - by rewrite Hl.
  - rewrite Hl. unfold abs_counts. apply Forall_fmap, Forall_true. intros [??]; simpl. lia.
  - intros t _. apply lookup_empty.
  - done.
  - rewrite (sum_counts_perm _ _ Hl). lia.
Qed.

(** Offsets are positions: the i-th event of a topic has offset i. *)
Definition abs_wf (a : AbsLog) : Prop :=
  (∀ topic evs i e, abs_events a !! topic = Some evs → evs !! i = Some e → Offset e = Z.of_nat i) ∧
  (∀ topic evs, abs_events a !! topic = Some evs → evs ≠ []).

Lemma abs_wf_empty : abs_wf abs_empty.
Proof. split; intros *; cbn [abs_events abs_empty]; by rewrite lookup_empty. Qed.

Lemma abs_topic_push a topic e topic' :
  abs_topic (abs_push a topic e) topic' =
  if decide (topic = topic') then abs_topic a topic ++ [WithOffset e (abs_end a topic)]
  else abs_topic a topic'.
Proof. unfold abs_topic at 1; simpl. rewrite lookup_insert. by case_decide. Qed.

Lemma abs_wf_push a topic e : abs_wf a → abs_wf (abs_push a topic e).
Proof.
  intros [Hoff Hne]. split; intros t evs; simpl; rewrite lookup_insert; case_decide;
    try naive_solver.
  - intros i ev [= <-] Hi. apply lookup_app_Some in Hi as [Hi|[Hge Hi]].
    + unfold abs_topic in Hi. destruct (abs_events a !! topic) eqn:?; naive_solver.
    + apply list_lookup_singleton_Some in Hi as [Hi <-]. simpl. unfold abs_end. lia.
  - intros [= <-]. by destruct (abs_topic a topic).
Qed.

Lemma abs_end_push a topic e : abs_end (abs_push a topic e) topic = (abs_end a topic + 1)%Z.
Proof.
  unfold abs_end. rewrite abs_topic_push, decide_True, length_app by done. simpl. lia.
Qed.

Lemma abs_end_push_ne a topic topic' e :
  topic ≠ topic' → abs_end (abs_push a topic e) topic' = abs_end a topic'.
Proof. intros. unfold abs_end. by rewrite abs_topic_push, decide_False. Qed.

(** A read is a contiguous run of offsets starting at the one asked for. *)
Lemma abs_slice_offsets a topic s n i e :
  abs_wf a → (0 ≤ s)%Z → abs_slice a topic s n !! i = Some e →
  Offset e = (s + Z.of_nat i)%Z.
Proof.
  intros [Hoff _] Hs. unfold abs_slice, abs_topic. rewrite take_drop_lookup. case_decide; [|done].
  destruct (abs_events a !! topic) as [evs|] eqn:Ht; [|done]. simpl. intros Hi.
  rewrite (Hoff _ _ _ _ Ht Hi). lia.
Qed.

(** Split the guards of an operation along with those of [abs_guard], and close
    the branches on which they disagree. *)
Ltac log_step := cbn [fst snd] in *; simplify_eq; try done.
Ltac log_guards :=
  unfold abs_guard, append_args, read_args, topic_args, replay_args in *;
  repeat match goal with
  | H : ctx_live ?ctx |- context [poll ?ctx] => rewrite (poll_live _ H) in *; log_step
  | |- context [poll ?ctx] => destruct (poll ctx) as [[?|] ?] eqn:?; log_step
  | _ => progress case_bool_decide; log_step
  | |- context [abs_closed ?a] => destruct (abs_closed a) eqn:?; log_step
  | H : abs_guard _ _ _ = _ |- _ => log_step
  | event : option Event |- _ => destruct event; log_step
  end; try done.

(** ** What a backend promises

    [log_rep l a] relates a backend state to the abstract log it stands for.
    A backend may put conditions on the events it accepts ([log_accepts]); it
    must then behave like the abstract log, up to the nil/empty distinction of
    payloads, and report the same error as the abstract log for every failed
    guard.  The offset and size bounds are those at which the 64-bit counters
    and slice lengths of the code stop being exact. *)
Class EventLogSpec (L : Type) `{!EventLog L} := {
  log_rep : L → AbsLog → Prop;
  log_accepts : string → Event → Prop;

  log_rep_wf l a : log_rep l a → abs_wf a;

  append_refused ctx topic event l a err :
    log_rep l a → abs_guard ctx (append_args topic event) a = Some err →
    AppendEvent ctx topic event l = (Err err, (poll ctx).2, l);
  append_ok ctx topic e l a :
    log_rep l a → abs_guard ctx (append_args topic (Some e)) a = None →
    log_accepts topic e → (abs_end a topic < max_int64)%Z →
    ∃ l', AppendEvent ctx topic (Some e) l = (Ok (WithOffset e (abs_end a topic)), (poll ctx).2, l') ∧
          log_rep l' (abs_push a topic e);

  read_refused ctx topic s n l a err :
    log_rep l a → abs_guard ctx (read_args topic s n) a = Some err →
    ReadEvents ctx topic s n l = (Err err, (poll ctx).2);
  read_ok ctx topic s n l a :
    log_rep l a → ctx_live ctx → abs_guard ctx (read_args topic s n) a = None →
    (s + n ≤ max_int64)%Z → (n * 8 ≤ max_alloc)%Z → (abs_end a topic ≤ max_int64)%Z →
    ∃ evs, ReadEvents ctx topic s n l = (Ok evs, ctx) ∧ evs ≡ abs_slice a topic s n;

  end_refused ctx topic l a err :
    log_rep l a → abs_guard ctx (topic_args topic) a = Some err →
    GetTopicEndOffset ctx topic l = (Err err, (poll ctx).2);
  end_ok ctx topic l a :
    log_rep l a → abs_guard ctx (topic_args topic) a = None →
    (abs_end a topic ≤ max_int64)%Z →
    GetTopicEndOffset ctx topic l = (Ok (abs_end a topic), (poll ctx).2);

  replay_refused ctx topic s l a err :
    log_rep l a → abs_guard ctx (replay_args topic s) a = Some err →
    ReplayEvents ctx topic s l = (([], Err err), (poll ctx).2);
  replay_ok ctx topic s l a :
    log_rep l a → ctx_live ctx → abs_guard ctx (replay_args topic s) a = None →
    is_int64 s → (abs_end a topic ≤ max_int64)%Z →
    ∃ evs, ReplayEvents ctx topic s l = ((evs, Ok ()), ctx) ∧
           evs ≡ drop (Z.to_nat s) (abs_topic a topic);

  stats_refused ctx l a err :
    log_rep l a → abs_guard ctx None a = Some err →
    GetStatistics ctx l = (Err err, (poll ctx).2);
  stats_ok ctx l a :
    log_rep l a → ctx_live ctx → abs_guard ctx None a = None →
    (TotalEvents (abs_statistics a) ≤ max_int64)%Z →
    GetStatistics ctx l = (Ok (abs_statistics a), ctx);

  compact_spec ctx l a :
    log_rep l a →
    Compact ctx l = (match abs_guard ctx None a with Some err => Err err | None => Ok () end,
                     (poll ctx).2);

  close_spec l a :
    log_rep l a →
    ∃ l', CloseLog l = (Ok (), l') ∧ log_rep l' (mkAbsLog (abs_events a) true)
}.
