(* ===== verification/MemoryLog.v ===== *)
(** * The in-memory event log ([internal/eventlog/inmemory.go])

    The topic-partitioned log kept in two Go maps, its operations as the code
    has them, its well-formedness invariant, and the proof that it implements
    the contract of [EventLog.v]. *)
From S2P Require Import Prelude EventLog.

(** ** State and operations *)
Record InMemoryEventLog := mkMemLog {
  eventsByTopic : gmap string (list Event);
  nextOffsetByTopic : gmap string Z;
  mem_closed : bool
}.

Definition NewInMemoryEventLog : InMemoryEventLog := mkMemLog ∅ ∅ false.

(** [checkContext]: a non-blocking receive on [ctx.Done()]. *)
Definition mem_checkContext (ctx : Ctx) : option error * Ctx := poll ctx.

(** A missing key reads as the zero value. *)
Definition next_offset (log : InMemoryEventLog) (topic : string) : Z :=
  default 0%Z (nextOffsetByTopic log !! topic).
Definition topic_events (log : InMemoryEventLog) (topic : string) : list Event :=
  default [] (eventsByTopic log !! topic).

Definition mem_AppendEvent (ctx : Ctx) (topic : string) (event : option Event)
    (log : InMemoryEventLog) : outcome Event * Ctx * InMemoryEventLog :=
  let '(err, ctx) := mem_checkContext ctx in
  match err with
  | Some err => (Err err, ctx, log)
  | None =>
    if bool_decide (topic = ""%string) then (Err ErrEmptyTopic, ctx, log)
    else match event with
    | None => (Err ErrNilEvent, ctx, log)
    | Some event =>
      if mem_closed log then (Err err_log_closed, ctx, log)
      else
        let nextOffset := next_offset log topic in
        let eventWithOffset := WithOffset event nextOffset in
        let log' :=
          {| nextOffsetByTopic := <[topic := wrap64 (nextOffset + 1)]> (nextOffsetByTopic log);
             eventsByTopic := <[topic := topic_events log topic ++ [eventWithOffset]]> (eventsByTopic log);
             mem_closed := mem_closed log |} in
        (Ok eventWithOffset, ctx, log')
    end
  end.

Definition mem_ReadEvents (ctx : Ctx) (topic : string) (startOffset maxCount : Z)
    (log : InMemoryEventLog) : outcome (list Event) * Ctx :=
  let '(err, ctx) := mem_checkContext ctx in
  match err with
  | Some err => (Err err, ctx)
  | None =>
    if bool_decide (topic = ""%string) then (Err ErrEmptyTopic, ctx)
    else if bool_decide (startOffset < 0)%Z then (Err ErrNegativeOffset, ctx)
    else if bool_decide (maxCount < 0)%Z then (Err ErrNegativeMaxCount, ctx)
    else if mem_closed log then (Err err_log_closed, ctx)
    else match eventsByTopic log !! topic with
    | None | Some [] => (Ok [], ctx)
    | Some events =>
      let len := Z.of_nat (length events) in
      let startIdx := startOffset in
      if bool_decide (len ≤ startIdx)%Z then (Ok [], ctx)
      else
        let endIdx := wrap64 (startIdx + maxCount) in
        let endIdx := if bool_decide (len < endIdx)%Z then len else endIdx in
        (* result := make([]*eventlog.Event, endIdx-startIdx) *)
        if negb (make_slice_ok (wrap64 (endIdx - startIdx))) then
          (Panic "runtime error: makeslice: len out of range", ctx)
        else (* copy(result, events[startIdx:endIdx]) *)
          if bool_decide (endIdx < startIdx)%Z then (Panic "runtime error: slice bounds out of range", ctx)
          else (Ok (take (Z.to_nat (endIdx - startIdx)) (drop (Z.to_nat startIdx) events)), ctx)
    end
  end.

Definition mem_GetTopicEndOffset (ctx : Ctx) (topic : string) (log : InMemoryEventLog)
    : outcome Z * Ctx :=
  let '(err, ctx) := mem_checkContext ctx in
  match err with
  | Some err => (Err err, ctx)
  | None =>
    if bool_decide (topic = ""%string) then (Err ErrEmptyTopic, ctx)
    else if mem_closed log then (Err err_log_closed, ctx)
    else (Ok (next_offset log topic), ctx)
  end.

(** The sending loop of [ReplayEvents]: before each send the goroutine selects
    between [ctx.Done()] and the channel. *)
Fixpoint mem_replay_loop (ctx : Ctx) (events : list Event) : (list Event * outcome unit) * Ctx :=
  match events with
  | [] => (([], Ok ()), ctx)
  | e :: rest =>
    let '(err, ctx) := poll ctx in
    match err with
    | Some err => (([], Err err), ctx)
    | None =>
      let '((sent, err), ctx) := mem_replay_loop ctx rest in
      ((e :: sent, err), ctx)
    end
  end.

Definition mem_ReplayEvents (ctx : Ctx) (topic : string) (startOffset : Z)
    (log : InMemoryEventLog) : (list Event * outcome unit) * Ctx :=
  let '(err, ctx) := mem_checkContext ctx in
  match err with
  | Some err => (([], Err err), ctx)
  | None =>
    if bool_decide (topic = ""%string) then (([], Err ErrEmptyTopic), ctx)
    else if bool_decide (startOffset < 0)%Z then (([], Err ErrNegativeOffset), ctx)
    else if mem_closed log then (([], Err err_log_closed), ctx)
    else match eventsByTopic log !! topic with
    | None | Some [] => (([], Ok ()), ctx)
    | Some events =>
      if bool_decide (Z.of_nat (length events) ≤ startOffset)%Z then (([], Ok ()), ctx)
      else mem_replay_loop ctx (drop (Z.to_nat startOffset) events)
    end
  end.

Definition mem_Compact (ctx : Ctx) (log : InMemoryEventLog) : outcome unit * Ctx :=
  let '(err, ctx) := mem_checkContext ctx in
  match err with
  | Some err => (Err err, ctx)
  | None => if mem_closed log then (Err err_log_closed, ctx) else (Ok (), ctx)
  end.

Definition mem_Close (log : InMemoryEventLog) : outcome unit * InMemoryEventLog :=
  (Ok (), mkMemLog (eventsByTopic log) (nextOffsetByTopic log) true).

Section MemoryLog.
Context `{!MapOrder}.

(** [topicCounts[topic] = count; totalEvents += count] for each topic. *)
Definition mem_count_topics (log : InMemoryEventLog) : Z * gmap string Z :=
  foldl (λ '(totalEvents, topicCounts) '(topic, events),
           let count := Z.of_nat (length events) in
           (wrap64 (totalEvents + count), <[topic := count]> topicCounts))
        (0%Z, ∅) (range_map (eventsByTopic log)).

Definition mem_GetStatistics (ctx : Ctx) (log : InMemoryEventLog)
    : outcome EventLogStatistics * Ctx :=
  let '(err, ctx) := mem_checkContext ctx in
  match err with
  | Some err => (Err err, ctx)
  | None =>
    if mem_closed log then (Err err_log_closed, ctx)
    else
      let '(totalEvents, topicCounts) := mem_count_topics log in
      (Ok {| TotalEvents := totalEvents; TopicCounts := topicCounts;
             TopicCount := Z.of_nat (size topicCounts) |}, ctx)
  end.

#[export] Instance InMemoryEventLog_ops : EventLog InMemoryEventLog := {|
  AppendEvent := mem_AppendEvent;
  ReadEvents := mem_ReadEvents;
  GetTopicEndOffset := mem_GetTopicEndOffset;
  ReplayEvents := mem_ReplayEvents;
  Compact := mem_Compact;
  GetStatistics := mem_GetStatistics;
  CloseLog := mem_Close
|}.
End MemoryLog.

(** ** Representation invariant *)

(** The two maps agree: the next offset of a topic is its number of events (and
    0 for topics never written), and events sit at their offsets. *)
Record mem_rep (log : InMemoryEventLog) (a : AbsLog) : Prop := {
  mem_rep_events : eventsByTopic log = abs_events a;
  mem_rep_next topic : (abs_end a topic ≤ max_int64)%Z → next_offset log topic = abs_end a topic;
  mem_rep_closed : mem_closed log = abs_closed a;
  mem_rep_wf : abs_wf a
}.

Lemma mem_rep_new : mem_rep NewInMemoryEventLog abs_empty.
Proof. split; [done..|apply abs_wf_empty]. Qed.

Lemma mem_rep_topic log a topic : mem_rep log a → topic_events log topic = abs_topic a topic.
Proof. intros [Hev _ _ _]. unfold topic_events, abs_topic. by rewrite Hev. Qed.

Lemma mem_rep_lookup log a topic :
  mem_rep log a → abs_topic a topic = default [] (eventsByTopic log !! topic).
Proof. intros Hr. by rewrite <-(mem_rep_topic _ _ _ Hr). Qed.

Ltac mem_guards Hr := rewrite ?(mem_rep_closed _ _ Hr); unfold mem_checkContext in *; log_guards.

Lemma mem_append_refused ctx topic event log a err :
  mem_rep log a → abs_guard ctx (append_args topic event) a = Some err →
  mem_AppendEvent ctx topic event log = (Err err, (poll ctx).2, log).
Proof. intros Hr Hg. unfold mem_AppendEvent. mem_guards Hr. Qed.

Lemma mem_append_ok ctx topic e log a :
  mem_rep log a → abs_guard ctx (append_args topic (Some e)) a = None →
  (abs_end a topic < max_int64)%Z →
  ∃ log', mem_AppendEvent ctx topic (Some e) log =
            (Ok (WithOffset e (abs_end a topic)), (poll ctx).2, log') ∧
          mem_rep log' (abs_push a topic e).
Proof.
  intros Hr Hg Hend. unfold mem_AppendEvent. mem_guards Hr.
  rewrite (mem_rep_next _ _ Hr) by lia. eexists; split; [done|].
  split; simpl.
  - rewrite (mem_rep_topic _ _ _ Hr). by rewrite (mem_rep_events _ _ Hr).
  - intros t Ht. unfold next_offset; cbn [nextOffsetByTopic]. rewrite lookup_insert.
    case_decide; subst; cbn [default].
    + rewrite abs_end_push. apply wrap64_id. unfold is_int64, abs_end, max_int64 in *. lia.
    + rewrite abs_end_push_ne in * by done. by apply (mem_rep_next _ _ Hr).
  - done.
  - apply abs_wf_push, (mem_rep_wf _ _ Hr).
Qed.

Lemma mem_read_refused ctx topic s n log a err :
  mem_rep log a → abs_guard ctx (read_args topic s n) a = Some err →
  mem_ReadEvents ctx topic s n log = (Err err, (poll ctx).2).
Proof. intros Hr Hg. unfold mem_ReadEvents. mem_guards Hr. Qed.

(** The clamped end index, and the run of events it delimits. *)
Lemma clamp_end len e : (if bool_decide (len < e)%Z then len else e) = Z.min len e.
Proof. case_bool_decide; lia. Qed.

Lemma take_clamped {A} (l : list A) (s n : Z) :
  (0 ≤ s < Z.of_nat (length l))%Z → (0 ≤ n)%Z →
  take (Z.to_nat (Z.min (Z.of_nat (length l)) (s + n) - s)) (drop (Z.to_nat s) l) =
  take (Z.to_nat n) (drop (Z.to_nat s) l).
Proof.
  intros Hs Hn. destruct (Z.le_ge_cases (Z.of_nat (length l)) (s + n)).
  - rewrite !take_ge; [done|..]; rewrite length_drop; lia.
  - f_equal. lia.
Qed.

Lemma mem_read_ok ctx topic s n log a :
  mem_rep log a → ctx_live ctx → abs_guard ctx (read_args topic s n) a = None →
  (s + n ≤ max_int64)%Z → (Z.min n (abs_end a topic) * 8 ≤ max_alloc)%Z →
  mem_ReadEvents ctx topic s n log = (Ok (abs_slice a topic s n), ctx).
Proof.
  intros Hr Hlive Hg Hsum Halloc. unfold mem_ReadEvents, abs_slice, abs_end in *.
  rewrite (mem_rep_lookup _ _ _ Hr) in *. mem_guards Hr.
  destruct (eventsByTopic log !! topic) as [[|e evs]|]; simpl default in *;
    [by rewrite drop_nil, take_nil| |by rewrite drop_nil, take_nil].
  set (l := e :: evs) in *.
  case_bool_decide; [by rewrite drop_ge, take_nil by lia|].
  rewrite (wrap64_id (s + n)), clamp_end by (unfold is_int64, max_int64 in *; lia).
  rewrite wrap64_id by (unfold is_int64, max_int64, max_alloc in *; lia).
  assert (make_slice_ok (Z.min (Z.of_nat (length l)) (s + n) - s) = true) as ->.
  { unfold make_slice_ok. by rewrite !bool_decide_eq_true_2 by lia. }
  simpl negb. rewrite bool_decide_eq_false_2 by lia. by rewrite take_clamped by lia.
Qed.

Lemma mem_end_refused ctx topic log a err :
  mem_rep log a → abs_guard ctx (topic_args topic) a = Some err →
  mem_GetTopicEndOffset ctx topic log = (Err err, (poll ctx).2).
Proof. intros Hr Hg. unfold mem_GetTopicEndOffset. mem_guards Hr. Qed.

Lemma mem_end_ok ctx topic log a :
  mem_rep log a → abs_guard ctx (topic_args topic) a = None →
  (abs_end a topic ≤ max_int64)%Z →
  mem_GetTopicEndOffset ctx topic log = (Ok (abs_end a topic), (poll ctx).2).
Proof.
  intros Hr Hg Hend. unfold mem_GetTopicEndOffset. mem_guards Hr.
  by rewrite (mem_rep_next _ _ Hr).
Qed.

Lemma mem_replay_refused ctx topic s log a err :
  mem_rep log a → abs_guard ctx (replay_args topic s) a = Some err →
  mem_ReplayEvents ctx topic s log = (([], Err err), (poll ctx).2).
Proof. intros Hr Hg. unfold mem_ReplayEvents. mem_guards Hr. Qed.

Lemma mem_replay_loop_live ctx evs :
  ctx_live ctx → mem_replay_loop ctx evs = ((evs, Ok ()), ctx).
Proof.
  intros Hlive. induction evs as [|e evs IH]; [done|]; simpl.
  by rewrite (poll_live _ Hlive), IH.
Qed.

Lemma mem_replay_ok ctx topic s log a :
  mem_rep log a → ctx_live ctx → abs_guard ctx (replay_args topic s) a = None →
  mem_ReplayEvents ctx topic s log = ((drop (Z.to_nat s) (abs_topic a topic), Ok ()), ctx).
Proof.
  intros Hr Hlive Hg. unfold mem_ReplayEvents.
  rewrite (mem_rep_lookup _ _ _ Hr). mem_guards Hr.
  destruct (eventsByTopic log !! topic) as [[|e evs]|]; simpl; [by destruct (Z.to_nat s)| |by destruct (Z.to_nat s)].
  case_bool_decide; [by rewrite drop_ge by (simpl; lia)|].
  by rewrite mem_replay_loop_live.
Qed.

(** ** Statistics *)
Section Statistics.
Context `{!MapOrder}.

Lemma mem_count_topics_spec log a :
  mem_rep log a → (TotalEvents (abs_statistics a) ≤ max_int64)%Z →
  mem_count_topics log = (TotalEvents (abs_statistics a), TopicCounts (abs_statistics a)).
Proof.
  intros Hr Hmax. unfold mem_count_topics. rewrite (mem_rep_events _ _ Hr).
  set (counts := (λ '(topic, events), (topic, Z.of_nat (length events))) <$> range_map (abs_events a)).
  transitivity (foldl count_step (0%Z, ∅) counts).
  { subst counts. generalize (0%Z, ∅ : gmap string Z) as acc, (range_map (abs_events a)) as l.
    intros acc l. revert acc. induction l as [|[t evs] l IH]; intros [n m]; [done|]. apply IH. }
  apply count_abs_topics; [|done].
  subst counts. unfold range_map. rewrite range_order_perm. apply reflexivity.
Qed.

Lemma mem_stats_refused ctx log a err :
  mem_rep log a → abs_guard ctx None a = Some err →
  mem_GetStatistics ctx log = (Err err, (poll ctx).2).
Proof. intros Hr Hg. unfold mem_GetStatistics. mem_guards Hr. Qed.

Lemma mem_stats_ok ctx log a :
  mem_rep log a → ctx_live ctx → abs_guard ctx None a = None →
  (TotalEvents (abs_statistics a) ≤ max_int64)%Z →
  mem_GetStatistics ctx log = (Ok (abs_statistics a), ctx).
Proof.
  intros Hr Hlive Hg Hmax. unfold mem_GetStatistics.
  rewrite (mem_count_topics_spec _ _ Hr Hmax). mem_guards Hr.
  do 2 f_equal. unfold abs_statistics. f_equal. simpl. by rewrite map_size_fmap.
Qed.

Lemma mem_compact_spec ctx log a :
  mem_rep log a →
  mem_Compact ctx log =
    (match abs_guard ctx None a with Some err => Err err | None => Ok () end, (poll ctx).2).
Proof. intros Hr. unfold mem_Compact. mem_guards Hr. Qed.

Lemma mem_close_spec log a :
  mem_rep log a →
  ∃ log', mem_Close log = (Ok (), log') ∧ mem_rep log' (mkAbsLog (abs_events a) true).
Proof.
  intros [Hev Hnext Hcl Hwf]. eexists; split; [done|]. split; try done.
Qed.

(** The in-memory log discharges the contract and accepts every event. *)
#[export] Instance InMemoryEventLog_spec : EventLogSpec InMemoryEventLog.
Proof.
  refine {| log_rep := mem_rep; log_accepts := λ _ _, True |}.
  - apply mem_rep_wf.
  - apply mem_append_refused.
  - intros ctx topic e l a Hr Hg _. by apply mem_append_ok.
  - apply mem_read_refused.
  - intros ctx topic s n l a Hr Hlive Hg Hsum Halloc _.
    eexists; split; [eapply mem_read_ok; eauto; lia|done].
  - apply mem_end_refused.
  - apply mem_end_ok.
  - apply mem_replay_refused.
  - intros ctx topic s l a Hr Hlive Hg _ _. eexists; split; [by eapply mem_replay_ok|done].
  - apply mem_stats_refused.
  - apply mem_stats_ok.
  - apply mem_compact_spec.
  - apply mem_close_spec.
Defined.
End Statistics.

(** ** Behaviour outside the contract's bounds *)

(** Every call with valid arguments. *)
Lemma mem_read_all (ctx : Ctx) (topic : string) (s n : Z)
    (log : InMemoryEventLog) (a : AbsLog)
    (Hrep : mem_rep log a) (Hlive : ctx_live ctx)
    (Hargs : abs_guard ctx (read_args topic s n) a = None)
    (Hs : is_int64 s) (Hn : is_int64 n) (Hmem : (abs_end a topic * 8 ≤ max_alloc)%Z) :
  mem_ReadEvents ctx topic s n log =
    if bool_decide (s < abs_end a topic ∧ max_int64 < s + n)%Z
    then (Panic "runtime error: makeslice: len out of range", ctx)
    else (Ok (abs_slice a topic s n), ctx).
Proof.
  destruct (decide (s + n ≤ max_int64)%Z) as [Hsum|Hsum].
  - rewrite bool_decide_eq_false_2 by lia. apply mem_read_ok; [done..|lia].
  - unfold mem_ReadEvents, abs_slice, abs_end in *.
    rewrite (mem_rep_lookup _ _ _ Hrep) in *. mem_guards Hrep; unfold max_int64, is_int64 in *.
    + destruct (eventsByTopic log !! topic) as [[|e evs]|]; simpl default in *; simpl length in *; try lia.
      rewrite bool_decide_eq_false_2 by lia.
      replace (wrap64 (s + n)) with (s + n - 2 ^ 64)%Z.
      2: { unfold wrap64. rewrite <-(Z.mod_unique (s + n + 2 ^ 63) (2 ^ 64) 1 (s + n - 2 ^ 63)); lia. }
      rewrite (bool_decide_eq_false_2 (_ < s + n - _)%Z) by lia.
      replace (s + n - 2 ^ 64 - s)%Z with (n - 2 ^ 64)%Z by lia.
      assert (wrap64 (n - 2 ^ 64) = n) as ->
        by (unfold wrap64; rewrite <-(Z.mod_unique (n - 2 ^ 64 + 2 ^ 63) (2 ^ 64) (-1) (n + 2 ^ 63)); lia).
      unfold make_slice_ok. unfold max_alloc in *. rewrite (bool_decide_eq_false_2 (n * 8 ≤ _)%Z) by lia. by rewrite andb_false_r.
    + destruct (eventsByTopic log !! topic) as [[|e evs]|]; simpl default in *;
        [by rewrite drop_nil, take_nil| |by rewrite drop_nil, take_nil].
      rewrite bool_decide_eq_true_2 by lia. by rewrite drop_ge, take_nil by lia.
Qed.

(** C34: [ReadEvents] computes [endIdx := startIdx + maxCount] on 64-bit integers
    before clamping it to the length.  On a log with an event at or after
    [startOffset], the call panics in [make] exactly when that sum exceeds the
    largest int64; every other call with valid arguments returns the requested
    run of events. *)
Theorem mem_ReadEvents_panics (ctx : Ctx) (topic : string) (s n : Z)
    (log : InMemoryEventLog) (a : AbsLog)
    (Hrep : mem_rep log a) (Hlive : ctx_live ctx)
    (Hargs : abs_guard ctx (read_args topic s n) a = None)
    (Hs : is_int64 s) (Hn : is_int64 n) (Hmem : (abs_end a topic * 8 ≤ max_alloc)%Z) :
  mem_ReadEvents ctx topic s n log =
    if bool_decide (s < abs_end a topic ∧ max_int64 < s + n)%Z
    then (Panic "runtime error: makeslice: len out of range", ctx)
    else (Ok (abs_slice a topic s n), ctx).
Proof. exact (mem_read_all ctx topic s n log a Hrep Hlive Hargs Hs Hn Hmem). Qed.

Lemma mem_replay_loop_polls n cause evs :
  mem_replay_loop (mkCtx (Some n) cause) evs =
    ((take n evs, if decide (n < length evs) then Err cause else Ok ()),
     mkCtx (Some (n - length evs)) cause).
Proof.
  revert n. induction evs as [|e evs IH]; intros n; simpl.
  - by rewrite take_nil, Nat.sub_0_r.
  - destruct n as [|n]; [done|]. unfold poll; simpl. rewrite IH. simpl.
    repeat case_decide; by try lia.
Qed.

(** A replay sends the events from the start offset on, in order, and stops
    early only because its context is cancelled: with a context that is found
    alive [n] more times after the initial check, exactly the first [n] of the
    remaining events are sent and the context's error is reported if and only
    if some event was left. *)
Theorem mem_replay_progress (topic : string) (s : Z) (n : nat) (cause : error)
    (log : InMemoryEventLog) (a : AbsLog)
    (Hrep : mem_rep log a) (Hopen : abs_closed a = false)
    (Htopic : topic ≠ ""%string) (Hs : (0 ≤ s)%Z) :
  let rest := drop (Z.to_nat s) (abs_topic a topic) in
  (mem_ReplayEvents (mkCtx (Some (S n)) cause) topic s log).1 =
    (take n rest, if decide (n < length rest) then Err cause else Ok ()) ∧
  (mem_ReplayEvents ctx_Background topic s log).1 = (rest, Ok ()).
Proof.
  intros rest. subst rest. unfold mem_ReplayEvents, mem_checkContext, poll. simpl.
  rewrite !(bool_decide_eq_false_2 (topic = _)), !(bool_decide_eq_false_2 (s < 0)%Z) by (done || lia).
  rewrite (mem_rep_closed _ _ Hrep), Hopen, (mem_rep_lookup _ _ _ Hrep).
  destruct (eventsByTopic log !! topic) as [[|e evs]|]; simpl default in *;
    [rewrite drop_nil, take_nil; split; [by rewrite decide_False by (simpl; lia)|done]| |
     rewrite drop_nil, take_nil; split; [by rewrite decide_False by (simpl; lia)|done]].
  case_bool_decide.
  - rewrite drop_ge, take_nil by lia. split; [|done].
    by rewrite decide_False by (simpl; lia).
  - by rewrite mem_replay_loop_polls, mem_replay_loop_live.
Qed.

(** ** Witnesses *)
Definition sample_log : InMemoryEventLog :=
  (mem_AppendEvent ctx_Background "orders" (Some (NewEvent 1 "orders" None)) NewInMemoryEventLog).2.
Definition sample_abs : AbsLog := abs_push abs_empty "orders" (NewEvent 1 "orders" None).

Lemma sample_log_rep : mem_rep sample_log sample_abs.
Proof.
  destruct (mem_append_ok ctx_Background "orders" (NewEvent 1 "orders" None) NewInMemoryEventLog abs_empty)
    as (log' & Heq & Hr); [apply mem_rep_new|done|done|].
  unfold sample_log. by rewrite Heq.
Qed.

(** The largest [maxCount] at start offset 0 is fine; at a positive start offset
    it would overflow, here after the end of the log. *)
Lemma mem_ReadEvents_panics_witness :
  ∃ log a, mem_rep log a ∧
    mem_ReadEvents ctx_Background "orders" 0 max_int64 log = (Ok (abs_slice a "orders" 0 max_int64), ctx_Background).
Proof.
  exists sample_log, sample_abs. split; [apply sample_log_rep|].
  refine (eq_trans (mem_ReadEvents_panics ctx_Background "orders" 0 max_int64 sample_log sample_abs
    sample_log_rep _ _ _ _ _) _); try reflexivity; unfold is_int64, max_int64, max_alloc; try lia.
  vm_compute. discriminate.
Defined.

(** On a log of two events the overflow is reached. *)
Example mem_read_overflow :
  let log := (mem_AppendEvent ctx_Background "orders" (Some (NewEvent 1 "orders" None)) sample_log).2 in
  (mem_ReadEvents ctx_Background "orders" 1 max_int64 log).1 =
    Panic "runtime error: makeslice: len out of range".
Proof. vm_compute. reflexivity. Qed.

Lemma mem_replay_progress_witness :
  (mem_ReplayEvents ctx_Background "orders" 0 sample_log).1 =
    ([WithOffset (NewEvent 1 "orders" None) 0], Ok ()).
Proof.
  refine (proj2 (mem_replay_progress "orders" 0 0 context_Canceled sample_log sample_abs sample_log_rep _ _ _));
    try reflexivity. discriminate.
Defined.
