(* ===== verification/PebbleKeys.v ===== *)
(** * Keys of the durable event log ([internal/eventlog/pebble_keys.go])

    Byte strings in the lexicographic order Pebble sorts keys by, big-endian
    integers, the key layout of the log, and the facts the store relies on:
    keys decode back, a topic's events occupy exactly one key range, and the
    order of keys within it is the order of offsets. *)
From S2P Require Import Prelude.
From Stdlib Require Import ZArith.

(** ** Bytes *)
Definition byte_val (b : ascii) : Z := Z.of_N (N_of_ascii b).
(** The conversion [byte(v)]: the low eight bits. *)
Definition to_byte (z : Z) : ascii := ascii_of_N (Z.to_N (z `mod` 256)).

Lemma byte_val_range b : (0 ≤ byte_val b < 256)%Z.
Proof. unfold byte_val. pose proof (N_ascii_bounded b). lia. Qed.

Lemma byte_val_to_byte z : byte_val (to_byte z) = (z `mod` 256)%Z.
Proof.
  unfold byte_val, to_byte. pose proof (Z.mod_pos_bound z 256 ltac:(lia)).
  rewrite N_ascii_embedding by lia. lia.
Qed.

#[export] Instance byte_val_inj : Inj (=) (=) byte_val.
Proof.
  intros a b H. unfold byte_val in H. apply N2Z.inj in H.
  by rewrite <-(ascii_N_embedding a), H, ascii_N_embedding.
Qed.

Lemma to_byte_byte_val b : to_byte (byte_val b) = b.
Proof.
  apply (inj byte_val). rewrite byte_val_to_byte. apply Z.mod_small, byte_val_range.
Qed.

(** ** [bytes.Compare] *)
Fixpoint bytes_ltb (a b : bytes) : bool :=
  match a, b with
  | _, [] => false
  | [], _ :: _ => true
  | x :: a', y :: b' =>
      if (byte_val x <? byte_val y)%Z then true
      else if (byte_val y <? byte_val x)%Z then false
      else bytes_ltb a' b'
  end.

Definition bytes_lt (a b : bytes) : Prop := bytes_ltb a b = true.
(** [a <= b]: [b] does not come strictly before [a]. *)
Definition bytes_le (a b : bytes) : Prop := bytes_ltb b a = false.

#[export] Instance bytes_lt_dec a b : Decision (bytes_lt a b).
Proof. unfold bytes_lt. apply _. Defined.
#[export] Instance bytes_le_dec a b : Decision (bytes_le a b).
Proof. unfold bytes_le. apply _. Defined.

Ltac zltb := repeat match goal with
  | |- context [(?a <? ?b)%Z] => destruct (Z.ltb_spec a b)
  | H : context [(?a <? ?b)%Z] |- _ => destruct (Z.ltb_spec a b)
  end.

Lemma bytes_lt_cons x y a b :
  bytes_lt (x :: a) (y :: b) ↔
  (byte_val x < byte_val y)%Z ∨ (x = y ∧ bytes_lt a b).
Proof.
  unfold bytes_lt; simpl. zltb.
  - split; auto.
  - split; [done|]. intros [?|[-> _]]; lia.
  - assert (x = y) as -> by (apply (inj byte_val); lia). split; [auto|].
    intros [?|[_ ?]]; [lia|done].
Qed.

Lemma bytes_le_cons x y a b :
  bytes_le (x :: a) (y :: b) ↔
  (byte_val x < byte_val y)%Z ∨ (x = y ∧ bytes_le a b).
Proof.
  unfold bytes_le; simpl. zltb.
  - split; [done|]. intros [?|[-> _]]; lia.
  - split; auto.
  - assert (x = y) as -> by (apply (inj byte_val); lia). split; [auto|].
    intros [?|[_ ?]]; [lia|done].
Qed.

Lemma bytes_le_nil a : bytes_le [] a.
Proof. by destruct a. Qed.
Lemma bytes_le_nil_r a : bytes_le a [] → a = [].
Proof. by destruct a. Qed.

#[export] Instance bytes_lt_irrefl : Irreflexive bytes_lt.
Proof.
  intros a. induction a as [|x a IH]; [done|].
  intros [?|[_ ?]]%bytes_lt_cons; [lia|done].
Qed.

#[export] Instance bytes_lt_trans : Transitive bytes_lt.
Proof.
  intros a. induction a as [|x a IH]; intros [|y b] [|z c]; try done.
  rewrite !bytes_lt_cons. intros [?|[-> ?]] [?|[-> ?]]; try (left; lia).
  right. eauto.
Qed.

Lemma bytes_lt_total a b : bytes_lt a b ∨ a = b ∨ bytes_lt b a.
Proof.
  revert b. induction a as [|x a IH]; intros [|y b]; [by auto|by left|by right; right|].
  rewrite !bytes_lt_cons. destruct (Z.lt_total (byte_val x) (byte_val y)) as [?|[?%(inj _)|?]]; [by auto| |by auto].
  subst y. destruct (IH b) as [?|[->|?]]; auto.
Qed.

Lemma bytes_le_lt_or_eq a b : bytes_le a b ↔ bytes_lt a b ∨ a = b.
Proof.
  unfold bytes_le. split.
  - intros H. destruct (bytes_lt_total a b) as [?|[?|Hlt]]; auto. unfold bytes_lt in Hlt. congruence.
  - intros H. destruct (bytes_ltb b a) eqn:Hba; [|done]. exfalso.
    destruct H as [H| ->]; [apply (irreflexivity bytes_lt a); by trans b|].
    by apply (irreflexivity bytes_lt b).
Qed.

Lemma bytes_not_le a b : ¬ bytes_le a b ↔ bytes_lt b a.
Proof. unfold bytes_le, bytes_lt. destruct (bytes_ltb b a); naive_solver. Qed.

Lemma bytes_lt_le a b : bytes_lt a b → bytes_le a b.
Proof. rewrite bytes_le_lt_or_eq. auto. Qed.

Lemma bytes_le_lt_trans a b c : bytes_le a b → bytes_lt b c → bytes_lt a c.
Proof. rewrite bytes_le_lt_or_eq. intros [?| ->]; [by trans b|done]. Qed.
Lemma bytes_lt_le_trans a b c : bytes_lt a b → bytes_le b c → bytes_lt a c.
Proof. rewrite bytes_le_lt_or_eq. intros ? [?|<-]; [by trans b|done]. Qed.

Lemma bytes_lt_app p a b : bytes_lt (p ++ a) (p ++ b) ↔ bytes_lt a b.
Proof.
  induction p as [|x p IH]; [done|]. simpl. rewrite bytes_lt_cons, IH.
  split; [intros [Hl|[_ Hl]]; [lia|done]|auto].
Qed.
Lemma bytes_le_app p a b : bytes_le (p ++ a) (p ++ b) ↔ bytes_le a b.
Proof. rewrite !bytes_le_lt_or_eq, bytes_lt_app. by rewrite (inj_iff (app p)). Qed.

(** A string between [q ++ x] and [q ++ y] starts with [q]. *)
Lemma bytes_between_app q x y k :
  bytes_le (q ++ x) k → bytes_lt k (q ++ y) →
  ∃ k', k = q ++ k' ∧ bytes_le x k' ∧ bytes_lt k' y.
Proof.
  revert k. induction q as [|c q IH]; intros k; simpl; [by eauto|].
  destruct k as [|d k]; [by intros H%bytes_le_nil_r|].
  rewrite bytes_le_cons, bytes_lt_cons.
  intros [?|[<- Hle]] [?|[Heq Hlt]]; subst; try lia.
  destruct (IH k Hle Hlt) as (k' & -> & ? & ?). by exists k'.
Qed.

(** ** Big-endian integers ([encoding/binary.BigEndian]) *)

(** [AppendUint32] / [AppendUint64]: [byte(v>>8*(n-1)), ..., byte(v)]. *)
Fixpoint be_bytes (n : nat) (v : Z) : bytes :=
  match n with
  | O => []
  | S n' => to_byte (Z.shiftr v (8 * Z.of_nat n')) :: be_bytes n' v
  end.

(** [Uint32] / [Uint64]: [b\[n-1\] | b\[n-2\]<<8 | ... | b\[0\]<<8*(n-1)]. *)
Fixpoint be_value (bs : bytes) : Z :=
  match bs with
  | [] => 0
  | b :: bs' => Z.lor (be_value bs') (Z.shiftl (byte_val b) (8 * Z.of_nat (length bs')))
  end.

Lemma length_be_bytes n v : length (be_bytes n v) = n.
Proof. induction n; simpl; auto. Qed.

Lemma lor_shiftl_add lo hi k :
  (0 ≤ k)%Z → (0 ≤ lo < 2 ^ k)%Z → Z.lor lo (Z.shiftl hi k) = (lo + hi * 2 ^ k)%Z.
Proof.
  intros Hk Hlo. rewrite <-Z.shiftl_mul_pow2, <-Z.add_lor_land by done.
  enough (Z.land lo (Z.shiftl hi k) = 0%Z) by lia.
  apply Z.bits_inj'. intros i Hi. rewrite Z.land_spec, Z.shiftl_spec, Z.bits_0 by done.
  destruct (Z.lt_ge_cases i k).
  - by rewrite (Z.testbit_neg_r hi), andb_false_r by lia.
  - destruct (decide (lo = 0%Z)) as [->|]; [by rewrite Z.bits_0|].
    rewrite Z.bits_above_log2; [done|lia|].
    apply Z.lt_le_trans with k; [|done]. apply Z.log2_lt_pow2; lia.
Qed.

Lemma pow256 n : (256 ^ Z.of_nat n = 2 ^ (8 * Z.of_nat n))%Z.
Proof. rewrite Z.pow_mul_r by lia. done. Qed.

Lemma be_value_app_bound bs : (0 ≤ be_value bs < 256 ^ Z.of_nat (length bs))%Z.
Proof.
  induction bs as [|b bs IH]; [done|]. simpl length. cbn [be_value].
  pose proof (byte_val_range b). rewrite pow256 in *.
  rewrite lor_shiftl_add by lia.
  replace (8 * Z.of_nat (S (length bs)))%Z with (8 + 8 * Z.of_nat (length bs))%Z by lia.
  rewrite Z.pow_add_r by lia. nia.
Qed.

Lemma be_value_cons b bs :
  be_value (b :: bs) = (byte_val b * 256 ^ Z.of_nat (length bs) + be_value bs)%Z.
Proof.
  cbn [be_value]. pose proof (be_value_app_bound bs) as Hb. rewrite pow256 in *.
  rewrite lor_shiftl_add by lia. lia.
Qed.

Arguments be_value : simpl never.

Lemma be_value_bytes n v : be_value (be_bytes n v) = (v `mod` 256 ^ Z.of_nat n)%Z.
Proof.
  induction n as [|n IH]; [by rewrite Z.mod_1_r|]. cbn [be_bytes].
  rewrite be_value_cons, IH, length_be_bytes, byte_val_to_byte, Z.shiftr_div_pow2, <-pow256 by lia.
  rewrite Nat2Z.inj_succ, Z.pow_succ_r by lia.
  rewrite (Z.mul_comm 256 (256 ^ Z.of_nat n)), Z.rem_mul_r by lia. lia.
Qed.

Lemma be_bytes_inj n v w :
  (0 ≤ v < 256 ^ Z.of_nat n)%Z → (0 ≤ w < 256 ^ Z.of_nat n)%Z → be_bytes n v = be_bytes n w → v = w.
Proof.
  intros Hv Hw H. apply (f_equal be_value) in H. rewrite !be_value_bytes in H.
  by rewrite !Z.mod_small in H.
Qed.

(** Every byte string is the encoding of its value. *)
Lemma be_bytes_value bs n : length bs = n → be_bytes n (be_value bs) = bs.
Proof.
  intros <-. assert (∀ k, be_bytes (length bs) (be_value bs + k * 256 ^ Z.of_nat (length bs)) = bs) as H.
  { induction bs as [|b bs IH]; intros k; [done|]. cbn [length be_bytes].
    rewrite be_value_cons, Nat2Z.inj_succ, Z.pow_succ_r, Z.shiftr_div_pow2, <-pow256 by lia.
    pose proof (be_value_app_bound bs) as Hb.
    assert (0 < 256 ^ Z.of_nat (length bs))%Z by (apply Z.pow_pos_nonneg; lia). f_equal.
    - apply (inj byte_val). rewrite byte_val_to_byte.
      replace (byte_val b * 256 ^ Z.of_nat (length bs) + be_value bs +
        k * (256 * 256 ^ Z.of_nat (length bs)))%Z
        with (be_value bs + (byte_val b + k * 256) * 256 ^ Z.of_nat (length bs))%Z by lia.
      rewrite Z.div_add, Z.div_small, Z.add_0_l, Z.mod_add by lia.
      apply Z.mod_small, byte_val_range.
    - etrans; [|apply (IH (byte_val b + k * 256)%Z)]. f_equal. lia. }
  etrans; [|apply (H 0%Z)]. f_equal. lia.
Qed.

(** Big-endian encodings of equal width compare like the numbers. *)
Lemma bytes_lt_be_value a b :
  length a = length b → bytes_lt a b ↔ (be_value a < be_value b)%Z.
Proof.
  revert b. induction a as [|x a IH]; intros [|y b] Hlen; simplify_eq/=; [done|].
  rewrite bytes_lt_cons, IH, !be_value_cons by done. rewrite Hlen.
  pose proof (be_value_app_bound a) as Ha. pose proof (be_value_app_bound b) as Hb.
  rewrite Hlen in Ha. set (M := (256 ^ Z.of_nat (length b))%Z) in *. split.
  - intros [?|[-> ?]]; nia.
  - intros Hlt. destruct (Z.lt_total (byte_val x) (byte_val y)) as [?|[?%(inj _)|?]]; [by left| |nia].
    right. subst. split; [done|lia].
Qed.

Lemma bytes_lt_be_bytes n v w :
  (0 ≤ v < 256 ^ Z.of_nat n)%Z → (0 ≤ w < 256 ^ Z.of_nat n)%Z →
  bytes_lt (be_bytes n v) (be_bytes n w) ↔ (v < w)%Z.
Proof.
  intros Hv Hw. rewrite bytes_lt_be_value by by rewrite !length_be_bytes.
  by rewrite !be_value_bytes, !Z.mod_small.
Qed.

(** ** The key layout *)
Definition pebbleEventKeyPrefix : ascii := "e"%char.
Definition pebbleOffsetKeyPrefix : ascii := "o"%char.

(** prefix byte, the length of the topic in four bytes, the topic. *)
Definition pebbleTopicPrefix (prefix : ascii) (topic : string) : bytes :=
  prefix :: be_bytes 4 (wrapU32 (len_string topic)) ++ bytes_of_string topic.

Definition pebbleEventTopicPrefix (topic : string) : bytes :=
  pebbleTopicPrefix pebbleEventKeyPrefix topic.

Definition pebbleOffsetKey (topic : string) : bytes :=
  pebbleTopicPrefix pebbleOffsetKeyPrefix topic.

Definition pebbleEventKey (topic : string) (offset : Z) : bytes :=
  pebbleEventTopicPrefix topic ++ be_bytes 8 offset.

(** [for i := len(upper)-1; i >= 0; i--]: the last byte that is not 0xff is
    incremented and everything after it cut; nil when there is none. *)
Fixpoint upper_bound_loop (upper : bytes) (i : nat) : option bytes :=
  match i with
  | O => None
  | S i' =>
    match upper !! i' with
    | Some b =>
        if bool_decide (byte_val b ≠ 255%Z)
        then Some (take (S i') (<[i' := to_byte (byte_val b + 1)]> upper))
        else upper_bound_loop upper i'
    | None => None
    end
  end.

Definition pebblePrefixUpperBound (prefix : bytes) : option bytes :=
  upper_bound_loop prefix (length prefix).

Definition encodePebbleOffset (offset : Z) : bytes := be_bytes 8 offset.
Definition decodePebbleOffset (encoded : bytes) : Z := be_value encoded.

Definition decodePebbleOffsetTopicKey (key : bytes) : option string :=
  if bool_decide (length key < 5) then None
  else if bool_decide (head key ≠ Some pebbleOffsetKeyPrefix) then None
  else
    let topicLen := be_value (take 4 (drop 1 key)) in
    if bool_decide (Z.of_nat (length key) ≠ 5 + topicLen)%Z then None
    else Some (string_of_bytes (drop 5 key)).

(** A topic whose length fits the four-byte field. *)
Definition topic_fits (topic : string) : Prop := (len_string topic < 2 ^ 32)%Z.
Definition is_uint64 (z : Z) : Prop := (0 ≤ z < 2 ^ 64)%Z.

#[export] Instance topic_fits_dec topic : Decision (topic_fits topic).
Proof. unfold topic_fits. apply _. Defined.

(** ** The upper bound of a prefix *)

(** Every byte string is [q ++ b :: 0xff..0xff] with [b] not 0xff, or all 0xff. *)
Lemma bytes_split_ff (p : bytes) :
  (∃ n, p = replicate n (to_byte 255)) ∨
  (∃ q b n, p = q ++ b :: replicate n (to_byte 255) ∧ byte_val b ≠ 255%Z).
Proof.
  induction p as [|c p [(n & ->)|(q & b & n & -> & Hb)]].
  - left. by exists 0.
  - destruct (decide (byte_val c = 255%Z)) as [Hc|Hc].
    + left. exists (S n). simpl. f_equal. by rewrite <-(to_byte_byte_val c), Hc.
    + right. by exists [], c, n.
  - right. by exists (c :: q), b, n.
Qed.

Lemma upper_bound_loop_ff q n :
  upper_bound_loop (q ++ replicate n (to_byte 255)) (length q + n) =
  upper_bound_loop (q ++ replicate n (to_byte 255)) (length q).
Proof.
  assert (∀ m, m ≤ n → upper_bound_loop (q ++ replicate n (to_byte 255)) (length q + m) =
                       upper_bound_loop (q ++ replicate n (to_byte 255)) (length q)) as H; [|by apply H].
  induction m as [|m IH]; intros Hm; [by rewrite Nat.add_0_r|].
  rewrite Nat.add_succ_r. cbn [upper_bound_loop].
  rewrite lookup_app_r, lookup_replicate_2 by lia.
  rewrite byte_val_to_byte. simpl. apply IH. lia.
Qed.

Lemma pebblePrefixUpperBound_ff n : pebblePrefixUpperBound (replicate n (to_byte 255)) = None.
Proof.
  unfold pebblePrefixUpperBound. rewrite length_replicate.
  apply (upper_bound_loop_ff [] n).
Qed.

Lemma pebblePrefixUpperBound_app q b n :
  byte_val b ≠ 255%Z →
  pebblePrefixUpperBound (q ++ b :: replicate n (to_byte 255)) = Some (q ++ [to_byte (byte_val b + 1)]).
Proof.
  intros Hb. unfold pebblePrefixUpperBound.
  replace (q ++ b :: replicate n (to_byte 255)) with ((q ++ [b]) ++ replicate n (to_byte 255))
    by by rewrite <-app_assoc.
  rewrite length_app, length_replicate, upper_bound_loop_ff, length_app, Nat.add_1_r.
  cbn [upper_bound_loop]. rewrite <-app_assoc. simpl.
  rewrite lookup_app_r, Nat.sub_diag by done. simpl. rewrite bool_decide_eq_true_2 by done.
  f_equal. rewrite insert_app_r_alt, Nat.sub_diag by done. simpl.
  replace (S (length q)) with (length (q ++ [to_byte (byte_val b + 1)]))
    by (rewrite length_app; simpl; lia).
  change (q ++ to_byte (byte_val b + 1) :: replicate n (to_byte 255))
    with (q ++ [to_byte (byte_val b + 1)] ++ replicate n (to_byte 255)).
  by rewrite app_assoc, take_app_length.
Qed.

Lemma le_ff_prefix n k : bytes_le (replicate n (to_byte 255)) k → replicate n (to_byte 255) `prefix_of` k.
Proof.
  revert k. induction n as [|n IH]; intros k; simpl; [intros; apply prefix_nil|].
  destruct k as [|c k]; [by intros ?%bytes_le_nil_r|].
  intros [H|[<- H]]%bytes_le_cons.
  - rewrite byte_val_to_byte in H. pose proof (byte_val_range c). rewrite Z.mod_small in H by lia. lia.
  - by apply prefix_cons, IH.
Qed.

(** The keys with a given prefix are exactly the keys from the prefix up to the
    computed bound. *)
Lemma prefix_range p k :
  p `prefix_of` k ↔
  bytes_le p k ∧ match pebblePrefixUpperBound p with Some u => bytes_lt k u | None => True end.
Proof.
  destruct (bytes_split_ff p) as [(n & ->)|(q & b & n & -> & Hb)].
  - rewrite pebblePrefixUpperBound_ff. split.
    + intros [k' ->]. split; [|done].
      rewrite <-(app_nil_r (replicate n _)) at 1. apply bytes_le_app, bytes_le_nil.
    + intros [? _]. by apply le_ff_prefix.
  - rewrite pebblePrefixUpperBound_app by done. pose proof (byte_val_range b).
    assert (byte_val (to_byte (byte_val b + 1)) = byte_val b + 1)%Z as Hb1
      by (rewrite byte_val_to_byte; apply Z.mod_small; lia).
    split.
    + intros [k' ->]. rewrite <-!app_assoc. split.
      * apply bytes_le_app. simpl. apply bytes_le_cons. right. split; [done|].
        rewrite <-(app_nil_r (replicate n _)) at 1. apply bytes_le_app, bytes_le_nil.
      * apply bytes_lt_app. simpl. apply bytes_lt_cons. left. lia.
    + intros [Hle Hlt]. destruct (bytes_between_app _ _ _ _ Hle Hlt) as (k' & -> & Hle' & Hlt').
      apply prefix_app. destruct k' as [|c k']; [by apply bytes_le_nil_r in Hle'|].
      apply bytes_lt_cons in Hlt' as [Hc|[_ Hc]]; [|by destruct k'].
      apply bytes_le_cons in Hle' as [?|[<- Hle']]; [lia|].
      by apply prefix_cons, le_ff_prefix.
Qed.

(** ** Keys determine what they encode *)

Lemma length_bytes_of_string s : Z.of_nat (length (bytes_of_string s)) = len_string s.
Proof. unfold len_string. induction s; simpl in *; lia. Qed.

Lemma len_string_nonneg s : (0 ≤ len_string s)%Z.
Proof. unfold len_string. lia. Qed.

Lemma pebbleTopicPrefix_app_inj x y t1 t2 s1 s2 :
  topic_fits t1 → topic_fits t2 →
  pebbleTopicPrefix x t1 ++ s1 = pebbleTopicPrefix y t2 ++ s2 → x = y ∧ t1 = t2 ∧ s1 = s2.
Proof.
  unfold topic_fits, pebbleTopicPrefix. intros Hf1 Hf2 H. pose proof (len_string_nonneg t1).
  pose proof (len_string_nonneg t2). rewrite <-!app_comm_cons in H.
  pose proof (f_equal head H) as Hx. cbn [head] in Hx. apply (f_equal tail) in H. cbn [tail] in H.
  injection Hx as ->.
  rewrite <-!app_assoc in H. apply app_inj_1 in H as [Hlen H]; [|by rewrite !length_be_bytes].
  rewrite !wrapU32_id in Hlen by lia.
  apply be_bytes_inj in Hlen; [|simpl; lia..].
  apply app_inj_1 in H as [H ->].
  - by apply (inj bytes_of_string) in H.
  - apply (inj Z.of_nat). by rewrite !length_bytes_of_string.
Qed.

Lemma pebbleOffsetKey_inj t1 t2 :
  topic_fits t1 → topic_fits t2 → pebbleOffsetKey t1 = pebbleOffsetKey t2 → t1 = t2.
Proof.
  intros ?? H. unfold pebbleOffsetKey in H.
  destruct (pebbleTopicPrefix_app_inj pebbleOffsetKeyPrefix pebbleOffsetKeyPrefix t1 t2 [] []) as (_&?&_); [done..| |done].
  by rewrite !app_nil_r.
Qed.

Lemma pebbleEventKey_inj t1 t2 o1 o2 :
  topic_fits t1 → topic_fits t2 → is_uint64 o1 → is_uint64 o2 →
  pebbleEventKey t1 o1 = pebbleEventKey t2 o2 → t1 = t2 ∧ o1 = o2.
Proof.
  intros ?? Ho1 Ho2 H. apply pebbleTopicPrefix_app_inj in H as (_ & -> & H); [|done..].
  split; [done|]. by apply be_bytes_inj in H.
Qed.

Lemma pebbleEventKey_not_offset t1 o t2 : pebbleEventKey t1 o ≠ pebbleOffsetKey t2.
Proof. done. Qed.

Lemma pebbleEventKey_lt t o1 o2 :
  is_uint64 o1 → is_uint64 o2 →
  bytes_lt (pebbleEventKey t o1) (pebbleEventKey t o2) ↔ (o1 < o2)%Z.
Proof.
  intros Ho1 Ho2. unfold pebbleEventKey. rewrite bytes_lt_app. by apply bytes_lt_be_bytes.
Qed.

Lemma pebbleEventKey_le t o1 o2 :
  is_uint64 o1 → is_uint64 o2 →
  bytes_le (pebbleEventKey t o1) (pebbleEventKey t o2) ↔ (o1 ≤ o2)%Z.
Proof.
  intros Ho1 Ho2. destruct (decide (o1 ≤ o2)%Z) as [|Hn]; split; try done; intros Hle.
  - apply bytes_le_lt_or_eq. destruct (decide (o1 = o2)) as [->|]; [by right|].
    left. apply pebbleEventKey_lt; [done..|lia].
  - exfalso. assert (bytes_lt (pebbleEventKey t o2) (pebbleEventKey t o1)) as Hlt
      by (apply pebbleEventKey_lt; [done..|lia]).
    apply (irreflexivity bytes_lt (pebbleEventKey t o1)). by eapply bytes_le_lt_trans.
Qed.

Lemma decode_encode_offset o : is_uint64 o → decodePebbleOffset (encodePebbleOffset o) = o.
Proof.
  intros Ho. unfold decodePebbleOffset, encodePebbleOffset.
  rewrite be_value_bytes. by apply Z.mod_small.
Qed.

Lemma length_encodePebbleOffset o : length (encodePebbleOffset o) = 8.
Proof. apply length_be_bytes. Qed.

Lemma decodePebbleOffsetTopicKey_key t :
  topic_fits t → decodePebbleOffsetTopicKey (pebbleOffsetKey t) = Some t.
Proof.
  intros Hf. pose proof (len_string_nonneg t). unfold topic_fits in Hf.
  unfold decodePebbleOffsetTopicKey, pebbleOffsetKey, pebbleTopicPrefix.
  rewrite wrapU32_id by lia.
  rewrite bool_decide_eq_false_2 by (simpl; lia).
  rewrite bool_decide_eq_false_2 by (simpl; tauto).
  change (drop 1 (pebbleOffsetKeyPrefix :: ?l)) with l.
  cbn [drop].
  rewrite take_app_length' by by rewrite length_be_bytes.
  rewrite be_value_bytes, Z.mod_small by (simpl; lia).
  rewrite bool_decide_eq_false_2.
  - f_equal. change (drop 5 (pebbleOffsetKeyPrefix :: ?l)) with (drop 4 l).
    rewrite drop_app_length' by by rewrite length_be_bytes.
    apply string_of_bytes_of_string.
  - cbn [length]. rewrite length_app, length_be_bytes.
    pose proof (length_bytes_of_string t). lia.
Qed.

(** The decoder of offset keys accepts exactly the keys the log writes: it
    returns [topic] on a byte string if and only if the string is the offset key
    of [topic] and the length of [topic] fits the four-byte length field. *)
Theorem decodePebbleOffsetTopicKey_spec (key : bytes) (topic : string) :
  decodePebbleOffsetTopicKey key = Some topic ↔ topic_fits topic ∧ key = pebbleOffsetKey topic.
Proof.
  split; [|intros [? ->]; by apply decodePebbleOffsetTopicKey_key].
  unfold decodePebbleOffsetTopicKey. case_bool_decide as Hlen; [done|].
  case_bool_decide as Hhead; [done|]. case_bool_decide as Htl; [done|].
  intros [= <-].
  destruct key as [|x key]; [done|]. injection Hhead as ->.
  change (drop 1 (?x :: ?l)) with l in *. cbn [drop] in *. change (drop 5 (?x :: ?l)) with (drop 4 l).
  assert (length (take 4 key) = 4) as H4 by (rewrite length_take; simpl in Hlen; lia).
  pose proof (be_value_app_bound (take 4 key)) as Hb. rewrite H4 in Hb.
  assert (len_string (string_of_bytes (drop 4 key)) = be_value (take 4 key)) as Htopic.
  { rewrite <-length_bytes_of_string, bytes_of_string_of_bytes, length_drop. simpl length in *. lia. }
  unfold topic_fits. split; [rewrite Htopic; lia|].
  unfold pebbleOffsetKey, pebbleTopicPrefix. rewrite Htopic, wrapU32_id by lia.
  rewrite be_bytes_value, bytes_of_string_of_bytes by done. by rewrite take_drop.
Qed.
