(* ===== verification/PebbleStorage.v ===== *)
(** * The stored form of an event ([internal/eventlog/pebble_storage.go])

    The [StoredEvent] message the durable log writes, the conversions to and
    from [Event], and the round trip.  The protobuf runtime
    ([google.golang.org/protobuf]) is a parameter: [ProtoCodec] gives the two
    functions used and [ProtoCodecLaws] its documented behaviour, that
    unmarshalling what [Marshal] produced gives the message back. *)
From S2P Require Import Prelude EventLog PebbleKeys.

(** The fields of [eventmesh.eventlog.storage.v1.StoredEvent]. *)
Record StoredEvent := mkStoredEvent {
  se_topic : string;
  se_offset : Z;
  se_payload : bytes;
  se_headers : list (string * string);
  se_timestamp_nano : Z
}.

(** [proto.Marshal] fails on strings that are not valid UTF-8; [None]. *)
Class ProtoCodec := {
  proto_Marshal : StoredEvent → outcome bytes;
  proto_Unmarshal : bytes → outcome StoredEvent
}.

Class ProtoCodecLaws `{ProtoCodec} := {
  proto_roundtrip m b : proto_Marshal m = Ok b → proto_Unmarshal b = Ok m
}.

(** [sort.Strings]: byte-wise lexicographic order. *)
Definition string_le (s1 s2 : string) : Prop := bytes_le (bytes_of_string s1) (bytes_of_string s2).

#[export] Instance string_le_dec s1 s2 : Decision (string_le s1 s2).
Proof. unfold string_le. apply _. Defined.
#[export] Instance string_le_total : Total string_le.
Proof.
  intros s1 s2. unfold string_le.
  destruct (bytes_lt_total (bytes_of_string s1) (bytes_of_string s2)) as [?|[->|?]];
    rewrite !bytes_le_lt_or_eq; auto.
Qed.
#[export] Instance string_le_trans : Transitive string_le.
Proof.
  intros s1 s2 s3. unfold string_le. rewrite !bytes_le_lt_or_eq.
  intros [?| ->]; [|done]. intros [?|<-]; left; [by trans (bytes_of_string s2)|done].
Qed.
#[export] Instance string_le_antisym : AntiSymm (=) string_le.
Proof.
  intros s1 s2. unfold string_le. rewrite !bytes_le_lt_or_eq.
  intros [?|?%(inj _)]; [|done]. intros [?|?%(inj _)]; [|done].
  exfalso. apply (irreflexivity bytes_lt (bytes_of_string s1)). by trans (bytes_of_string s2).
Qed.

Definition sort_Strings (l : list string) : list string := merge_sort string_le l.

Lemma sort_Strings_perm l : sort_Strings l ≡ₚ l.
Proof. apply merge_sort_Permutation. Qed.

Lemma sort_Strings_sorted l : StronglySorted string_le (sort_Strings l).
Proof. by apply StronglySorted_merge_sort; apply _. Qed.

(** Sorting forgets the order it was given. *)
Lemma sort_Strings_unique l1 l2 : l1 ≡ₚ l2 → sort_Strings l1 = sort_Strings l2.
Proof.
  intros Hl. apply (StronglySorted_unique string_le).
  - apply sort_Strings_sorted.
  - apply sort_Strings_sorted.
  - by rewrite !sort_Strings_perm.
Qed.

(** [append(\[\]byte(nil), b...)]: nil when [b] is empty. *)
Definition append_nil (b : bytes) : option bytes :=
  match b with [] => None | _ => Some b end.

Lemma contents_append_nil b : contents (append_nil b) = b.
Proof. by destruct b. Qed.

Section Storage.
Context `{!MapOrder, !ProtoCodec}.

(** The header list of the message: the keys of the map, sorted, each with
    its value. *)
Definition stored_headers (headers : gmap string string) : list (string * string) :=
  let headerKeys := sort_Strings (range_map headers).*1 in
  (λ key, (key, default ""%string (headers !! key))) <$> headerKeys.

Definition marshalPebbleStoredEvent (event : Event) : outcome bytes :=
  proto_Marshal
    {| se_topic := Topic event;
       se_offset := Offset event;
       se_payload := contents (append_nil (contents (Payload event)));
       se_headers := stored_headers (Headers event);
       se_timestamp_nano := wrap64 (Timestamp event) |}.

(** [for i ... { headers\[key\] = value }] on an empty map. *)
Definition load_headers (hs : list (string * string)) : gmap string string :=
  foldl (λ m '(k, v), <[k := v]> m) ∅ hs.

Definition unmarshalPebbleStoredEvent (encoded : bytes) : outcome Event :=
  match proto_Unmarshal encoded with
  | Ok message =>
    Ok {| Topic := se_topic message;
          Offset := se_offset message;
          Payload := append_nil (se_payload message);
          Headers := load_headers (se_headers message);
          Timestamp := se_timestamp_nano message |}
  | Err e => Err e
  | Panic m => Panic m
  end.

(** ** Round trip *)
Lemma load_headers_foldl hs m :
  NoDup hs.*1 → (∀ k, k ∈ hs.*1 → m !! k = None) →
  foldl (λ (m : gmap string string) '(k, v), <[k := v]> m) m hs = m ∪ list_to_map hs.
Proof.
  revert m. induction hs as [|[k v] hs IH]; intros m Hnd Hfresh; simpl in *.
  { by rewrite map_union_empty. }
  apply NoDup_cons in Hnd as [Hk Hnd]. rewrite IH; [|done|].
  - rewrite <-insert_union_l, <-insert_union_r; [done|]. by apply Hfresh, elem_of_cons; left.
  - intros k' Hin. rewrite lookup_insert_ne by (by intros ->).
    by apply Hfresh, elem_of_cons; right.
Qed.

Lemma stored_headers_keys headers : (stored_headers headers).*1 = sort_Strings (range_map headers).*1.
Proof. unfold stored_headers. rewrite <-list_fmap_compose. apply list_fmap_id. Qed.

Lemma stored_headers_NoDup headers : NoDup (stored_headers headers).*1.
Proof. rewrite stored_headers_keys, sort_Strings_perm. apply NoDup_range_map_keys. Qed.

Lemma load_stored_headers headers : load_headers (stored_headers headers) = headers.
Proof.
  unfold load_headers.
  rewrite load_headers_foldl by (apply stored_headers_NoDup || (intros; apply lookup_empty)).
  rewrite map_empty_union. apply map_eq. intros k. apply option_eq. intros v.
  rewrite <-elem_of_list_to_map by apply stored_headers_NoDup.
  unfold stored_headers. rewrite list_elem_of_fmap. split.
  - intros (k' & [= -> ->] & Hk). rewrite sort_Strings_perm in Hk.
    apply list_elem_of_fmap in Hk as ([k'' v] & -> & Hk). simpl.
    apply elem_of_range_map in Hk. by rewrite Hk.
  - intros Hk. exists k. rewrite Hk. split; [done|]. rewrite sort_Strings_perm.
    apply list_elem_of_fmap. exists (k, v). by rewrite elem_of_range_map.
Qed.
End Storage.

(** The encoding does not depend on the order in which the headers are visited. *)
Lemma stored_headers_order (o1 o2 : MapOrder) headers :
  @stored_headers o1 headers = @stored_headers o2 headers.
Proof.
  unfold stored_headers. f_equal. apply sort_Strings_unique.
  by rewrite (@range_map_perm o1), (@range_map_perm o2).
Qed.

Lemma unmarshal_marshal `{!MapOrder, !ProtoCodec, !ProtoCodecLaws} (event : Event) (encoded : bytes) :
  is_int64 (Timestamp event) → marshalPebbleStoredEvent event = Ok encoded →
  unmarshalPebbleStoredEvent encoded =
    Ok {| Offset := Offset event; Topic := Topic event;
          Payload := append_nil (contents (Payload event));
          Timestamp := Timestamp event; Headers := Headers event |}.
Proof.
  intros Hts Henc. unfold unmarshalPebbleStoredEvent. rewrite (proto_roundtrip _ _ Henc); simpl.
  by rewrite wrap64_id, load_stored_headers, contents_append_nil.
Qed.

(** Up to the nil/empty distinction, what is stored is what is read. *)
Lemma stored_event_decodes `{!MapOrder, !ProtoCodec, !ProtoCodecLaws} (event : Event) (encoded : bytes) :
  is_int64 (Timestamp event) → marshalPebbleStoredEvent event = Ok encoded →
  ∃ event', unmarshalPebbleStoredEvent encoded = Ok event' ∧ event' ≡ event.
Proof.
  intros Hts Henc. rewrite (unmarshal_marshal _ _ Hts Henc).
  eexists; split; [done|]. repeat split. simpl. apply contents_append_nil.
Qed.

(** C33: what the durable log stores reads back.  If an event whose timestamp
    fits [UnixNano] is marshalled, unmarshalling gives an event with the same
    offset, topic, payload bytes, timestamp and headers; the only thing lost is
    whether an empty payload was nil (it comes back nil).  The bytes written do
    not depend on the iteration order of the header map. *)
Theorem stored_event_roundtrip `{HO : !MapOrder, !ProtoCodec, !ProtoCodecLaws}
    (event : Event) (encoded : bytes)
    (Hts : is_int64 (Timestamp event))
    (Henc : marshalPebbleStoredEvent event = Ok encoded) :
  unmarshalPebbleStoredEvent encoded =
    Ok {| Offset := Offset event; Topic := Topic event;
          Payload := append_nil (contents (Payload event));
          Timestamp := Timestamp event; Headers := Headers event |} ∧
  (∃ event', unmarshalPebbleStoredEvent encoded = Ok event' ∧ event' ≡ event) ∧
  (∀ o : MapOrder, @marshalPebbleStoredEvent o _ event = Ok encoded).
Proof.
  split_and!; [by apply unmarshal_marshal|by apply stored_event_decodes|].
  intros o. rewrite <-Henc. unfold marshalPebbleStoredEvent.
  by rewrite (stored_headers_order o HO).
Qed.

(** ** A concrete codec, for the witnesses

    Any injective encoding satisfies the laws; this one writes the bits of
    stdpp's encoding of the message's fields. *)
Fixpoint bits_of_pos (p : positive) : bytes :=
  match p with
  | xH => []
  | xO p => "0"%char :: bits_of_pos p
  | xI p => "1"%char :: bits_of_pos p
  end.

Fixpoint pos_of_bits (b : bytes) : positive :=
  match b with
  | [] => xH
  | c :: b => if bool_decide (c = "0"%char) then xO (pos_of_bits b) else xI (pos_of_bits b)
  end.

Lemma pos_of_bits_of_pos p : pos_of_bits (bits_of_pos p) = p.
Proof. induction p; simpl; by f_equal. Qed.

Definition message_fields (m : StoredEvent) : string * Z * bytes * list (string * string) * Z :=
  (se_topic m, se_offset m, se_payload m, se_headers m, se_timestamp_nano m).

Definition bit_codec : ProtoCodec := {|
  proto_Marshal m := Ok (bits_of_pos (encode (message_fields m)));
  proto_Unmarshal b :=
    match decode (pos_of_bits b) : option (string * Z * bytes * list (string * string) * Z) with
    | Some (t, o, p, hs, ts) => Ok (mkStoredEvent t o p hs ts)
    | None => Err (ErrNew "proto: cannot parse invalid wire-format data")
    end
|}.

Lemma bit_codec_laws : @ProtoCodecLaws bit_codec.
Proof.
  constructor. intros [t o p hs ts] b [= <-]. simpl.
  by rewrite pos_of_bits_of_pos, decode_encode.
Qed.

Definition sample_event : Event :=
  {| Offset := 7; Topic := "orders.created"; Payload := Some (bytes_of_string "{}");
     Timestamp := 1700000000000000000; Headers := {["k" := "v"]} |}.

(** The round trip at a concrete event, with the concrete codec. *)
Lemma stored_event_roundtrip_witness :
  ∃ encoded,
    @unmarshalPebbleStoredEvent bit_codec encoded = Ok sample_event ∧ encoded ≠ [].
Proof.
  eexists. split.
  - refine (proj1 (@stored_event_roundtrip map_order_id bit_codec bit_codec_laws sample_event _ _ _)).
    + unfold is_int64. simpl. lia.
    + reflexivity.
  - vm_compute. discriminate.
Defined.
