(* ===== verification/PebbleLog.v ===== *)
(** * The durable event log ([internal/eventlog/pebble.go])

    The Pebble-backed log, operation by operation, over an abstract ordered
    key-value store, and the proof that it implements the contract of
    [EventLog.v].  The store ([github.com/cockroachdb/pebble]) is a parameter:
    [PebbleDB] gives the calls the code makes and [PebbleDBLaws] their
    documented behaviour when no I/O error occurs. *)
From S2P Require Import Prelude EventLog PebbleKeys PebbleStorage.

(** ** The key-value store

    [db_Get] returns [Ok None] for [pebble.ErrNotFound].  [db_NewIter] gives
    the entries between the bounds as the iterator visits them, each with the
    result of [ValueAndErr], and the error [Error()] reports once the iterator
    is exhausted.  [db_Commit] applies a batch of sets atomically. *)
Class PebbleDB (DB : Type) := {
  db_Get : DB → bytes → outcome (option bytes);
  db_Set : DB → bytes → bytes → outcome unit;
  db_Commit : DB → list (bytes * bytes) → outcome DB;
  db_NewIter : DB → bytes → option bytes → outcome (list (bytes * outcome bytes) * option error);
  db_Close : DB → outcome unit
}.

Definition in_bounds (lower : bytes) (upper : option bytes) (k : bytes) : Prop :=
  bytes_le lower k ∧ match upper with Some u => bytes_lt k u | None => True end.

Class PebbleDBLaws (DB : Type) `{!PebbleDB DB} := {
  db_contents : DB → gmap bytes bytes;
  db_Get_law db k : db_Get db k = Ok (db_contents db !! k);
  db_Set_law db k v : db_Set db k v = Ok ();
  db_Commit_law db ws : ∃ db', db_Commit db ws = Ok db' ∧
    db_contents db' = foldl (λ m '(k, v), <[k := v]> m) (db_contents db) ws;
  db_NewIter_law db lower upper : ∃ es : list (bytes * bytes),
    db_NewIter db lower upper = Ok ((λ '(k, v), (k, Ok v)) <$> es, None) ∧
    StronglySorted bytes_lt es.*1 ∧
    ∀ k v, (k, v) ∈ es ↔ db_contents db !! k = Some v ∧ in_bounds lower upper k;
  db_Close_law db : db_Close db = Ok ()
}.

(** [SeekGE(key)]: skip the entries before [key]. *)
Fixpoint iter_SeekGE {A} (key : bytes) (es : list (bytes * A)) : list (bytes * A) :=
  match es with
  | [] => []
  | (k, v) :: rest => if bytes_ltb k key then iter_SeekGE key rest else es
  end.

(** ** State and operations *)
Record PebbleEventLog (DB : Type) := mkPebbleLog { pdb : DB; peb_closed : bool }.
Arguments mkPebbleLog {DB} pdb peb_closed.
Arguments pdb {DB} _.
Arguments peb_closed {DB} _.

Definition ErrOffsetOverflow : error := ErrVar "eventlog.ErrOffsetOverflow" "event log offset exceeds int64 range".

Definition checkPebbleContext (ctx : Ctx) : option error * Ctx := poll ctx.

Definition err_offset_length (n : nat) : error :=
  ErrNew ("invalid offset value length " +:+ pretty (Z.of_nat n)).

Section PebbleLog.
Context {DB : Type} `{!PebbleDB DB, !MapOrder, !ProtoCodec}.
Implicit Types log : PebbleEventLog DB.

(** [pebble.Open] is the parameter [open]. *)
Definition NewPebbleEventLog (open : string → outcome DB) (path : string)
    : outcome (PebbleEventLog DB) :=
  if bool_decide (path = ""%string) then Err (ErrNew "path cannot be empty")
  else match wrap_err "failed to open pebble event log" (open path) with
       | Ok db => Ok (mkPebbleLog db false)
       | Err e => Err e
       | Panic m => Panic m
       end.

Definition getTopicEndOffsetLocked (log : PebbleEventLog DB) (topic : string) : outcome Z :=
  match db_Get (pdb log) (pebbleOffsetKey topic) with
  | Ok None => Ok 0%Z
  | Err e => Err (ErrWrap "failed to read topic end offset" e)
  | Panic m => Panic m
  | Ok (Some value) =>
      if bool_decide (length value ≠ 8) then Err (err_offset_length (length value))
      else Ok (decodePebbleOffset value)
  end.

(** The part of [AppendEvent] after the guards: offset, encoding, batch. *)
Definition append_batch (log : PebbleEventLog DB) (topic : string) (event : Event)
    : outcome (Event * PebbleEventLog DB) :=
  nextOffset ← getTopicEndOffsetLocked log topic;
  if bool_decide (max_int64 < nextOffset)%Z then Err ErrOffsetOverflow
  else
    let eventWithOffset := WithOffset event nextOffset in
    encodedEvent ← wrap_err "failed to encode event" (marshalPebbleStoredEvent eventWithOffset);
    let k1 := pebbleEventKey topic nextOffset in
    let k2 := pebbleOffsetKey topic in
    let v2 := encodePebbleOffset (wrapU64 (nextOffset + 1)) in
    _ ← wrap_err "failed to stage event write" (db_Set (pdb log) k1 encodedEvent);
    _ ← wrap_err "failed to stage offset write" (db_Set (pdb log) k2 v2);
    db' ← wrap_err "failed to commit event append" (db_Commit (pdb log) [(k1, encodedEvent); (k2, v2)]);
    Ok (eventWithOffset, mkPebbleLog db' (peb_closed log)).

Definition peb_AppendEvent (ctx : Ctx) (topic : string) (event : option Event)
    (log : PebbleEventLog DB) : outcome Event * Ctx * PebbleEventLog DB :=
  let '(err, ctx) := checkPebbleContext ctx in
  match err with
  | Some err => (Err err, ctx, log)
  | None =>
    if bool_decide (topic = ""%string) then (Err ErrEmptyTopic, ctx, log)
    else match event with
    | None => (Err ErrNilEvent, ctx, log)
    | Some event =>
      if peb_closed log then (Err err_log_closed, ctx, log)
      else match append_batch log topic event with
           | Ok (e, log') => (Ok e, ctx, log')
           | Err err => (Err err, ctx, log)
           | Panic m => (Panic m, ctx, log)
           end
    end
  end.

Definition newTopicIterator (log : PebbleEventLog DB) (topic : string)
    : outcome (list (bytes * outcome bytes) * option error) :=
  let prefix := pebbleEventTopicPrefix topic in
  db_NewIter (pdb log) prefix (pebblePrefixUpperBound prefix).

Definition eventFromIteratorValue (value : outcome bytes) : outcome Event :=
  value ≫= unmarshalPebbleStoredEvent.

(** The loop of [readEventsLocked] over the entries from the seek position,
    with room for [n] more events; [iter.Error()] is set once the iterator has
    failed to go on, also when there is no more room. *)
Fixpoint read_loop (ctx : Ctx) (es : list (bytes * outcome bytes)) (n : nat)
    (iterErr : option error) : outcome (list Event) * Ctx :=
  match n, es with
  | _, [] => (match iterErr with Some err => Err err | None => Ok [] end, ctx)
  | O, _ => (Ok [], ctx)
  | S n', (_, value) :: rest =>
    let '(err, ctx) := checkPebbleContext ctx in
    match err with
    | Some err => (Err err, ctx)
    | None =>
      match eventFromIteratorValue value with
      | Ok event =>
          let '(r, ctx) := read_loop ctx rest n' iterErr in (cons event <$> r, ctx)
      | Err err => (Err err, ctx)
      | Panic m => (Panic m, ctx)
      end
    end
  end.

Definition readEventsLocked (ctx : Ctx) (log : PebbleEventLog DB) (topic : string)
    (startOffset maxCount : Z) : outcome (list Event) * Ctx :=
  match newTopicIterator log topic with
  | Err err => (Err err, ctx)
  | Panic m => (Panic m, ctx)
  | Ok (es, iterErr) =>
      (* events := make([]*eventlog.Event, 0, maxCount) *)
      if negb (make_slice_ok maxCount) then (Panic "runtime error: makeslice: cap out of range", ctx)
      else read_loop ctx (iter_SeekGE (pebbleEventKey topic startOffset) es)
             (Z.to_nat maxCount) iterErr
  end.

Definition peb_ReadEvents (ctx : Ctx) (topic : string) (startOffset maxCount : Z)
    (log : PebbleEventLog DB) : outcome (list Event) * Ctx :=
  let '(err, ctx) := checkPebbleContext ctx in
  match err with
  | Some err => (Err err, ctx)
  | None =>
    if bool_decide (topic = ""%string) then (Err ErrEmptyTopic, ctx)
    else if bool_decide (startOffset < 0)%Z then (Err ErrNegativeOffset, ctx)
    else if bool_decide (maxCount < 0)%Z then (Err ErrNegativeMaxCount, ctx)
    else if peb_closed log then (Err err_log_closed, ctx)
    else if bool_decide (maxCount = 0)%Z then (Ok [], ctx)
    else readEventsLocked ctx log topic (wrapU64 startOffset) maxCount
  end.

Definition peb_GetTopicEndOffset (ctx : Ctx) (topic : string) (log : PebbleEventLog DB)
    : outcome Z * Ctx :=
  let '(err, ctx) := checkPebbleContext ctx in
  match err with
  | Some err => (Err err, ctx)
  | None =>
    if bool_decide (topic = ""%string) then (Err ErrEmptyTopic, ctx)
    else if peb_closed log then (Err err_log_closed, ctx)
    else (offset ← getTopicEndOffsetLocked log topic;
          if bool_decide (max_int64 < offset)%Z then Err ErrOffsetOverflow else Ok offset, ctx)
  end.

(** The sending loop of [ReplayEvents]: the context is asked before the event
    is decoded and again when it is sent. *)
Fixpoint peb_replay_loop (ctx : Ctx) (es : list (bytes * outcome bytes))
    (iterErr : option error) : (list Event * outcome unit) * Ctx :=
  match es with
  | [] => (([], match iterErr with Some err => Err err | None => Ok () end), ctx)
  | (_, value) :: rest =>
    let '(err, ctx) := checkPebbleContext ctx in
    match err with
    | Some err => (([], Err err), ctx)
    | None =>
      match eventFromIteratorValue value with
      | Err err => (([], Err err), ctx)
      | Panic m => (([], Panic m), ctx)
      | Ok event =>
        let '(err, ctx) := poll ctx in
        match err with
        | Some err => (([], Err err), ctx)
        | None =>
          let '((sent, err), ctx) := peb_replay_loop ctx rest iterErr in
          ((event :: sent, err), ctx)
        end
      end
    end
  end.

Definition peb_ReplayEvents (ctx : Ctx) (topic : string) (startOffset : Z)
    (log : PebbleEventLog DB) : (list Event * outcome unit) * Ctx :=
  let '(err, ctx) := checkPebbleContext ctx in
  match err with
  | Some err => (([], Err err), ctx)
  | None =>
    if bool_decide (topic = ""%string) then (([], Err ErrEmptyTopic), ctx)
    else if bool_decide (startOffset < 0)%Z then (([], Err ErrNegativeOffset), ctx)
    else if peb_closed log then (([], Err err_log_closed), ctx)
    else match newTopicIterator log topic with
    | Err err => (([], Err err), ctx)
    | Panic m => (([], Panic m), ctx)
    | Ok (es, iterErr) =>
        peb_replay_loop ctx (iter_SeekGE (pebbleEventKey topic (wrapU64 startOffset)) es) iterErr
    end
  end.

Definition peb_Compact (ctx : Ctx) (log : PebbleEventLog DB) : outcome unit * Ctx :=
  let '(err, ctx) := checkPebbleContext ctx in
  match err with
  | Some err => (Err err, ctx)
  | None => if peb_closed log then (Err err_log_closed, ctx) else (Ok (), ctx)
  end.

(** The loop of [GetStatistics] over the offset entries. *)
Fixpoint stats_loop (ctx : Ctx) (es : list (bytes * outcome bytes)) (iterErr : option error)
    (acc : Z * gmap string Z) : outcome (Z * gmap string Z) * Ctx :=
  match es with
  | [] => (match iterErr with Some err => Err err | None => Ok acc end, ctx)
  | (key, value) :: rest =>
    let '(err, ctx) := checkPebbleContext ctx in
    match err with
    | Some err => (Err err, ctx)
    | None =>
      match decodePebbleOffsetTopicKey key with
      | None => stats_loop ctx rest iterErr acc
      | Some topic =>
        match value with
        | Err err => (Err err, ctx)
        | Panic m => (Panic m, ctx)
        | Ok value =>
          if bool_decide (length value ≠ 8) then (Err (err_offset_length (length value)), ctx)
          else
            let count := decodePebbleOffset value in
            if bool_decide (max_int64 < count)%Z then (Err ErrOffsetOverflow, ctx)
            else stats_loop ctx rest iterErr (count_step acc (topic, count))
        end
      end
    end
  end.

Definition peb_GetStatistics (ctx : Ctx) (log : PebbleEventLog DB)
    : outcome EventLogStatistics * Ctx :=
  let '(err, ctx) := checkPebbleContext ctx in
  match err with
  | Some err => (Err err, ctx)
  | None =>
    if peb_closed log then (Err err_log_closed, ctx)
    else match db_NewIter (pdb log) [pebbleOffsetKeyPrefix]
                 (Some [to_byte (byte_val pebbleOffsetKeyPrefix + 1)]) with
    | Err err => (Err err, ctx)
    | Panic m => (Panic m, ctx)
    | Ok (es, iterErr) =>
      let '(r, ctx) := stats_loop ctx es iterErr (0%Z, ∅) in
      ((λ '(total, counts), {| TotalEvents := total; TopicCounts := counts;
                               TopicCount := Z.of_nat (size counts) |}) <$> r, ctx)
    end
  end.

(** [Close] marks the log closed before it closes the store, so a failing
    [db.Close] is reported once and not retried. *)
Definition peb_Close (log : PebbleEventLog DB) : outcome unit * PebbleEventLog DB :=
  if peb_closed log then (Ok (), log)
  else (db_Close (pdb log), mkPebbleLog (pdb log) true).

#[export] Instance PebbleEventLog_ops : EventLog (PebbleEventLog DB) := {|
  AppendEvent := peb_AppendEvent;
  ReadEvents := peb_ReadEvents;
  GetTopicEndOffset := peb_GetTopicEndOffset;
  ReplayEvents := peb_ReplayEvents;
  Compact := peb_Compact;
  GetStatistics := peb_GetStatistics;
  CloseLog := peb_Close
|}.
End PebbleLog.
