(* ===== verification/PebbleSpec.v ===== *)
(** * The durable log implements the EventLog contract

    The representation invariant tying the store's contents to the abstract
    log, the contents of a topic's key range, and the instance of
    [EventLogSpec] for [PebbleEventLog]. *)
From S2P Require Import Prelude EventLog PebbleKeys PebbleStorage PebbleLog.

#[local] Set Default Proof Using "Type*".

(** ** Which keys can share a prefix *)

(** A key that begins with the prefix of some topic is a key of that topic, for
    topics of any length: the length field is the topic's length modulo 2^32,
    and what follows the topic in a key is shorter than 2^32. *)
Lemma topic_prefix_extend x y t t' rest s :
  topic_fits t → (Z.of_nat (length rest) < 2 ^ 32)%Z →
  pebbleTopicPrefix x t ++ rest = pebbleTopicPrefix y t' ++ s → x = y ∧ t = t' ∧ rest = s.
Proof.
  unfold topic_fits, pebbleTopicPrefix. intros Hf Hrest H.
  pose proof (len_string_nonneg t). pose proof (len_string_nonneg t').
  rewrite <-!app_comm_cons in H.
  pose proof (f_equal head H) as Hx. cbn [head] in Hx. injection Hx as ->.
  apply (f_equal tail) in H. cbn [tail] in H.
  rewrite <-!app_assoc in H. apply app_inj_1 in H as [Hlen H]; [|by rewrite !length_be_bytes].
  rewrite (wrapU32_id (len_string t)) in Hlen by lia.
  apply be_bytes_inj in Hlen; [|simpl; lia|apply Z.mod_pos_bound; lia].
  assert (len_string t = len_string t') as Heq.
  { pose proof (f_equal length H) as Hl. rewrite !length_app in Hl.
    pose proof (length_bytes_of_string t). pose proof (length_bytes_of_string t').
    unfold wrapU32 in Hlen. pose proof (Z.div_mod (len_string t') (2 ^ 32)).
    nia. }
  apply app_inj_1 in H as [H ->].
  - by apply (inj bytes_of_string) in H.
  - apply (inj Z.of_nat). by rewrite !length_bytes_of_string.
Qed.

Lemma event_prefix_of_event_key t t' o :
  topic_fits t → pebbleEventTopicPrefix t' `prefix_of` pebbleEventKey t o ↔ t = t'.
Proof.
  intros Hf. split; [|intros <-; by eexists].
  intros [s Hs]. apply topic_prefix_extend in Hs as (_ & ? & _); [done|done|].
  rewrite length_be_bytes. lia.
Qed.

Lemma event_prefix_not_offset_key t t' :
  ¬ pebbleEventTopicPrefix t' `prefix_of` pebbleOffsetKey t.
Proof. intros [s Hs]. discriminate. Qed.

Lemma offset_key_eq t t' : topic_fits t → pebbleOffsetKey t = pebbleOffsetKey t' → t = t'.
Proof.
  intros Hf H. unfold pebbleOffsetKey in H.
  rewrite <-(app_nil_r (pebbleTopicPrefix _ t)), <-(app_nil_r (pebbleTopicPrefix _ t')) in H.
  by apply topic_prefix_extend in H as (_ & ? & _).
Qed.

(** The range [newTopicIterator] opens for a topic. *)
Definition topic_range (topic : string) (k : bytes) : Prop :=
  in_bounds (pebbleEventTopicPrefix topic) (pebblePrefixUpperBound (pebbleEventTopicPrefix topic)) k.

(** Topics are isolated in the store and their events are ordered.  The range
    an iterator over a topic is opened on contains an event key exactly when it
    is a key of that topic, and no offset key; within a topic, keys sort as
    offsets do, over the whole unsigned 64-bit range. *)
Theorem topic_range_isolated (topic topic' : string) (o o' : Z)
    (Hf : topic_fits topic') (Ho : is_uint64 o) (Ho' : is_uint64 o') :
  (topic_range topic (pebbleEventKey topic' o) ↔ topic' = topic) ∧
  ¬ topic_range topic (pebbleOffsetKey topic') ∧
  (bytes_lt (pebbleEventKey topic o) (pebbleEventKey topic o') ↔ (o < o')%Z).
Proof.
  unfold topic_range, in_bounds. rewrite <-!prefix_range.
  split_and!; [by apply event_prefix_of_event_key|apply event_prefix_not_offset_key|].
  by apply pebbleEventKey_lt.
Qed.

Lemma topic_range_isolated_witness :
  ¬ topic_range "orders" (pebbleEventKey "orders.created" 3) ∧
  bytes_lt (pebbleEventKey "orders" 255) (pebbleEventKey "orders" 256).
Proof.
  destruct (topic_range_isolated "orders" "orders.created" 3 3) as [Hr _];
    [by vm_compute|unfold is_uint64; lia|unfold is_uint64; lia|].
  destruct (topic_range_isolated "orders" "orders" 255 256) as (_ & _ & Hlt);
    [by vm_compute|unfold is_uint64; lia|unfold is_uint64; lia|].
  split; [by rewrite Hr|by apply Hlt].
Defined.

(** ** Sorted runs of keys *)

(** The keys of the events of a topic from position [j], [n] of them. *)
Definition event_keys (topic : string) (j n : nat) : list bytes :=
  (λ i, pebbleEventKey topic (Z.of_nat i)) <$> seq j n.

Lemma elem_of_event_keys topic n k :
  k ∈ event_keys topic 0 n ↔ ∃ i, i < n ∧ k = pebbleEventKey topic (Z.of_nat i).
Proof.
  unfold event_keys. rewrite list_elem_of_fmap.
  setoid_rewrite elem_of_seq. split; intros (i & ? & ?); exists i; split; (done || lia).
Qed.

Lemma event_keys_sorted topic j n :
  (Z.of_nat (j + n) ≤ 2 ^ 63)%Z → StronglySorted bytes_lt (event_keys topic j n).
Proof.
  unfold event_keys. revert j. induction n as [|n IH]; intros j Hn; [constructor|].
  simpl. constructor; [apply IH; lia|].
  apply Forall_fmap, Forall_forall. intros i Hi%elem_of_seq. simpl.
  apply pebbleEventKey_lt; unfold is_uint64; lia.
Qed.

Lemma bytes_sorted_NoDup l : StronglySorted bytes_lt l → NoDup l.
Proof.
  induction 1 as [|k l Hs IH Hk]; constructor; [|done].
  intros Hin. rewrite Forall_forall in Hk. by apply (irreflexivity bytes_lt k), Hk.
Qed.

(** Two strictly sorted lists with the same elements are equal. *)
Lemma bytes_sorted_unique (l1 l2 : list bytes) :
  StronglySorted bytes_lt l1 → StronglySorted bytes_lt l2 → (∀ k, k ∈ l1 ↔ k ∈ l2) → l1 = l2.
Proof.
  intros H1 H2 Heq. apply (StronglySorted_unique_strong bytes_lt); [|done|done|].
  - intros a b _ _ Hab Hba. exfalso. apply (irreflexivity bytes_lt a). by trans b.
  - apply NoDup_Permutation; auto using bytes_sorted_NoDup.
Qed.

Lemma iter_SeekGE_event_keys {A} topic s j n (es : list (bytes * A)) :
  (Z.of_nat (j + n) ≤ 2 ^ 63)%Z → (0 ≤ s < 2 ^ 63)%Z → es.*1 = event_keys topic j n →
  iter_SeekGE (pebbleEventKey topic s) es = drop (Z.to_nat s - j) es.
Proof.
  intros Hn Hs. revert j n Hn. induction es as [|[k v] es IH]; intros j [|n] Hn Hes; try discriminate;
    [by rewrite drop_nil|].
  injection Hes as -> Hes.
  cbn [iter_SeekGE]. pose proof (pebbleEventKey_lt topic (Z.of_nat j) s) as Hlt.
  unfold bytes_lt, is_uint64 in Hlt. specialize (Hlt ltac:(lia) ltac:(lia)).
  destruct (bytes_ltb _ _).
  - rewrite (IH (S j) n) by (done || lia).
    replace (Z.to_nat s - j) with (S (Z.to_nat s - S j)) by (apply proj1 in Hlt; specialize (Hlt eq_refl); lia).
    done.
  - replace (Z.to_nat s - j) with 0; [done|].
    destruct (decide (Z.of_nat j < s)%Z) as [Hjs|]; [|lia].
    by apply Hlt in Hjs.
Qed.

(** ** Representation invariant *)
Section PebbleSpec.
Context {DB : Type} `{!PebbleDB DB, !PebbleDBLaws DB, !MapOrder, !ProtoCodec, !ProtoCodecLaws}.
Implicit Types (log : PebbleEventLog DB) (a : AbsLog) (es : list (bytes * bytes)).

(** A value that decodes to [e], up to the nil/empty payload distinction. *)
Definition decodes (v : bytes) (e : Event) : Prop :=
  ∃ e', unmarshalPebbleStoredEvent v = Ok e' ∧ e' ≡ e.

(** What the entry [k := v] can be: the end offset of a topic, or an event. *)
Definition stored_as (a : AbsLog) (k v : bytes) : Prop :=
  (∃ topic evs, abs_events a !! topic = Some evs ∧ k = pebbleOffsetKey topic ∧
     v = encodePebbleOffset (abs_end a topic)) ∨
  (∃ topic i e, abs_topic a topic !! i = Some e ∧ k = pebbleEventKey topic (Z.of_nat i) ∧
     decodes v e).

Record peb_rep log a : Prop := {
  peb_rep_wf : abs_wf a;
  peb_rep_closed : peb_closed log = abs_closed a;
  peb_rep_topic topic evs : abs_events a !! topic = Some evs →
    topic_fits topic ∧ (Z.of_nat (length evs) ≤ max_int64)%Z;
  peb_rep_sound k v : db_contents (pdb log) !! k = Some v → stored_as a k v;
  peb_rep_offset topic evs : abs_events a !! topic = Some evs →
    is_Some (db_contents (pdb log) !! pebbleOffsetKey topic);
  peb_rep_event topic i e : abs_topic a topic !! i = Some e →
    is_Some (db_contents (pdb log) !! pebbleEventKey topic (Z.of_nat i))
}.

Lemma peb_rep_new db : db_contents db = ∅ → peb_rep (mkPebbleLog db false) abs_empty.
Proof.
  intros Hdb. split; simpl; try done; try apply abs_wf_empty.
  intros k v. by rewrite Hdb, lookup_empty.
Qed.

Lemma abs_topic_Some a topic i e :
  abs_topic a topic !! i = Some e → ∃ evs, abs_events a !! topic = Some evs ∧ evs !! i = Some e.
Proof. unfold abs_topic. destruct (abs_events a !! topic) eqn:?; naive_solver. Qed.

Lemma peb_rep_end log a topic : peb_rep log a → (0 ≤ abs_end a topic ≤ max_int64)%Z.
Proof.
  intros Hr. unfold abs_end, abs_topic. destruct (abs_events a !! topic) eqn:Ht; [|done].
  apply (peb_rep_topic _ _ Hr) in Ht as [_ ?]. simpl. lia.
Qed.

Lemma peb_rep_index log a topic i e :
  peb_rep log a → abs_topic a topic !! i = Some e → topic_fits topic ∧ is_uint64 (Z.of_nat i).
Proof.
  intros Hr Hi. pose proof (lookup_lt_Some _ _ _ Hi). destruct (abs_topic_Some _ _ _ _ Hi) as (evs & Ht & _).
  apply (peb_rep_topic _ _ Hr) in Ht as [? _]. split; [done|].
  pose proof (peb_rep_end _ _ topic Hr). unfold abs_end, is_uint64, max_int64 in *. lia.
Qed.

(** The offset entry of a topic. *)
Lemma peb_offset_lookup log a topic :
  peb_rep log a →
  db_contents (pdb log) !! pebbleOffsetKey topic =
    match abs_events a !! topic with
    | Some _ => Some (encodePebbleOffset (abs_end a topic))
    | None => None
    end.
Proof.
  intros Hr.
  destruct (db_contents (pdb log) !! pebbleOffsetKey topic) as [v|] eqn:Hv.
  - apply (peb_rep_sound _ _ Hr) in Hv as [(t & evs & Ht & Hk & ->)|(t & i & e & _ & Hk & _)].
    + symmetry in Hk. apply offset_key_eq in Hk as ->; [by rewrite Ht|].
      by apply (peb_rep_topic _ _ Hr) in Ht as [? _].
    + by symmetry in Hk; apply pebbleEventKey_not_offset in Hk.
  - destruct (abs_events a !! topic) eqn:Ht; [|done].
    apply (peb_rep_offset _ _ Hr) in Ht as [??]. congruence.
Qed.

Lemma peb_event_lookup log a topic i v e :
  peb_rep log a → abs_topic a topic !! i = Some e →
  db_contents (pdb log) !! pebbleEventKey topic (Z.of_nat i) = Some v → decodes v e.
Proof.
  intros Hr Hi Hv. pose proof (peb_rep_index _ _ _ _ _ Hr Hi) as [Hf Hu].
  apply (peb_rep_sound _ _ Hr) in Hv as [(t & evs & _ & Hk & _)|(t & i' & e' & Hi' & Hk & Hd)].
  - by apply pebbleEventKey_not_offset in Hk.
  - pose proof (peb_rep_index _ _ _ _ _ Hr Hi') as [Hf' Hu'].
    apply pebbleEventKey_inj in Hk as [<- Hk]; [|done..].
    apply (inj Z.of_nat) in Hk as <-. congruence.
Qed.

(** ** Appending *)
Lemma getTopicEndOffsetLocked_ok log a topic :
  peb_rep log a → getTopicEndOffsetLocked log topic = Ok (abs_end a topic).
Proof.
  intros Hr. unfold getTopicEndOffsetLocked. rewrite db_Get_law, (peb_offset_lookup _ _ _ Hr).
  destruct (abs_events a !! topic) as [evs|] eqn:Ht.
  - rewrite length_encodePebbleOffset, bool_decide_eq_false_2 by lia.
    rewrite decode_encode_offset; [done|].
    pose proof (peb_rep_end _ _ topic Hr). unfold is_uint64, max_int64 in *. lia.
  - unfold abs_end, abs_topic. by rewrite Ht.
Qed.

Lemma stored_as_push a topic e k v :
  topic_fits topic → k ≠ pebbleOffsetKey topic → stored_as a k v → stored_as (abs_push a topic e) k v.
Proof.
  intros Hf Hk [(t & evs & Ht & -> & ->)|(t & i & e' & Hi & -> & Hd)].
  - left. exists t, evs. assert (topic ≠ t) by (by intros ->).
    rewrite abs_end_push_ne by done. simpl. by rewrite lookup_insert_ne.
  - right. exists t, i, e'. split; [|done]. rewrite abs_topic_push. case_decide; [|done].
    subst. by apply lookup_app_l_Some.
Qed.

Lemma peb_rep_push log a topic e db v :
  peb_rep log a → topic_fits topic → (abs_end a topic < max_int64)%Z →
  decodes v (WithOffset e (abs_end a topic)) →
  db_contents db =
    <[pebbleOffsetKey topic := encodePebbleOffset (abs_end a topic + 1)]>
      (<[pebbleEventKey topic (abs_end a topic) := v]> (db_contents (pdb log))) →
  peb_rep (mkPebbleLog db (peb_closed log)) (abs_push a topic e).
Proof.
  intros Hr Hf Hend Hd Hdb. split; simpl; try rewrite Hdb.
  - apply abs_wf_push, (peb_rep_wf _ _ Hr).
  - apply (peb_rep_closed _ _ Hr).
  - intros t evs. rewrite lookup_insert. case_decide; [intros [= <-]; subst|apply (peb_rep_topic _ _ Hr)].
    split; [done|]. rewrite length_app. unfold abs_end in Hend. simpl. lia.
  - intros k w. rewrite lookup_insert. case_decide; [intros [= <-]; subst k|].
    { left. exists topic. eexists. rewrite abs_end_push. split_and!; [by simpl; simplify_map_eq|done..]. }
    rewrite lookup_insert. case_decide; [intros [= <-]; subst k|].
    + right. exists topic, (length (abs_topic a topic)), (WithOffset e (abs_end a topic)).
      split_and!; [|done..]. rewrite abs_topic_push, decide_True by done. by apply list_lookup_middle.
    + intros Hw. apply stored_as_push; [done|done|]. by apply (peb_rep_sound _ _ Hr).
  - intros t evs Ht. rewrite lookup_insert. case_decide as Hk; [by eexists|].
    rewrite lookup_insert_ne by done. rewrite lookup_insert_ne in Ht by (by intros ->). by eapply (peb_rep_offset _ _ Hr).
  - intros t i e'. rewrite abs_topic_push. intros Hi.
    rewrite lookup_insert_ne by (intros Hk; by symmetry in Hk; apply pebbleEventKey_not_offset in Hk).
    rewrite lookup_insert. destruct (decide (pebbleEventKey _ _ = _)) as [|Hk]; [by eexists|].
    apply (peb_rep_event _ _ Hr t i e').
    case_decide as Ht; [subst t|done]. apply lookup_app_Some in Hi as [|[Hge Hi]]; [done|].
    apply list_lookup_singleton_Some in Hi as [Hi _]. exfalso. apply Hk. unfold abs_end. f_equal. lia.
Qed.

(** What the durable log takes: a topic whose length fits the key's length
    field, a timestamp [UnixNano] can represent, and fields protobuf can
    encode (strings that are valid UTF-8). *)
Definition peb_accepts (topic : string) (e : Event) : Prop :=
  topic_fits topic ∧ is_int64 (Timestamp e) ∧
  ∀ offset, is_int64 offset → is_Ok (marshalPebbleStoredEvent (WithOffset e offset)) = true.

Lemma append_batch_ok log a topic e :
  peb_rep log a → peb_accepts topic e → (abs_end a topic < max_int64)%Z →
  ∃ log', append_batch log topic e = Ok (WithOffset e (abs_end a topic), log') ∧
          peb_rep log' (abs_push a topic e).
Proof.
  intros Hr (Hf & Hts & Hm) Hend. pose proof (peb_rep_end _ _ topic Hr).
  unfold append_batch. rewrite (getTopicEndOffsetLocked_ok _ _ _ Hr). simpl.
  rewrite bool_decide_eq_false_2 by lia.
  specialize (Hm (abs_end a topic) ltac:(unfold is_int64, max_int64 in *; lia)).
  destruct (marshalPebbleStoredEvent _) as [v| |] eqn:Hv; [|done..]. simpl.
  rewrite !db_Set_law. simpl.
  destruct (db_Commit_law (pdb log)
    [(pebbleEventKey topic (abs_end a topic), v);
     (pebbleOffsetKey topic, encodePebbleOffset (wrapU64 (abs_end a topic + 1)))]) as (db & -> & Hdb).
  simpl. eexists; split; [done|].
  rewrite wrapU64_id in Hdb by (unfold max_int64 in *; lia).
  eapply peb_rep_push; eauto.
  by apply (stored_event_decodes (WithOffset e (abs_end a topic))).
Qed.

(** ** Reading *)

(** The entries an iterator over a topic delivers: its events, in order. *)
Definition ok_entries (es : list (bytes * bytes)) : list (bytes * outcome bytes) :=
  (λ '(k, v), (k, Ok v)) <$> es.

Lemma ok_entries_keys es : (ok_entries es).*1 = es.*1.
Proof. unfold ok_entries. rewrite <-list_fmap_compose. apply list_fmap_ext. by intros _ [??] _. Qed.

Lemma iter_SeekGE_ok key es : iter_SeekGE key (ok_entries es) = ok_entries (iter_SeekGE key es).
Proof. induction es as [|[k v] es IH]; [done|]. simpl. by destruct (bytes_ltb k key). Qed.

Lemma topic_entries_keys log a topic es :
  peb_rep log a → StronglySorted bytes_lt es.*1 →
  (∀ k v, (k, v) ∈ es ↔ db_contents (pdb log) !! k = Some v ∧
     in_bounds (pebbleEventTopicPrefix topic) (pebblePrefixUpperBound (pebbleEventTopicPrefix topic)) k) →
  es.*1 = event_keys topic 0 (length (abs_topic a topic)).
Proof.
  intros Hr Hs Hin. pose proof (peb_rep_end _ _ topic Hr) as Hend. unfold abs_end, max_int64 in Hend.
  apply bytes_sorted_unique; [done|apply event_keys_sorted; lia|].
  intros k. rewrite elem_of_event_keys, list_elem_of_fmap. unfold in_bounds in Hin.
  setoid_rewrite <-prefix_range in Hin. split.
  - intros ([k' v] & -> & [Hv Hp]%Hin). simpl.
    apply (peb_rep_sound _ _ Hr) in Hv as [(t & evs & _ & -> & _)|(t & i & e & Hi & -> & _)].
    + by apply event_prefix_not_offset_key in Hp.
    + apply event_prefix_of_event_key in Hp as ->; [|by eapply peb_rep_index].
      exists i. split; [by eapply lookup_lt_Some|done].
  - intros (i & Hi & ->). apply lookup_lt_is_Some in Hi as [e Hi].
    destruct (peb_rep_event _ _ Hr _ _ _ Hi) as [v Hv].
    eexists (_, v). split; [done|]. apply Hin. split; [done|]. by eexists.
Qed.

Lemma topic_entries_decode log a topic es :
  peb_rep log a → (∀ k v, (k, v) ∈ es → db_contents (pdb log) !! k = Some v) →
  es.*1 = event_keys topic 0 (length (abs_topic a topic)) →
  Forall2 (λ kv e, decodes kv.2 e) es (abs_topic a topic).
Proof.
  intros Hr Hin Hk. pose proof (f_equal length Hk) as Hlen.
  unfold event_keys in Hlen. rewrite !length_fmap, length_seq in Hlen.
  apply Forall2_same_length_lookup_2; [done|]. intros i [k v] e Hi He. simpl.
  eapply peb_event_lookup; [done..|].
  assert (es.*1 !! i = Some k) as Hki by by rewrite list_lookup_fmap, Hi.
  rewrite Hk in Hki. unfold event_keys in Hki.
  rewrite list_lookup_fmap, lookup_seq_lt in Hki by by eapply lookup_lt_Some.
  injection Hki as <-. apply Hin. by eapply list_elem_of_lookup_2.
Qed.

(** An iterator positioned at [s] delivers the events from [s] on. *)
Lemma topic_iterator log a topic s :
  peb_rep log a → (0 ≤ s < 2 ^ 63)%Z →
  ∃ es, newTopicIterator log topic = Ok (ok_entries es, None) ∧
    ∃ es', iter_SeekGE (pebbleEventKey topic s) (ok_entries es) = ok_entries es' ∧
      Forall2 (λ kv e, decodes kv.2 e) es' (drop (Z.to_nat s) (abs_topic a topic)).
Proof.
  intros Hr Hs. unfold newTopicIterator.
  destruct (db_NewIter_law (pdb log) (pebbleEventTopicPrefix topic)
    (pebblePrefixUpperBound (pebbleEventTopicPrefix topic))) as (es & -> & Hsort & Hin).
  exists es. split; [done|]. pose proof (topic_entries_keys _ _ _ _ Hr Hsort Hin) as Hk.
  pose proof (peb_rep_end _ _ topic Hr) as Hend. unfold abs_end, max_int64 in Hend.
  exists (drop (Z.to_nat s) es). split.
  - rewrite iter_SeekGE_ok, (iter_SeekGE_event_keys topic s 0 (length (abs_topic a topic)) es) by (done || lia).
    by rewrite Nat.sub_0_r.
  - apply Forall2_drop, (topic_entries_decode _ _ _ _ Hr); [|done]. intros k v. by rewrite Hin; intros [? _].
Qed.

Lemma read_loop_ok ctx es evs n :
  ctx_live ctx → Forall2 (λ kv e, decodes kv.2 e) es evs →
  ∃ evs', read_loop ctx (ok_entries es) n None = (Ok evs', ctx) ∧ evs' ≡ take n evs.
Proof.
  intros Hlive Hes. revert n. induction Hes as [|[k v] e es evs (e' & He' & Heq) _ IH]; intros [|n]; simpl;
    try by eexists.
  unfold checkPebbleContext. rewrite (poll_live _ Hlive). unfold eventFromIteratorValue. simpl in He' |- *. rewrite He'.
  destruct (IH n) as (evs' & -> & ?). exists (e' :: evs'). split; [done|]. by constructor.
Qed.

Lemma peb_replay_loop_ok ctx es evs :
  ctx_live ctx → Forall2 (λ kv e, decodes kv.2 e) es evs →
  ∃ evs', peb_replay_loop ctx (ok_entries es) None = ((evs', Ok ()), ctx) ∧ evs' ≡ evs.
Proof.
  intros Hlive. induction 1 as [|[k v] e es evs (e' & He' & Heq) _ (evs' & IH & Hevs)]; simpl;
    [by eexists|].
  unfold checkPebbleContext. rewrite !(poll_live _ Hlive). unfold eventFromIteratorValue. simpl in He' |- *.
  rewrite He', IH. exists (e' :: evs'). split; [done|]. by constructor.
Qed.

(** ** Statistics: the offset entries, one per topic *)

Definition offset_entry (a : AbsLog) (k v : bytes) : Prop :=
  ∃ topic evs, abs_events a !! topic = Some evs ∧ k = pebbleOffsetKey topic ∧
    v = encodePebbleOffset (abs_end a topic).

Lemma offset_bounds k :
  in_bounds [pebbleOffsetKeyPrefix] (Some [to_byte (byte_val pebbleOffsetKeyPrefix + 1)]) k ↔
  [pebbleOffsetKeyPrefix] `prefix_of` k.
Proof. by rewrite prefix_range. Qed.

Lemma offset_entries log a es :
  peb_rep log a →
  (∀ k v, (k, v) ∈ es ↔ db_contents (pdb log) !! k = Some v ∧
     in_bounds [pebbleOffsetKeyPrefix] (Some [to_byte (byte_val pebbleOffsetKeyPrefix + 1)]) k) →
  ∀ k v, (k, v) ∈ es ↔ offset_entry a k v.
Proof.
  intros Hr Hin k v. rewrite Hin, offset_bounds. split.
  - intros [Hv [s Hs]]. apply (peb_rep_sound _ _ Hr) in Hv as [?|(t & i & e & _ & -> & _)]; [done|].
    discriminate.
  - intros (t & evs & Ht & -> & ->). split; [|by eexists].
    by rewrite (peb_offset_lookup _ _ _ Hr), Ht.
Qed.

(** The topic and count an offset entry stands for. *)
Definition entry_count (kv : bytes * bytes) : string * Z :=
  (default ""%string (decodePebbleOffsetTopicKey kv.1), decodePebbleOffset kv.2).

Lemma offset_entry_count log a k v :
  peb_rep log a → offset_entry a k v →
  ∃ topic evs, abs_events a !! topic = Some evs ∧ k = pebbleOffsetKey topic ∧
    decodePebbleOffsetTopicKey k = Some topic ∧ length v = 8 ∧
    decodePebbleOffset v = Z.of_nat (length evs) ∧ (Z.of_nat (length evs) ≤ max_int64)%Z.
Proof.
  intros Hr (t & evs & Ht & -> & ->). destruct (peb_rep_topic _ _ Hr _ _ Ht) as [Hf Hmax].
  exists t, evs. rewrite decodePebbleOffsetTopicKey_key by done.
  split_and!; [done..|apply length_encodePebbleOffset| |done].
  unfold abs_end, abs_topic. rewrite Ht. simpl.
  apply decode_encode_offset. unfold is_uint64, max_int64 in *. lia.
Qed.

Lemma stats_loop_ok ctx log a es acc :
  ctx_live ctx → peb_rep log a → (∀ k v, (k, v) ∈ es → offset_entry a k v) →
  stats_loop ctx (ok_entries es) None acc = (Ok (foldl count_step acc (entry_count <$> es)), ctx).
Proof.
  intros Hlive Hr. revert acc. induction es as [|[k v] es IH]; intros acc Hes; [done|].
  cbn [ok_entries fmap list_fmap stats_loop]. unfold checkPebbleContext.
  rewrite (poll_live _ Hlive).
  destruct (offset_entry_count _ _ k v Hr) as (t & evs & _ & _ & Hk & Hlen & Hv & Hmax);
    [apply Hes; by left|].
  rewrite Hk, Hlen, bool_decide_eq_false_2, Hv, bool_decide_eq_false_2 by lia.
  fold (ok_entries es). rewrite IH by (intros; apply Hes; by right).
  cbn [foldl]. replace (entry_count (k, v)) with (t, Z.of_nat (length evs)); [done|].
  unfold entry_count. simpl. by rewrite Hk, Hv.
Qed.

Lemma offset_entries_counts log a es :
  peb_rep log a → NoDup es.*1 → (∀ k v, (k, v) ∈ es ↔ offset_entry a k v) →
  entry_count <$> es ≡ₚ abs_counts a.
Proof.
  intros Hr Hnd Hes. apply NoDup_Permutation.
  - assert (NoDup es) as Hnd' by (by eapply NoDup_fmap_1).
    apply NoDup_fmap_2_strong; [|done].
    intros [k1 v1] [k2 v2] Ho1%Hes Ho2%Hes Heq.
    destruct (offset_entry_count _ _ _ _ Hr Ho1) as (t1 & e1 & Ht1 & -> & Hk1 & _).
    destruct (offset_entry_count _ _ _ _ Hr Ho2) as (t2 & e2 & Ht2 & -> & Hk2 & _).
    unfold entry_count in Heq. simpl in Heq. rewrite Hk1, Hk2 in Heq. injection Heq as <- _.
    destruct Ho1 as (? & ? & ? & Hka & ->), Ho2 as (? & ? & ? & Hkb & ->).
    destruct (peb_rep_topic _ _ Hr _ _ Ht1) as [Hf _].
    apply offset_key_eq in Hka; [|done]. apply offset_key_eq in Hkb; [|done]. congruence.
  - eapply NoDup_fmap_1. apply abs_counts_NoDup.
  - intros [t c]. rewrite list_elem_of_fmap. unfold abs_counts. rewrite list_elem_of_fmap. split.
    + intros ([k v] & Hc & Hin%Hes).
      destruct (offset_entry_count _ _ _ _ Hr Hin) as (t' & evs & Ht & _ & Hk & _ & Hv & _).
      unfold entry_count in Hc. simpl in Hc. rewrite Hk, Hv in Hc. injection Hc as -> ->.
      exists (t', evs). split; [done|]. by apply elem_of_map_to_list.
    + intros ([t' evs] & [= -> ->] & Ht%elem_of_map_to_list).
      assert (offset_entry a (pebbleOffsetKey t') (encodePebbleOffset (abs_end a t'))) as Ho by by eexists _, _.
      exists (pebbleOffsetKey t', encodePebbleOffset (abs_end a t')). rewrite Hes. split; [|done].
      destruct (offset_entry_count _ _ _ _ Hr Ho) as (t & evs' & Ht' & Hk & Hd & _ & Hv & _).
      apply offset_key_eq in Hk as <-; [|by apply (peb_rep_topic _ _ Hr) in Ht as [? _]].
      unfold entry_count. simpl. rewrite Hd, Hv. rewrite Ht in Ht'. by injection Ht' as ->.
Qed.

(** ** The contract *)
Ltac peb_guards Hr := rewrite ?(peb_rep_closed _ _ Hr); unfold checkPebbleContext in *; log_guards.

Lemma peb_append_refused ctx topic event log a err :
  peb_rep log a → abs_guard ctx (append_args topic event) a = Some err →
  peb_AppendEvent ctx topic event log = (Err err, (poll ctx).2, log).
Proof. intros Hr Hg. unfold peb_AppendEvent. peb_guards Hr. Qed.

Lemma peb_append_ok ctx topic e log a :
  peb_rep log a → abs_guard ctx (append_args topic (Some e)) a = None →
  peb_accepts topic e → (abs_end a topic < max_int64)%Z →
  ∃ log', peb_AppendEvent ctx topic (Some e) log =
            (Ok (WithOffset e (abs_end a topic)), (poll ctx).2, log') ∧
          peb_rep log' (abs_push a topic e).
Proof.
  intros Hr Hg Hacc Hend. destruct (append_batch_ok _ _ _ _ Hr Hacc Hend) as (log' & Hb & Hr').
  exists log'. split; [|done]. unfold peb_AppendEvent. peb_guards Hr. by rewrite Hb.
Qed.

Lemma peb_read_refused ctx topic s n log a err :
  peb_rep log a → abs_guard ctx (read_args topic s n) a = Some err →
  peb_ReadEvents ctx topic s n log = (Err err, (poll ctx).2).
Proof. intros Hr Hg. unfold peb_ReadEvents. peb_guards Hr. Qed.

Lemma peb_read_ok ctx topic s n log a :
  peb_rep log a → ctx_live ctx → abs_guard ctx (read_args topic s n) a = None →
  (s ≤ max_int64)%Z → (n * 8 ≤ max_alloc)%Z →
  ∃ evs, peb_ReadEvents ctx topic s n log = (Ok evs, ctx) ∧ evs ≡ abs_slice a topic s n.
Proof.
  intros Hr Hlive Hg Hs Halloc. unfold peb_ReadEvents, abs_slice. unfold max_int64 in Hs. peb_guards Hr.
  { by eexists. }
  rewrite wrapU64_id by lia. unfold readEventsLocked.
  destruct (topic_iterator _ _ topic s Hr) as (es & -> & es' & -> & Hes); [lia|].
  assert (make_slice_ok n = true) as ->
    by (unfold make_slice_ok; by rewrite !bool_decide_eq_true_2 by lia).
  by apply read_loop_ok.
Qed.

Lemma peb_read_overflow ctx topic s n log a :
  peb_rep log a → abs_guard ctx (read_args topic s n) a = None → is_int64 s → (max_alloc < n * 8)%Z →
  ∃ m, (peb_ReadEvents ctx topic s n log).1 = Panic m.
Proof.
  intros Hr Hg Hs Halloc. unfold peb_ReadEvents. unfold is_int64, max_int64 in Hs. peb_guards Hr.
  rewrite wrapU64_id by lia. unfold readEventsLocked.
  destruct (topic_iterator _ _ topic s Hr) as (es & -> & _); [lia|].
  assert (make_slice_ok n = false) as ->
    by (unfold make_slice_ok; by rewrite (bool_decide_eq_false_2 (n * 8 ≤ _)%Z), andb_false_r by lia).
  by eexists.
Qed.

Lemma peb_end_refused ctx topic log a err :
  peb_rep log a → abs_guard ctx (topic_args topic) a = Some err →
  peb_GetTopicEndOffset ctx topic log = (Err err, (poll ctx).2).
Proof. intros Hr Hg. unfold peb_GetTopicEndOffset. peb_guards Hr. Qed.

Lemma peb_end_ok ctx topic log a :
  peb_rep log a → abs_guard ctx (topic_args topic) a = None →
  peb_GetTopicEndOffset ctx topic log = (Ok (abs_end a topic), (poll ctx).2).
Proof.
  intros Hr Hg. unfold peb_GetTopicEndOffset. pose proof (peb_rep_end _ _ topic Hr).
  rewrite (getTopicEndOffsetLocked_ok _ _ _ Hr). cbn [mbind outcome_bind].
  rewrite (bool_decide_eq_false_2 (max_int64 < _)%Z) by lia. peb_guards Hr.
Qed.

Lemma peb_replay_refused ctx topic s log a err :
  peb_rep log a → abs_guard ctx (replay_args topic s) a = Some err →
  peb_ReplayEvents ctx topic s log = (([], Err err), (poll ctx).2).
Proof. intros Hr Hg. unfold peb_ReplayEvents. peb_guards Hr. Qed.

Lemma peb_replay_ok ctx topic s log a :
  peb_rep log a → ctx_live ctx → abs_guard ctx (replay_args topic s) a = None → is_int64 s →
  ∃ evs, peb_ReplayEvents ctx topic s log = ((evs, Ok ()), ctx) ∧
         evs ≡ drop (Z.to_nat s) (abs_topic a topic).
Proof.
  intros Hr Hlive Hg Hs. unfold peb_ReplayEvents. unfold is_int64 in Hs. peb_guards Hr.
  rewrite wrapU64_id by lia.
  destruct (topic_iterator _ _ topic s Hr) as (es & -> & es' & -> & Hes); [lia|].
  by apply peb_replay_loop_ok.
Qed.

Lemma peb_stats_refused ctx log a err :
  peb_rep log a → abs_guard ctx None a = Some err →
  peb_GetStatistics ctx log = (Err err, (poll ctx).2).
Proof. intros Hr Hg. unfold peb_GetStatistics. peb_guards Hr. Qed.

Lemma peb_stats_ok ctx log a :
  peb_rep log a → ctx_live ctx → abs_guard ctx None a = None →
  (TotalEvents (abs_statistics a) ≤ max_int64)%Z →
  peb_GetStatistics ctx log = (Ok (abs_statistics a), ctx).
Proof.
  intros Hr Hlive Hg Hmax. unfold peb_GetStatistics. peb_guards Hr.
  destruct (db_NewIter_law (pdb log) [pebbleOffsetKeyPrefix]
    (Some [to_byte (byte_val pebbleOffsetKeyPrefix + 1)])) as (es & -> & Hsort & Hin).
  pose proof (offset_entries _ _ _ Hr Hin) as Hes. fold (ok_entries es).
  rewrite (stats_loop_ok _ _ a) by (done || by intros ??; rewrite Hes).
  rewrite (count_abs_topics a); [|by apply (offset_entries_counts _ _ _ Hr), Hes; apply bytes_sorted_NoDup|done].
  cbn [fmap outcome_fmap]. do 2 f_equal. unfold abs_statistics. f_equal. simpl. by rewrite map_size_fmap.
Qed.

Lemma peb_compact_spec ctx log a :
  peb_rep log a →
  peb_Compact ctx log =
    (match abs_guard ctx None a with Some err => Err err | None => Ok () end, (poll ctx).2).
Proof. intros Hr. unfold peb_Compact. peb_guards Hr. Qed.

Lemma peb_close_spec log a :
  peb_rep log a →
  ∃ log', peb_Close log = (Ok (), log') ∧ peb_rep log' (mkAbsLog (abs_events a) true).
Proof.
  intros Hr. assert (peb_rep (mkPebbleLog (pdb log) true) (mkAbsLog (abs_events a) true)) as Hr'
    by by destruct Hr; split.
  unfold peb_Close. destruct (peb_closed log) eqn:Hc; [|rewrite db_Close_law; by eexists].
  exists log. split; [done|]. by destruct log; simpl in *; subst.
Qed.

(** The store alone determines the log: opening it again clears the closed flag. *)
Lemma peb_rep_reopen log a :
  peb_rep log a → peb_rep (mkPebbleLog (pdb log) false) (mkAbsLog (abs_events a) false).
Proof. intros Hr. by destruct Hr; split. Qed.

(** The durable log discharges the contract. *)
#[export] Instance PebbleEventLog_spec : EventLogSpec (PebbleEventLog DB).
Proof.
  refine {| log_rep := peb_rep; log_accepts := peb_accepts |}.
  - apply peb_rep_wf.
  - apply peb_append_refused.
  - apply peb_append_ok.
  - apply peb_read_refused.
  - intros ctx topic s n l a Hr Hlive Hg Hsum Halloc _.
    apply peb_read_ok; [done..| |done]. revert Hg. unfold abs_guard, read_args.
    repeat case_match; intros; simplify_eq; case_bool_decide; simplify_eq; lia.
  - apply peb_end_refused.
  - intros ctx topic l a Hr Hg _. by apply peb_end_ok.
  - apply peb_replay_refused.
  - intros ctx topic s l a Hr Hlive Hg Hs _. by apply peb_replay_ok.
  - apply peb_stats_refused.
  - apply peb_stats_ok.
  - apply peb_compact_spec.
  - apply peb_close_spec.
Defined.
End PebbleSpec.

(** ** A concrete store, for the witnesses

    A finite map whose iterators sort the entries of their range. *)
Definition MapDB : Type := gmap bytes bytes.

Definition entry_le (e1 e2 : bytes * bytes) : Prop := bytes_le e1.1 e2.1.

#[export] Instance entry_le_dec e1 e2 : Decision (entry_le e1 e2).
Proof. unfold entry_le. apply _. Defined.

#[export] Instance entry_le_total : Total entry_le.
Proof. intros e1 e2. unfold entry_le. rewrite !bytes_le_lt_or_eq. pose proof (bytes_lt_total e1.1 e2.1). intuition. Qed.
#[export] Instance entry_le_trans : Transitive entry_le.
Proof.
  intros e1 e2 e3. unfold entry_le. rewrite !bytes_le_lt_or_eq.
  intros [?| ->]; [|done]. intros [?|<-]; left; [by trans (e2.1)|done].
Qed.

#[export] Instance in_bounds_dec lower upper k : Decision (in_bounds lower upper k).
Proof. unfold in_bounds. destruct upper; apply _. Defined.

Definition map_entries (db : MapDB) (lower : bytes) (upper : option bytes) : list (bytes * bytes) :=
  merge_sort entry_le (filter (λ kv, in_bounds lower upper kv.1) (map_to_list db)).

#[export] Instance MapDB_ops : PebbleDB MapDB := {|
  db_Get db k := Ok (db !! k);
  db_Set _ _ _ := Ok ();
  db_Commit db ws := Ok (foldl (λ m '(k, v), <[k := v]> m) db ws);
  db_NewIter db lower upper := Ok ((λ '(k, v), (k, Ok v)) <$> map_entries db lower upper, None);
  db_Close _ := Ok ()
|}.

Lemma map_entries_sorted db lower upper : StronglySorted bytes_lt (map_entries db lower upper).*1.
Proof.
  assert (NoDup (map_entries db lower upper).*1) as Hnd.
  { unfold map_entries. rewrite merge_sort_Permutation.
    eapply (sublist_NoDup _ (map_to_list db).*1); [apply NoDup_fst_map_to_list|].
    apply fmap_sublist, sublist_filter. }
  assert (StronglySorted entry_le (map_entries db lower upper)) as Hs.
  { by apply StronglySorted_merge_sort; apply _. }
  revert Hnd. induction Hs as [|e es Hs IH Hle]; simpl; intros Hnd; [constructor|].
  apply NoDup_cons in Hnd as [Hnin Hnd]. constructor; [by apply IH|].
  apply Forall_fmap. rewrite Forall_forall in Hle |- *. intros e' He'.
  specialize (Hle e' He'). apply bytes_le_lt_or_eq in Hle as [?|Heq]; [done|].
  destruct Hnin. rewrite Heq. by apply list_elem_of_fmap_2.
Qed.

#[export] Instance MapDB_laws : PebbleDBLaws MapDB.
Proof.
  refine {| db_contents := λ db : MapDB, db |}; simpl; try done.
  - intros db ws. by eexists.
  - intros db lower upper. exists (map_entries db lower upper). split; [done|].
    split; [apply map_entries_sorted|]. intros k v. unfold map_entries.
    rewrite merge_sort_Permutation, list_elem_of_filter. simpl.
    pose proof (elem_of_map_to_list (M:=gmap bytes) db k v). tauto.
Defined.
