(* ===== verification/LogTraces.v ===== *)
(** * Sequences of log operations, and the agreement of the backends

    The operations of the [EventLog] interface as data, their execution on any
    backend and on the abstract log, and the proof that a backend which meets
    the contract produces, for every sequence of operations, the results of the
    abstract log.  The two backends are instances, so they agree; reads whose
    arguments are too large for a slice, on which they panic, are treated
    separately. *)
From S2P Require Import Prelude EventLog MemoryLog PebbleKeys PebbleStorage PebbleLog PebbleSpec.

(** ** Operations and results *)
Inductive log_op :=
  | OpAppend (topic : string) (event : option Event)
  | OpRead (topic : string) (startOffset maxCount : Z)
  | OpEnd (topic : string)
  | OpReplay (topic : string) (startOffset : Z)
  | OpStats
  | OpCompact
  | OpClose.

Inductive log_res :=
  | ResAppend (r : outcome Event)
  | ResRead (r : outcome (list Event))
  | ResEnd (r : outcome Z)
  | ResReplay (sent : list Event) (r : outcome unit)
  | ResStats (r : outcome EventLogStatistics)
  | ResUnit (r : outcome unit).

(** Results up to the nil/empty distinction of payloads; appends return the
    event they were given, so their results are equal. *)
#[export] Instance log_res_equiv : Equiv log_res := λ r1 r2,
  match r1, r2 with
  | ResRead r1, ResRead r2 => outcome_rel (≡) r1 r2
  | ResReplay s1 r1, ResReplay s2 r2 => s1 ≡ s2 ∧ r1 = r2
  | _, _ => r1 = r2
  end.

#[export] Instance outcome_rel_equivalence {A} (R : relation A) `{!Equivalence R} :
  Equivalence (outcome_rel R).
Proof.
  split.
  - intros [a|e|m]; simpl; done.
  - intros [a|e|m] [b|e'|m'] H; simpl in *; done.
  - intros [a|e|m] [b|e'|m'] [c|e''|m''] H1 H2; simpl in *; try done; etrans; eauto.
Qed.

#[export] Instance log_res_equivalence : Equivalence (≡@{log_res}).
Proof.
  split; unfold equiv, log_res_equiv.
  - intros []; by repeat split.
  - intros [] [] H; try done; try by symmetry.
    destruct H. by split.
  - intros [] [] [] H1 H2; try done; try by etrans.
    destruct H1, H2. split; by etrans.
Qed.

(** One operation on a backend. *)
Definition log_step_op {L} `{!EventLog L} (ctx : Ctx) (op : log_op) (l : L) : log_res * L :=
  match op with
  | OpAppend topic event => let '(r, _, l') := AppendEvent ctx topic event l in (ResAppend r, l')
  | OpRead topic s n => (ResRead (ReadEvents ctx topic s n l).1, l)
  | OpEnd topic => (ResEnd (GetTopicEndOffset ctx topic l).1, l)
  | OpReplay topic s => (ResReplay (ReplayEvents ctx topic s l).1.1 (ReplayEvents ctx topic s l).1.2, l)
  | OpStats => (ResStats (GetStatistics ctx l).1, l)
  | OpCompact => (ResUnit (Compact ctx l).1, l)
  | OpClose => let '(r, l') := CloseLog l in (ResUnit r, l')
  end.

Fixpoint log_run {L} `{!EventLog L} (ops : list (Ctx * log_op)) (l : L) : list log_res :=
  match ops with
  | [] => []
  | (ctx, op) :: ops => let '(r, l') := log_step_op ctx op l in r :: log_run ops l'
  end.

(** The state after a sequence of operations. *)
Definition log_final {L} `{!EventLog L} (ops : list (Ctx * log_op)) (l : L) : L :=
  foldl (λ l '(ctx, op), (log_step_op ctx op l).2) l ops.

(** The same on the abstract log. *)
Definition abs_result {A} (ctx : Ctx) (args : option error) (a : AbsLog) (r : A) : outcome A :=
  match abs_guard ctx args a with Some err => Err err | None => Ok r end.

Definition abs_step_op (ctx : Ctx) (op : log_op) (a : AbsLog) : log_res * AbsLog :=
  match op with
  | OpAppend topic event =>
      match abs_guard ctx (append_args topic event) a, event with
      | None, Some e => (ResAppend (Ok (WithOffset e (abs_end a topic))), abs_push a topic e)
      | Some err, _ => (ResAppend (Err err), a)
      | None, None => (ResAppend (Err ErrNilEvent), a)
      end
  | OpRead topic s n => (ResRead (abs_result ctx (read_args topic s n) a (abs_slice a topic s n)), a)
  | OpEnd topic => (ResEnd (abs_result ctx (topic_args topic) a (abs_end a topic)), a)
  | OpReplay topic s =>
      match abs_guard ctx (replay_args topic s) a with
      | Some err => (ResReplay [] (Err err), a)
      | None => (ResReplay (drop (Z.to_nat s) (abs_topic a topic)) (Ok ()), a)
      end
  | OpStats => (ResStats (abs_result ctx None a (abs_statistics a)), a)
  | OpCompact => (ResUnit (abs_result ctx None a ()), a)
  | OpClose => (ResUnit (Ok ()), mkAbsLog (abs_events a) true)
  end.

Fixpoint abs_run (ops : list (Ctx * log_op)) (a : AbsLog) : list log_res :=
  match ops with
  | [] => []
  | (ctx, op) :: ops => let '(r, a') := abs_step_op ctx op a in r :: abs_run ops a'
  end.

Definition abs_final (ops : list (Ctx * log_op)) (a : AbsLog) : AbsLog :=
  foldl (λ a '(ctx, op), (abs_step_op ctx op a).2) a ops.

(** ** The operations the contract covers *)
Definition op_ok {L} `{!EventLog L, !EventLogSpec L} (ctx : Ctx) (op : log_op) : Prop :=
  ctx_settled ctx ∧
  match op with
  | OpAppend topic (Some e) => log_accepts topic e
  | OpRead _ s n => (s + n ≤ max_int64)%Z ∧ (n * 8 ≤ max_alloc)%Z
  | OpReplay _ s => is_int64 s
  | _ => True
  end.
Arguments op_ok L {_ _} ctx op.

(** The operations a caller can ask for: reads and replays with any 64-bit
    arguments. *)
Definition op_valid {L} `{!EventLog L, !EventLogSpec L} (ctx : Ctx) (op : log_op) : Prop :=
  ctx_settled ctx ∧
  match op with
  | OpAppend topic (Some e) => log_accepts topic e
  | OpRead _ s n => is_int64 s ∧ is_int64 n
  | OpReplay _ s => is_int64 s
  | _ => True
  end.
Arguments op_valid L {_ _} ctx op.

(** The reads whose arguments are valid but too large: for the in-memory log the
    start and the count together, when the topic has an event there; for the
    durable log the count. *)
Definition mem_overflows (ctx : Ctx) (op : log_op) (a : AbsLog) : bool :=
  match op with
  | OpRead topic s n =>
      match abs_guard ctx (read_args topic s n) a with
      | None => bool_decide (s < abs_end a topic ∧ max_int64 < s + n)%Z
      | Some _ => false
      end
  | _ => false
  end.
Definition peb_overflows (ctx : Ctx) (op : log_op) (a : AbsLog) : bool :=
  match op with
  | OpRead topic s n =>
      match abs_guard ctx (read_args topic s n) a with
      | None => bool_decide (max_alloc < n * 8)%Z
      | Some _ => false
      end
  | _ => false
  end.

Definition outcome_panics {A} (r : outcome A) : bool := match r with Panic _ => true | _ => false end.
Definition res_panics (r : log_res) : bool :=
  match r with
  | ResAppend r => outcome_panics r
  | ResRead r => outcome_panics r
  | ResEnd r => outcome_panics r
  | ResReplay _ r => outcome_panics r
  | ResStats r => outcome_panics r
  | ResUnit r => outcome_panics r
  end.

(** A call panics exactly where [overflows] says, and gives the abstract result
    otherwise. *)
Definition step_agrees (overflows : Ctx → log_op → AbsLog → bool) (ctx : Ctx) (op : log_op) (a : AbsLog) {L} (res : log_res * L) : Prop :=
  res_panics res.1 = overflows ctx op a ∧ (overflows ctx op a = false → res.1 ≡ (abs_step_op ctx op a).1).

(** ** Counting: a trace of fewer than 2^63 operations stays within int64 *)
Definition abs_total (a : AbsLog) : Z := TotalEvents (abs_statistics a).

Definition total_of (m : gmap string (list Event)) : Z :=
  map_fold (λ _ evs n, (Z.of_nat (length evs) + n)%Z) 0%Z m.

Lemma total_of_insert m t evs :
  m !! t = None → total_of (<[t := evs]> m) = (Z.of_nat (length evs) + total_of m)%Z.
Proof. intros. unfold total_of. rewrite map_fold_insert_L; [done|intros; lia|done]. Qed.

Lemma total_of_split m t :
  total_of m = (Z.of_nat (length (default [] (m !! t))) + total_of (delete t m))%Z.
Proof.
  destruct (m !! t) as [evs|] eqn:Ht; simpl.
  - rewrite <-(insert_delete_id m t evs) at 1 by done.
    apply total_of_insert, lookup_delete_eq.
  - by rewrite delete_id.
Qed.

Lemma total_of_nonneg m : (0 ≤ total_of m)%Z.
Proof.
  induction m as [|t evs m Ht IH] using map_ind; [done|].
  rewrite total_of_insert by done. lia.
Qed.

Lemma abs_total_push a topic e : abs_total (abs_push a topic e) = (abs_total a + 1)%Z.
Proof.
  change (total_of (abs_events (abs_push a topic e)) = (total_of (abs_events a) + 1)%Z).
  rewrite (total_of_split _ topic), (total_of_split (abs_events a) topic). simpl.
  rewrite lookup_insert_eq, delete_insert_eq. simpl.
  rewrite length_app. unfold abs_topic. simpl. lia.
Qed.

Lemma abs_end_total a topic : (abs_end a topic ≤ abs_total a)%Z.
Proof.
  change (abs_end a topic ≤ total_of (abs_events a))%Z.
  rewrite (total_of_split _ topic). pose proof (total_of_nonneg (delete topic (abs_events a))).
  unfold abs_end, abs_topic. lia.
Qed.

(** ** Any backend with the contract refines the abstract log *)
Section Traces.
Context {L : Type} `{!EventLog L, !EventLogSpec L}.

Lemma guard_live ctx args a : ctx_settled ctx → abs_guard ctx args a = None → ctx_live ctx.
Proof.
  intros [?|Hc]; [done|]. unfold abs_guard. by rewrite (poll_cancelled _ Hc).
Qed.

Lemma log_step_refines ctx op l a :
  log_rep l a → op_ok L ctx op → (abs_total a < max_int64)%Z →
  (log_step_op ctx op l).1 ≡ (abs_step_op ctx op a).1 ∧
  log_rep (log_step_op ctx op l).2 (abs_step_op ctx op a).2 ∧
  (abs_total (abs_step_op ctx op a).2 ≤ abs_total a + 1)%Z.
Proof.
  intros Hr [Hctx Hop] Htot. pose proof (abs_end_total a) as Hend.
  destruct op as [topic event|topic s n|topic|topic s| | |]; simpl; unfold abs_result.
  - specialize (Hend topic).
    destruct (abs_guard ctx (append_args topic event) a) as [err|] eqn:Hg.
    + rewrite (append_refused _ _ _ _ _ _ Hr Hg). split_and!; [done..|simpl; lia].
    + destruct event as [e|].
      * destruct (append_ok _ _ _ _ _ Hr Hg Hop) as (l' & -> & Hr'); [lia|].
        split_and!; [done..|]. simpl. by rewrite abs_total_push.
      * exfalso. revert Hg. unfold abs_guard, append_args. repeat case_match; done.
  - split_and!; [|done|simpl; lia]. specialize (Hend topic).
    destruct (abs_guard ctx _ a) as [err|] eqn:Hg.
    + by rewrite (read_refused _ _ _ _ _ _ _ Hr Hg).
    + destruct Hop. destruct (read_ok ctx topic s n l a) as (evs & -> & Hevs);
        eauto using guard_live; lia.
  - split_and!; [|done|simpl; lia]. specialize (Hend topic).
    destruct (abs_guard ctx _ a) as [err|] eqn:Hg.
    + by rewrite (end_refused _ _ _ _ _ Hr Hg).
    + by rewrite (end_ok _ _ _ _ Hr Hg) by lia.
  - specialize (Hend topic). destruct (abs_guard ctx _ a) as [err|] eqn:Hg.
    + rewrite (replay_refused _ _ _ _ _ _ Hr Hg). split_and!; [done..|simpl; lia].
    + destruct (replay_ok ctx topic s l a) as (evs & -> & Hevs); eauto using guard_live; [lia|].
      split_and!; [by split|done|simpl; lia].
  - split_and!; [|done|simpl; lia]. destruct (abs_guard ctx _ a) as [err|] eqn:Hg.
    + by rewrite (stats_refused _ _ _ _ Hr Hg).
    + rewrite (stats_ok ctx l a); eauto using guard_live. unfold abs_total in Htot. lia.
  - split_and!; [|done|simpl; lia]. rewrite (compact_spec _ _ _ Hr). by destruct (abs_guard _ _ _).
  - destruct (close_spec _ _ Hr) as (l' & -> & Hr'). split_and!; [done..|].
    unfold abs_total. simpl. lia.
Qed.

Lemma log_run_refines ops l a :
  log_rep l a → Forall (λ '(ctx, op), op_ok L ctx op) ops →
  (abs_total a + Z.of_nat (length ops) ≤ max_int64)%Z →
  Forall2 (≡) (log_run ops l) (abs_run ops a).
Proof.
  intros Hr Hops. revert l a Hr. induction Hops as [|[ctx op] ops Hop Hops IH]; intros l a Hr Hlen; [done|].
  simpl in *. destruct (log_step_refines ctx op l a Hr Hop) as (Hres & Hr' & Htot); [lia|].
  destruct (log_step_op ctx op l) as [r l'], (abs_step_op ctx op a) as [r' a'].
  constructor; [done|]. apply IH; [done|]. simpl in *. lia.
Qed.

Lemma log_final_refines ops l a :
  log_rep l a → Forall (λ '(ctx, op), op_ok L ctx op) ops →
  (abs_total a + Z.of_nat (length ops) ≤ max_int64)%Z →
  log_rep (log_final ops l) (abs_final ops a) ∧
  (abs_total (abs_final ops a) ≤ abs_total a + Z.of_nat (length ops))%Z.
Proof.
  intros Hr Hops. revert l a Hr. induction Hops as [|[ctx op] ops Hop Hops IH]; intros l a Hr Hlen;
    simpl in *; [split; [done|lia]|].
  destruct (log_step_refines ctx op l a Hr Hop) as (_ & Hr' & Htot); [lia|].
  edestruct IH as [? ?]; [done|lia|]. split; [done|lia].
Qed.

(** *** Calls with any arguments *)
Lemma abs_total_step ctx op a : (abs_total (abs_step_op ctx op a).2 ≤ abs_total a + 1)%Z.
Proof.
  destruct op as [topic [e|]| | | | | |]; cbn [abs_step_op]; repeat case_match; cbn [snd]; try lia.
  - by rewrite abs_total_push.
  - unfold abs_total. simpl. lia.
Qed.

Lemma abs_total_final ops a : (abs_total (abs_final ops a) ≤ abs_total a + Z.of_nat (length ops))%Z.
Proof.
  revert a. induction ops as [|[ctx op] ops IH]; intros a; cbn [length]; [cbn; lia|].
  change (abs_final ((ctx, op) :: ops) a) with (abs_final ops (abs_step_op ctx op a).2).
  specialize (IH (abs_step_op ctx op a).2). pose proof (abs_total_step ctx op a). lia.
Qed.

Lemma res_panics_equiv r r' : r ≡ r' → res_panics r = res_panics r'.
Proof.
  destruct r as [| | | | |], r' as [| | | | |]; unfold equiv, log_res_equiv; try done; try congruence.
  - by destruct r, r0.
  - intros [_ ->]. done.
Qed.

Lemma abs_step_no_panic ctx op a : res_panics (abs_step_op ctx op a).1 = false.
Proof. destruct op as [topic event| | | | | |]; cbn; unfold abs_result; repeat case_match; done. Qed.

(** What is not a read is as the contract says. *)
Lemma step_agrees_ok overflows ctx op (l : L) a :
  (∀ topic s n, op = OpRead topic s n →
     step_agrees overflows ctx op a (log_step_op ctx op l) ∧ log_rep (log_step_op ctx op l).2 (abs_step_op ctx op a).2) →
  log_rep l a → (abs_total a < max_int64)%Z → op_valid L ctx op → ((∀ topic s n, op ≠ OpRead topic s n) → overflows ctx op a = false) →
  step_agrees overflows ctx op a (log_step_op ctx op l) ∧ log_rep (log_step_op ctx op l).2 (abs_step_op ctx op a).2.
Proof.
  intros Hread Hr Htot [Hctx Hop] Hno.
  assert (op_ok L ctx op → overflows ctx op a = false →
    step_agrees overflows ctx op a (log_step_op ctx op l) ∧ log_rep (log_step_op ctx op l).2 (abs_step_op ctx op a).2) as Hgen.
  { intros Hok Hf. destruct (log_step_refines ctx op l a Hr Hok Htot) as (Hres & Hr' & _). split; [|done].
    split; [|done]. by rewrite Hf, (res_panics_equiv _ _ Hres), abs_step_no_panic. }
  destruct op; first [by eapply Hread|apply Hgen; [by split|by apply Hno]].
Qed.

(** A sequence of them. *)
Lemma run_agrees overflows :
  (∀ ctx op (l : L) a, log_rep l a → op_valid L ctx op → (abs_total a * 8 < max_alloc)%Z →
     step_agrees overflows ctx op a (log_step_op ctx op l) ∧ log_rep (log_step_op ctx op l).2 (abs_step_op ctx op a).2) →
  ∀ ops (l : L) a, log_rep l a → Forall (λ '(ctx, op), op_valid L ctx op) ops →
  ((abs_total a + Z.of_nat (length ops)) * 8 ≤ max_alloc)%Z →
  ∀ i ctx op, ops !! i = Some (ctx, op) →
  ∃ r, log_run ops l !! i = Some r ∧ res_panics r = overflows ctx op (abs_final (take i ops) a) ∧
    (overflows ctx op (abs_final (take i ops) a) = false → r ≡ (abs_step_op ctx op (abs_final (take i ops) a)).1).
Proof.
  intros Hstep ops. induction ops as [|[ctx0 op0] ops IH]; intros l a Hr Hops Hlen i ctx op Hi; [done|].
  apply Forall_cons in Hops as [Hop Hops]. cbn [length] in Hlen.
  destruct (Hstep ctx0 op0 l a Hr Hop) as [[Hp Hres] Hr']; [lia|]. cbn [log_run].
  destruct (log_step_op ctx0 op0 l) as [r l']. cbn [fst snd] in *.
  destruct i as [|i]; cbn in Hi |- *; [simplify_eq; by exists r|].
  apply IH; [done..| |done]. pose proof (abs_total_step ctx0 op0 a). lia.
Qed.
End Traces.

(** ** The backends *)
Section Backends.
Context `{!MapOrder}.

Lemma mem_op_ok ctx op :
  op_ok InMemoryEventLog ctx op ↔
  ctx_settled ctx ∧
  match op with
  | OpRead _ s n => (s + n ≤ max_int64)%Z ∧ (n * 8 ≤ max_alloc)%Z
  | OpReplay _ s => is_int64 s
  | _ => True
  end.
Proof. unfold op_ok. destruct op as [topic [e|]|topic s n|topic|topic s| | |]; done. Qed.

(** C24: the in-memory log behaves like the abstract topic-partitioned log.
    For every sequence of fewer than 2^63 interface calls, each under a
    context that does not change while it runs and with read arguments whose
    sum and allocation stay in range, every result (events and offsets, or
    the error of the first guard that fails) is the abstract log's. *)
Theorem mem_log_refines (ops : list (Ctx * log_op))
    (Hops : Forall (λ '(ctx, op), op_ok InMemoryEventLog ctx op) ops)
    (Hlen : (Z.of_nat (length ops) ≤ max_int64)%Z) :
  Forall2 (≡) (log_run ops NewInMemoryEventLog) (abs_run ops abs_empty).
Proof. apply log_run_refines; [apply mem_rep_new|done|done]. Qed.

Context {DB : Type} `{!PebbleDB DB, !PebbleDBLaws DB, !ProtoCodec, !ProtoCodecLaws}.

(** C25: the durable log behaves like the abstract log, starting on an empty
    store, provided appended topics fit the key's length field, timestamps
    fit 64-bit nanoseconds and the fields can be encoded. *)
Theorem peb_log_refines (db : DB) (ops : list (Ctx * log_op))
    (Hdb : db_contents db = ∅)
    (Hops : Forall (λ '(ctx, op), op_ok (PebbleEventLog DB) ctx op) ops)
    (Hlen : (Z.of_nat (length ops) ≤ max_int64)%Z) :
  Forall2 (≡) (log_run ops (mkPebbleLog db false)) (abs_run ops abs_empty).
Proof. apply log_run_refines; [by apply peb_rep_new|done|done]. Qed.

(** *** Agreement *)

Lemma no_read_no_overflow ctx op a :
  (∀ topic s n, op ≠ OpRead topic s n) → mem_overflows ctx op a = false ∧ peb_overflows ctx op a = false.
Proof. intros Hne. destruct op as [|topic s n| | | | |]; try done. by destruct (Hne topic s n). Qed.

(** One call of the in-memory log, whatever its arguments. *)
Lemma mem_step_any ctx op (l : InMemoryEventLog) a :
  log_rep l a → op_valid InMemoryEventLog ctx op → (abs_total a * 8 < max_alloc)%Z →
  step_agrees mem_overflows ctx op a (log_step_op ctx op l) ∧ log_rep (log_step_op ctx op l).2 (abs_step_op ctx op a).2.
Proof.
  intros Hr [Hctx Hop] Htot. apply step_agrees_ok; [|done|unfold max_alloc, max_int64 in *; lia|by split|by apply no_read_no_overflow].
  intros topic s n ->. destruct Hop as [Hs Hn]. pose proof (abs_end_total a topic) as Hend. split; [|done].
  unfold step_agrees, mem_overflows. cbn [log_step_op abs_step_op fst]. unfold abs_result.
  destruct (abs_guard ctx (read_args topic s n) a) as [err|] eqn:Hg.
  - cbn [ReadEvents InMemoryEventLog_ops]. by rewrite (mem_read_refused _ _ _ _ _ _ _ Hr Hg).
  - cbn [ReadEvents InMemoryEventLog_ops]. rewrite (mem_read_all ctx topic s n l a Hr (guard_live _ _ _ Hctx Hg) Hg Hs Hn) by lia.
    by case_bool_decide.
Qed.

(** One call of the durable log. *)
Lemma peb_step_any ctx op (l : PebbleEventLog DB) a :
  log_rep l a → op_valid (PebbleEventLog DB) ctx op → (abs_total a * 8 < max_alloc)%Z →
  step_agrees peb_overflows ctx op a (log_step_op ctx op l) ∧ log_rep (log_step_op ctx op l).2 (abs_step_op ctx op a).2.
Proof.
  intros Hr [Hctx Hop] Htot. apply step_agrees_ok; [|done|unfold max_alloc, max_int64 in *; lia|by split|by apply no_read_no_overflow].
  intros topic s n ->. destruct Hop as [Hs Hn]. split; [|done].
  unfold step_agrees, peb_overflows. cbn [log_step_op abs_step_op fst]. unfold abs_result.
  destruct (abs_guard ctx (read_args topic s n) a) as [err|] eqn:Hg.
  - cbn [ReadEvents PebbleEventLog_ops]. by rewrite (peb_read_refused _ _ _ _ _ _ _ Hr Hg).
  - cbn [ReadEvents PebbleEventLog_ops]. case_bool_decide as Hbig.
    + by destruct (peb_read_overflow ctx topic s n l a Hr Hg Hs Hbig) as [m ->].
    + destruct (peb_read_ok ctx topic s n l a Hr (guard_live _ _ _ Hctx Hg) Hg) as (evs & -> & Hevs); [unfold is_int64, max_int64 in *; lia|lia|]. done.
Qed.

(** Where the in-memory log overflows, the durable log does. *)
Lemma peb_overflows_first ctx op a :
  (abs_total a * 8 ≤ max_alloc)%Z → peb_overflows ctx op a = false → mem_overflows ctx op a = false.
Proof.
  intros Htot. destruct op as [|topic s n| | | | |]; try done. unfold peb_overflows, mem_overflows.
  destruct (abs_guard _ _ a); [done|]. intros Hn%bool_decide_eq_false. apply bool_decide_eq_false_2.
  pose proof (abs_end_total a topic). unfold max_alloc, max_int64 in *. lia.
Qed.

(** C22: the two backends are interchangeable, except for reads that overflow.
    At every point of every sequence of calls (reads with any 64-bit arguments
    among them), with contexts that do not change during a call and events the
    durable log accepts, starting on an empty store: unless the durable log
    panics, the two backends return the same result, errors included, up to the
    nil/empty distinction of the payloads they read.  The durable log panics
    exactly on a read whose arguments are valid and whose count is more than a
    slice can hold; the in-memory log panics exactly on a read whose arguments are valid,
    whose start is before the topic's end, and whose start and count add up to
    more than the largest int64. *)
Theorem backends_agree (db : DB) (ops : list (Ctx * log_op))
    (Hdb : db_contents db = ∅)
    (Hops : Forall (λ '(ctx, op), op_valid (PebbleEventLog DB) ctx op) ops)
    (Hlen : (Z.of_nat (length ops) * 8 ≤ max_alloc)%Z)
    (i : nat) (ctx : Ctx) (op : log_op) (Hi : ops !! i = Some (ctx, op)) :
  let a := abs_final (take i ops) abs_empty in
  ∃ r r', log_run ops NewInMemoryEventLog !! i = Some r ∧ log_run ops (mkPebbleLog db false) !! i = Some r' ∧
    (res_panics r = true ↔ mem_overflows ctx op a = true) ∧
    (res_panics r' = true ↔ peb_overflows ctx op a = true) ∧
    (res_panics r' = false → r ≡ r').
Proof.
  intros a.
  assert (Forall (λ '(ctx, op), op_valid InMemoryEventLog ctx op) ops) as Hops'
    by (eapply Forall_impl; [exact Hops|]; intros [ctx' op'] [? Hv]; split; [done|by destruct op' as [? []| | | | | |]]).
  destruct (run_agrees mem_overflows mem_step_any ops NewInMemoryEventLog abs_empty (mem_rep_new) Hops' ltac:(done) i ctx op Hi) as (r & Hr & Hp & Hres).
  destruct (run_agrees peb_overflows peb_step_any ops (mkPebbleLog db false) abs_empty (peb_rep_new db Hdb) Hops ltac:(done) i ctx op Hi) as (r' & Hr' & Hp' & Hres').
  exists r, r'. split_and!; [done|done|by rewrite Hp|by rewrite Hp'|]. rewrite Hp'. intros Hno.
  assert (mem_overflows ctx op a = false) as Hno'; [|by rewrite (Hres Hno'), (Hres' Hno)].
  apply (peb_overflows_first ctx op a); [|exact Hno]. subst a. pose proof (abs_total_final (take i ops) abs_empty) as Htot.
  rewrite length_take in Htot. change (abs_total abs_empty) with 0%Z in Htot. lia.
Qed.

(** C26: the durable log is durable.  After any sequence of calls, opening the
    same store again gives a log that answers further calls as the abstract
    log does from where the first sequence left it, closed or not. *)
Theorem peb_reopen (open : string → outcome DB) (path : string) (db : DB)
    (ops ops' : list (Ctx * log_op))
    (Hdb : db_contents db = ∅) (Hpath : path ≠ ""%string)
    (Hopen : open path = Ok (pdb (log_final ops (mkPebbleLog db false))))
    (Hops : Forall (λ '(ctx, op), op_ok (PebbleEventLog DB) ctx op) (ops ++ ops'))
    (Hlen : (Z.of_nat (length (ops ++ ops')) ≤ max_int64)%Z) :
  ∃ log, NewPebbleEventLog open path = Ok log ∧
    Forall2 (≡) (log_run ops' log) (abs_run ops' (mkAbsLog (abs_events (abs_final ops abs_empty)) false)).
Proof.
  apply Forall_app in Hops as [Hops Hops']. rewrite length_app in Hlen.
  destruct (log_final_refines ops (mkPebbleLog db false) abs_empty) as [Hr Htot];
    [by apply peb_rep_new|done|change (abs_total abs_empty) with 0%Z; lia|].
  unfold NewPebbleEventLog. rewrite bool_decide_eq_false_2, Hopen by done. simpl.
  eexists. split; [done|]. apply log_run_refines; [|done|].
  - by apply peb_rep_reopen.
  - change (abs_total abs_empty) with 0%Z in Htot. unfold abs_total in *. simpl in *. lia.
Qed.
End Backends.

(** ** Witnesses *)
#[local] Existing Instances map_order_id bit_codec bit_codec_laws.

Definition sample_created : Event :=
  NewEventWithHeaders 1700000000000000000 "orders.created" (Some (bytes_of_string "one")) {["k" := "v"]}.
Definition sample_paid : Event := NewEvent 1700000000000000001 "orders.paid" None.

Definition sample_ops : list (Ctx * log_op) := [
  (ctx_Background, OpAppend "orders.created" (Some sample_created));
  (ctx_Background, OpAppend "orders.paid" (Some sample_paid));
  (ctx_Background, OpAppend "orders.created" (Some sample_paid));
  (mkCtx (Some 0) context_Canceled, OpAppend "orders.created" (Some sample_paid));
  (ctx_Background, OpRead "orders.created" 0 10);
  (ctx_Background, OpRead "orders.created" (-1) 10);
  (ctx_Background, OpReplay "orders.created" 1);
  (ctx_Background, OpEnd "orders.created");
  (ctx_Background, OpStats);
  (ctx_Background, OpClose);
  (ctx_Background, OpEnd "orders.created")].

Ltac op_ok_one :=
  split; [first [left; reflexivity | right; reflexivity]
         | repeat split; unfold topic_fits, is_int64, max_int64, max_alloc; simpl; try lia].
Ltac op_ok_trace := repeat (apply Forall_cons; split; [op_ok_one|]); apply Forall_nil_2.

Lemma mem_log_refines_witness :
  Forall2 (≡) (log_run sample_ops NewInMemoryEventLog) (abs_run sample_ops abs_empty).
Proof. apply (mem_log_refines sample_ops); [op_ok_trace|unfold max_int64; simpl; lia]. Defined.

Lemma peb_log_refines_witness :
  Forall2 (≡) (log_run sample_ops (mkPebbleLog (∅ : MapDB) false)) (abs_run sample_ops abs_empty).
Proof. apply (peb_log_refines (∅ : MapDB) sample_ops); [done|op_ok_trace|unfold max_int64; simpl; lia]. Defined.

(** A read that panics on the durable log only, and one that panics on both. *)
Definition overflow_ops : list (Ctx * log_op) :=
  take 3 sample_ops ++ [(ctx_Background, OpRead "orders.created" 0 (2 ^ 50)); (ctx_Background, OpRead "orders.created" 1 max_int64)] ++ drop 3 sample_ops.

Lemma overflow_third : let a := abs_final (take 3 overflow_ops) abs_empty in
  mem_overflows ctx_Background (OpRead "orders.created" 0 (2 ^ 50)) a = false ∧
  peb_overflows ctx_Background (OpRead "orders.created" 0 (2 ^ 50)) a = true ∧
  mem_overflows ctx_Background (OpRead "orders.created" 1 max_int64) a = true ∧
  peb_overflows ctx_Background (OpRead "orders.created" 1 max_int64) a = true.
Proof. by vm_compute. Qed.

Lemma overflow_fourth : abs_final (take 4 overflow_ops) abs_empty = abs_final (take 3 overflow_ops) abs_empty.
Proof. reflexivity. Qed.

Lemma overflow_valid : Forall (λ '(ctx, op), op_valid (PebbleEventLog MapDB) ctx op) overflow_ops.
Proof. op_ok_trace. Qed.

Lemma backends_agree_witness :
  let mem := log_run overflow_ops NewInMemoryEventLog in
  let peb := log_run overflow_ops (mkPebbleLog (∅ : MapDB) false) in
  (∃ r r', mem !! 3 = Some r ∧ peb !! 3 = Some r' ∧ res_panics r ≠ true ∧ res_panics r' = true) ∧
  (∃ r r', mem !! 4 = Some r ∧ peb !! 4 = Some r' ∧ res_panics r = true ∧ res_panics r' = true) ∧
  (∃ r r', mem !! 10 = Some r ∧ peb !! 10 = Some r' ∧ r ≡ r').
Proof.
  pose proof (backends_agree (∅ : MapDB) overflow_ops eq_refl overflow_valid ltac:(done)) as H.
  destruct overflow_third as (H1 & H2 & H3 & H4). split; [|split].
  - destruct (H 3 ctx_Background (OpRead "orders.created" 0 (2 ^ 50)) eq_refl) as (r & r' & Hm & Hp & [Hr _] & [_ Hr'] & _).
    exists r, r'. split; [exact Hm|]. split; [exact Hp|]. split; [|exact (Hr' H2)].
    intros Ht. pose proof (eq_trans (eq_sym H1) (Hr Ht)). discriminate.
  - destruct (H 4 ctx_Background (OpRead "orders.created" 1 max_int64) eq_refl) as (r & r' & Hm & Hp & [_ Hr] & [_ Hr'] & _).
    rewrite overflow_fourth in Hr, Hr'.
    exists r, r'. split; [exact Hm|]. split; [exact Hp|]. split; [exact (Hr H3)|exact (Hr' H4)].
  - destruct (H 10 ctx_Background OpStats eq_refl) as (r & r' & Hm & Hp & _ & [Hr' _] & Heq).
    exists r, r'. split; [exact Hm|]. split; [exact Hp|]. apply Heq. destruct (res_panics r'); [|reflexivity].
    specialize (Hr' eq_refl). discriminate.
Defined.

Definition sample_store : MapDB := pdb (log_final sample_ops (mkPebbleLog (∅ : MapDB) false)).

Lemma peb_reopen_witness :
  ∃ log : PebbleEventLog MapDB, NewPebbleEventLog (λ _, Ok sample_store) "data" = Ok log ∧
    Forall2 (≡) (log_run sample_ops log)
      (abs_run sample_ops (mkAbsLog (abs_events (abs_final sample_ops abs_empty)) false)).
Proof.
  apply (peb_reopen (λ _, Ok sample_store) "data" (∅ : MapDB) sample_ops sample_ops);
    [done|done|done|op_ok_trace|unfold max_int64; simpl; lia].
Defined.

Example sample_run_offsets :
  (λ r, match r with ResAppend (Ok e) => Some (Offset e) | ResEnd (Ok n) => Some n | _ => None end)
    <$> log_run sample_ops (mkPebbleLog (∅ : MapDB) false) =
  [Some 0; Some 0; Some 1; None; None; None; None; Some 2; None; None; None]%Z.
Proof. vm_compute. reflexivity. Qed.
