(* ===== verification/Contract.v ===== *)
(** * The event-log contract ([internal/eventlog/eventlogtest/contract.go])

    The executable contract that every event log must pass, as test programs
    over the [EventLog] interface, and the theorem that an implementation of the
    abstract log passes it whatever order its concurrent part runs in.

    A test is a computation on the log under test that ends normally or at its
    first [t.Fatalf]; a panic of the log ends it as well.  Events are created
    with a reading of the clock, here a function of their payload, which is
    different for every event a test creates. *)
From S2P Require Import Prelude EventLog MemoryLog PebbleKeys PebbleStorage PebbleLog PebbleSpec LogTraces.

#[local] Set Default Proof Using "Type*".

(** ** Tests *)
Inductive verdict (A : Type) := Pass (a : A) | Fatal (msg : string).
Arguments Pass {A}.
Arguments Fatal {A}.

Definition T (L A : Type) : Type := L → verdict A * L.

#[export] Instance T_ret L : MRet (T L) := λ A x l, (Pass x, l).
#[export] Instance T_bind L : MBind (T L) := λ A B f m l,
  match m l with (Pass x, l) => f x l | (Fatal msg, l) => (Fatal msg, l) end.

Definition Fatalf {L A} (msg : string) : T L A := λ l, (Fatal msg, l).

(** [if !ok { t.Fatalf(msg) }] *)
Definition require {L} (ok : bool) (msg : string) : T L () := if ok then mret () else Fatalf msg.

(** A deferred call: made however the test ends; a failure of either fails it. *)
Definition deferred {L} (d m : T L ()) : T L () := λ l,
  let '(v, l) := m l in
  let '(v', l) := d l in
  (match v with Fatal msg => Fatal msg | Pass _ => v' end, l).

(** A Go value-and-error pair; a panic ends the test. *)
Definition lift {L A} (r : outcome A) : T L (A + error) :=
  match r with Ok a => mret (inl a) | Err err => mret (inr err) | Panic m => Fatalf ("panic: " +:+ m) end.

Section Contract.
Context {L : Type} `{!EventLog L} (clock : string → Z).

(** ** The interface, call by call *)
Definition log_AppendEvent (ctx : Ctx) (topic : string) (event : option Event) : T L (Event + error) := λ l,
  let '(r, _, l) := AppendEvent ctx topic event l in lift r l.
Definition log_ReadEvents (ctx : Ctx) (topic : string) (startOffset maxCount : Z) : T L (list Event + error) := λ l,
  lift (ReadEvents ctx topic startOffset maxCount l).1 l.
Definition log_GetTopicEndOffset (ctx : Ctx) (topic : string) : T L (Z + error) := λ l,
  lift (GetTopicEndOffset ctx topic l).1 l.
Definition log_GetStatistics (ctx : Ctx) : T L (EventLogStatistics + error) := λ l, lift (GetStatistics ctx l).1 l.
Definition log_Compact (ctx : Ctx) : T L (() + error) := λ l, lift (Compact ctx l).1 l.
Definition log_Close : T L (() + error) := λ l, let '(r, l) := CloseLog l in lift r l.
(** Ranging over the event channel and then receiving from the error channel. *)
Definition log_ReplayEvents (ctx : Ctx) (topic : string) (startOffset : Z) : T L (list Event * option error) := λ l,
  let '(events, r) := (ReplayEvents ctx topic startOffset l).1 in
  match r with
  | Ok _ => (Pass (events, None), l)
  | Err err => (Pass (events, Some err), l)
  | Panic m => (Fatal ("panic: " +:+ m), l)
  end.

(** ** Helpers *)
Definition contract_event (topic payload : string) : Event :=
  NewEvent (clock payload) topic (Some (bytes_of_string payload)).

(** [event, err := ..; if err != nil { t.Fatalf("..: %v", err) }] *)
Definition must {A} (what : string) (r : A + error) : T L A :=
  match r with inl a => mret a | inr err => Fatalf (what +:+ ": " +:+ error_String err) end.

Definition appendEvent (ctx : Ctx) (topic payload : string) : T L Event :=
  r ← log_AppendEvent ctx topic (Some (contract_event topic payload)); must "AppendEvent failed" r.

Definition collectReplay (ctx : Ctx) (topic : string) (startOffset : Z) : T L (list Event) :=
  '(events, err) ← log_ReplayEvents ctx topic startOffset;
  match err with Some err => Fatalf ("ReplayEvents returned error: " +:+ error_String err) | None => mret events end.

Definition firstReplayError (ctx : Ctx) (topic : string) (startOffset : Z) : T L (option error) :=
  '(_, err) ← log_ReplayEvents ctx topic startOffset; mret err.

Fixpoint assertOffsets_loop (i : Z) (events : list Event) (want : list Z) : T L () :=
  match events, want with
  | event :: events, w :: want =>
      _ ← require (bool_decide (Offset event = w)) ("Expected event " +:+ pretty i +:+ " offset " +:+ pretty w +:+
            ", got " +:+ pretty (Offset event));
      assertOffsets_loop (i + 1) events want
  | _, _ => mret ()
  end.

Definition assertOffsets (events : list Event) (want : list Z) : T L () :=
  _ ← require (bool_decide (length events = length want)) ("Expected " +:+ pretty (length want) +:+ " events, got " +:+
        pretty (length events));
  assertOffsets_loop 0 events want.

Definition closeLog : T L () :=
  r ← log_Close;
  match r with inl _ => mret () | inr err => Fatalf ("Close failed: " +:+ error_String err) end.

(** [if _, err := ..; err == nil { t.Fatal(msg) }] and the same for a lone error. *)
Definition must_fail {A} (msg : string) (r : A + error) : T L () :=
  match r with inr _ => mret () | inl _ => Fatalf msg end.
Definition must_error (msg : string) (err : option error) : T L () :=
  match err with Some _ => mret () | None => Fatalf msg end.

(** [if _, err := ..; !errors.Is(err, context.Canceled) { t.Fatalf(..) }] *)
Definition must_be_canceled {A} (what : string) (r : A + error) : T L () :=
  match r with
  | inr err => require (errors_Is err "context.Canceled") ("Expected " +:+ what +:+ " canceled error, got " +:+ error_String err)
  | inl _ => Fatalf ("Expected " +:+ what +:+ " canceled error, got <nil>")
  end.

(** [for i := 0; i < n; i++ { appendEvent(.., fmt.Sprintf("order-%d", i)) }] *)
Definition append_orders (ctx : Ctx) (n : nat) : T L () :=
  foldr (λ i rest, _ ← appendEvent ctx "orders.created" ("order-" +:+ pretty i); rest) (mret ()) (seq 0 n).

Definition expect_int (what : string) (want got : Z) : T L () :=
  require (bool_decide (got = want)) ("Expected " +:+ what +:+ pretty want +:+ ", got " +:+ pretty got).

(** ** [RunContract] *)
Definition append_assigns_per_topic_offsets : T L () := deferred closeLog (
  let ctx := ctx_Background in
  first ← appendEvent ctx "orders.created" "order-1";
  second ← appendEvent ctx "orders.created" "order-2";
  otherTopic ← appendEvent ctx "users.created" "user-1";
  _ ← expect_int "first orders offset " 0 (Offset first);
  _ ← expect_int "second orders offset " 1 (Offset second);
  expect_int "first users offset " 0 (Offset otherTopic)).

Definition read_events_by_offset_and_limit : T L () := deferred closeLog (
  let ctx := ctx_Background in
  _ ← append_orders ctx 5;
  r ← log_ReadEvents ctx "orders.created" 2 2;
  events ← must "ReadEvents failed" r;
  _ ← assertOffsets events [2; 3]%Z;
  r ← log_ReadEvents ctx "orders.created" 10 5;
  events ← must "ReadEvents beyond end failed" r;
  _ ← require (bool_decide (length events = 0)) ("Expected no events beyond end, got " +:+ pretty (length events));
  r ← log_ReadEvents ctx "orders.created" 0 0;
  events ← must "ReadEvents with zero max count failed" r;
  require (bool_decide (length events = 0)) ("Expected zero max count to return no events, got " +:+ pretty (length events))).

Definition replay_events_from_offset : T L () := deferred closeLog (
  let ctx := ctx_Background in
  _ ← append_orders ctx 4;
  events ← collectReplay ctx "orders.created" 1;
  assertOffsets events [1; 2; 3]%Z).

Definition statistics_report_topic_counts : T L () := deferred closeLog (
  let ctx := ctx_Background in
  _ ← appendEvent ctx "orders.created" "order-1";
  _ ← appendEvent ctx "orders.created" "order-2";
  _ ← appendEvent ctx "users.created" "user-1";
  r ← log_GetStatistics ctx;
  stats ← must "GetStatistics failed" r;
  let count topic := default 0%Z (TopicCounts stats !! topic) in
  _ ← require (bool_decide (TotalEvents stats = 3)%Z) ("Expected 3 total events, got " +:+ pretty (TotalEvents stats));
  _ ← require (bool_decide (TopicCount stats = 2)%Z) ("Expected 2 topics, got " +:+ pretty (TopicCount stats));
  _ ← require (bool_decide (count "orders.created" = 2)%Z) ("Expected 2 orders.created events, got " +:+ pretty (count "orders.created"));
  require (bool_decide (count "users.created" = 1)%Z) ("Expected 1 users.created event, got " +:+ pretty (count "users.created"))).

Definition invalid_inputs_return_errors : T L () := deferred closeLog (
  let ctx := ctx_Background in
  let validEvent := contract_event "orders.created" "order-1" in
  r ← log_AppendEvent ctx "" (Some validEvent); _ ← must_fail "Expected AppendEvent to reject empty topic" r;
  r ← log_AppendEvent ctx "orders.created" None; _ ← must_fail "Expected AppendEvent to reject nil event" r;
  r ← log_ReadEvents ctx "" 0 1; _ ← must_fail "Expected ReadEvents to reject empty topic" r;
  r ← log_ReadEvents ctx "orders.created" (-1) 1; _ ← must_fail "Expected ReadEvents to reject negative offset" r;
  r ← log_ReadEvents ctx "orders.created" 0 (-1); _ ← must_fail "Expected ReadEvents to reject negative max count" r;
  r ← log_GetTopicEndOffset ctx ""; _ ← must_fail "Expected GetTopicEndOffset to reject empty topic" r;
  err ← firstReplayError ctx "" 0; _ ← must_error "Expected ReplayEvents to reject empty topic" err;
  err ← firstReplayError ctx "orders.created" (-1); must_error "Expected ReplayEvents to reject negative offset" err).

(** [context.WithCancel] followed by [cancel()]. *)
Definition ctx_Canceled : Ctx := mkCtx (Some 0) context_Canceled.

Definition context_cancellation_returns_error : T L () := deferred closeLog (
  let ctx := ctx_Canceled in
  r ← log_AppendEvent ctx "orders.created" (Some (contract_event "orders.created" "order-1")); _ ← must_be_canceled "AppendEvent" r;
  r ← log_ReadEvents ctx "orders.created" 0 1; _ ← must_be_canceled "ReadEvents" r;
  r ← log_GetTopicEndOffset ctx "orders.created"; _ ← must_be_canceled "GetTopicEndOffset" r;
  r ← log_GetStatistics ctx; must_be_canceled "GetStatistics" r).

(** The 200 goroutines: [schedule] is the order in which their appends take the
    log's lock, [arrival] the order in which they send what they got. *)
Definition totalEvents : nat := 200.

Fixpoint run_appends (ctx : Ctx) (schedule : list nat) : T L (list (nat * option error)) :=
  match schedule with
  | [] => mret []
  | i :: schedule =>
    r ← log_AppendEvent ctx "orders.created" (Some (contract_event "orders.created" ("order-" +:+ pretty i)));
    rest ← run_appends ctx schedule;
    mret ((i, match r with inl _ => None | inr err => Some err end) :: rest)
  end.

(** [for i := 0; i < totalEvents; i++ { if err := <-errs; err != nil { .. } }] *)
Fixpoint receive_errs (i : Z) (errs : list (option error)) : T L () :=
  match errs with
  | [] => mret ()
  | err :: errs =>
    _ ← match err with Some err => Fatalf ("AppendEvent " +:+ pretty i +:+ " failed: " +:+ error_String err) | None => mret () end;
    receive_errs (i + 1) errs
  end.

Fixpoint sorted_offsets_loop (i : Z) (offsets : list Z) : T L () :=
  match offsets with
  | [] => mret ()
  | offset :: offsets =>
    _ ← require (bool_decide (offset = i)) ("Expected offset " +:+ pretty i +:+ ", got " +:+ pretty offset);
    sorted_offsets_loop (i + 1) offsets
  end.

Definition concurrent_appends_keep_unique_offsets (schedule arrival : list nat) : T L () := deferred closeLog (
  let ctx := ctx_Background in
  results ← run_appends ctx schedule;
  let errs := (λ i, default None (list_to_map (M := gmap nat (option error)) results !! i)) <$> arrival in
  _ ← receive_errs 0 errs;
  r ← log_ReadEvents ctx "orders.created" 0 (Z.of_nat totalEvents);
  events ← must "ReadEvents failed" r;
  _ ← require (bool_decide (length events = totalEvents)) ("Expected " +:+ pretty totalEvents +:+ " events, got " +:+ pretty (length events));
  sorted_offsets_loop 0 (merge_sort Z.le (Offset <$> events))).

Definition closed_log_rejects_operations : T L () :=
  let ctx := ctx_Background in
  _ ← appendEvent ctx "orders.created" "order-1";
  _ ← closeLog;
  r ← log_AppendEvent ctx "orders.created" (Some (contract_event "orders.created" "order-2")); _ ← must_fail "Expected AppendEvent to fail after Close" r;
  r ← log_ReadEvents ctx "orders.created" 0 1; _ ← must_fail "Expected ReadEvents to fail after Close" r;
  r ← log_GetTopicEndOffset ctx "orders.created"; _ ← must_fail "Expected GetTopicEndOffset to fail after Close" r;
  r ← log_GetStatistics ctx; _ ← must_fail "Expected GetStatistics to fail after Close" r;
  err ← firstReplayError ctx "orders.created" 0; _ ← must_error "Expected ReplayEvents to fail after Close" err;
  r ← log_Compact ctx; must_fail "Expected Compact to fail after Close" r.

(** [t.Run] for every subtest, each on a log of its own. *)
Definition contract_tests (schedule arrival : list nat) : list (string * T L ()) := [
  ("/append_assigns_per_topic_offsets", append_assigns_per_topic_offsets);
  ("/read_events_by_offset_and_limit", read_events_by_offset_and_limit);
  ("/replay_events_from_offset", replay_events_from_offset);
  ("/statistics_report_topic_counts", statistics_report_topic_counts);
  ("/invalid_inputs_return_errors", invalid_inputs_return_errors);
  ("/context_cancellation_returns_error", context_cancellation_returns_error);
  ("/concurrent_appends_keep_unique_offsets", concurrent_appends_keep_unique_offsets schedule arrival);
  ("/closed_log_rejects_operations", closed_log_rejects_operations)]%string.

Definition run_test (factory : verdict L) (test : T L ()) : verdict () :=
  match factory with Pass l => (test l).1 | Fatal msg => Fatal msg end.

Definition RunContract (name : string) (factory : string → verdict L) (schedule arrival : list nat) : list (string * verdict ()) :=
  (λ '(subtest, test), (name +:+ subtest, run_test (factory (name +:+ subtest)) test)) <$> contract_tests schedule arrival.

(** ** [RunDurabilityContract] *)
Definition reopened (reopen : L → verdict L) : T L () := λ l,
  match reopen l with Pass l => (Pass (), l) | Fatal msg => (Fatal msg, l) end.

Definition reopen_preserves_events_and_offsets (reopen : L → verdict L) : T L () :=
  let ctx := ctx_Background in
  _ ← appendEvent ctx "orders.created" "order-1";
  _ ← appendEvent ctx "orders.created" "order-2";
  _ ← appendEvent ctx "users.created" "user-1";
  _ ← closeLog;
  _ ← reopened reopen;
  deferred closeLog (
    r ← log_ReadEvents ctx "orders.created" 0 10;
    events ← must "ReadEvents after reopen failed" r;
    _ ← assertOffsets events [0; 1]%Z;
    next ← appendEvent ctx "orders.created" "order-3";
    _ ← require (bool_decide (Offset next = 2)%Z) ("Expected reopened log to continue at offset 2, got " +:+ pretty (Offset next));
    r ← log_ReadEvents ctx "users.created" 0 10;
    userEvents ← must "ReadEvents for users after reopen failed" r;
    assertOffsets userEvents [0]%Z).

Definition RunDurabilityContract (name : string) (factory : string → verdict (L * (L → verdict L))) : list (string * verdict ()) :=
  let subtest := name +:+ "/reopen_preserves_events_and_offsets" in
  [(subtest, match factory subtest with
             | Pass (l, reopen) => (reopen_preserves_events_and_offsets reopen l).1
             | Fatal msg => Fatal msg
             end)].
End Contract.
