(* ===== verification/ContractSpec.v ===== *)
(** * Every log that implements the abstract log passes the contract

    A small program logic for the tests of [Contract.v]: [passes test a Q] says
    that on any log that stands for [a] the test ends normally, with a result
    and a log described by [Q].  One rule per call of the interface, from the
    laws of [EventLogSpec]. *)
From S2P Require Import Prelude EventLog MemoryLog PebbleKeys PebbleStorage PebbleLog PebbleSpec LogTraces Contract.

#[local] Set Default Proof Using "Type*".

(** The events the tests append fit a log. *)
Definition contract_topic (topic : string) : Prop := topic = "orders.created"%string ∨ topic = "users.created"%string.

Section Rules.
Context {L : Type} `{!EventLog L, !EventLogSpec L} (clock : string → Z).
Context (Hacc : ∀ topic payload, contract_topic topic → log_accepts topic (contract_event clock topic payload)).

Definition passes {A} (test : T L A) (a : AbsLog) (Q : A → AbsLog → Prop) : Prop :=
  ∀ l, log_rep l a → ∃ x l' a', test l = (Pass x, l') ∧ log_rep l' a' ∧ Q x a'.

Lemma passes_ret {A} (x : A) a (Q : A → AbsLog → Prop) : Q x a → passes (mret x) a Q.
Proof using Type. intros HQ l Hl. by exists x, l, a. Qed.

Lemma passes_bind {A B} (m : T L A) (f : A → T L B) a R Q :
  passes m a R → (∀ x a', R x a' → passes (f x) a' Q) → passes (m ≫= f) a Q.
Proof using Type.
  intros Hm Hf l Hl. destruct (Hm l Hl) as (x & l1 & a1 & Hrun & Hl1 & HR).
  unfold mbind, T_bind. rewrite Hrun. exact (Hf x a1 HR l1 Hl1).
Qed.

Lemma passes_weaken {A} (m : T L A) a (Q Q' : A → AbsLog → Prop) :
  passes m a Q → (∀ x a', Q x a' → Q' x a') → passes m a Q'.
Proof using Type. intros Hm HQ l Hl. destruct (Hm l Hl) as (x & l' & a' & ? & ? & ?). exists x, l', a'. eauto. Qed.

Lemma passes_require ok msg a (Q : () → AbsLog → Prop) : ok = true → Q () a → passes (require ok msg) a Q.
Proof using Type. intros -> HQ. by apply passes_ret. Qed.

Lemma passes_deferred d (m : T L ()) a R (Q : () → AbsLog → Prop) :
  passes m a R → (∀ x a', R x a' → passes d a' Q) → passes (deferred d m) a Q.
Proof using Type.
  intros Hm Hd l Hl. destruct (Hm l Hl) as ([] & l1 & a1 & Hrun & Hl1 & HR).
  destruct (Hd () a1 HR l1 Hl1) as ([] & l2 & a2 & Hrun2 & Hl2 & HQ). exists (), l2, a2.
  unfold deferred. by rewrite Hrun, Hrun2.
Qed.

(** *** The calls *)
Lemma live_guard args a : args = None → abs_closed a = false → abs_guard ctx_Background args a = None.
Proof using Type. intros -> Ha. unfold abs_guard. rewrite poll_live by done. by rewrite Ha. Qed.

Lemma passes_append topic payload a (Q : Event → AbsLog → Prop) :
  abs_closed a = false → contract_topic topic → (abs_end a topic < max_int64)%Z →
  Q (WithOffset (contract_event clock topic payload) (abs_end a topic)) (abs_push a topic (contract_event clock topic payload)) →
  passes (appendEvent clock ctx_Background topic payload) a Q.
Proof using Hacc.
  intros Ha Ht Hend HQ l Hl. unfold appendEvent, mbind, T_bind, log_AppendEvent.
  destruct (append_ok ctx_Background topic (contract_event clock topic payload) l a Hl) as (l' & -> & Hl'); [|by apply Hacc|done|].
  - apply live_guard; [|done]. unfold append_args. by destruct Ht as [->| ->].
  - cbn. by eexists _, l', _.
Qed.

Lemma passes_read topic s n what a (Q : list Event → AbsLog → Prop) :
  abs_closed a = false → contract_topic topic → (0 ≤ s)%Z → (0 ≤ n)%Z → (s + n ≤ max_int64)%Z → (n * 8 ≤ max_alloc)%Z →
  (abs_end a topic ≤ max_int64)%Z →
  (∀ evs, evs ≡ abs_slice a topic s n → Q evs a) →
  passes (r ← log_ReadEvents ctx_Background topic s n; must what r) a Q.
Proof using Type.
  intros Ha Ht Hs Hn Hsum Halloc Hend HQ l Hl. unfold mbind, T_bind, log_ReadEvents.
  destruct (read_ok ctx_Background topic s n l a Hl) as (evs & -> & Hevs); try done.
  - apply live_guard; [|done]. unfold read_args. rewrite !bool_decide_eq_false_2; [done|lia|lia|by destruct Ht as [->| ->]].
  - cbn. exists evs, l, a. eauto.
Qed.

Lemma passes_replay topic s a (Q : list Event → AbsLog → Prop) :
  abs_closed a = false → contract_topic topic → (0 ≤ s)%Z → is_int64 s → (abs_end a topic ≤ max_int64)%Z →
  (∀ evs, evs ≡ drop (Z.to_nat s) (abs_topic a topic) → Q evs a) →
  passes (collectReplay ctx_Background topic s) a Q.
Proof using Type.
  intros Ha Ht Hs Hint Hend HQ l Hl. unfold collectReplay, mbind, T_bind, log_ReplayEvents.
  destruct (replay_ok ctx_Background topic s l a Hl) as (evs & -> & Hevs); try done.
  - apply live_guard; [|done]. unfold replay_args. rewrite !bool_decide_eq_false_2; [done|lia|by destruct Ht as [->| ->]].
  - cbn. exists evs, l, a. eauto.
Qed.

Lemma passes_stats what a (Q : EventLogStatistics → AbsLog → Prop) :
  abs_closed a = false → (abs_total a ≤ max_int64)%Z → Q (abs_statistics a) a →
  passes (r ← log_GetStatistics ctx_Background; must what r) a Q.
Proof using Type.
  intros Ha Htot HQ l Hl. unfold mbind, T_bind, log_GetStatistics.
  rewrite (stats_ok ctx_Background l a Hl); [|done|by apply live_guard|done]. cbn. by eexists _, l, a.
Qed.

Lemma passes_close a (Q : () → AbsLog → Prop) : Q () (mkAbsLog (abs_events a) true) → passes closeLog a Q.
Proof using Type.
  intros HQ l Hl. destruct (close_spec l a Hl) as (l' & Hc & Hl'). unfold closeLog, log_Close, mbind, T_bind.
  rewrite Hc. cbn. by eexists (), l', _.
Qed.

(** *** Calls that are refused, with the error of the first guard that fails *)
Section Refused.
Context (ctx : Ctx) (a : AbsLog) (err : error).

Lemma passes_append_refused topic event (Q : Event + error → AbsLog → Prop) :
  abs_guard ctx (append_args topic event) a = Some err → Q (inr err) a → passes (log_AppendEvent ctx topic event) a Q.
Proof using Type.
  intros Hg HQ l Hl. unfold log_AppendEvent. rewrite (append_refused _ _ _ _ _ _ Hl Hg). by eexists _, l, a.
Qed.

Lemma passes_read_refused topic s n (Q : list Event + error → AbsLog → Prop) :
  abs_guard ctx (read_args topic s n) a = Some err → Q (inr err) a → passes (log_ReadEvents ctx topic s n) a Q.
Proof using Type.
  intros Hg HQ l Hl. unfold log_ReadEvents. rewrite (read_refused _ _ _ _ _ _ _ Hl Hg). by eexists _, l, a.
Qed.

Lemma passes_end_refused topic (Q : Z + error → AbsLog → Prop) :
  abs_guard ctx (topic_args topic) a = Some err → Q (inr err) a → passes (log_GetTopicEndOffset ctx topic) a Q.
Proof using Type.
  intros Hg HQ l Hl. unfold log_GetTopicEndOffset. rewrite (end_refused _ _ _ _ _ Hl Hg). by eexists _, l, a.
Qed.

Lemma passes_replay_refused topic s (Q : option error → AbsLog → Prop) :
  abs_guard ctx (replay_args topic s) a = Some err → Q (Some err) a → passes (firstReplayError ctx topic s) a Q.
Proof using Type.
  intros Hg HQ l Hl. unfold firstReplayError, mbind, T_bind, log_ReplayEvents.
  rewrite (replay_refused _ _ _ _ _ _ Hl Hg). by eexists _, l, a.
Qed.

Lemma passes_stats_refused (Q : EventLogStatistics + error → AbsLog → Prop) :
  abs_guard ctx None a = Some err → Q (inr err) a → passes (log_GetStatistics ctx) a Q.
Proof using Type.
  intros Hg HQ l Hl. unfold log_GetStatistics. rewrite (stats_refused _ _ _ _ Hl Hg). by eexists _, l, a.
Qed.

Lemma passes_compact_refused (Q : () + error → AbsLog → Prop) :
  abs_guard ctx None a = Some err → Q (inr err) a → passes (log_Compact ctx) a Q.
Proof using Type.
  intros Hg HQ l Hl. unfold log_Compact. rewrite (compact_spec _ _ _ Hl), Hg. by eexists _, l, a.
Qed.
End Refused.
(** *** Sequencing *)
Lemma passes_then {A B} (m : T L A) (f : A → T L B) a Q :
  passes m a (λ x a', passes (f x) a' Q) → passes (m ≫= f) a Q.
Proof using Type. intros Hm. by eapply passes_bind. Qed.

Lemma passes_assoc {A B C} (m : T L A) (f : A → T L B) (g : B → T L C) a Q :
  passes ((m ≫= f) ≫= g) a Q → passes (m ≫= λ x, f x ≫= g) a Q.
Proof using Type.
  intros H l Hl. specialize (H l Hl). unfold mbind, T_bind in *. by destruct (m l) as [[x|msg] l'].
Qed.

(** *** Assertions *)
Lemma offsets_equiv (evs evs' : list Event) : evs ≡ evs' → Offset <$> evs = Offset <$> evs'.
Proof using Type.
  intros H. apply list_equiv_Forall2 in H. induction H as [|e e' evs evs' He _ IH]; [done|].
  cbn. by rewrite IH, (Offset_proper _ _ He).
Qed.

Lemma passes_assertOffsets (evs : list Event) want a (Q : () → AbsLog → Prop) :
  Offset <$> evs = want → Q () a → passes (assertOffsets evs want) a Q.
Proof using Type.
  intros <- HQ. unfold assertOffsets. apply passes_then, passes_require.
  { apply bool_decide_eq_true_2. by rewrite length_fmap. }
  generalize 0%Z. induction evs as [|e evs IH]; intros i; [by apply passes_ret|].
  cbn [fmap list_fmap assertOffsets_loop]. apply passes_then, passes_require; [by apply bool_decide_eq_true_2|].
  apply IH.
Qed.

Lemma passes_sorted n i a (Q : () → AbsLog → Prop) : Q () a → passes (sorted_offsets_loop i (seqZ i (Z.of_nat n))) a Q.
Proof using Type.
  intros HQ. revert i. induction n as [|n IH]; intros i; [by apply passes_ret|].
  rewrite seqZ_cons by lia. cbn [sorted_offsets_loop]. apply passes_then, passes_require; [by apply bool_decide_eq_true_2|].
  replace (Z.pred (Z.of_nat (S n))) with (Z.of_nat n) by lia. replace (i + 1)%Z with (Z.succ i) by lia. apply IH.
Qed.

(** A list of offsets in order is left alone by the sort. *)
Lemma seqZ_sorted i n : StronglySorted Z.le (seqZ i (Z.of_nat n)).
Proof using Type.
  revert i. induction n as [|n IH]; intros i; [constructor|]. rewrite seqZ_cons by lia.
  replace (Z.pred (Z.of_nat (S n))) with (Z.of_nat n) by lia. constructor; [apply IH|]. apply Forall_seqZ. lia.
Qed.

Lemma sort_seqZ i n : merge_sort Z.le (seqZ i (Z.of_nat n)) = seqZ i (Z.of_nat n).
Proof using Type.
  apply (StronglySorted_unique Z.le); [apply (StronglySorted_merge_sort Z.le)|apply seqZ_sorted|apply merge_sort_Permutation].
Qed.

(** *** The concurrent appends, in any order *)
Definition order_event (i : nat) : Event := contract_event clock "orders.created" ("order-" +:+ pretty i).
Definition push_orders (a : AbsLog) (schedule : list nat) : AbsLog :=
  foldl (λ a i, abs_push a "orders.created" (order_event i)) a schedule.

Lemma push_orders_end a schedule :
  abs_closed (push_orders a schedule) = abs_closed a ∧
  abs_end (push_orders a schedule) "orders.created" = (abs_end a "orders.created" + Z.of_nat (length schedule))%Z.
Proof using Type.
  revert a. induction schedule as [|i schedule IH]; intros a; [cbn; split; [done|lia]|].
  cbn [push_orders foldl]. fold (push_orders (abs_push a "orders.created" (order_event i)) schedule).
  destruct (IH (abs_push a "orders.created" (order_event i))) as [-> ->]. rewrite abs_end_push. cbn [length abs_closed abs_push].
  split; [done|lia].
Qed.

Lemma passes_run_appends schedule a (Q : list (nat * option error) → AbsLog → Prop) :
  abs_closed a = false → (abs_end a "orders.created" + Z.of_nat (length schedule) ≤ max_int64)%Z →
  Q ((λ i, (i, None)) <$> schedule) (push_orders a schedule) → passes (run_appends clock ctx_Background schedule) a Q.
Proof using All.
  revert a Q. induction schedule as [|i schedule IH]; intros a Q Ha Hend HQ; [by apply passes_ret|].
  cbn [run_appends]. cbn [length] in Hend. intros l Hl. unfold mbind at 1, T_bind at 1, log_AppendEvent.
  destruct (append_ok ctx_Background "orders.created" (order_event i) l a Hl) as (l' & Heq & Hl');
    [by apply live_guard|apply Hacc; by left|lia|]. fold (order_event i). rewrite Heq. cbn [lift mret T_ret].
  destruct (IH (abs_push a "orders.created" (order_event i)) (λ rest a', Q ((i, None) :: rest) a')) with (l := l')
    as (x & l2 & a2 & Hrun & Hl2 & HQ2); [done|rewrite abs_end_push; lia|exact HQ|done|].
  unfold mbind, T_bind. rewrite Hrun. cbn. by eexists _, l2, a2.
Qed.

Lemma passes_receive_errs i (errs : list (option error)) a (Q : () → AbsLog → Prop) :
  Forall (λ err, err = None) errs → Q () a → passes (receive_errs i errs) a Q.
Proof using Type.
  intros Herrs HQ. revert i. induction Herrs as [|err errs -> _ IH]; intros i; [by apply passes_ret|].
  cbn [receive_errs]. apply passes_then, passes_ret, IH.
Qed.

(** All offsets of a topic, in order. *)
Lemma topic_offsets a topic : abs_wf a → Offset <$> abs_topic a topic = seqZ 0 (abs_end a topic).
Proof using Type.
  intros [Hwf _]. apply list_eq. intros i. rewrite list_lookup_fmap. unfold abs_end, abs_topic in *.
  destruct (abs_events a !! topic) as [evs|] eqn:Ht; cbn [default from_option id]; [|done].
  destruct (evs !! i) as [e|] eqn:He; cbn.
  - symmetry. rewrite (Hwf _ _ _ _ Ht He). apply lookup_seqZ. split; [lia|]. apply lookup_lt_Some in He. lia.
  - symmetry. apply lookup_seqZ_ge. apply lookup_ge_None in He. lia.
Qed.

Lemma push_orders_wf a schedule : abs_wf a → abs_wf (push_orders a schedule).
Proof using Type.
  revert a. induction schedule as [|i schedule IH]; intros a Hwf; [done|]. apply IH. by apply abs_wf_push.
Qed.

Lemma concurrent_passes schedule arrival :
  length schedule = totalEvents →
  passes (concurrent_appends_keep_unique_offsets clock schedule arrival) abs_empty (λ _ _, True).
Proof using All.
  intros Hlen. unfold concurrent_appends_keep_unique_offsets.
  apply (passes_deferred _ _ _ (λ _ _, True)); [|by intros; apply passes_close].
  apply passes_then, passes_run_appends; [done|rewrite Hlen; by vm_compute|].
  destruct (push_orders_end abs_empty schedule) as [Hclosed Hend].
  assert (abs_end (push_orders abs_empty schedule) "orders.created" = Z.of_nat totalEvents) as Hend' by (rewrite Hend, Hlen; done).
  apply passes_then, passes_receive_errs.
  { apply Forall_fmap, Forall_true. intros i. cbn. destruct (_ !! i) as [err|] eqn:He; [|done].
    apply elem_of_list_to_map_2, list_elem_of_fmap in He as (j & [= -> ->] & _). done. }
  apply passes_assoc, passes_then, passes_read; [by rewrite Hclosed|by left|done|done|by vm_compute|by vm_compute|by rewrite Hend'|].
  intros evs Hevs%offsets_equiv. unfold abs_slice in Hevs.
  assert (Offset <$> evs = seqZ 0 (Z.of_nat totalEvents)) as Hoff.
  { rewrite Hevs, Nat2Z.id. change (Z.to_nat 0) with 0. rewrite drop_0, take_ge.
    - by rewrite topic_offsets, Hend' by apply push_orders_wf, abs_wf_empty.
    - unfold abs_end in Hend'. lia. }
  apply passes_then, passes_require.
  { apply bool_decide_eq_true_2. rewrite <-(length_fmap Offset), Hoff, length_seqZ. lia. }
  rewrite Hoff, sort_seqZ. by apply passes_sorted.
Qed.

(** *** The other subtests *)
#[local] Ltac close_deferred := apply (passes_deferred _ _ _ (λ _ _, True)); [|by intros; apply passes_close].
#[local] Ltac do_append := apply passes_then, passes_append; [done|by (left + right)|by vm_compute|].
#[local] Ltac do_read evs :=
  apply passes_assoc, passes_then, passes_read; [done|by (left + right)|done|done|by vm_compute|by vm_compute|by vm_compute|];
  intros evs ?%offsets_equiv.
#[local] Ltac do_require := apply passes_then, passes_require; [by vm_compute|].
#[local] Ltac offsets := etrans; [eassumption|]; by vm_compute.
#[local] Ltac do_refused rule := apply passes_then; eapply rule; [reflexivity|]; cbn; (apply passes_then, passes_ret || apply passes_ret).

Lemma append_assigns_passes : passes (append_assigns_per_topic_offsets clock) abs_empty (λ _ _, True).
Proof using All. close_deferred. do 3 do_append. do 2 do_require. by apply passes_require; [by vm_compute|]. Qed.

Lemma no_events_equiv (evs : list Event) : Offset <$> evs = [] → length evs = 0.
Proof using Type. by destruct evs. Qed.

Lemma read_events_passes : passes (read_events_by_offset_and_limit clock) abs_empty (λ _ _, True).
Proof using All.
  close_deferred. apply passes_then. unfold append_orders. cbn [seq foldr]. do 5 do_append. apply passes_ret.
  do_read evs. apply passes_then, passes_assertOffsets; [offsets|].
  do_read evs'. apply passes_then, passes_require; [apply bool_decide_eq_true_2, no_events_equiv; offsets|].
  do_read evs''. apply passes_require; [apply bool_decide_eq_true_2, no_events_equiv; offsets|done].
Qed.

Lemma replay_events_passes : passes (replay_events_from_offset clock) abs_empty (λ _ _, True).
Proof using All.
  close_deferred. apply passes_then. unfold append_orders. cbn [seq foldr]. do 4 do_append. apply passes_ret.
  apply passes_then, passes_replay; [done|by left|done|by vm_compute|by vm_compute|].
  intros evs ?%offsets_equiv. apply passes_assertOffsets; [offsets|done].
Qed.

Lemma statistics_passes : passes (statistics_report_topic_counts clock) abs_empty (λ _ _, True).
Proof using All.
  close_deferred. do 3 do_append. apply passes_assoc, passes_then, passes_stats; [done|by vm_compute|].
  do 3 do_require. by apply passes_require; [by vm_compute|].
Qed.

Lemma invalid_inputs_passes : passes (invalid_inputs_return_errors clock) abs_empty (λ _ _, True).
Proof using Type.
  close_deferred. do 2 do_refused @passes_append_refused. do 3 do_refused @passes_read_refused.
  do_refused @passes_end_refused. by do 2 do_refused @passes_replay_refused.
Qed.

Lemma cancellation_passes : passes (context_cancellation_returns_error clock) abs_empty (λ _ _, True).
Proof using Type.
  close_deferred. do_refused @passes_append_refused. do_refused @passes_read_refused.
  do_refused @passes_end_refused. by do_refused @passes_stats_refused.
Qed.

Lemma closed_passes : passes (closed_log_rejects_operations clock) abs_empty (λ _ _, True).
Proof using All.
  unfold closed_log_rejects_operations. do_append. apply passes_then, passes_close.
  do_refused @passes_append_refused. do_refused @passes_read_refused. do_refused @passes_end_refused.
  do_refused @passes_stats_refused. do_refused @passes_replay_refused. by do_refused @passes_compact_refused.
Qed.

Lemma reopen_passes reopen :
  (∀ l a, log_rep l a → ∃ l', reopen l = Pass l' ∧ log_rep l' (mkAbsLog (abs_events a) false)) →
  passes (reopen_preserves_events_and_offsets clock reopen) abs_empty (λ _ _, True).
Proof using All.
  intros Hreopen. unfold reopen_preserves_events_and_offsets. do 3 do_append. apply passes_then, passes_close.
  apply passes_then. intros l Hl. destruct (Hreopen l _ Hl) as (l' & Heq & Hl'). unfold reopened. rewrite Heq.
  eexists (), l', _. split; [done|]. split; [exact Hl'|]. close_deferred.
  do_read evs. apply passes_then, passes_assertOffsets; [offsets|]. do_append. do_require.
  do_read evs'. apply passes_assertOffsets; [offsets|done].
Qed.

(** The contract, from the laws. *)
Lemma contract_from_laws name factory schedule arrival :
  (∀ subtest, ∃ l, factory subtest = Pass l ∧ log_rep l abs_empty) → length schedule = totalEvents →
  Forall (λ '(_, v), v = Pass ()) (RunContract clock name factory schedule arrival).
Proof using All.
  intros Hnew Hlen. unfold RunContract. apply Forall_fmap.
  assert (Forall (λ '(_, test), passes test abs_empty (λ _ _, True)) (contract_tests clock schedule arrival)) as Hall.
  { repeat apply Forall_cons_2; eauto using append_assigns_passes, read_events_passes, replay_events_passes, statistics_passes,
      invalid_inputs_passes, cancellation_passes, concurrent_passes, closed_passes. }
  eapply Forall_impl; [exact Hall|]. intros [subtest test] Htest. cbn.
  destruct (Hnew (name +:+ subtest)) as (l & -> & Hl). destruct (Htest l Hl) as ([] & l' & a' & Hrun & _). cbn. by rewrite Hrun.
Qed.

Lemma durability_from_laws name factory :
  (∀ subtest, ∃ l reopen, factory subtest = Pass (l, reopen) ∧ log_rep l abs_empty ∧
     ∀ l a, log_rep l a → ∃ l', reopen l = Pass l' ∧ log_rep l' (mkAbsLog (abs_events a) false)) →
  Forall (λ '(_, v), v = Pass ()) (RunDurabilityContract clock name factory).
Proof using All.
  intros Hnew. unfold RunDurabilityContract. apply Forall_singleton.
  destruct (Hnew (name +:+ "/reopen_preserves_events_and_offsets")) as (l & reopen & -> & Hl & Hreopen).
  destruct (reopen_passes reopen Hreopen l Hl) as ([] & l' & a' & Hrun & _). by rewrite Hrun.
Qed.
End Rules.

(** ** The two backends *)
Section Backends.
Context `{MO : !MapOrder} {DB : Type} `{!PebbleDB DB, !PebbleDBLaws DB, !ProtoCodec, !ProtoCodecLaws}.

(** The factories of [contract_test.go] and [pebble_test.go]: a directory of its
    own for each subtest, [open] the opening of a store, and opening a directory
    again gives the store that was left there. *)
Definition in_memory_factory (subtest : string) : verdict InMemoryEventLog := Pass NewInMemoryEventLog.

Definition opened (r : outcome (PebbleEventLog DB)) : verdict (PebbleEventLog DB) :=
  match r with
  | Ok log => Pass log
  | Err err => Fatal ("NewPebbleEventLog failed: " +:+ error_String err)
  | Panic m => Fatal ("panic: " +:+ m)
  end.
Definition pebble_factory (open : string → outcome DB) (TempDir : string → string) (subtest : string) : verdict (PebbleEventLog DB) :=
  opened (NewPebbleEventLog open (TempDir subtest)).
Definition durable_factory (open : string → outcome DB) (TempDir : string → string) (subtest : string)
    : verdict (PebbleEventLog DB * (PebbleEventLog DB → verdict (PebbleEventLog DB))) :=
  match pebble_factory open TempDir subtest with
  | Pass log => Pass (log, λ log, opened (NewPebbleEventLog (λ _, Ok (pdb log)) (TempDir subtest)))
  | Fatal msg => Fatal msg
  end.

Lemma pebble_factory_new open TempDir subtest db :
  TempDir subtest ≠ ""%string → open (TempDir subtest) = Ok db → db_contents db = ∅ →
  pebble_factory open TempDir subtest = Pass (mkPebbleLog db false) ∧ peb_rep (mkPebbleLog db false) abs_empty.
Proof.
  intros Hdir Hopen Hdb. split; [|by apply peb_rep_new].
  unfold pebble_factory, NewPebbleEventLog. by rewrite bool_decide_eq_false_2, Hopen.
Qed.

(** C23: both event logs pass the repository's contract tests.  Whatever the
    clock, in whatever order the 200 concurrent appends take the lock and report
    back, every subtest of [RunContract] passes on the in-memory log, and on the
    durable log if its test directories open as empty stores and its messages
    can be encoded; and the durable log passes [RunDurabilityContract]. *)
Theorem backends_pass_contract (clock : string → Z) (open : string → outcome DB) (TempDir : string → string)
    (schedule arrival : list nat)
    (Hschedule : schedule ≡ₚ seq 0 totalEvents)
    (Hdir : ∀ subtest, TempDir subtest ≠ ""%string)
    (Hopen : ∀ subtest, ∃ db, open (TempDir subtest) = Ok db ∧ db_contents db = ∅)
    (Hclock : ∀ payload, is_int64 (clock payload))
    (Hencode : ∀ topic payload offset, contract_topic topic → is_int64 offset →
       is_Ok (marshalPebbleStoredEvent (WithOffset (contract_event clock topic payload) offset)) = true) :
  Forall (λ '(_, v), v = Pass ()) (RunContract clock "in_memory" in_memory_factory schedule arrival) ∧
  Forall (λ '(_, v), v = Pass ()) (RunContract clock "pebble" (pebble_factory open TempDir) schedule arrival) ∧
  Forall (λ '(_, v), v = Pass ()) (RunDurabilityContract clock "pebble" (durable_factory open TempDir)).
Proof.
  assert (length schedule = totalEvents) as Hlen by (by rewrite Hschedule, length_seq).
  assert (∀ topic payload, contract_topic topic → peb_accepts topic (contract_event clock topic payload)) as Hacc.
  { intros topic payload Ht. split; [by destruct Ht as [->| ->]|]. split; [apply Hclock|]. intros offset Hoff. by apply Hencode. }
  split; [|split].
  - apply (contract_from_laws clock); [done| |done]. intros subtest. eexists. split; [done|]. apply mem_rep_new.
  - apply (contract_from_laws clock); [exact Hacc| |done]. intros subtest. destruct (Hopen subtest) as (db & Hdb & Hempty).
    eexists. by apply (pebble_factory_new _ _ _ db).
  - apply (durability_from_laws clock); [exact Hacc|]. intros subtest. destruct (Hopen subtest) as (db & Hdb & Hempty).
    destruct (pebble_factory_new open TempDir subtest db) as [Hf Hr]; [done..|].
    unfold durable_factory. rewrite Hf. eexists _, _. split; [done|]. split; [exact Hr|].
    intros l a Hl. unfold NewPebbleEventLog. rewrite bool_decide_eq_false_2 by done. cbn.
    eexists. split; [done|]. by apply peb_rep_reopen.
Qed.
End Backends.

(** ** Witness *)
#[local] Existing Instances map_order_id bit_codec bit_codec_laws.

Lemma backends_pass_contract_witness :
  Forall (λ '(_, v), v = Pass ())
    (RunContract (λ _, 1700000000000000000%Z) "pebble"
       (pebble_factory (λ _, Ok (∅ : MapDB)) (λ subtest, "/tmp/" +:+ subtest)) (reverse (seq 0 200)) (seq 0 200)).
Proof.
  destruct (backends_pass_contract (λ _, 1700000000000000000%Z) (λ _, Ok (∅ : MapDB))
    (λ subtest, "/tmp/" +:+ subtest) (reverse (seq 0 200)) (seq 0 200)) as (_ & H & _); [| | | | |exact H].
  - apply reverse_Permutation.
  - done.
  - intros subtest. by exists ∅.
  - by intros payload.
  - done.
Defined.

(** The contract does tell logs apart: a log that forgets is found out. *)
Example forgetful_log_found_out :
  RunDurabilityContract (λ _, 0%Z) "in_memory" (λ _, Pass (NewInMemoryEventLog, λ _, Pass NewInMemoryEventLog)) =
  [("in_memory/reopen_preserves_events_and_offsets", Fatal "Expected 2 events, got 0")]%string.
Proof. vm_compute. reflexivity. Qed.
