(* ===== verification/RoutingTable.v ===== *)
(** * The routing table ([internal/routingtable], [pkg/routingtable])

    Topic pattern -> subscriber id -> subscriber.  The table's operations as the
    code has them, its invariant, and its specification: a finite map from
    (pattern, id) pairs to subscribers. *)
From S2P Require Import Prelude Topics.

(** ** Subscribers ([pkg/routingtable/interfaces.go], [subscriber.go]) *)
Inductive SubscriberType := LocalClient | PeerNode.

#[export] Instance SubscriberType_eq_dec : EqDecision SubscriberType.
Proof. solve_decision. Defined.

(** The [Subscriber] interface. *)
Class Subscriber (S : Type) := {
  sub_ID : S → string;
  sub_Type : S → SubscriberType
}.

Record LocalSubscriber := NewLocalSubscriber { local_id : string }.
Record PeerSubscriber := NewPeerSubscriber { peer_id : string }.

#[export] Instance LocalSubscriber_subscriber : Subscriber LocalSubscriber :=
  {| sub_ID := local_id; sub_Type _ := LocalClient |}.
#[export] Instance PeerSubscriber_subscriber : Subscriber PeerSubscriber :=
  {| sub_ID := peer_id; sub_Type _ := PeerNode |}.

(** [Subscription]; the subscriber is an interface value and may be nil. *)
Record Subscription (S : Type) := mkSubscription {
  subscription_Topic : string;
  subscription_Subscriber : option S
}.
Arguments mkSubscription {S}.
Arguments subscription_Topic {S}.
Arguments subscription_Subscriber {S}.

(** ** State and operations ([internal/routingtable/inmemory.go]) *)
Record InMemoryRoutingTable (S : Type) := mkRoutingTable {
  rt_subscriptions : nested S;
  rt_closed : bool
}.
Arguments mkRoutingTable {S}.
Arguments rt_subscriptions {S}.
Arguments rt_closed {S}.

Definition err_subscriber_nil : error := ErrNew "subscriber cannot be nil".
Definition err_topic_empty : error := ErrNew "topic cannot be empty".
Definition err_rt_closed : error := ErrNew "routing table is closed".

Section RoutingTable.
Context {S : Type} `{!Subscriber S, !MapOrder}.
Implicit Types (rt : InMemoryRoutingTable S) (topic : string).

Definition NewInMemoryRoutingTable : InMemoryRoutingTable S := mkRoutingTable ∅ false.

Definition rt_Subscribe (topic : string) (subscriber : option S) (rt : InMemoryRoutingTable S)
    : outcome unit * InMemoryRoutingTable S :=
  match subscriber with
  | None => (Err err_subscriber_nil, rt)
  | Some subscriber =>
    if bool_decide (topic = ""%string) then (Err err_topic_empty, rt)
    else if rt_closed rt then (Err err_rt_closed, rt)
    else (Ok (), mkRoutingTable
                   (nested_insert topic (sub_ID subscriber) subscriber (rt_subscriptions rt))
                   (rt_closed rt))
  end.

Definition rt_Unsubscribe (topic subscriberID : string) (rt : InMemoryRoutingTable S)
    : outcome unit * InMemoryRoutingTable S :=
  if rt_closed rt then (Err err_rt_closed, rt)
  else match rt_subscriptions rt !! topic with
  | None => (Ok (), rt)
  | Some subscribers =>
      let subscribers := delete subscriberID subscribers in
      if bool_decide (size subscribers = 0) then
        (Ok (), mkRoutingTable (delete topic (rt_subscriptions rt)) (rt_closed rt))
      else
        (Ok (), mkRoutingTable (<[topic := subscribers]> (rt_subscriptions rt)) (rt_closed rt))
  end.

(** First the subscribers of the pattern equal to the topic, then those of the
    other matching patterns; maps are visited in any order. *)
Definition rt_GetSubscribers (topic : string) (rt : InMemoryRoutingTable S) : outcome (list S) :=
  if rt_closed rt then Err err_rt_closed
  else
    let exact := (range_map (default ∅ (rt_subscriptions rt !! topic))).*2 in
    let wildcard := range_map (rt_subscriptions rt) ≫= λ '(pattern, subs),
      if bool_decide (pattern ≠ topic) && matchesPattern pattern topic
      then (range_map subs).*2 else [] in
    Ok (exact ++ wildcard).

Definition rt_GetAllSubscriptions (rt : InMemoryRoutingTable S) : outcome (list (Subscription S)) :=
  if rt_closed rt then Err err_rt_closed
  else Ok ((λ '(topic, _, subscriber), mkSubscription topic (Some subscriber))
             <$> range_nested (rt_subscriptions rt)).

(** The rebuilding loop: [subscriber.ID()] on a nil interface panics, with the
    entries before it already in place (the mutex is released by the deferred
    unlock). *)
Fixpoint rebuild_loop (subscriptions : list (Subscription S)) (m : nested S) : outcome unit * nested S :=
  match subscriptions with
  | [] => (Ok (), m)
  | subscription :: rest =>
    match subscription_Subscriber subscription with
    | None =>
        let topic := subscription_Topic subscription in
        (Panic nil_dereference, <[topic := default ∅ (m !! topic)]> m)
    | Some subscriber =>
        rebuild_loop rest
          (nested_insert (subscription_Topic subscription) (sub_ID subscriber) subscriber m)
    end
  end.

Definition rt_RebuildFromGossip (subscriptions : list (Subscription S)) (rt : InMemoryRoutingTable S)
    : outcome unit * InMemoryRoutingTable S :=
  if rt_closed rt then (Err err_rt_closed, rt)
  else
    let '(r, m) := rebuild_loop subscriptions ∅ in
    (r, mkRoutingTable m (rt_closed rt)).

Definition rt_GetTopicCount (rt : InMemoryRoutingTable S) : outcome Z :=
  if rt_closed rt then Err err_rt_closed else Ok (Z.of_nat (size (rt_subscriptions rt))).

Definition rt_GetSubscriberCount (rt : InMemoryRoutingTable S) : outcome Z :=
  if rt_closed rt then Err err_rt_closed
  else Ok (foldl (λ count '(_, subscriberMap), wrap64 (count + Z.of_nat (size (subscriberMap : gmap string S))))
             0%Z (range_map (rt_subscriptions rt))).

Definition rt_Close (rt : InMemoryRoutingTable S) : outcome unit * InMemoryRoutingTable S :=
  (Ok (), mkRoutingTable ∅ true).

(** ** Invariant

    A pattern is present only while it has a subscriber, subscribers sit under
    their own id, and a closed table is empty. *)
Record rt_wf rt : Prop := {
  rt_wf_nonempty topic inner : rt_subscriptions rt !! topic = Some inner → inner ≠ ∅;
  rt_wf_id topic id s : flat (rt_subscriptions rt) !! (topic, id) = Some s → sub_ID s = id;
  rt_wf_closed : rt_closed rt = true → rt_subscriptions rt = ∅
}.

Lemma rt_wf_new : rt_wf NewInMemoryRoutingTable.
Proof. by split. Qed.

Lemma nested_insert_nonempty (m : nested S) k j x :
  (∀ k inner, m !! k = Some inner → inner ≠ ∅) →
  ∀ k' inner, nested_insert k j x m !! k' = Some inner → inner ≠ ∅.
Proof.
  intros Hm k' inner. unfold nested_insert. rewrite lookup_insert. case_decide; [|apply Hm].
  intros [= <-]. apply insert_non_empty.
Qed.

Lemma rt_wf_insert rt topic (s : S) :
  rt_closed rt = false → rt_wf rt →
  rt_wf (mkRoutingTable (nested_insert topic (sub_ID s) s (rt_subscriptions rt)) (rt_closed rt)).
Proof.
  intros Hc [Hne Hid _]. split; simpl; [by apply nested_insert_nonempty| |congruence].
  intros t id s'. rewrite flat_insert, lookup_insert. case_decide; [|apply Hid]. naive_solver.
Qed.

(** Removing an entry and pruning the inner map when it becomes empty. *)
Lemma flat_Unsubscribe rt topic id :
  rt_closed rt = false →
  (rt_Unsubscribe topic id rt).1 = Ok () ∧
  rt_closed (rt_Unsubscribe topic id rt).2 = false ∧
  flat (rt_subscriptions (rt_Unsubscribe topic id rt).2) =
    delete (topic, id) (flat (rt_subscriptions rt)).
Proof.
  intros Hc. unfold rt_Unsubscribe. rewrite Hc.
  destruct (rt_subscriptions rt !! topic) as [subs|] eqn:Ht.
  - assert (∀ k j, (if decide (topic = k) then delete id subs !! j else flat (rt_subscriptions rt) !! (k, j)) =
        delete (topic, id) (flat (rt_subscriptions rt)) !! (k, j)) as Hlook.
    { intros k j. rewrite (lookup_delete (flat _)). destruct (decide (topic = k)) as [<-|].
      - rewrite lookup_delete, lookup_flat, Ht. simpl. repeat case_decide; naive_solver.
      - by rewrite decide_False by congruence. }
    case_bool_decide as Hs; (split_and!; [done|done|]); simpl; apply map_eq; intros [k j].
    + apply map_size_empty_inv in Hs. rewrite <-Hlook, lookup_flat, lookup_delete.
      destruct (decide (topic = k)); [by rewrite Hs|by rewrite lookup_flat].
    + by rewrite lookup_flat_insert.
  - split_and!; [done|done|]. simpl. symmetry. apply delete_id. by rewrite lookup_flat, Ht.
Qed.

Lemma rt_wf_Unsubscribe rt topic id : rt_wf rt → rt_wf (rt_Unsubscribe topic id rt).2.
Proof.
  intros Hwf. destruct (rt_closed rt) eqn:Hc; [unfold rt_Unsubscribe; by rewrite Hc|].
  destruct (flat_Unsubscribe rt topic id Hc) as (_ & Hc' & Hflat).
  split; [|rewrite Hflat|congruence].
  - unfold rt_Unsubscribe. rewrite Hc. destruct (rt_subscriptions rt !! topic) as [subs|]; [|by apply Hwf].
    case_bool_decide as Hs; simpl; intros t inner.
    + rewrite lookup_delete. case_decide; [done|by apply Hwf].
    + rewrite lookup_insert. case_decide; [|by apply Hwf]. intros [= <-] Hempty. by rewrite Hempty in Hs.
  - intros t i s. rewrite lookup_delete. case_decide; [done|]. by apply Hwf.
Qed.

(** ** Specification: a finite map from (pattern, id) to subscribers *)
Record AbsTable := mkAbsTable { at_entries : gmap (string * string) S; at_closed : bool }.

Definition rt_abs rt : AbsTable := mkAbsTable (flat (rt_subscriptions rt)) (rt_closed rt).

(** The subscribers of every pattern the topic matches: one per entry, so a
    subscriber appears once for each of its matching patterns. *)
Definition at_matching (topic : string) (m : gmap (string * string) S) : list S :=
  (map_to_list (filter (λ '((pattern, _), _), topic_matches pattern topic) m)).*2.

Definition at_patterns (m : gmap (string * string) S) : gset string :=
  set_map (λ '(pattern, _), pattern) (dom m).

Definition at_insert_all (subs : list (Subscription S)) (m : gmap (string * string) S)
    : gmap (string * string) S :=
  foldl (λ m sub, match subscription_Subscriber sub with
                  | Some s => <[(subscription_Topic sub, sub_ID s) := s]> m
                  | None => m
                  end) m subs.

(** Every listed entry names a subscriber. *)
Definition all_named (subs : list (Subscription S)) : Prop :=
  Forall (λ sub, subscription_Subscriber sub ≠ None) subs.

Lemma rebuild_loop_spec subs m :
  all_named subs → (rebuild_loop subs m).1 = Ok () ∧
  flat (rebuild_loop subs m).2 = at_insert_all subs (flat m).
Proof.
  intros Hs. revert m. induction Hs as [|[topic [s|]] subs Hn Hs IH]; intros m; simpl in *; [done| |done].
  rewrite <-flat_insert. apply IH.
Qed.

Lemma rebuild_loop_wf subs m c :
  all_named subs → c = false → rt_wf (mkRoutingTable m c) → rt_wf (mkRoutingTable (rebuild_loop subs m).2 c).
Proof.
  intros Hs Hc. revert m. induction Hs as [|[topic [s|]] subs Hn Hs IH]; intros m Hwf; simpl in *; [done| |done].
  apply IH. by apply (rt_wf_insert (mkRoutingTable m c)).
Qed.

Lemma rt_wf_Rebuild rt subs : all_named subs → rt_wf rt → rt_wf (rt_RebuildFromGossip subs rt).2.
Proof.
  intros Hs Hwf. unfold rt_RebuildFromGossip. destruct (rt_closed rt) eqn:Hc; [done|].
  pose proof (rebuild_loop_wf subs ∅ false Hs eq_refl) as Hr.
  destruct (rebuild_loop subs ∅). by apply Hr, rt_wf_new.
Qed.

(** ** Queries *)
Lemma exact_part rt topic :
  (range_map (default ∅ (rt_subscriptions rt !! topic))).*2 =
  match rt_subscriptions rt !! topic with Some subs => (range_map subs).*2 | None => [] end.
Proof. destruct (rt_subscriptions rt !! topic); [done|]. simpl. by rewrite range_map_empty. Qed.

(** The exact-match part and the wildcard part together visit each pattern that
    matches the topic once. *)
Lemma split_exact (topic : string) (l : list (string * gmap string S)) (m : nested S) :
  NoDup l.*1 → (∀ k v, (k, v) ∈ l ↔ m !! k = Some v) →
  (match m !! topic with Some subs => (range_map subs).*2 | None => [] end) ++
  (l ≫= λ '(pattern, subs),
     if bool_decide (pattern ≠ topic) && matchesPattern pattern topic then (range_map subs).*2 else []) ≡ₚ
  (l ≫= λ '(pattern, subs), if matchesPattern pattern topic then (range_map subs).*2 else []).
Proof.
  revert m. induction l as [|[k v] l IH]; intros m Hnd Hm; simpl.
  - destruct (m !! topic) as [v|] eqn:Ht; [|done].
    apply Hm in Ht. by apply elem_of_nil in Ht.
  - apply NoDup_cons in Hnd as [Hk Hnd].
    assert (∀ k' v', (k', v') ∈ l ↔ delete k m !! k' = Some v') as Hm'.
    { intros k' v'. rewrite lookup_delete_Some, <-Hm, elem_of_cons. split.
      - intros Hin. split; [|by right]. intros <-. apply Hk. by apply (list_elem_of_fmap_2 fst) in Hin.
      - intros [Hne [[= -> ->]|?]]; [congruence|done]. }
    specialize (IH (delete k m) Hnd Hm').
    assert (m !! k = Some v) as Hkv by (apply Hm; by left).
    destruct (decide (k = topic)) as [->|Hne].
    + rewrite bool_decide_eq_false_2 by (intros H'; by apply H'). simpl.
      rewrite Hkv. rewrite lookup_delete_eq in IH. simpl in IH.
      assert (matchesPattern topic topic = true) as ->
        by (unfold matchesPattern; by rewrite bool_decide_eq_true_2).
      by rewrite IH.
    + rewrite bool_decide_eq_true_2 by done. rewrite lookup_delete_ne in IH by done. simpl.
      rewrite <-IH. rewrite !(assoc_L (++)). f_equiv; [by rewrite (comm (++))|reflexivity].
Qed.

Lemma matching_entries (topic : string) (m : nested S) :
  (range_map m ≫= λ '(pattern, subs), if matchesPattern pattern topic then (range_map subs).*2 else []) =
  (λ '(_, _, s), s) <$> (filter (λ '(pattern, _, _), topic_matches pattern topic) (range_nested m)).
Proof.
  unfold range_nested. induction (range_map m) as [|[pattern subs] l IH]; [done|].
  rewrite !bind_cons, filter_app, fmap_app, <-IH. f_equal.
  rewrite matchesPattern_spec. case_bool_decide as Hp.
  - induction (range_map subs) as [|[j x] r IHr]; [done|].
    rewrite !fmap_cons, filter_cons_True, fmap_cons by done. by rewrite <-IHr.
  - induction (range_map subs) as [|[j x] r IHr]; [done|]. by rewrite fmap_cons, filter_cons_False.
Qed.

Lemma GetSubscribers_ok rt topic :
  rt_closed rt = false →
  ∃ subs, rt_GetSubscribers topic rt = Ok subs ∧ subs ≡ₚ at_matching topic (flat (rt_subscriptions rt)).
Proof.
  intros Hc. unfold rt_GetSubscribers. rewrite Hc. eexists; split; [done|].
  rewrite exact_part, (split_exact _ _ (rt_subscriptions rt)), matching_entries;
    [|apply NoDup_range_map_keys|apply elem_of_range_map].
  unfold at_matching.
  set (m' := filter _ (flat (rt_subscriptions rt))).
  transitivity ((λ '(_, _, s), s) <$> ((λ '((k, j), x), (k, j, x)) <$> map_to_list m')).
  - apply fmap_Permutation, NoDup_Permutation.
    + apply NoDup_filter, NoDup_range_nested.
    + apply NoDup_fmap_2; [intros [[??]?] [[??]?]; congruence|apply NoDup_map_to_list].
    + intros [[k j] x]. rewrite list_elem_of_filter, elem_of_range_nested, list_elem_of_fmap.
      assert (m' !! (k, j) = Some x ↔ topic_matches k topic ∧ flat (rt_subscriptions rt) !! (k, j) = Some x) as Hm'
        by (subst m'; rewrite map_lookup_filter_Some; tauto).
      rewrite <-Hm'. split.
      * intros Hx. exists ((k, j), x). split; [done|]. by apply elem_of_map_to_list.
      * intros ([[k' j'] x'] & [= -> -> ->] & Hx). by apply elem_of_map_to_list in Hx.
  - rewrite <-list_fmap_compose. apply reflexive_eq, list_fmap_ext. by intros _ [[??]?] _.
Qed.

Lemma GetAllSubscriptions_ok rt :
  rt_closed rt = false →
  ∃ subs, rt_GetAllSubscriptions rt = Ok subs ∧
    subs ≡ₚ (λ '((pattern, _), s), mkSubscription pattern (Some s)) <$> map_to_list (flat (rt_subscriptions rt)).
Proof.
  intros Hc. unfold rt_GetAllSubscriptions. rewrite Hc. eexists; split; [done|].
  rewrite range_nested_perm, <-list_fmap_compose.
  apply reflexive_eq, list_fmap_ext. by intros _ [[??]?] _.
Qed.

(** Rebuilding from any listing of the entries gives the entries back. *)
Lemma at_insert_all_entries (l : list ((string * string) * S)) (m : gmap (string * string) S) :
  NoDup l.*1 → (∀ p i s, ((p, i), s) ∈ l → sub_ID s = i) →
  at_insert_all ((λ '((p, _), s), mkSubscription p (Some s)) <$> l) m = list_to_map l ∪ m.
Proof.
  revert m. induction l as [|[[p i] s] l IH]; intros m Hnd Hid.
  { rewrite list_to_map_nil, map_empty_union. done. }
  apply NoDup_cons in Hnd as [Hp Hnd].
  trans (at_insert_all ((λ '((p, _), s), mkSubscription p (Some s)) <$> l) (<[(p, i) := s]> m)).
  { rewrite <-(Hid p i s) at 2 by by left. done. }
  rewrite IH; [|done|].
  - rewrite list_to_map_cons, <-insert_union_l, <-insert_union_r; [done|].
    by apply not_elem_of_list_to_map.
  - intros p' i' s' Hin. eapply Hid. by right.
Qed.

(** ** Operations as data, and the refinement *)
Inductive rt_op :=
  | RtSubscribe (topic : string) (subscriber : option S)
  | RtUnsubscribe (topic id : string)
  | RtGetSubscribers (topic : string)
  | RtGetAll
  | RtRebuild (subs : list (Subscription S))
  | RtSubscriberCount
  | RtTopicCount
  | RtClose.

Inductive rt_res :=
  | RResUnit (r : outcome unit)
  | RResSubs (r : outcome (list S))
  | RResAll (r : outcome (list (Subscription S)))
  | RResCount (r : outcome Z).

(** Results up to the order in which lists are returned. *)
Definition rt_res_rel (r1 r2 : rt_res) : Prop :=
  match r1, r2 with
  | RResSubs r1, RResSubs r2 => outcome_rel (≡ₚ) r1 r2
  | RResAll r1, RResAll r2 => outcome_rel (≡ₚ) r1 r2
  | _, _ => r1 = r2
  end.

Definition rt_step (op : rt_op) (rt : InMemoryRoutingTable S) : rt_res * InMemoryRoutingTable S :=
  match op with
  | RtSubscribe topic s => let '(r, rt) := rt_Subscribe topic s rt in (RResUnit r, rt)
  | RtUnsubscribe topic id => let '(r, rt) := rt_Unsubscribe topic id rt in (RResUnit r, rt)
  | RtGetSubscribers topic => (RResSubs (rt_GetSubscribers topic rt), rt)
  | RtGetAll => (RResAll (rt_GetAllSubscriptions rt), rt)
  | RtRebuild subs => let '(r, rt) := rt_RebuildFromGossip subs rt in (RResUnit r, rt)
  | RtSubscriberCount => (RResCount (rt_GetSubscriberCount rt), rt)
  | RtTopicCount => (RResCount (rt_GetTopicCount rt), rt)
  | RtClose => let '(r, rt) := rt_Close rt in (RResUnit r, rt)
  end.

Definition at_step (op : rt_op) (t : AbsTable) : rt_res * AbsTable :=
  let closed {A} (r : A) : outcome A := if at_closed t then Err err_rt_closed else Ok r in
  let update (m : gmap (string * string) S) : AbsTable :=
    if at_closed t then t else mkAbsTable m false in
  match op with
  | RtSubscribe _ None => (RResUnit (Err err_subscriber_nil), t)
  | RtSubscribe topic (Some s) =>
      if bool_decide (topic = ""%string) then (RResUnit (Err err_topic_empty), t)
      else (RResUnit (closed ()), update (<[(topic, sub_ID s) := s]> (at_entries t)))
  | RtUnsubscribe topic id => (RResUnit (closed ()), update (delete (topic, id) (at_entries t)))
  | RtGetSubscribers topic => (RResSubs (closed (at_matching topic (at_entries t))), t)
  | RtGetAll =>
      (RResAll (closed ((λ '((p, _), s), mkSubscription p (Some s)) <$> map_to_list (at_entries t))), t)
  | RtRebuild subs => (RResUnit (closed ()), update (at_insert_all subs ∅))
  | RtSubscriberCount => (RResCount (closed (wrap64 (Z.of_nat (size (at_entries t))))), t)
  | RtTopicCount => (RResCount (closed (Z.of_nat (size (at_patterns (at_entries t))))), t)
  | RtClose => (RResUnit (Ok ()), mkAbsTable ∅ true)
  end.

Definition rt_op_ok (op : rt_op) : Prop :=
  match op with RtRebuild subs => all_named subs | _ => True end.

Lemma SubscriberCount_ok rt :
  rt_closed rt = false →
  rt_GetSubscriberCount rt = Ok (wrap64 (Z.of_nat (size (flat (rt_subscriptions rt))))).
Proof.
  intros Hc. unfold rt_GetSubscriberCount. rewrite Hc, length_range_nested. f_equal.
  set (f := λ kv : string * gmap string S, Z.of_nat (size kv.2)).
  trans (foldl (λ c kv, wrap64 (c + f kv)) 0%Z (range_map (rt_subscriptions rt))).
  { generalize 0%Z as c. induction (range_map (rt_subscriptions rt)) as [|[k v] l IH]; intros c; [done|apply IH]. }
  rewrite foldl_wrap64 by (unfold is_int64; lia). f_equal.
  induction (range_map (rt_subscriptions rt)) as [|[k v] l IH]; [done|]. simpl in *. unfold f at 1. simpl. lia.
Qed.

Lemma at_patterns_dom rt : rt_wf rt → at_patterns (flat (rt_subscriptions rt)) = dom (rt_subscriptions rt).
Proof.
  intros Hwf. unfold at_patterns. apply set_eq. intros p. rewrite elem_of_map. split.
  - intros ([p' i] & -> & [s Hs]%elem_of_dom). rewrite lookup_flat in Hs.
    apply bind_Some in Hs as (inner & Hp & _). apply elem_of_dom. by eexists.
  - intros [inner Hp]%elem_of_dom. pose proof (rt_wf_nonempty _ Hwf _ _ Hp) as Hne.
    destruct (map_choose inner Hne) as (i & s & Hi). exists (p, i). split; [done|].
    apply elem_of_dom. exists s. by rewrite lookup_flat, Hp.
Qed.

Lemma rt_closed_abs rt : rt_wf rt → rt_closed rt = true → rt_abs rt = mkAbsTable ∅ true.
Proof. intros Hwf Hc. unfold rt_abs. by rewrite (rt_wf_closed _ Hwf Hc), Hc, flat_empty. Qed.

Lemma rt_step_refines op rt :
  rt_wf rt → rt_op_ok op →
  rt_res_rel (rt_step op rt).1 (at_step op (rt_abs rt)).1 ∧
  rt_wf (rt_step op rt).2 ∧
  rt_abs (rt_step op rt).2 = (at_step op (rt_abs rt)).2.
Proof.
  intros Hwf Hop. destruct (rt_closed rt) eqn:Hc.
  - (* every operation of a closed table fails and leaves it closed *)
    pose proof (rt_closed_abs _ Hwf Hc) as Habs. rewrite Habs.
    destruct op as [topic [s|]|topic id|topic| |subs| | |]; simpl;
      unfold rt_Subscribe, rt_Unsubscribe, rt_GetSubscribers, rt_GetAllSubscriptions,
        rt_RebuildFromGossip, rt_GetSubscriberCount, rt_GetTopicCount; rewrite ?Hc;
      try case_bool_decide; (split_and!; [done| |]); try done.
  - destruct op as [topic [s|]|topic id|topic| |subs| | |]; simpl; rewrite ?Hc.
    + pose proof (rt_wf_insert rt topic s Hc Hwf) as Hwf'. rewrite Hc in Hwf'.
      case_bool_decide; [done|]. split_and!; [done|done|].
      unfold rt_abs; simpl. by rewrite flat_insert.
    + by split_and!.
    + destruct (flat_Unsubscribe rt topic id Hc) as (Hr & Hc' & Hflat).
      pose proof (rt_wf_Unsubscribe _ topic id Hwf) as Hwf'.
      destruct (rt_Unsubscribe topic id rt) as [r rt']. simpl in *. subst r.
      split_and!; [done|done|]. unfold rt_abs. by rewrite Hflat, Hc'.
    + destruct (GetSubscribers_ok rt topic Hc) as (subs & -> & Hsubs). by split_and!.
    + destruct (GetAllSubscriptions_ok rt Hc) as (subs & -> & Hsubs). by split_and!.
    + pose proof (rt_wf_Rebuild _ _ Hop Hwf) as Hwf'. revert Hwf'. unfold rt_RebuildFromGossip. rewrite Hc.
      destruct (rebuild_loop_spec subs ∅ Hop) as [Hr Hflat]. destruct (rebuild_loop subs ∅) as [r m].
      simpl in *. subst r. intros Hwf'. split_and!; [done|done|]. unfold rt_abs. simpl. by rewrite Hflat, flat_empty.
    + rewrite SubscriberCount_ok by done. by split_and!.
    + unfold rt_GetTopicCount. rewrite Hc, at_patterns_dom, size_dom by done. by split_and!.
    + split_and!; [done|by split|]. unfold rt_abs. simpl. by rewrite flat_empty.
Qed.

Definition rt_run (ops : list rt_op) (rt : InMemoryRoutingTable S) : list rt_res * InMemoryRoutingTable S :=
  foldl (λ '(rs, rt) op, let '(r, rt) := rt_step op rt in (rs ++ [r], rt)) ([], rt) ops.

Definition at_run (ops : list rt_op) (t : AbsTable) : list rt_res * AbsTable :=
  foldl (λ '(rs, t) op, let '(r, t) := at_step op t in (rs ++ [r], t)) ([], t) ops.

Lemma rt_run_refines ops rt t rs1 rs2 :
  rt_wf rt → rt_abs rt = t → Forall rt_op_ok ops → Forall2 rt_res_rel rs1 rs2 →
  let res := foldl (λ '(rs, rt) op, let '(r, rt) := rt_step op rt in (rs ++ [r], rt)) (rs1, rt) ops in
  let abs := foldl (λ '(rs, t) op, let '(r, t) := at_step op t in (rs ++ [r], t)) (rs2, t) ops in
  Forall2 rt_res_rel res.1 abs.1 ∧ rt_wf res.2 ∧ rt_abs res.2 = abs.2.
Proof.
  intros Hwf <- Hops. revert rt rs1 rs2 Hwf. induction Hops as [|op ops Hop Hops IH]; intros rt rs1 rs2 Hwf Hrs; simpl; [done|].
  destruct (rt_step_refines op rt Hwf Hop) as (Hr & Hwf' & Habs).
  destruct (rt_step op rt) as [r rt'], (at_step op (rt_abs rt)) as [r' t']. simpl in *. subst t'.
  apply IH; [done|]. by apply Forall2_app_one.
Qed.

(** C4: the routing table is a finite map from (pattern, subscriber id) to
    subscribers.  From a new table, any sequence of operations (rebuilds listing
    no nil subscriber) gives the results of the map, up to the order of returned
    lists: in particular [GetSubscribers] returns each subscriber once for every
    pattern under which it is registered and which the topic matches, and
    nothing else.  Patterns without subscribers never stay in the table. *)
Theorem routing_table_refines (ops : list rt_op) (Hops : Forall rt_op_ok ops) :
  Forall2 rt_res_rel (rt_run ops NewInMemoryRoutingTable).1 (at_run ops (mkAbsTable ∅ false)).1 ∧
  rt_wf (rt_run ops NewInMemoryRoutingTable).2 ∧
  rt_abs (rt_run ops NewInMemoryRoutingTable).2 = (at_run ops (mkAbsTable ∅ false)).2.
Proof.
  apply rt_run_refines; [apply rt_wf_new| |done|done]. unfold rt_abs. simpl. by rewrite flat_empty.
Qed.

(** Gossip rebuild.  Rebuilding any open table from the listing
    [GetAllSubscriptions] gives of another well-formed table (in any order)
    makes its contents those of the other table, whatever it held before. *)
Theorem rebuild_from_listing (rt rt' : InMemoryRoutingTable S) (listing subs : list (Subscription S))
    (Hwf : rt_wf rt) (Hopen : rt_closed rt' = false)
    (Hall : rt_GetAllSubscriptions rt = Ok listing) (Hperm : subs ≡ₚ listing) :
  (rt_RebuildFromGossip subs rt').1 = Ok () ∧
  rt_abs (rt_RebuildFromGossip subs rt').2 = mkAbsTable (flat (rt_subscriptions rt)) false.
Proof.
  assert (rt_closed rt = false) as Hc by (revert Hall; unfold rt_GetAllSubscriptions; by destruct (rt_closed rt)).
  destruct (GetAllSubscriptions_ok rt Hc) as (l & Hl & Hlp). rewrite Hall in Hl. injection Hl as <-.
  rewrite Hlp in Hperm. apply Permutation_map_inv in Hperm as (l & -> & Hl).
  assert (all_named ((λ '((p, _), s), mkSubscription p (Some s)) <$> l)) as Hnamed
    by (apply Forall_fmap, Forall_true; by intros [[??]?]).
  destruct (rebuild_loop_spec _ ∅ Hnamed) as [Hr Hflat].
  unfold rt_RebuildFromGossip. rewrite Hopen.
  change (map ?f ?x) with (f <$> x). destruct (rebuild_loop _ ∅) as [r m]. simpl in *. subst r. split; [done|].
  unfold rt_abs. simpl. rewrite Hflat, flat_empty, at_insert_all_entries.
  - rewrite map_union_empty. f_equal. rewrite <-(list_to_map_to_list (flat (rt_subscriptions rt))).
    symmetry. apply list_to_map_proper; [apply NoDup_fst_map_to_list|done].
  - rewrite <-Hl. apply NoDup_fst_map_to_list.
  - intros p i s. rewrite <-Hl. intros Hin%elem_of_map_to_list. by apply (rt_wf_id _ Hwf) in Hin.
Qed.
End RoutingTable.
Arguments rt_op : clear implicits.
Arguments rt_res : clear implicits.
Arguments AbsTable : clear implicits.

(** ** Witnesses *)
Section Witness.
#[local] Existing Instance map_order_id.

Definition alice : LocalSubscriber := NewLocalSubscriber "alice".
Definition bob : LocalSubscriber := NewLocalSubscriber "bob".

Definition sample_rt_ops : list (rt_op LocalSubscriber) := [
  RtSubscribe "orders.*" (Some alice); RtSubscribe "*.created" (Some alice);
  RtSubscribe "orders.created" (Some bob); RtSubscribe "" (Some bob);
  RtGetSubscribers "orders.created"; RtUnsubscribe "orders.*" "alice";
  RtUnsubscribe "orders.*" "alice"; RtTopicCount; RtSubscriberCount;
  RtRebuild [mkSubscription "a" (Some bob); mkSubscription "a" (Some alice)];
  RtGetAll; RtClose; RtGetAll].

Definition sample_table : InMemoryRoutingTable LocalSubscriber := (rt_run sample_rt_ops NewInMemoryRoutingTable).2.

Lemma routing_table_refines_witness :
  Forall2 rt_res_rel (rt_run sample_rt_ops NewInMemoryRoutingTable).1 (at_run sample_rt_ops (mkAbsTable ∅ false)).1.
Proof.
  apply (routing_table_refines sample_rt_ops).
  repeat (apply Forall_cons; split; [by repeat constructor|]). by apply Forall_nil.
Defined.

(** A client with two matching patterns is returned twice. *)
Example subscriber_per_pattern :
  rt_GetSubscribers "orders.created" (rt_run (take 3 sample_rt_ops) NewInMemoryRoutingTable).2 =
    Ok [bob; alice; alice].
Proof. vm_compute. reflexivity. Qed.

Definition two_entries : InMemoryRoutingTable LocalSubscriber :=
  mkRoutingTable (nested_insert "a" "bob" bob (nested_insert "b" "alice" alice ∅)) false.

Lemma two_entries_wf : rt_wf two_entries.
Proof.
  unfold two_entries.
  refine (rt_wf_insert (mkRoutingTable (nested_insert "b" "alice" alice ∅) false) "a" bob eq_refl _).
  exact (rt_wf_insert NewInMemoryRoutingTable "b" alice eq_refl rt_wf_new).
Qed.

Lemma rebuild_from_listing_witness :
  (rt_RebuildFromGossip [mkSubscription "a" (Some bob); mkSubscription "b" (Some alice)]
     (mkRoutingTable (nested_insert "stale" "bob" bob ∅) false)).1 = Ok ().
Proof.
  refine (proj1 (rebuild_from_listing two_entries _
    [mkSubscription "a" (Some bob); mkSubscription "b" (Some alice)] _ two_entries_wf _ _ _)).
  - reflexivity.
  - vm_compute. reflexivity.
  - reflexivity.
Defined.
End Witness.
