(* ===== verification/Peers.v ===== *)
(** * Interfaces between nodes and their peer link ([pkg/peerlink/interfaces.go])

    Interest messages, peers and their health, and the [PeerLink] interface the
    mesh node is written against: the operations as a class, and the laws the
    node's theorems need as a second class. *)
From S2P Require Import Prelude EventLog.

Inductive PeerHealthState := PeerHealthy | PeerUnhealthy | PeerDisconnected.

#[export] Instance PeerHealthState_eq_dec : EqDecision PeerHealthState.
Proof. solve_decision. Defined.

Definition PeerHealthState_String (s : PeerHealthState) : string :=
  match s with
  | PeerHealthy => "Healthy"
  | PeerUnhealthy => "Unhealthy"
  | PeerDisconnected => "Disconnected"
  end.

(** [PeerNode]: the identity and address of a peer. *)
Record PeerNode := mkPeerNode { peer_ID : string; peer_Address : string }.

#[export] Instance PeerNode_eq_dec : EqDecision PeerNode.
Proof. solve_decision. Defined.

Record InterestUpdate := mkUpdate { iu_NodeId : string; iu_Action : string; iu_Topic : string }.
Record InterestSnapshot := mkSnapshot { is_NodeId : string; is_Topics : list string }.
Record InterestMessage := mkInterestMessage {
  im_Update : option InterestUpdate;
  im_Snapshot : option InterestSnapshot
}.

#[export] Instance InterestUpdate_eq_dec : EqDecision InterestUpdate.
Proof. solve_decision. Defined.
#[export] Instance InterestSnapshot_eq_dec : EqDecision InterestSnapshot.
Proof. solve_decision. Defined.
#[export] Instance InterestMessage_eq_dec : EqDecision InterestMessage.
Proof. solve_decision. Defined.

Definition update_message (u : InterestUpdate) : InterestMessage := mkInterestMessage (Some u) None.
Definition snapshot_message (s : InterestSnapshot) : InterestMessage := mkInterestMessage None (Some s).

(** ** The operations of [CompletePeerLink] the node calls

    [StartLink] and [StopLink] are the [Start] and [Stop] methods the node finds
    by type assertion. *)
Class PeerLink (P : Type) := {
  SendEvent : Ctx → string → Event → P → outcome unit * Ctx * P;
  SendInterestUpdate : Ctx → string → InterestUpdate → P → outcome unit * Ctx * P;
  SendInterestSnapshot : Ctx → string → InterestSnapshot → P → outcome unit * Ctx * P;
  GetConnectedPeers : P → outcome (list PeerNode);
  Connect : PeerNode → P → outcome unit * P;
  StartLink : P → outcome unit * P;
  StopLink : P → outcome unit * P;
  StartHeartbeats : P → outcome unit * P;
  StopHeartbeats : P → outcome unit * P;
  CloseLink : P → outcome unit * P
}.

(** ** What the node relies on

    [link_events p peer] and [link_control p peer] are the messages the link has
    accepted for a peer and not yet handed to the network, per plane, oldest
    first.  An accepted send adds exactly its message at the end of
    those of its peer and plane, a refused one adds nothing, and neither changes who
    is connected. *)
Class PeerLinkSpec (P : Type) `{!PeerLink P} := {
  link_events : P → string → list Event;
  link_control : P → string → list InterestMessage;

  SendEvent_law ctx peer e p r ctx' p' :
    SendEvent ctx peer e p = (r, ctx', p') →
    GetConnectedPeers p' = GetConnectedPeers p ∧ (∀ q, link_control p' q = link_control p q) ∧
    (ctx_live ctx → ctx' = ctx) ∧
    ∀ q, link_events p' q = link_events p q ++ (if bool_decide (q = peer) && is_Ok r then [e] else []);
  SendInterestUpdate_law ctx peer u p r ctx' p' :
    SendInterestUpdate ctx peer u p = (r, ctx', p') →
    GetConnectedPeers p' = GetConnectedPeers p ∧ (∀ q, link_events p' q = link_events p q) ∧
    (ctx_live ctx → ctx' = ctx) ∧
    ∀ q, link_control p' q =
      link_control p q ++ (if bool_decide (q = peer) && is_Ok r then [update_message u] else []);
  SendInterestSnapshot_law ctx peer s p r ctx' p' :
    SendInterestSnapshot ctx peer s p = (r, ctx', p') →
    GetConnectedPeers p' = GetConnectedPeers p ∧ (∀ q, link_events p' q = link_events p q) ∧
    (ctx_live ctx → ctx' = ctx) ∧
    ∀ q, link_control p' q =
      link_control p q ++ (if bool_decide (q = peer) && is_Ok r then [snapshot_message s] else [])
}.

(** A link that accepts every message for its connected peers and remembers
    them: the witnesses use it, and the law classes are not vacuous. *)
Record RecordingLink := mkRecordingLink {
  rl_peers : list PeerNode;
  rl_events : list (string * Event);
  rl_control : list (string * InterestMessage)
}.

Definition rl_for {A} (peer : string) (l : list (string * A)) : list A :=
  (filter (λ '(q, _), q = peer) l).*2.

Definition err_unknown_peer (peer : string) : error := ErrNew ("peer not connected: " +:+ peer).

Definition rl_send (peer : string) (f : RecordingLink → RecordingLink) (ctx : Ctx) (p : RecordingLink)
    : outcome unit * Ctx * RecordingLink :=
  if bool_decide (peer ∈ peer_ID <$> rl_peers p) then (Ok (), ctx, f p)
  else (Err (err_unknown_peer peer), ctx, p).

#[export] Instance RecordingLink_ops : PeerLink RecordingLink := {|
  SendEvent ctx peer e p :=
    rl_send peer (λ p, mkRecordingLink (rl_peers p) (rl_events p ++ [(peer, e)]) (rl_control p)) ctx p;
  SendInterestUpdate ctx peer u p :=
    rl_send peer (λ p, mkRecordingLink (rl_peers p) (rl_events p) (rl_control p ++ [(peer, update_message u)])) ctx p;
  SendInterestSnapshot ctx peer s p :=
    rl_send peer (λ p, mkRecordingLink (rl_peers p) (rl_events p) (rl_control p ++ [(peer, snapshot_message s)])) ctx p;
  GetConnectedPeers p := Ok (rl_peers p);
  Connect peer p := (Ok (), mkRecordingLink (rl_peers p ++ [peer]) (rl_events p) (rl_control p));
  StartLink p := (Ok (), p);
  StopLink p := (Ok (), p);
  StartHeartbeats p := (Ok (), p);
  StopHeartbeats p := (Ok (), p);
  CloseLink p := (Ok (), p)
|}.

Lemma rl_for_snoc {A} q peer (l : list (string * A)) x :
  rl_for q (l ++ [(peer, x)]) = rl_for q l ++ (if bool_decide (q = peer) then [x] else []).
Proof.
  unfold rl_for. rewrite filter_app, fmap_app. f_equal.
  case_bool_decide; subst; [by rewrite filter_cons_True|by rewrite filter_cons_False].
Qed.

#[export] Instance RecordingLink_spec : PeerLinkSpec RecordingLink.
Proof.
  refine {| link_events p q := rl_for q (rl_events p); link_control p q := rl_for q (rl_control p) |};
    intros ctx peer m p r ctx' p'; simpl; unfold rl_send; case_bool_decide; intros [= <- <- <-];
    repeat (split; [done|]); intros q; simpl; rewrite ?rl_for_snoc;
    case_bool_decide; simpl; by rewrite ?app_nil_r.
Defined.
