(* ===== verification/Clients.v ===== *)
(** * Clients and local delivery ([internal/meshnode/client.go],
    [internal/httpapi/handlers.go])

    Client objects live in a heap: the routing table, the client map and the
    goroutines that drain the channels refer to the same object.  A handle
    carries the immutable fields and, for the two implementations that receive
    events, the address of the object. *)
From S2P Require Import Prelude EventLog RoutingTable.

(** The mutable part of a [TrustedClient] or an [HTTPClient]: the buffer kept by
    the former and the buffered channel, oldest event first. *)
Record ClientObject := mkClientObject {
  eventBuffer : list Event;
  eventChan : list Event
}.

(** [make(chan *eventlog.Event, 100)] *)
Definition client_chan_cap : nat := 100.

Abbreviation Heap := (gmap nat ClientObject).

(** A [meshnode.Client] value.  [OtherClient] stands for an implementation that
    is not a [routingtable.Subscriber]. *)
Inductive Client :=
  | TrustedClient (id : string) (connectedAt : Z) (ref : nat)
  | HTTPClient (clientID : string) (isAuthenticated : bool) (connectedAt : Z) (ref : nat)
  | OtherClient (id : string) (authenticated : bool).

#[export] Instance Client_eq_dec : EqDecision Client.
Proof. solve_decision. Defined.

Definition client_ID (c : Client) : string :=
  match c with TrustedClient id _ _ | HTTPClient id _ _ _ | OtherClient id _ => id end.

Definition client_IsAuthenticated (c : Client) : bool :=
  match c with TrustedClient _ _ _ => true | HTTPClient _ auth _ _ | OtherClient _ auth => auth end.

(** A subscriber of the node's routing table: a client, or one of the plain
    subscriber types of [pkg/routingtable]. *)
Inductive MeshSubscriber :=
  | SubClient (c : Client)
  | SubLocal (s : LocalSubscriber)
  | SubPeer (s : PeerSubscriber).

#[export] Instance MeshSubscriber_subscriber : Subscriber MeshSubscriber := {|
  sub_ID s := match s with SubClient c => client_ID c | SubLocal l => sub_ID l | SubPeer p => sub_ID p end;
  sub_Type s := match s with SubClient _ => LocalClient | SubLocal l => sub_Type l | SubPeer p => sub_Type p end
|}.

(** [client.(routingtablepkg.Subscriber)] *)
Definition as_subscriber (c : Client) : option MeshSubscriber :=
  match c with OtherClient _ _ => None | _ => Some (SubClient c) end.

Definition fresh_ref (h : Heap) : nat := fresh (dom h).

Definition NewTrustedClient (now : Z) (id : string) (h : Heap) : Client * Heap :=
  let ref := fresh_ref h in (TrustedClient id now ref, <[ref := mkClientObject [] []]> h).

Definition NewHTTPClient (now : Z) (clientID : string) (h : Heap) : Client * Heap :=
  let ref := fresh_ref h in (HTTPClient clientID true now ref, <[ref := mkClientObject [] []]> h).

Definition err_channel_full (id : string) : error :=
  ErrNew ("failed to deliver event to client " +:+ id +:+ ": channel full").
Definition err_slow_consumer (id : string) : error :=
  ErrNew ("failed to deliver event to client " +:+ id +:+ ": channel full (slow consumer)").

(** [select { case c.eventChan <- event: ..; default: .. }] *)
Definition try_send (event : Event) (o : ClientObject) : option ClientObject :=
  if bool_decide (length (eventChan o) < client_chan_cap)
  then Some (mkClientObject (eventBuffer o) (eventChan o ++ [event])) else None.

Definition object_at (h : Heap) (ref : nat) : ClientObject := default (mkClientObject [] []) (h !! ref).

(** [TrustedClient.DeliverEvent]: the buffer grows even when the channel is full. *)
Definition trusted_DeliverEvent (id : string) (ref : nat) (event : Event) (h : Heap)
    : option error * Heap :=
  let eventCopy := Copy event in
  let o := object_at h ref in
  let o := mkClientObject (eventBuffer o ++ [eventCopy]) (eventChan o) in
  match try_send eventCopy o with
  | Some o' => (None, <[ref := o']> h)
  | None => (Some (err_channel_full id), <[ref := o]> h)
  end.

(** [HTTPClient.DeliverEvent]. *)
Definition http_DeliverEvent (id : string) (ref : nat) (event : Event) (h : Heap)
    : option error * Heap :=
  match try_send event (object_at h ref) with
  | Some o' => (None, <[ref := o']> h)
  | None => (Some (err_slow_consumer id), h)
  end.

(** [subscriber.(eventDeliverer)]: [None] when the dynamic type has no
    [DeliverEvent] method. *)
Definition DeliverEvent (s : MeshSubscriber) (event : Event) (h : Heap) : option (option error * Heap) :=
  match s with
  | SubClient (TrustedClient id _ ref) => Some (trusted_DeliverEvent id ref event h)
  | SubClient (HTTPClient id _ _ ref) => Some (http_DeliverEvent id ref event h)
  | _ => None
  end.

(** [GetReceivedEvents]: copies of the buffer. *)
Definition GetReceivedEvents (ref : nat) (h : Heap) : list Event := Copy <$> eventBuffer (object_at h ref).

(** A receive on the event channel. *)
Definition chan_receive (ref : nat) (h : Heap) : option (Event * Heap) :=
  let o := object_at h ref in
  match eventChan o with
  | [] => None
  | e :: rest => Some (e, <[ref := mkClientObject (eventBuffer o) rest]> h)
  end.

(** ** The address an event is delivered to *)
Definition deliver_ref (s : MeshSubscriber) : option nat :=
  match s with
  | SubClient (TrustedClient _ _ ref) | SubClient (HTTPClient _ _ _ ref) => Some ref
  | _ => None
  end.

(** Whether the channel behind an address has room. *)
Definition has_room (h : Heap) (ref : nat) : bool :=
  bool_decide (length (eventChan (object_at h ref)) < client_chan_cap).

Lemma object_at_insert h ref o ref' :
  object_at (<[ref := o]> h) ref' = if decide (ref = ref') then o else object_at h ref'.
Proof. unfold object_at. rewrite lookup_insert. by case_decide. Qed.

(** Delivery to one subscriber: the event (up to the copy) is appended to its
    channel if there is room, an error is reported if there is none, and no
    other client's channel changes. *)
Lemma DeliverEvent_spec s event h ref :
  deliver_ref s = Some ref →
  ∃ err h', DeliverEvent s event h = Some (err, h') ∧
    (err = None ↔ has_room h ref = true) ∧
    (∀ ref', eventChan (object_at h' ref') ≡
      eventChan (object_at h ref') ++ (if decide (ref = ref') then if has_room h ref then [event] else [] else [])).
Proof.
  intros Hs. unfold has_room.
  destruct s as [[id at_ r|id auth at_ r|]| |]; simplify_eq/=.
  - unfold trusted_DeliverEvent, try_send; simpl. case_bool_decide; eexists _, _; (split_and!; [done|done|]);
      intros ref'; rewrite object_at_insert; case_decide; subst; simpl; rewrite ?app_nil_r; try done.
    f_equiv. constructor; [apply Copy_equiv|done].
  - unfold http_DeliverEvent, try_send; simpl. case_bool_decide; eexists _, _; (split_and!; [done|done|]);
      intros ref'; rewrite ?object_at_insert; case_decide; subst; simpl; rewrite ?app_nil_r; done.
Qed.
