(* ===== verification/MeshNode.v ===== *)
(** * The mesh node ([internal/meshnode])

    [GRPCMeshNode]: its state, and its operations one by one.  The event log and
    the peer link are interfaces ([EventLog], [PeerLink]); the routing table is
    the in-memory one.  Log output is not modelled; clock readings are arguments
    ([now], in nanoseconds); maps are visited in an unspecified order. *)
From S2P Require Import Prelude Topics EventLog RoutingTable Peers Clients PebbleStorage.

(** ** Data *)

(** [pkg/meshnode/errors.go]. *)
Definition ErrSubscriptionNotFound : error := ErrVar "meshnode.ErrSubscriptionNotFound" "subscription not found".
Definition ErrClientNotFound : error := ErrVar "meshnode.ErrClientNotFound" "client not found".

Record ClientSubscription := mkClientSubscription {
  cs_ID : string;
  cs_Topic : string;
  cs_ClientID : string;
  cs_CreatedAt : Z
}.

(** The fields of [config.go] the node reads at run time. *)
Record Config := mkConfig {
  cfg_NodeID : string;
  cfg_ListenAddress : string;
  cfg_SeedNodes : option (list string)   (* BootstrapConfig, nil or its seeds *)
}.

Definition ErrEmptyNodeID : error := ErrVar "meshnode.ErrEmptyNodeID" "node ID cannot be empty".
Definition ErrInvalidListenAddress : error := ErrVar "meshnode.ErrInvalidListenAddress" "listen address cannot be empty".

Definition NewConfig (nodeID listenAddress : string) : Config := mkConfig nodeID listenAddress None.

(** [Validate]; [peerLinkErr] is the result of validating the nested peer-link
    configuration, when there is one. *)
Definition cfg_Validate (c : Config) (peerLinkErr : option error) : option error :=
  if bool_decide (cfg_NodeID c = ""%string) then Some ErrEmptyNodeID
  else if bool_decide (cfg_ListenAddress c = ""%string) then Some ErrInvalidListenAddress
  else match peerLinkErr with
       | Some err => Some (ErrWrap "invalid PeerLink config" err)
       | None => None
       end.

(** The six atomic counters. *)
Record Counters := mkCounters {
  interestUpdatesSent : Z;
  interestUpdatesReceived : Z;
  interestSnapshotsSent : Z;
  interestSnapshotsReceived : Z;
  emptySnapshotsReceived : Z;
  snapshotTopicsReceived : Z
}.

Definition no_counters : Counters := mkCounters 0 0 0 0 0 0.

(** [n_lifecycle] is the lifecycle context whose cancel function the node holds;
    [n_running] the lifecycle contexts not yet cancelled, each with its
    background goroutines. *)
Record MeshNode (L P : Type) := mkMeshNode {
  n_config : Config;
  n_log : L;
  n_rt : InMemoryRoutingTable MeshSubscriber;
  n_link : P;
  n_heap : Heap;
  n_started : bool;
  n_closed : bool;
  n_lifecycle : option nat;
  n_running : list nat;
  n_clients : gmap string Client;
  n_subs : nested ClientSubscription;
  n_peer_subs : nested bool;
  n_counters : Counters
}.
Arguments mkMeshNode {L P}.
Arguments n_config {L P}.
Arguments n_log {L P}.
Arguments n_rt {L P}.
Arguments n_link {L P}.
Arguments n_heap {L P}.
Arguments n_started {L P}.
Arguments n_closed {L P}.
Arguments n_lifecycle {L P}.
Arguments n_running {L P}.
Arguments n_clients {L P}.
Arguments n_subs {L P}.
Arguments n_peer_subs {L P}.
Arguments n_counters {L P}.

(** The constants of [node.go]. *)
Definition MaxEventPayloadSize : Z := 1024 * 1024.

Record DeliveryResult := mkDeliveryResult {
  LocalSuccesses : Z;
  LocalFailures : Z;
  PeerSuccesses : Z;
  PeerFailures : Z;
  Errors : list error
}.

Definition no_deliveries : DeliveryResult := mkDeliveryResult 0 0 0 0 [].

Definition HasFailures (r : DeliveryResult) : bool :=
  bool_decide (0 < LocalFailures r)%Z || bool_decide (0 < PeerFailures r)%Z.

Definition TotalAttempts (r : DeliveryResult) : Z :=
  LocalSuccesses r + LocalFailures r + PeerSuccesses r + PeerFailures r.

Definition DeliveryResult_Error (r : DeliveryResult) : string :=
  if negb (HasFailures r) then ""
  else "event delivery partial failure: " +:+ pretty (LocalSuccesses r) +:+ " local successes, " +:+
       pretty (LocalFailures r) +:+ " local failures, " +:+ pretty (PeerSuccesses r) +:+
       " peer successes, " +:+ pretty (PeerFailures r) +:+ " peer failures".

Definition add_error (err : error) (r : DeliveryResult) : DeliveryResult :=
  mkDeliveryResult (LocalSuccesses r) (LocalFailures r) (PeerSuccesses r) (PeerFailures r) (Errors r ++ [err]).
Definition local_success (r : DeliveryResult) : DeliveryResult :=
  mkDeliveryResult (LocalSuccesses r + 1) (LocalFailures r) (PeerSuccesses r) (PeerFailures r) (Errors r).
Definition local_failure (err : error) (r : DeliveryResult) : DeliveryResult :=
  mkDeliveryResult (LocalSuccesses r) (LocalFailures r + 1) (PeerSuccesses r) (PeerFailures r) (Errors r ++ [err]).
Definition peer_success (r : DeliveryResult) : DeliveryResult :=
  mkDeliveryResult (LocalSuccesses r) (LocalFailures r) (PeerSuccesses r + 1) (PeerFailures r) (Errors r).
Definition peer_failure (err : error) (r : DeliveryResult) : DeliveryResult :=
  mkDeliveryResult (LocalSuccesses r) (LocalFailures r) (PeerSuccesses r) (PeerFailures r + 1) (Errors r ++ [err]).

Definition err_no_deliver (id : string) : error :=
  ErrNew ("subscriber " +:+ id +:+ " does not implement error-returning DeliverEvent interface").

(** [fmt.Sprintf("%v", list)] on strings. *)
Fixpoint join_space (l : list string) : string :=
  match l with
  | [] => ""
  | [s] => s
  | s :: l => s +:+ " " +:+ join_space l
  end.
Definition format_list (l : list string) : string := "[" +:+ join_space l +:+ "]".

Section MeshNode.
Context {L P : Type} `{!EventLog L, !PeerLink P, MO : !MapOrder}.
Implicit Types n : MeshNode L P.

(** Field updates. *)
Definition with_log l (n : MeshNode L P) : MeshNode L P :=
  mkMeshNode (n_config n) l (n_rt n) (n_link n) (n_heap n) (n_started n) (n_closed n)
    (n_lifecycle n) (n_running n) (n_clients n) (n_subs n) (n_peer_subs n) (n_counters n).
Definition with_rt rt (n : MeshNode L P) : MeshNode L P :=
  mkMeshNode (n_config n) (n_log n) rt (n_link n) (n_heap n) (n_started n) (n_closed n)
    (n_lifecycle n) (n_running n) (n_clients n) (n_subs n) (n_peer_subs n) (n_counters n).
Definition with_link p (n : MeshNode L P) : MeshNode L P :=
  mkMeshNode (n_config n) (n_log n) (n_rt n) p (n_heap n) (n_started n) (n_closed n)
    (n_lifecycle n) (n_running n) (n_clients n) (n_subs n) (n_peer_subs n) (n_counters n).
Definition with_heap h (n : MeshNode L P) : MeshNode L P :=
  mkMeshNode (n_config n) (n_log n) (n_rt n) (n_link n) h (n_started n) (n_closed n)
    (n_lifecycle n) (n_running n) (n_clients n) (n_subs n) (n_peer_subs n) (n_counters n).
Definition with_life started closed lifecycle running (n : MeshNode L P) : MeshNode L P :=
  mkMeshNode (n_config n) (n_log n) (n_rt n) (n_link n) (n_heap n) started closed
    lifecycle running (n_clients n) (n_subs n) (n_peer_subs n) (n_counters n).
Definition with_clients cs (n : MeshNode L P) : MeshNode L P :=
  mkMeshNode (n_config n) (n_log n) (n_rt n) (n_link n) (n_heap n) (n_started n) (n_closed n)
    (n_lifecycle n) (n_running n) cs (n_subs n) (n_peer_subs n) (n_counters n).
Definition with_subs subs (n : MeshNode L P) : MeshNode L P :=
  mkMeshNode (n_config n) (n_log n) (n_rt n) (n_link n) (n_heap n) (n_started n) (n_closed n)
    (n_lifecycle n) (n_running n) (n_clients n) subs (n_peer_subs n) (n_counters n).
Definition with_peer_subs ps (n : MeshNode L P) : MeshNode L P :=
  mkMeshNode (n_config n) (n_log n) (n_rt n) (n_link n) (n_heap n) (n_started n) (n_closed n)
    (n_lifecycle n) (n_running n) (n_clients n) (n_subs n) ps (n_counters n).
Definition with_counters c (n : MeshNode L P) : MeshNode L P :=
  mkMeshNode (n_config n) (n_log n) (n_rt n) (n_link n) (n_heap n) (n_started n) (n_closed n)
    (n_lifecycle n) (n_running n) (n_clients n) (n_subs n) (n_peer_subs n) c.

(** [NewGRPCMeshNode]: the components are created by the arguments; [factory] is
    [config.EventLogFactory] ([None] in the outcome: it returned nil). *)
Definition NewGRPCMeshNode (config : option Config) (peerLinkErr : option error)
    (factory : option (outcome (option L))) (default_log : L) (newLink : outcome P)
    : outcome (MeshNode L P) :=
  match config with
  | None => Err (ErrNew "config cannot be nil")
  | Some config =>
    match cfg_Validate config peerLinkErr with
    | Some err => Err (ErrWrap "invalid config" err)
    | None =>
      nodeEventLog ← match factory with
                     | None => Ok default_log
                     | Some r =>
                       log ← wrap_err "failed to create EventLog" r;
                       match log with
                       | None => Err (ErrNew "failed to create EventLog: factory returned nil")
                       | Some log => Ok log
                       end
                     end;
      peerLink ← wrap_err "failed to create PeerLink" newLink;
      Ok (mkMeshNode config nodeEventLog NewInMemoryRoutingTable peerLink ∅ false false
            None [] ∅ ∅ ∅ no_counters)
    end
  end.

(** ** Publishing ([node_publish.go]) *)

Definition err_payload_size (size : Z) : error :=
  ErrNew ("event payload size " +:+ pretty size +:+ " bytes exceeds maximum allowed size " +:+
          pretty MaxEventPayloadSize +:+ " bytes").

Definition validatePublishRequest n (client : option Client) (event : option Event) : option error :=
  if n_closed n then Some (ErrNew "cannot publish to closed mesh node")
  else if negb (n_started n) then Some (ErrNew "cannot publish to stopped mesh node")
  else match client with
  | None => Some (ErrNew "client cannot be nil")
  | Some client =>
    match event with
    | None => Some (ErrNew "event cannot be nil")
    | Some event =>
      if negb (client_IsAuthenticated client) then Some (ErrNew "client is not authenticated")
      else
        let size := Z.of_nat (length (contents (Payload event))) in
        if bool_decide (MaxEventPayloadSize < size)%Z then Some (err_payload_size size) else None
    end
  end.

(** The delivery loop over the subscribers of the topic. *)
Fixpoint deliver_loop (ctx : Ctx) (event : Event) (subs : list MeshSubscriber) (h : Heap)
    (result : DeliveryResult) : DeliveryResult * Ctx * Heap :=
  match subs with
  | [] => (result, ctx, h)
  | subscriber :: rest =>
    let '(err, ctx) := poll ctx in
    match err with
    | Some err => (add_error err result, ctx, h)
    | None =>
      if bool_decide (sub_Type subscriber = LocalClient) then
        match DeliverEvent subscriber event h with
        | Some (Some err, h) => deliver_loop ctx event rest h (local_failure err result)
        | Some (None, h) => deliver_loop ctx event rest h (local_success result)
        | None => deliver_loop ctx event rest h (local_failure (err_no_deliver (sub_ID subscriber)) result)
        end
      else deliver_loop ctx event rest h result
    end
  end.

Definition deliverToLocalSubscribers (ctx : Ctx) (event : Event) n
    : outcome DeliveryResult * Ctx * MeshNode L P :=
  match rt_GetSubscribers (Topic event) (n_rt n) with
  | Ok subs =>
      let '(result, ctx, h) := deliver_loop ctx event subs (n_heap n) no_deliveries in
      (Ok result, ctx, with_heap h n)
  | Err err => (Ok (add_error (ErrWrap "failed to get local subscribers" err) no_deliveries), ctx, n)
  | Panic m => (Panic m, ctx, n)
  end.

(** [getInterestedPeers] ([node_peer_events.go]): the inner loop breaks at the
    first matching pattern. *)
Definition peer_interested (peerTopics : gmap string bool) (topic : string) : bool :=
  existsb (λ '(pattern, hasSubscriber), hasSubscriber && matchesPeerSubscriptionPattern pattern topic)
    (range_map peerTopics).

Definition getInterestedPeers n (topic : string) (allPeers : list PeerNode) : list PeerNode :=
  filter (λ peer, match n_peer_subs n !! peer_ID peer with
                  | Some peerTopics => peer_interested peerTopics topic
                  | None => false
                  end = true) allPeers.

Fixpoint forward_loop (ctx : Ctx) (event : Event) (peers : list PeerNode) (p : P)
    (result : DeliveryResult) : outcome DeliveryResult * Ctx * P :=
  match peers with
  | [] => (Ok result, ctx, p)
  | peer :: rest =>
    let '(err, ctx) := poll ctx in
    match err with
    | Some err => (Ok (add_error err result), ctx, p)
    | None =>
      let '(r, ctx, p) := SendEvent ctx (peer_ID peer) event p in
      match r with
      | Ok _ => forward_loop ctx event rest p (peer_success result)
      | Err err => forward_loop ctx event rest p (peer_failure err result)
      | Panic m => (Panic m, ctx, p)
      end
    end
  end.

Definition forwardToPeers (ctx : Ctx) (event : Event) (result : DeliveryResult) n
    : outcome DeliveryResult * Ctx * MeshNode L P :=
  match GetConnectedPeers (n_link n) with
  | Ok connectedPeers =>
      let '(result, ctx, p) :=
        forward_loop ctx event (getInterestedPeers n (Topic event) connectedPeers) (n_link n) result in
      (result, ctx, with_link p n)
  | Err err => (Ok (add_error (ErrWrap "failed to get peers" err) result), ctx, n)
  | Panic m => (Panic m, ctx, n)
  end.

(** The steps after the event is persisted. *)
Definition publish_deliver (ctx : Ctx) (persistedEvent : Event) n : outcome Event * Ctx * MeshNode L P :=
  let '(r, ctx, n) := deliverToLocalSubscribers ctx persistedEvent n in
  match r with
  | Err err => (Err err, ctx, n)
  | Panic m => (Panic m, ctx, n)
  | Ok result =>
    let '(err, ctx) := poll ctx in
    match err with
    | Some err => (Err err, ctx, n)
    | None =>
      let '(r, ctx, n) := forwardToPeers ctx persistedEvent result n in
      match r with
      | Err err => (Err err, ctx, n)
      | Panic m => (Panic m, ctx, n)
      | Ok result =>
        let '(err, ctx) := poll ctx in
        match err with
        | Some err => (Err err, ctx, n)
        | None =>
          if HasFailures result then (Err (ErrNew (DeliveryResult_Error result)), ctx, n)
          else (Ok persistedEvent, ctx, n)
        end
      end
    end
  end.

Definition PublishEventWithResult (ctx : Ctx) (client : option Client) (event : option Event) n
    : outcome Event * Ctx * MeshNode L P :=
  match validatePublishRequest n client event with
  | Some err => (Err err, ctx, n)
  | None =>
    match event with
    | None => (Panic nil_dereference, ctx, n)
    | Some event =>
      let '(r, ctx, log) := AppendEvent ctx (Topic event) (Some event) (n_log n) in
      match r with
      | Err err => (Err (ErrWrap "failed to persist event locally" err), ctx, with_log log n)
      | Panic m => (Panic m, ctx, with_log log n)
      | Ok persistedEvent => publish_deliver ctx persistedEvent (with_log log n)
      end
    end
  end.

Definition PublishEvent (ctx : Ctx) (client : option Client) (event : option Event) n
    : outcome unit * Ctx * MeshNode L P :=
  let '(r, ctx, n) := PublishEventWithResult ctx client event n in
  ((λ _, ()) <$> r, ctx, n).

(** ** Events and interest from peers ([node_peer_events.go]) *)

(** The delivery loop for an event received from a peer: no context check, no
    accounting; delivery failures are only logged. *)
Fixpoint incoming_loop (event : Event) (subs : list MeshSubscriber) (h : Heap) : Heap :=
  match subs with
  | [] => h
  | subscriber :: rest =>
    if bool_decide (sub_Type subscriber = LocalClient) then
      match DeliverEvent subscriber event h with
      | Some (_, h) => incoming_loop event rest h
      | None => incoming_loop event rest h
      end
    else incoming_loop event rest h
  end.

(** The three phases of [processIncomingUserEvent]: the check under the read
    lock; the append, without the lock; the delivery, under the read lock again.
    Anything may happen between them. *)
Definition incoming_running n : bool := negb (n_closed n || negb (n_started n)).

Definition incoming_append (ctx : Ctx) (event : Event) n : outcome Event * Ctx * MeshNode L P :=
  let '(r, ctx, log) := AppendEvent ctx (Topic event) (Some event) (n_log n) in (r, ctx, with_log log n).

Definition incoming_deliver (topic : string) (persistedEvent : Event) n : MeshNode L P :=
  match rt_GetSubscribers topic (n_rt n) with
  | Ok subs => with_heap (incoming_loop persistedEvent subs (n_heap n)) n
  | _ => n
  end.

(** The phases in a row. *)
Definition processIncomingUserEvent (ctx : Ctx) (event : Event) n : Ctx * MeshNode L P :=
  if incoming_running n then
    let '(r, ctx, n) := incoming_append ctx event n in
    match r with
    | Ok persistedEvent => (ctx, incoming_deliver (Topic event) persistedEvent n)
    | _ => (ctx, n)
    end
  else (ctx, n).

Definition count_update_received (c : Counters) : Counters :=
  mkCounters (interestUpdatesSent c) (wrap64 (interestUpdatesReceived c + 1)) (interestSnapshotsSent c)
    (interestSnapshotsReceived c) (emptySnapshotsReceived c) (snapshotTopicsReceived c).

Definition processIncomingInterestUpdate (update : option InterestUpdate) n : MeshNode L P :=
  match update with
  | None => n
  | Some update =>
    let n := with_counters (count_update_received (n_counters n)) n in
    (* if n.peerSubscriptions[update.NodeId] == nil { .. = make(map[string]bool) } *)
    let inner := default ∅ (n_peer_subs n !! iu_NodeId update) in
    let inner :=
      if bool_decide (iu_Action update = "subscribe"%string) then <[iu_Topic update := true]> inner
      else if bool_decide (iu_Action update = "unsubscribe"%string) then delete (iu_Topic update) inner
      else inner in
    with_peer_subs (<[iu_NodeId update := inner]> (n_peer_subs n)) n
  end.

Definition count_snapshot_received (topics : Z) (c : Counters) : Counters :=
  mkCounters (interestUpdatesSent c) (interestUpdatesReceived c) (interestSnapshotsSent c)
    (wrap64 (interestSnapshotsReceived c + 1))
    (if bool_decide (topics = 0%Z) then wrap64 (emptySnapshotsReceived c + 1) else emptySnapshotsReceived c)
    (wrap64 (snapshotTopicsReceived c + topics)).

(** [for _, topic := range snapshot.Topics { if topic != "" { topics\[topic\] = true } }] *)
Definition snapshot_topics (topics : list string) : gmap string bool :=
  foldl (λ m topic, if bool_decide (topic ≠ ""%string) then <[topic := true]> m else m) ∅ topics.

Definition processIncomingInterestSnapshot (snapshot : option InterestSnapshot) n : MeshNode L P :=
  match snapshot with
  | None => n
  | Some snapshot =>
    let n := with_counters (count_snapshot_received (Z.of_nat (length (is_Topics snapshot))) (n_counters n)) n in
    with_peer_subs (<[is_NodeId snapshot := snapshot_topics (is_Topics snapshot)]> (n_peer_subs n)) n
  end.

Definition processIncomingInterestMessage (message : option InterestMessage) n : MeshNode L P :=
  match message with
  | None => n
  | Some message =>
    match im_Update message with
    | Some update => processIncomingInterestUpdate (Some update) n
    | None => processIncomingInterestSnapshot (im_Snapshot message) n
    end
  end.

(** ** Subscriptions ([node_subscriptions.go]) *)

(** [count++] for each subscription of the topic. *)
Definition localTopicInterestCount n (topic : string) : Z :=
  foldl (λ count '(_, _, subscription),
           if bool_decide (cs_Topic subscription = topic) then wrap64 (count + 1) else count)
    0%Z (range_nested (n_subs n)).

Definition localSubscriptionSnapshot n : list ClientSubscription :=
  (λ '(_, _, subscription), subscription) <$> range_nested (n_subs n).

(** Keep the first occurrence of each topic. *)
Fixpoint dedup_topics (subs : list ClientSubscription) (seen : gset string) : list string :=
  match subs with
  | [] => []
  | sub :: rest =>
      if bool_decide (cs_Topic sub ∈ seen) then dedup_topics rest seen
      else cs_Topic sub :: dedup_topics rest ({[cs_Topic sub]} ∪ seen)
  end.

Definition localInterestSnapshot n : list string :=
  sort_Strings (dedup_topics (localSubscriptionSnapshot n) ∅).

Definition addSubscriptionMetadata (now : Z) (clientID subscriptionID topic : string) n : MeshNode L P :=
  with_subs (nested_insert clientID subscriptionID
               (mkClientSubscription subscriptionID topic clientID now) (n_subs n)) n.

Definition removeSubscriptionMetadataByTopic (clientID topic : string) n : MeshNode L P :=
  match n_subs n !! clientID with
  | None => n
  | Some clientSubs =>
      let clientSubs := filter (λ '(_, sub), cs_Topic sub ≠ topic) clientSubs in
      if bool_decide (size clientSubs = 0) then with_subs (delete clientID (n_subs n)) n
      else with_subs (<[clientID := clientSubs]> (n_subs n)) n
  end.

Definition count_update_sent (c : Counters) : Counters :=
  mkCounters (wrap64 (interestUpdatesSent c + 1)) (interestUpdatesReceived c) (interestSnapshotsSent c)
    (interestSnapshotsReceived c) (emptySnapshotsReceived c) (snapshotTopicsReceived c).

Definition err_send_to_peer (peer : string) (err : error) : error :=
  ErrWrap ("failed to send to peer " +:+ peer) err.

(** The sending loop: successes, failures and errors, and the node with its
    link and counter updated.  A panic stops it. *)
Fixpoint propagate_loop (ctx : Ctx) (update : InterestUpdate) (peers : list PeerNode) n
    (successCount failureCount : Z) (errors : list error) : outcome (Z * Z * list error) * Ctx * MeshNode L P :=
  match peers with
  | [] => (Ok (successCount, failureCount, errors), ctx, n)
  | peer :: rest =>
    let '(r, ctx, p) := SendInterestUpdate ctx (peer_ID peer) update (n_link n) in
    let n := with_link p n in
    match r with
    | Ok _ => propagate_loop ctx update rest (with_counters (count_update_sent (n_counters n)) n)
                (successCount + 1) failureCount errors
    | Err err => propagate_loop ctx update rest n successCount (failureCount + 1)
                   (errors ++ [err_send_to_peer (peer_ID peer) err])
    | Panic m => (Panic m, ctx, n)
    end
  end.

Definition err_propagate (failures : Z) (errors : list error) : error :=
  ErrNew ("failed to propagate interest update to all " +:+ pretty failures +:+ " peers: " +:+
          format_list (error_String <$> errors)).

Definition propagateInterestUpdate (ctx : Ctx) (action topic : string) n : outcome unit * Ctx * MeshNode L P :=
  if bool_decide (action = ""%string ∨ topic = ""%string) then (Err (ErrNew "action and topic cannot be empty"), ctx, n)
  else if bool_decide (action ≠ "subscribe"%string ∧ action ≠ "unsubscribe"%string) then
    (Err (ErrNew "action must be 'subscribe' or 'unsubscribe'"), ctx, n)
  else match GetConnectedPeers (n_link n) with
  | Err err => (Err (ErrWrap "failed to get connected peers" err), ctx, n)
  | Panic m => (Panic m, ctx, n)
  | Ok connectedPeers =>
    if bool_decide (length connectedPeers = 0) then (Ok (), ctx, n)
    else
      let update := mkUpdate (cfg_NodeID (n_config n)) action topic in
      let '(r, ctx, n) := propagate_loop ctx update connectedPeers n 0 0 [] in
      match r with
      | Ok (successCount, failureCount, errors) =>
          if bool_decide (0 < failureCount ∧ successCount = 0)%Z
          then (Err (err_propagate failureCount errors), ctx, n) else (Ok (), ctx, n)
      | Err err => (Err err, ctx, n)
      | Panic m => (Panic m, ctx, n)
      end
  end.

(** The guards [Subscribe] and [Unsubscribe] share. *)
Definition subscription_guard (verb : string) n (client : option Client) (topic : string)
    : outcome Client :=
  if n_closed n then Err (ErrNew ("cannot " +:+ verb +:+ " closed mesh node"))
  else if negb (n_started n) then Err (ErrNew ("cannot " +:+ verb +:+ " stopped mesh node"))
  else match client with
  | None => Err (ErrNew "client cannot be nil")
  | Some client =>
    if bool_decide (topic = ""%string) then Err err_topic_empty
    else if negb (client_IsAuthenticated client) then Err (ErrNew "client is not authenticated")
    else Ok client
  end.

(** A failed propagation is logged, a panic is not recovered. *)
Definition logged (r : outcome unit * Ctx * MeshNode L P) : outcome unit * Ctx * MeshNode L P :=
  let '(r, ctx, n) := r in
  match r with Panic m => (Panic m, ctx, n) | _ => (Ok (), ctx, n) end.

Definition subscription_id (clientID : string) (now : Z) : string :=
  "sub-" +:+ clientID +:+ "-" +:+ pretty now.

(** The local bookkeeping of [Subscribe]: routing table, client map, metadata. *)
Definition record_subscription (now now' : Z) (client : Client) (topic : string)
    (rt : InMemoryRoutingTable MeshSubscriber) n : MeshNode L P :=
  let n := with_rt rt n in
  let n := with_clients (<[client_ID client := client]> (n_clients n)) n in
  addSubscriptionMetadata now' (client_ID client) (subscription_id (client_ID client) now) topic n.

(** [now] and [now'] are the two readings of the clock. *)
Definition node_Subscribe (ctx : Ctx) (now now' : Z) (client : option Client) (topic : string) n
    : outcome unit * Ctx * MeshNode L P :=
  match subscription_guard "subscribe to" n client topic with
  | Err err => (Err err, ctx, n)
  | Panic m => (Panic m, ctx, n)
  | Ok client =>
    match as_subscriber client with
    | None => (Err (ErrNew "client does not implement Subscriber interface"), ctx, n)
    | Some subscriber =>
      let hadLocalInterest := bool_decide (0 < localTopicInterestCount n topic)%Z in
      let '(r, rt) := rt_Subscribe topic (Some subscriber) (n_rt n) in
      match r with
      | Err err => (Err (ErrWrap "failed to add local subscription" err), ctx, n)
      | Panic m => (Panic m, ctx, n)
      | Ok _ =>
        let n := record_subscription now now' client topic rt n in
        if hadLocalInterest then (Ok (), ctx, n)
        else logged (propagateInterestUpdate ctx "subscribe" topic n)
      end
    end
  end.

Definition node_Unsubscribe (ctx : Ctx) (client : option Client) (topic : string) n
    : outcome unit * Ctx * MeshNode L P :=
  match subscription_guard "unsubscribe from" n client topic with
  | Err err => (Err err, ctx, n)
  | Panic m => (Panic m, ctx, n)
  | Ok client =>
    let '(r, rt) := rt_Unsubscribe topic (client_ID client) (n_rt n) in
    match r with
    | Err err => (Err (ErrWrap "failed to remove local subscription" err), ctx, n)
    | Panic m => (Panic m, ctx, n)
    | Ok _ =>
      let n := removeSubscriptionMetadataByTopic (client_ID client) topic (with_rt rt n) in
      if bool_decide (localTopicInterestCount n topic = 0)%Z
      then logged (propagateInterestUpdate ctx "unsubscribe" topic n)
      else (Ok (), ctx, n)
    end
  end.

Definition GetClientSubscriptions (clientID : string) n : list ClientSubscription :=
  match n_subs n !! clientID with
  | None => []
  | Some clientSubs => (range_map clientSubs).*2
  end.

Definition err_no_subscriptions (clientID : string) : error :=
  ErrWith ErrSubscriptionNotFound ("no subscriptions found for client " +:+ clientID).
Definition err_no_subscription (subscriptionID clientID : string) : error :=
  ErrWith ErrSubscriptionNotFound ("subscription " +:+ subscriptionID +:+ " not found for client " +:+ clientID).
Definition err_no_client (clientID : string) : error :=
  ErrWith ErrClientNotFound ("client " +:+ clientID +:+ " not found").

(** The locks are released between the lookup and [Unsubscribe]; the function is
    the run in which nothing happens in between. *)
Definition UnsubscribeByID (ctx : Ctx) (clientID subscriptionID : string) n
    : outcome unit * Ctx * MeshNode L P :=
  match n_subs n !! clientID with
  | None => (Err (err_no_subscriptions clientID), ctx, n)
  | Some clientSubs =>
    match clientSubs !! subscriptionID with
    | None => (Err (err_no_subscription subscriptionID clientID), ctx, n)
    | Some subscription =>
      match n_clients n !! clientID with
      | None => (Err (err_no_client clientID), ctx, n)
      | Some client =>
        let '(r, ctx, n) := node_Unsubscribe ctx (Some client) (cs_Topic subscription) n in
        (wrap_err "failed to unsubscribe" r, ctx, n)
      end
    end
  end.

Definition count_snapshot_sent (c : Counters) : Counters :=
  mkCounters (interestUpdatesSent c) (interestUpdatesReceived c) (wrap64 (interestSnapshotsSent c + 1))
    (interestSnapshotsReceived c) (emptySnapshotsReceived c) (snapshotTopicsReceived c).

Definition syncLocalSubscriptionsToPeer (ctx : Ctx) (peerID : string) n : outcome unit * Ctx * MeshNode L P :=
  let snapshot := mkSnapshot (cfg_NodeID (n_config n)) (localInterestSnapshot n) in
  let '(r, ctx, p) := SendInterestSnapshot ctx peerID snapshot (n_link n) in
  let n := with_link p n in
  match r with
  | Ok _ => (Ok (), ctx, with_counters (count_snapshot_sent (n_counters n)) n)
  | _ => (wrap_err ("failed to send interest snapshot to peer " +:+ peerID) r, ctx, n)
  end.

(** One tick of [resyncSubscriptionsToNewPeers]: peers not seen before get a
    snapshot, and peers no longer connected are forgotten. *)
Fixpoint resync_loop (ctx : Ctx) (peers : list PeerNode) (seenPeers : gset string) n
    : outcome (gset string) * Ctx * MeshNode L P :=
  match peers with
  | [] => (Ok seenPeers, ctx, n)
  | peer :: rest =>
    if bool_decide (peer_ID peer ∈ seenPeers) then resync_loop ctx rest seenPeers n
    else
      let '(r, ctx, n) := syncLocalSubscriptionsToPeer ctx (peer_ID peer) n in
      match r with
      | Ok _ => resync_loop ctx rest ({[peer_ID peer]} ∪ seenPeers) n
      | Err _ => resync_loop ctx rest seenPeers n
      | Panic m => (Panic m, ctx, n)
      end
  end.

Definition resync_tick (ctx : Ctx) (seenPeers : gset string) n : outcome (gset string) * Ctx * MeshNode L P :=
  match GetConnectedPeers (n_link n) with
  | Ok connectedPeers =>
      let currentPeers : gset string := list_to_set (peer_ID <$> connectedPeers) in
      let '(r, ctx, n) := resync_loop ctx connectedPeers seenPeers n in
      ((λ seen, filter (λ peer, peer ∈ currentPeers) seen) <$> r, ctx, n)
  | Err _ => (Ok seenPeers, ctx, n)
  | Panic m => (Panic m, ctx, n)
  end.
End MeshNode.
