(* ===== verification/NodeLifecycle.v ===== *)
(** * Lifecycle, accessors, health and statistics of the mesh node
    ([internal/meshnode/node_lifecycle.go], [node_discovery.go],
    [node_accessors.go], [node_health.go], [node_routing_stats.go],
    [internal/discovery/static.go]) *)
From S2P Require Import Prelude EventLog RoutingTable Peers Clients PebbleStorage MeshNode.

(** ** Discovery ([internal/discovery/static.go]) *)

(** [FindPeers]: the address of a seed doubles as its identity. *)
Definition FindPeers (seedNodes : list string) : list PeerNode :=
  (λ address, mkPeerNode address address) <$> seedNodes.

(** Credentials are an [interface{}]. *)
Inductive Credentials :=
  | CredNil
  | CredString (s : string)
  | CredOther.

Record HealthStatus := mkHealthStatus {
  Healthy : bool;
  EventLogHealthy : bool;
  RoutingTableHealthy : bool;
  PeerLinkHealthy : bool;
  ConnectedClients : Z;
  ConnectedPeers : Z;
  Message : string
}.

Record RoutingStats := mkRoutingStats {
  rs_LocalSubscriptions : Z;
  rs_LocalClientsWithSubscriptions : Z;
  rs_LocalInterestTopics : list string;
  rs_PeerInterest : gmap string (list string);
  rs_Counters : Counters
}.

Section Lifecycle.
Context {L P : Type} `{!EventLog L, !PeerLink P, MO : !MapOrder}.
Implicit Types n : MeshNode L P.

(** The connecting loop of [runDiscovery]: failures are logged and skipped. *)
Fixpoint discovery_loop (peers : list PeerNode) (p : P) (connectedCount : Z) : outcome Z * P :=
  match peers with
  | [] => (Ok connectedCount, p)
  | peer :: rest =>
    let '(r, p) := Connect peer p in
    match r with
    | Ok _ => discovery_loop rest p (connectedCount + 1)
    | Err _ => discovery_loop rest p connectedCount
    | Panic m => (Panic m, p)
    end
  end.

Definition runDiscovery (seedNodes : list string) n : outcome unit * MeshNode L P :=
  let '(r, p) := discovery_loop (FindPeers seedNodes) (n_link n) 0 in
  ((λ _, ()) <$> r, with_link p n).

(** A lifecycle context that is not in use. *)
Definition fresh_lifecycle n : nat := fresh (list_to_set (n_running n) : gset nat).

Definition node_Start n : outcome unit * MeshNode L P :=
  if n_closed n then (Err (ErrNew "cannot start closed mesh node"), n)
  else if n_started n then (Ok (), n)
  else
    let '(r, p) := StartLink (n_link n) in
    let n := with_link p n in
    match r with
    | Err err => (Err (ErrWrap "failed to start PeerLink" err), n)
    | Panic m => (Panic m, n)
    | Ok _ =>
      let '(r, n) := match cfg_SeedNodes (n_config n) with
                     | Some ((_ :: _) as seeds) => runDiscovery seeds n
                     | _ => (Ok (), n)
                     end in
      match r with
      | Panic m => (Panic m, n)
      | _ =>
        let lifecycle := fresh_lifecycle n in
        let '(r, p) := StartHeartbeats (n_link n) in
        let n := with_link p n in
        match r with
        | Err err => (Err (ErrWrap "failed to start peer heartbeats" err), n)
        | Panic m => (Panic m, n)
        | Ok _ => (Ok (), with_life true (n_closed n) (Some lifecycle) (lifecycle :: n_running n) n)
        end
      end
    end.

(** [cancel()] on the held lifecycle context. *)
Definition cancel_lifecycle (lifecycle : option nat) (running : list nat) : list nat :=
  match lifecycle with
  | Some l => filter (λ r, r ≠ l) running
  | None => running
  end.

Definition node_Stop n : outcome unit * MeshNode L P :=
  if negb (n_started n) then (Ok (), n)
  else
    let n := with_life false (n_closed n) None (cancel_lifecycle (n_lifecycle n) (n_running n)) n in
    let '(r, p) := StopHeartbeats (n_link n) in
    let n := with_link p n in
    match r with
    | Err err => (Err (ErrWrap "failed to stop peer heartbeats" err), n)
    | Panic m => (Panic m, n)
    | Ok _ =>
      let '(r, p) := StopLink (n_link n) in
      (wrap_err "failed to stop PeerLink" r, with_link p n)
    end.

Definition node_Close n : outcome unit * MeshNode L P :=
  if n_closed n then (Ok (), n)
  else
    let '(r, log) := CloseLog (n_log n) in
    let n := with_log log n in
    match r with
    | Err err => (Err (ErrWrap "failed to close EventLog" err), n)
    | Panic m => (Panic m, n)
    | Ok _ =>
      let '(r, rt) := rt_Close (n_rt n) in
      let n := with_rt rt n in
      match r with
      | Err err => (Err (ErrWrap "failed to close RoutingTable" err), n)
      | Panic m => (Panic m, n)
      | Ok _ =>
        let '(r, p) := CloseLink (n_link n) in
        let n := with_link p n in
        match r with
        | Err err => (Err (ErrWrap "failed to close PeerLink" err), n)
        | Panic m => (Panic m, n)
        | Ok _ => (Ok (), with_life false true (n_lifecycle n) (n_running n) n)
        end
      end
    end.

(** ** Accessors ([node_accessors.go]) *)
Definition AuthenticateClient (now : Z) (credentials : Credentials) n : outcome Client * MeshNode L P :=
  if n_closed n then (Err (ErrNew "cannot authenticate to closed mesh node"), n)
  else match credentials with
  | CredNil => (Err (ErrNew "credentials cannot be nil"), n)
  | CredOther => (Err (ErrNew "credentials must be a string client ID"), n)
  | CredString clientID =>
    if bool_decide (clientID = ""%string) then (Err (ErrNew "client ID cannot be empty"), n)
    else match n_clients n !! clientID with
    | Some existingClient => (Ok existingClient, n)
    | None =>
      let '(client, h) := NewTrustedClient now clientID (n_heap n) in
      (Ok client, with_clients (<[clientID := client]> (n_clients n)) (with_heap h n))
    end
  end.

Definition GetNodeID n : string := cfg_NodeID (n_config n).

Definition GetConnectedClients n : list Client := (range_map (n_clients n)).*2.

Definition node_GetConnectedPeers n : outcome (list PeerNode) := GetConnectedPeers (n_link n).

(** ** Health ([node_health.go]) *)

(** The check of one component: its flag and its message, if any. *)
Definition check_component {A} (name : string) (closed : bool) (r : outcome A) : outcome (bool * list string) :=
  if closed then Ok (false, [(name +:+ " unhealthy: node is closed")%string])
  else match r with
       | Ok _ => Ok (true, [])
       | Err err => Ok (false, [(name +:+ " unhealthy: " +:+ error_String err)%string])
       | Panic m => Panic m
       end.

Definition lifecycle_messages n : list string :=
  (if n_closed n then ["node is closed"%string] else []) ++
  (if n_started n then [] else ["node is not started"%string]).

Definition GetHealth (ctx : Ctx) n : outcome HealthStatus * Ctx :=
  let '(stats, ctx) :=
    if n_closed n then (Err err_log_closed, ctx) else GetStatistics ctx (n_log n) in
  let peers :=
    if n_closed n then [] else match GetConnectedPeers (n_link n) with Ok peers => peers | _ => [] end in
  (el ← check_component "EventLog" (n_closed n) stats;
   rt ← check_component "RoutingTable" (n_closed n) (rt_GetSubscribers "__health.check" (n_rt n));
   pl ← check_component "PeerLink" (n_closed n) (GetConnectedPeers (n_link n));
   let healthMessages := lifecycle_messages n ++ el.2 ++ rt.2 ++ pl.2 in
   Ok {| Healthy := negb (n_closed n) && el.1 && rt.1 && pl.1;
         EventLogHealthy := el.1;
         RoutingTableHealthy := rt.1;
         PeerLinkHealthy := pl.1;
         ConnectedClients := Z.of_nat (size (n_clients n));
         ConnectedPeers := Z.of_nat (length peers);
         Message := if bool_decide (length healthMessages = 0) then "All components healthy"
                    else "Issues detected: " +:+ format_list healthMessages |}, ctx).

(** ** Statistics ([node_routing_stats.go]) *)
Definition localSubscriptionCounts n : Z * Z :=
  foldl (λ '(subscriptions, clients) '(_, clientSubscriptions),
           if bool_decide (size (clientSubscriptions : gmap string ClientSubscription) = 0) then (subscriptions, clients)
           else (wrap64 (subscriptions + Z.of_nat (size clientSubscriptions)), wrap64 (clients + 1)))
    (0, 0)%Z (range_map (n_subs n)).

Definition interested_topics (topics : gmap string bool) : list string :=
  (filter (λ '(_, interested), interested = true) (range_map topics)).*1.

Definition peerInterestSnapshot n : gmap string (list string) :=
  foldl (λ peers '(peerID, topics),
           if bool_decide (size (topics : gmap string bool) = 0) then peers
           else
             let peerTopics := interested_topics topics in
             if bool_decide (length peerTopics = 0) then peers
             else <[peerID := sort_Strings peerTopics]> peers)
    ∅ (range_map (n_peer_subs n)).

Definition GetRoutingStats n : RoutingStats :=
  let '(subscriptions, clients) := localSubscriptionCounts n in
  {| rs_LocalSubscriptions := subscriptions;
     rs_LocalClientsWithSubscriptions := clients;
     rs_LocalInterestTopics := localInterestSnapshot n;
     rs_PeerInterest := peerInterestSnapshot n;
     rs_Counters := n_counters n |}.
End Lifecycle.
