(* ===== verification/NodePublish.v ===== *)
(** * Publishing: what is persisted, delivered and forwarded

    Properties of [PublishEventWithResult] and of [processIncomingUserEvent],
    for any event log and any peer link that meet their contracts. *)
From S2P Require Import Prelude Topics EventLog RoutingTable Peers Clients MeshNode.

#[local] Set Default Proof Using "Type*".

(** The number of entries of a list of subscribers that deliver to an address,
    and of a list of peers with an identity. *)
Definition deliver_count (ref : nat) (subs : list MeshSubscriber) : nat :=
  length (filter (λ s, deliver_ref s = Some ref) subs).
Definition peer_count (q : string) (peers : list PeerNode) : nat :=
  length (filter (λ peer, peer_ID peer = q) peers).

Lemma deliver_count_cons ref s subs :
  deliver_count ref (s :: subs) =
    (if decide (deliver_ref s = Some ref) then 1 else 0) + deliver_count ref subs.
Proof. unfold deliver_count. rewrite filter_cons. by case_decide. Qed.

Lemma peer_count_cons q peer peers :
  peer_count q (peer :: peers) = (if decide (peer_ID peer = q) then 1 else 0) + peer_count q peers.
Proof. unfold peer_count. rewrite filter_cons. by case_decide. Qed.

Lemma peer_count_le q peers : peer_count q peers ≤ length peers.
Proof. apply length_filter. Qed.

Lemma deliver_count_perm ref l1 l2 : l1 ≡ₚ l2 → deliver_count ref l1 = deliver_count ref l2.
Proof. intros Hl. unfold deliver_count. by rewrite Hl. Qed.

Lemma deliver_ref_local s ref : deliver_ref s = Some ref → sub_Type s = LocalClient.
Proof. by destruct s as [[| |]| |]. Qed.

Lemma deliver_ref_None s event h : deliver_ref s = None → DeliverEvent s event h = None.
Proof. by destruct s as [[| |]| |]. Qed.

(** The channels of [h'] are those of [h] with copies of one event appended,
    [count ref] of them at [ref]. *)
Definition delivered (event : Event) (count : nat → nat) (h h' : Heap) : Prop :=
  ∀ ref, eventChan (object_at h' ref) ≡ eventChan (object_at h ref) ++ replicate (count ref) event.

Lemma delivered_none event h : delivered event (λ _, 0) h h.
Proof. intros ref. by rewrite app_nil_r. Qed.

Lemma delivered_trans event c1 c2 h1 h2 h3 :
  delivered event c1 h1 h2 → delivered event c2 h2 h3 → delivered event (λ ref, c1 ref + c2 ref) h1 h3.
Proof.
  intros H1 H2 ref. rewrite (H2 ref), (H1 ref), <-(assoc_L (++)). by rewrite replicate_add.
Qed.

Lemma delivered_ext event c1 c2 h h' :
  delivered event c1 h h' → (∀ ref, c1 ref = c2 ref) → delivered event c2 h h'.
Proof. intros H Hc ref. by rewrite <-Hc. Qed.

Lemma length_equiv_length (l1 l2 : list Event) : l1 ≡ l2 → length l1 = length l2.
Proof. intros Hl. apply list_equiv_Forall2 in Hl. by eapply Forall2_length. Qed.

(** One delivery, in those terms. *)
Lemma DeliverEvent_delivered s event h ref :
  deliver_ref s = Some ref →
  ∃ err h', DeliverEvent s event h = Some (err, h') ∧ (err = None ↔ has_room h ref = true) ∧
    delivered event (λ r, if decide (ref = r) then if has_room h ref then 1 else 0 else 0) h h'.
Proof.
  intros Hs. destruct (DeliverEvent_spec s event h ref Hs) as (err & h' & Hd & Herr & Hch).
  exists err, h'. split; [done|split; [done|]]. intros r. rewrite (Hch r).
  case_decide; [|done]. by destruct (has_room h ref).
Qed.

Section Publish.
Context {L P : Type} `{!EventLog L, !EventLogSpec L, !PeerLink P, !PeerLinkSpec P, MO : !MapOrder}.
Implicit Types n : MeshNode L P.

(** ** Local delivery *)

(** What the delivery loop does under any context: it appends the event to
    channels of the listed subscribers only, at most once per listed entry; and
    if it counted no failure and the context is still live at the end, exactly
    once per listed entry. *)
Lemma deliver_loop_spec ctx event subs h res :
  let '(res', ctx', h') := deliver_loop ctx event subs h res in
  ∃ count, delivered event count h h' ∧ (∀ ref, count ref ≤ deliver_count ref subs) ∧
    (LocalFailures res ≤ LocalFailures res')%Z ∧
    PeerSuccesses res' = PeerSuccesses res ∧ PeerFailures res' = PeerFailures res ∧
    ((poll ctx').1 = None → LocalFailures res' = LocalFailures res →
     ∀ ref, count ref = deliver_count ref subs).
Proof.
  revert ctx h res. induction subs as [|s subs IH]; intros ctx h res; simpl.
  { exists (λ _, 0). split_and!; try done. apply delivered_none. }
  destruct (poll ctx) as [[err|] ctx1] eqn:Hpoll.
  { exists (λ _, 0). split_and!; try done; [apply delivered_none|intros; lia|].
    intros Hlive. exfalso. revert Hpoll Hlive. unfold poll.
    destruct (ctx_polls ctx) as [[|]|] eqn:Hp; intros [= <- <-]. by rewrite Hp. }
  destruct (deliver_ref s) as [ref|] eqn:Href.
  - rewrite bool_decide_eq_true_2 by by eapply deliver_ref_local.
    destruct (DeliverEvent_delivered s event h ref Href) as (err & h1 & -> & Herr & Hd1).
    destruct err as [err|].
    + specialize (IH ctx1 h1 (local_failure err res)).
      destruct (deliver_loop ctx1 event subs h1 _) as [[res' ctx'] h'].
      destruct IH as (count & Hd & Hle & Hf & Hps & Hpf & Hex). simpl in *.
      eexists. split; [by eapply delivered_trans|]. split_and!; [|lia|done|done|lia].
      intros r. rewrite deliver_count_cons, Href. specialize (Hle r).
      assert (has_room h ref = false) as ->
        by (destruct (has_room h ref); [by destruct Herr as [_ Herr]; specialize (Herr eq_refl)|done]).
      repeat case_decide; simplify_eq; lia.
    + specialize (IH ctx1 h1 (local_success res)).
      destruct (deliver_loop ctx1 event subs h1 _) as [[res' ctx'] h'].
      destruct IH as (count & Hd & Hle & Hf & Hps & Hpf & Hex). simpl in *.
      assert (has_room h ref = true) as Hroom by by apply Herr. rewrite Hroom in Hd1.
      eexists. split; [by eapply delivered_trans|]. split_and!; [|lia|done|done|].
      * intros r. rewrite deliver_count_cons, Href. specialize (Hle r). repeat case_decide; simplify_eq; lia.
      * intros Hlive Hz r. rewrite deliver_count_cons, Href, (Hex Hlive) by lia.
        repeat case_decide; simplify_eq; lia.
  - assert (∀ ref, deliver_count ref (s :: subs) = deliver_count ref subs) as Hcnt
      by (intros r; rewrite deliver_count_cons, Href; by rewrite decide_False).
    case_bool_decide.
    + rewrite (deliver_ref_None s event h Href).
      specialize (IH ctx1 h (local_failure (err_no_deliver (sub_ID s)) res)).
      destruct (deliver_loop ctx1 event subs h _) as [[res' ctx'] h'].
      destruct IH as (count & Hd & Hle & Hf & Hps & Hpf & Hex). simpl in *.
      exists count. setoid_rewrite Hcnt. split_and!; try done; lia.
    + specialize (IH ctx1 h res). destruct (deliver_loop ctx1 event subs h _) as [[res' ctx'] h'].
      by setoid_rewrite Hcnt.
Qed.

Lemma poll_after ctx err ctx' : poll ctx = (Some err, ctx') → poll ctx' = (Some err, ctx').
Proof.
  unfold poll. destruct (ctx_polls ctx) as [[|]|] eqn:Hp; intros [= <- <-]. by rewrite Hp.
Qed.

(** ** Forwarding *)
Lemma forward_loop_spec ctx event peers p res :
  let '(r, ctx', p') := forward_loop ctx event peers p res in
  ∃ count, (∀ q, link_control p' q = link_control p q) ∧
    (∀ q, link_events p' q = link_events p q ++ replicate (count q) event ∧ count q ≤ peer_count q peers) ∧
    ∀ res', r = Ok res' →
      LocalFailures res' = LocalFailures res ∧ (PeerFailures res ≤ PeerFailures res')%Z ∧
      ((poll ctx').1 = None → PeerFailures res' = PeerFailures res → ∀ q, count q = peer_count q peers).
Proof.
  revert ctx p res. induction peers as [|peer peers IH]; intros ctx p res; simpl.
  { exists (λ _, 0). split; [done|]. split; [intros q; by rewrite app_nil_r|].
    intros res' [= <-]. done. }
  destruct (poll ctx) as [[err|] ctx1] eqn:Hpoll.
  { exists (λ _, 0). split; [done|]. split; [intros q; rewrite app_nil_r; split; [done|lia]|].
    intros res' [= <-]. split_and!; [done|done|]. by rewrite (poll_after _ _ _ Hpoll). }
  destruct (SendEvent ctx1 (peer_ID peer) event p) as [[r ctx2] p1] eqn:Hsend.
  destruct (SendEvent_law _ _ _ _ _ _ _ Hsend) as (_ & Hctl & _ & Hev).
  destruct r as [[]|err|m].
  - specialize (IH ctx2 p1 (peer_success res)).
    destruct (forward_loop ctx2 event peers p1 _) as [[r' ctx'] p'].
    destruct IH as (count & Hc & Hq & Hres). simpl in *.
    exists (λ q, (if decide (peer_ID peer = q) then 1 else 0) + count q). split; [intros q; by rewrite Hc|]. split.
    + intros q. destruct (Hq q) as [Hq1 Hq2]. rewrite Hq1, (Hev q), peer_count_cons.
      split; [|lia]. rewrite <-(assoc_L (++)), andb_true_r. f_equal.
      destruct (decide (peer_ID peer = q)); [by rewrite bool_decide_eq_true_2|by rewrite bool_decide_eq_false_2 by done].
    + intros res' Hr. destruct (Hres res' Hr) as (Hl & Hf & Hex). split_and!; [done|done|].
      intros Hlive Hz q. rewrite peer_count_cons, (Hex Hlive Hz q). done.
  - specialize (IH ctx2 p1 (peer_failure err res)).
    destruct (forward_loop ctx2 event peers p1 _) as [[r' ctx'] p'].
    destruct IH as (count & Hc & Hq & Hres). simpl in *.
    exists count. split; [intros q; by rewrite Hc|]. split.
    + intros q. destruct (Hq q) as [Hq1 Hq2]. rewrite Hq1, (Hev q), peer_count_cons, andb_false_r, app_nil_r.
      split; [done|lia].
    + intros res' Hr. destruct (Hres res' Hr) as (Hl & Hf & Hex). split_and!; [done|lia|lia].
  - exists (λ _, 0). split; [done|]. split; [|done].
    intros q. rewrite (Hev q), andb_false_r, !app_nil_r. split; [done|lia].
Qed.

(** ** The whole operation *)

(** The subscribers and peers an event of a topic concerns. *)
Definition matching n (topic : string) : list MeshSubscriber :=
  at_matching topic (flat (rt_subscriptions (n_rt n))).
Definition connected n : list PeerNode :=
  match GetConnectedPeers (n_link n) with Ok peers => peers | _ => [] end.
Definition interested n (topic : string) : list PeerNode := getInterestedPeers n topic (connected n).

(** Everything but the log, the clients' objects and the link is as before. *)
Definition same_tables n n' : Prop :=
  n_config n' = n_config n ∧ n_rt n' = n_rt n ∧ n_clients n' = n_clients n ∧ n_subs n' = n_subs n ∧
  n_peer_subs n' = n_peer_subs n ∧ n_started n' = n_started n ∧ n_closed n' = n_closed n ∧
  ∀ q, link_control (n_link n') q = link_control (n_link n) q.

(** [n'] has delivered [event] to [local ref] entries of each address and
    forwarded it [remote q] times to each peer. *)
Definition distributed (event : Event) (local : nat → nat) (remote : string → nat) n n' : Prop :=
  delivered event local (n_heap n) (n_heap n') ∧
  ∀ q, link_events (n_link n') q = link_events (n_link n) q ++ replicate (remote q) event.

Lemma deliverToLocal_spec ctx event n :
  rt_wf (n_rt n) →
  let '(r, ctx', n') := deliverToLocalSubscribers ctx event n in
  ∃ res count h', r = Ok res ∧ n' = with_heap h' n ∧ delivered event count (n_heap n) h' ∧
    (∀ ref, count ref ≤ deliver_count ref (matching n (Topic event))) ∧
    (0 ≤ LocalFailures res)%Z ∧ PeerFailures res = 0%Z ∧
    ((poll ctx').1 = None → LocalFailures res = 0%Z →
     ∀ ref, count ref = deliver_count ref (matching n (Topic event))).
Proof.
  intros Hwf. unfold deliverToLocalSubscribers, matching. destruct (rt_closed (n_rt n)) eqn:Hc.
  - assert (rt_GetSubscribers (Topic event) (n_rt n) = Err err_rt_closed) as ->
      by (unfold rt_GetSubscribers; by rewrite Hc).
    rewrite (rt_wf_closed _ Hwf Hc), flat_empty.
    eexists _, (λ _, 0), (n_heap n). split; [done|]. split; [by destruct n|].
    split; [apply delivered_none|]. by split_and!.
  - destruct (GetSubscribers_ok (n_rt n) (Topic event) Hc) as (subs & -> & Hsubs).
    pose proof (deliver_loop_spec ctx event subs (n_heap n) no_deliveries) as Hspec.
    destruct (deliver_loop ctx event subs (n_heap n) no_deliveries) as [[res ctx'] h'].
    destruct Hspec as (count & Hd & Hle & Hf & _ & Hpf & Hex). simpl in *.
    eexists res, count, h'. split; [done|]. split; [done|]. split; [done|].
    setoid_rewrite <-(deliver_count_perm _ _ _ Hsubs). split_and!; auto.
Qed.

Lemma interested_eq n peers topic :
  GetConnectedPeers (n_link n) = Ok peers → interested n topic = getInterestedPeers n topic peers.
Proof. unfold interested, connected. by intros ->. Qed.

Lemma forwardToPeers_spec ctx event res n :
  let '(r, ctx', n') := forwardToPeers ctx event res n in
  ∃ count p', n' = with_link p' n ∧ (∀ q, link_control p' q = link_control (n_link n) q) ∧
    (∀ q, link_events p' q = link_events (n_link n) q ++ replicate (count q) event ∧
          count q ≤ peer_count q (interested n (Topic event))) ∧
    ∀ res', r = Ok res' →
      LocalFailures res' = LocalFailures res ∧ (PeerFailures res ≤ PeerFailures res')%Z ∧
      ((poll ctx').1 = None → PeerFailures res' = PeerFailures res →
       ∀ q, count q = peer_count q (interested n (Topic event))).
Proof.
  unfold forwardToPeers. destruct (GetConnectedPeers (n_link n)) as [peers|err|m] eqn:Hpeers.
  - rewrite (interested_eq _ _ _ Hpeers).
    pose proof (forward_loop_spec ctx event (getInterestedPeers n (Topic event) peers) (n_link n) res) as Hspec.
    destruct (forward_loop _ _ _ _ _) as [[r ctx'] p']. destruct Hspec as (count & Hspec).
    exists count, p'. by split.
  - unfold interested, connected. rewrite Hpeers. exists (λ _, 0), (n_link n).
    split; [by destruct n|]. split; [done|]. split; [intros q; by rewrite app_nil_r|].
    intros res' [= <-]. by split_and!.
  - unfold interested, connected. rewrite Hpeers. exists (λ _, 0), (n_link n).
    split; [by destruct n|]. split; [done|]. split; [intros q; by rewrite app_nil_r|done].
Qed.

(** The part after persistence, under any context. *)
Lemma publish_deliver_spec ctx event n :
  rt_wf (n_rt n) →
  let '(r, ctx', n') := publish_deliver ctx event n in
  n_log n' = n_log n ∧ same_tables n n' ∧
  ∃ local remote, distributed event local remote n n' ∧
    (∀ ref, local ref ≤ deliver_count ref (matching n (Topic event))) ∧
    (∀ q, remote q ≤ peer_count q (interested n (Topic event))) ∧
    ∀ ev, r = Ok ev → ev = event ∧
      (∀ ref, local ref = deliver_count ref (matching n (Topic event))) ∧
      (∀ q, remote q = peer_count q (interested n (Topic event))).
Proof.
  intros Hwf. unfold publish_deliver. pose proof (deliverToLocal_spec ctx event n Hwf) as Hl.
  destruct (deliverToLocalSubscribers ctx event n) as [[r1 ctx1] n1].
  destruct Hl as (res & local & h' & -> & -> & Hd & Hle & Hf0 & Hp0 & Hlex).
  destruct (poll ctx1) as [[err|] ctx2] eqn:Hpoll1.
  { split; [done|]. split; [done|]. exists local, (λ _, 0). split; [split; [done|intros q; by rewrite app_nil_r]|].
    split; [done|]. split; [intros; lia|done]. }
  specialize (Hlex eq_refl).
  pose proof (forwardToPeers_spec ctx2 event res (with_heap h' n)) as Hfw.
  destruct (forwardToPeers ctx2 event res (with_heap h' n)) as [[r2 ctx3] n2].
  destruct Hfw as (remote & p' & -> & Hctl & Hq & Hres).
  change (interested (with_heap h' n) (Topic event)) with (interested n (Topic event)) in *.
  assert (∀ r, (∀ ev, r = Ok ev → ∃ res', r2 = Ok res' ∧ ev = event ∧ (poll ctx3).1 = None ∧ HasFailures res' = false) →
    n_log n = n_log n ∧ same_tables n (with_link p' (with_heap h' n)) ∧
    ∃ local remote, distributed event local remote n (with_link p' (with_heap h' n)) ∧
      (∀ ref, local ref ≤ deliver_count ref (matching n (Topic event))) ∧
      (∀ q, remote q ≤ peer_count q (interested n (Topic event))) ∧
      ∀ ev, r = Ok ev → ev = event ∧
        (∀ ref, local ref = deliver_count ref (matching n (Topic event))) ∧
        (∀ q, remote q = peer_count q (interested n (Topic event)))) as Hfinish.
  { intros r Hr. split; [done|]. split; [by repeat split|]. exists local, remote.
    split; [split; [done|intros q; apply Hq]|]. split; [done|]. split; [intros q; apply Hq|].
    intros ev Hev. destruct (Hr ev Hev) as (res' & Hr2 & -> & Hlive & Hnf).
    destruct (Hres res' Hr2) as (Hl & Hf & Hrex). unfold HasFailures in Hnf.
    apply orb_false_iff in Hnf as [Hnl%bool_decide_eq_false Hnp%bool_decide_eq_false].
    split; [done|]. split; [apply Hlex; lia|apply Hrex; [done|lia]]. }
  destruct r2 as [res'|err|m]; [|by apply Hfinish..].
  destruct (poll ctx3) as [[err|] ctx4] eqn:Hpoll3; [by apply Hfinish|].
  destruct (HasFailures res') eqn:Hhf; [by apply Hfinish|].
  apply Hfinish. intros ev [= <-]. by exists res'.
Qed.

Lemma with_log_id n : with_log (n_log n) n = n.
Proof. by destruct n. Qed.

(** What persisting the event of a publish request gives. *)
Lemma publish_append ctx n a e :
  log_rep (n_log n) a → log_accepts (Topic e) e → (abs_end a (Topic e) < max_int64)%Z →
  (∃ err, AppendEvent ctx (Topic e) (Some e) (n_log n) = (Err err, (poll ctx).2, n_log n)) ∨
  (∃ log, AppendEvent ctx (Topic e) (Some e) (n_log n) =
            (Ok (WithOffset e (abs_end a (Topic e))), (poll ctx).2, log) ∧
          log_rep log (abs_push a (Topic e) e) ∧ abs_guard ctx (append_args (Topic e) (Some e)) a = None).
Proof.
  intros Hr Hacc Hend. destruct (abs_guard ctx (append_args (Topic e) (Some e)) a) as [err|] eqn:Hg.
  - left. exists err. by apply (append_refused _ _ _ _ _ _ Hr).
  - right. destruct (append_ok _ _ _ _ _ Hr Hg Hacc Hend) as (log & ? & ?). by exists log.
Qed.

(** The possible results of a publish; the theorem below spells them out. *)
Lemma publish_cases (ctx : Ctx) (client : option Client) (event : option Event)
    (n : MeshNode L P) (a : AbsLog)
    (Hlog : log_rep (n_log n) a) (Hwf : rt_wf (n_rt n))
    (Hacc : ∀ e, event = Some e → log_accepts (Topic e) e ∧ (abs_end a (Topic e) < max_int64)%Z) :
  let '(r, ctx', n') := PublishEventWithResult ctx client event n in
  (∃ err, r = Err err ∧ n' = n) ∨
  ∃ e local remote, event = Some e ∧ validatePublishRequest n client event = None ∧
    log_rep (n_log n') (abs_push a (Topic e) e) ∧ same_tables n n' ∧
    distributed (WithOffset e (abs_end a (Topic e))) local remote n n' ∧
    (∀ ref, local ref ≤ deliver_count ref (matching n (Topic e))) ∧
    (∀ q, remote q ≤ peer_count q (interested n (Topic e))) ∧
    ∀ ev, r = Ok ev → ev = WithOffset e (abs_end a (Topic e)) ∧
      (∀ ref, local ref = deliver_count ref (matching n (Topic e))) ∧
      (∀ q, remote q = peer_count q (interested n (Topic e))).
Proof.
  unfold PublishEventWithResult. destruct (validatePublishRequest n client event) as [err|] eqn:Hval.
  { left. by exists err. }
  destruct event as [e|].
  2: { exfalso. revert Hval. unfold validatePublishRequest. by repeat case_match. }
  destruct (Hacc e eq_refl) as [Hok Hend].
  destruct (publish_append ctx n a e Hlog Hok Hend) as [[err ->]|(log & -> & Hlog' & _)].
  { left. rewrite with_log_id. by eexists. }
  pose proof (publish_deliver_spec (poll ctx).2 (WithOffset e (abs_end a (Topic e))) (with_log log n) Hwf) as Hspec.
  destruct (publish_deliver _ _ _) as [[r ctx'] n']. right.
  destruct Hspec as (Hl & Hsame & local & remote & Hd & Hle & Hq & Hex).
  exists e, local, remote. split; [done|]. split; [done|]. split; [by rewrite Hl|].
  split; [done|]. split; [done|]. by split.
Qed.

(** C1: an event is persisted before anything else happens to it.  Under every
    context, a publish either fails and leaves the node exactly as it was, or
    has appended the event to the log at the topic's end offset; only then are
    copies of that persisted event put into channels of matching local
    subscribers (at most one per matching pattern) and sent to interested peers
    (at most once each), and nothing else changes.  If the call succeeds it
    returns the persisted event, and every matching subscriber and every
    interested peer has got it exactly that many times. *)
Theorem publish_persists_first (ctx : Ctx) (client : option Client) (event : option Event)
    (n : MeshNode L P) (a : AbsLog)
    (Hlog : log_rep (n_log n) a) (Hwf : rt_wf (n_rt n))
    (Hacc : ∀ e, event = Some e → log_accepts (Topic e) e ∧ (abs_end a (Topic e) < max_int64)%Z) :
  let '(r, ctx', n') := PublishEventWithResult ctx client event n in
  (∃ err, r = Err err ∧ n' = n) ∨
  ∃ e local remote, event = Some e ∧ validatePublishRequest n client event = None ∧
    log_rep (n_log n') (abs_push a (Topic e) e) ∧ same_tables n n' ∧
    distributed (WithOffset e (abs_end a (Topic e))) local remote n n' ∧
    (∀ ref, local ref ≤ deliver_count ref (matching n (Topic e))) ∧
    (∀ q, remote q ≤ peer_count q (interested n (Topic e))) ∧
    ∀ ev, r = Ok ev → ev = WithOffset e (abs_end a (Topic e)) ∧
      (∀ ref, local ref = deliver_count ref (matching n (Topic e))) ∧
      (∀ q, remote q = peer_count q (interested n (Topic e))).
Proof. exact (publish_cases ctx client event n a Hlog Hwf Hacc). Qed.

(** ** When a publish succeeds *)

(** The matching subscribers all receive events, and their channels have room
    for one event per matching entry. *)
Definition room_for (h : Heap) (subs : list MeshSubscriber) : Prop :=
  (∀ s, s ∈ subs → sub_Type s = LocalClient → is_Some (deliver_ref s)) ∧
  ∀ ref, length (eventChan (object_at h ref)) + deliver_count ref subs ≤ client_chan_cap ∨
         deliver_count ref subs = 0.

Lemma room_for_skip h s subs : room_for h (s :: subs) → room_for h subs.
Proof.
  intros [Hall Hroom]. split; [intros s' ?; apply Hall; by right|].
  intros r. specialize (Hroom r). rewrite deliver_count_cons in Hroom. lia.
Qed.

Lemma room_for_step event h h1 s subs ref :
  room_for h (s :: subs) → deliver_ref s = Some ref →
  delivered event (λ r, if decide (ref = r) then if has_room h ref then 1 else 0 else 0) h h1 →
  has_room h ref = true ∧ room_for h1 subs.
Proof.
  intros [Hall Hroom] Href Hd.
  assert (has_room h ref = true) as Hhr.
  { specialize (Hroom ref). rewrite deliver_count_cons, Href, decide_True in Hroom by done.
    unfold has_room. apply bool_decide_eq_true_2. lia. }
  split; [done|]. split; [intros s' ?; apply Hall; by right|].
  intros r. specialize (Hroom r). rewrite deliver_count_cons, Href in Hroom.
  pose proof (length_equiv_length _ _ (Hd r)) as Hlen. rewrite Hhr, length_app, length_replicate in Hlen.
  repeat case_decide; simplify_eq; lia.
Qed.

Lemma deliver_loop_room ctx event subs h res :
  ctx_live ctx → room_for h subs →
  ∃ h' succ, deliver_loop ctx event subs h res =
    (mkDeliveryResult succ (LocalFailures res) (PeerSuccesses res) (PeerFailures res) (Errors res), ctx, h').
Proof.
  intros Hlive. revert h res. induction subs as [|s subs IH]; intros h res Hr; simpl.
  { exists h, (LocalSuccesses res). by destruct res. }
  rewrite (poll_live _ Hlive). case_bool_decide as Hty; [|by eapply IH, room_for_skip].
  destruct (proj1 Hr s) as [ref Href]; [by left|done|].
  destruct (DeliverEvent_delivered s event h ref Href) as (err & h1 & -> & Herr & Hd).
  destruct (room_for_step _ _ _ _ _ _ Hr Href Hd) as [Hhr Hr1].
  assert (err = None) as -> by by apply Herr.
  by destruct (IH h1 (local_success res) Hr1) as (h' & succ & ->); exists h', succ.
Qed.

Lemma room_for_perm h l1 l2 : l1 ≡ₚ l2 → room_for h l1 → room_for h l2.
Proof.
  intros Hl [Hall Hroom]. split.
  - intros s. rewrite <-Hl. apply Hall.
  - intros ref. rewrite <-(deliver_count_perm ref l1 l2) by done. apply Hroom.
Qed.

(** The link takes an event for each of these peers, one after the other. *)
Fixpoint link_accepts (ctx : Ctx) (event : Event) (peers : list PeerNode) (p : P) : Prop :=
  match peers with
  | [] => True
  | peer :: peers => ∃ p', SendEvent ctx (peer_ID peer) event p = (Ok (), ctx, p') ∧ link_accepts ctx event peers p'
  end.

Lemma forward_loop_accepts ctx event peers p res :
  ctx_live ctx → link_accepts ctx event peers p →
  ∃ p' succ, forward_loop ctx event peers p res =
    (Ok (mkDeliveryResult (LocalSuccesses res) (LocalFailures res) succ (PeerFailures res) (Errors res)), ctx, p').
Proof.
  intros Hlive. revert p res. induction peers as [|peer peers IH]; intros p res Hacc; simpl.
  { exists p, (PeerSuccesses res). by destruct res. }
  destruct Hacc as (p1 & Hsend & Hacc). rewrite (poll_live _ Hlive), Hsend.
  destruct (IH p1 (peer_success res) Hacc) as (p' & succ & ->). by exists p', succ.
Qed.

(** What a successful publish leaves in the log. *)
Lemma publish_accepted (ctx : Ctx) (client : Client) (e : Event) (n : MeshNode L P) (a : AbsLog)
    (peers : list PeerNode)
    (Hlive : ctx_live ctx) (Hrun : n_started n = true ∧ n_closed n = false)
    (Hauth : client_IsAuthenticated client = true)
    (Hsize : (Z.of_nat (length (contents (Payload e))) ≤ MaxEventPayloadSize)%Z)
    (Hlog : log_rep (n_log n) a) (Hopen : abs_closed a = false) (Htopic : Topic e ≠ ""%string)
    (Hacc : log_accepts (Topic e) e) (Hend : (abs_end a (Topic e) < max_int64)%Z)
    (Hwf : rt_wf (n_rt n)) (Hrt : rt_closed (n_rt n) = false)
    (Hroom : room_for (n_heap n) (matching n (Topic e)))
    (Hpeers : GetConnectedPeers (n_link n) = Ok peers)
    (Hlink : link_accepts ctx (WithOffset e (abs_end a (Topic e))) (interested n (Topic e)) (n_link n)) :
  ∃ n', PublishEventWithResult ctx (Some client) (Some e) n =
    (Ok (WithOffset e (abs_end a (Topic e))), ctx, n') ∧
    log_rep (n_log n') (abs_push a (Topic e) e).
Proof.
  destruct Hrun as [Hst Hcl]. unfold PublishEventWithResult, validatePublishRequest.
  rewrite Hcl, Hst, Hauth. simpl. rewrite bool_decide_eq_false_2 by lia.
  destruct (publish_append ctx n a e Hlog Hacc Hend) as [[err Happ]|(log & -> & Hlog' & _)].
  { exfalso. destruct (append_ok ctx (Topic e) e (n_log n) a Hlog) as (log & Happ' & _); [|done..|congruence].
    unfold abs_guard, append_args. rewrite (poll_live _ Hlive), bool_decide_eq_false_2 by done. by rewrite Hopen. }
  rewrite (poll_live _ Hlive). set (ev := WithOffset e (abs_end a (Topic e))) in *. cbn [snd].
  unfold publish_deliver, deliverToLocalSubscribers.
  destruct (GetSubscribers_ok (n_rt n) (Topic e) Hrt) as (subs & Hsubs & Hperm).
  change (n_rt (with_log log n)) with (n_rt n). change (Topic ev) with (Topic e). rewrite Hsubs.
  symmetry in Hperm. apply (room_for_perm _ _ _ Hperm) in Hroom.
  destruct (deliver_loop_room ctx ev subs (n_heap (with_log log n)) no_deliveries Hlive Hroom) as (h' & succ & ->).
  rewrite (poll_live _ Hlive). unfold forwardToPeers. simpl n_link. rewrite Hpeers.
  rewrite (interested_eq _ _ _ Hpeers) in Hlink.
  match goal with |- context [forward_loop ctx ev _ _ ?r] => set (res := r) end.
  destruct (forward_loop_accepts ctx ev (getInterestedPeers n (Topic e) peers) (n_link n) res Hlive Hlink) as (p' & succ' & Hf).
  change (getInterestedPeers (with_heap h' (with_log log n)) (Topic ev) peers) with (getInterestedPeers n (Topic e) peers). rewrite Hf.
  rewrite (poll_live _ Hlive). simpl. eexists. split; [done|]. exact Hlog'.
Qed.

(** C29: a publish on a running node succeeds when nothing stands in its way: a
    live context, an open log and routing table, an authenticated client, a
    named topic, a payload within the limit, subscribers that can receive and
    have room in their channels, and a link that takes the event. *)
Theorem publish_succeeds (ctx : Ctx) (client : Client) (e : Event) (n : MeshNode L P) (a : AbsLog)
    (peers : list PeerNode)
    (Hlive : ctx_live ctx) (Hrun : n_started n = true ∧ n_closed n = false)
    (Hauth : client_IsAuthenticated client = true)
    (Hsize : (Z.of_nat (length (contents (Payload e))) ≤ MaxEventPayloadSize)%Z)
    (Hlog : log_rep (n_log n) a) (Hopen : abs_closed a = false) (Htopic : Topic e ≠ ""%string)
    (Hacc : log_accepts (Topic e) e) (Hend : (abs_end a (Topic e) < max_int64)%Z)
    (Hwf : rt_wf (n_rt n)) (Hrt : rt_closed (n_rt n) = false)
    (Hroom : room_for (n_heap n) (matching n (Topic e)))
    (Hpeers : GetConnectedPeers (n_link n) = Ok peers)
    (Hlink : link_accepts ctx (WithOffset e (abs_end a (Topic e))) (interested n (Topic e)) (n_link n)) :
  ∃ n', PublishEventWithResult ctx (Some client) (Some e) n =
    (Ok (WithOffset e (abs_end a (Topic e))), ctx, n').
Proof.
  edestruct (publish_accepted ctx client e n a peers) as (n' & Hpub & _); [done..|]. by exists n'.
Qed.

(** ** Bounded channels *)
Definition heap_ok (h : Heap) : Prop := ∀ ref, length (eventChan (object_at h ref)) ≤ client_chan_cap.

Lemma DeliverEvent_heap_ok s event h err h' :
  DeliverEvent s event h = Some (err, h') → heap_ok h → heap_ok h'.
Proof.
  intros Hd Hh ref. destruct (deliver_ref s) as [r|] eqn:Href.
  - destruct (DeliverEvent_delivered s event h r Href) as (err' & h1 & Hd' & _ & Hdel).
    rewrite Hd in Hd'. injection Hd' as <- <-.
    pose proof (length_equiv_length _ _ (Hdel ref)) as Hlen. rewrite length_app, length_replicate in Hlen.
    specialize (Hh ref). unfold has_room in Hlen.
    destruct (decide (r = ref)) as [->|]; [case_bool_decide|]; lia.
  - by rewrite deliver_ref_None in Hd.
Qed.

Lemma deliver_loop_heap_ok ctx event subs h res :
  heap_ok h → heap_ok (deliver_loop ctx event subs h res).2.
Proof.
  revert ctx h res. induction subs as [|s subs IH]; intros ctx h res Hh; simpl; [done|].
  destruct (poll ctx) as [[err|] ctx1]; [done|]. case_bool_decide; [|by apply IH].
  destruct (DeliverEvent s event h) as [[[err|] h1]|] eqn:Hd; apply IH;
    solve [by eapply DeliverEvent_heap_ok|done].
Qed.

Lemma publish_heap_ok ctx client event n :
  heap_ok (n_heap n) → heap_ok (n_heap (PublishEventWithResult ctx client event n).2).
Proof.
  intros Hh. unfold PublishEventWithResult. destruct (validatePublishRequest _ _ _); [done|].
  destruct event as [e|]; [|done]. destruct (AppendEvent _ _ _ _) as [[[ev|err|m] ctx1] log]; [|done..].
  unfold publish_deliver, deliverToLocalSubscribers, forwardToPeers. simpl.
  destruct (rt_GetSubscribers _ _) as [subs|err|m]; [| |done].
  - pose proof (deliver_loop_heap_ok ctx1 ev subs (n_heap n) no_deliveries Hh) as Hh'.
    destruct (deliver_loop _ _ _ _ _) as [[res ctx2] h']. simpl in *.
    repeat (case_match; simplify_eq/=; try done).
  - repeat (case_match; simplify_eq/=; try done).
Qed.

(** C35: one slow consumer fails every publish to its topic.  If the channel of a
    matching local subscriber is full, the call does not succeed under any
    context, although the event may have been appended to the log and given to
    every other subscriber and to the peers. *)
Theorem publish_slow_consumer (ctx : Ctx) (client : option Client) (e : Event)
    (n : MeshNode L P) (a : AbsLog) (ref : nat) (s : MeshSubscriber)
    (Hlog : log_rep (n_log n) a) (Hwf : rt_wf (n_rt n))
    (Hacc : log_accepts (Topic e) e) (Hend : (abs_end a (Topic e) < max_int64)%Z)
    (Hheap : heap_ok (n_heap n))
    (Hs : s ∈ matching n (Topic e)) (Href : deliver_ref s = Some ref)
    (Hfull : length (eventChan (object_at (n_heap n) ref)) = client_chan_cap) :
  is_Ok (PublishEventWithResult ctx client (Some e) n).1.1 = false.
Proof.
  pose proof (publish_heap_ok ctx client (Some e) n Hheap ref) as Hbound.
  pose proof (publish_append ctx n a e Hlog Hacc Hend) as Happ.
  unfold PublishEventWithResult in *. destruct (validatePublishRequest _ _ _); [done|].
  destruct Happ as [[err ->]|(log & Heq & _)]; [done|]. rewrite Heq in *.
  pose proof (publish_deliver_spec (poll ctx).2 (WithOffset e (abs_end a (Topic e))) (with_log log n) Hwf) as Hspec.
  destruct (publish_deliver _ _ _) as [[[ev|err|m] ctx'] n']; [|done..]. exfalso.
  destruct Hspec as (_ & _ & local & remote & [Hd _] & _ & _ & Hex).
  destruct (Hex ev eq_refl) as (_ & Hl & _).
  pose proof (length_equiv_length _ _ (Hd ref)) as Hlen.
  rewrite length_app, length_replicate, Hl in Hlen. simpl in Hbound, Hlen. rewrite Hfull in Hlen.
  assert (0 < deliver_count ref (matching (with_log log n) (Topic e))); [|lia].
  unfold deliver_count. destruct (filter _ _) eqn:Hf; [|simpl; lia].
  assert (s ∈ filter (λ s, deliver_ref s = Some ref) (matching n (Topic e))) as Hin by by apply list_elem_of_filter.
  unfold matching in *. simpl in Hf. rewrite Hf in Hin. by apply elem_of_nil in Hin.
Qed.

(** ** Events from peers *)
Lemma incoming_loop_spec event subs h :
  ∃ count, delivered event count h (incoming_loop event subs h) ∧
    (∀ ref, count ref ≤ deliver_count ref subs) ∧
    (room_for h subs → ∀ ref, count ref = deliver_count ref subs).
Proof.
  revert h. induction subs as [|s subs IH]; intros h; cbn [incoming_loop].
  { exists (λ _, 0). split; [apply delivered_none|by split]. }
  destruct (deliver_ref s) as [ref|] eqn:Href.
  - rewrite bool_decide_eq_true_2 by by eapply deliver_ref_local.
    destruct (DeliverEvent_delivered s event h ref Href) as (err & h1 & -> & Herr & Hd1).
    destruct (IH h1) as (count & Hd & Hle & Hex).
    eexists. split; [by eapply delivered_trans|]. split.
    + intros r. rewrite deliver_count_cons, Href. specialize (Hle r).
      destruct (has_room h ref); repeat case_decide; simplify_eq; lia.
    + intros Hr r. destruct (room_for_step _ _ _ _ _ _ Hr Href Hd1) as [-> Hr1].
      rewrite deliver_count_cons, Href, (Hex Hr1). repeat case_decide; simplify_eq; lia.
  - assert (∀ ref, deliver_count ref (s :: subs) = deliver_count ref subs) as Hcnt
      by (intros r; rewrite deliver_count_cons, Href; by rewrite decide_False).
    assert ((if bool_decide (sub_Type s = LocalClient)
             then match DeliverEvent s event h with
                  | Some (_, h) => incoming_loop event subs h
                  | None => incoming_loop event subs h
                  end
             else incoming_loop event subs h) = incoming_loop event subs h) as ->
      by (rewrite (deliver_ref_None s event h Href); by case_bool_decide).
    destruct (IH h) as (count & Hd & Hle & Hex). exists count. setoid_rewrite Hcnt.
    split; [done|]. split; [done|]. intros Hr. by eapply Hex, room_for_skip.
Qed.

(** An event received from a peer stops here.  It is appended to the local
    log first, at this node's own next offset for the topic, and then given to
    matching local subscribers (exactly once per matching pattern when their
    channels have room); it is never sent on, to any peer, so events do not
    circulate.  A node that is not running ignores it, and an append that is
    refused leaves the node unchanged. *)
Theorem incoming_event_stays_local (ctx : Ctx) (e : Event) (n : MeshNode L P) (a : AbsLog)
    (Hlog : log_rep (n_log n) a) (Hwf : rt_wf (n_rt n))
    (Hacc : log_accepts (Topic e) e) (Hend : (abs_end a (Topic e) < max_int64)%Z) :
  let n' := (processIncomingUserEvent ctx e n).2 in
  n_link n' = n_link n ∧ same_tables n n' ∧
  (n' = n ∨
   n_started n = true ∧ n_closed n = false ∧ log_rep (n_log n') (abs_push a (Topic e) e) ∧
   ∃ count, delivered (WithOffset e (abs_end a (Topic e))) count (n_heap n) (n_heap n') ∧
     (∀ ref, count ref ≤ deliver_count ref (matching n (Topic e))) ∧
     (room_for (n_heap n) (matching n (Topic e)) →
      ∀ ref, count ref = deliver_count ref (matching n (Topic e)))).
Proof.
  unfold processIncomingUserEvent, incoming_running, incoming_append, incoming_deliver. destruct (n_closed n) eqn:Hcl; [by repeat (split || left)|].
  destruct (n_started n) eqn:Hst; [|by repeat (split || left)]. cbn [orb negb].
  destruct (publish_append ctx n a e Hlog Hacc Hend) as [[err ->]|(log & -> & Hlog' & _)].
  { rewrite with_log_id. by repeat (split || left). }
  unfold matching. change (n_rt (with_log log n)) with (n_rt n).
  destruct (rt_closed (n_rt n)) eqn:Hc.
  - assert (rt_GetSubscribers (Topic e) (n_rt n) = Err err_rt_closed) as ->
      by (unfold rt_GetSubscribers; by rewrite Hc).
    split; [done|]. split; [by repeat split|]. right. rewrite (rt_wf_closed _ Hwf Hc), flat_empty.
    split_and!; [done|done|done|]. exists (λ _, 0). split; [apply delivered_none|by split].
  - destruct (GetSubscribers_ok (n_rt n) (Topic e) Hc) as (subs & -> & Hsubs).
    split; [done|]. split; [by repeat split|]. right. split_and!; [done|done|done|].
    destruct (incoming_loop_spec (WithOffset e (abs_end a (Topic e))) subs (n_heap n)) as (count & Hd & Hle & Hex).
    exists count. setoid_rewrite <-(deliver_count_perm _ _ _ Hsubs).
    split; [done|]. split; [done|]. intros Hr. by eapply Hex, room_for_perm.
Qed.
End Publish.
