(* ===== verification/InFlight.v ===== *)
(** * Deliveries in flight ([node_publish.go], [node_peer_events.go])

    An event that has been appended is delivered to one local subscriber after
    the other, while other goroutines append, deliver and subscribe: a publish
    holds the node's read lock, which keeps none of them out, and an event from a
    peer holds no lock between its append and its delivery.  Here such a delivery
    is a value that is stepped, and the loops of [MeshNode.v] are runs of it. *)
From S2P Require Import Prelude Topics EventLog RoutingTable Peers Clients MeshNode NodePublish.

#[local] Set Default Proof Using "Type*".

(** A persisted event on its way: the context its loop looks at (a publish; an
    event from a peer is delivered without), and the subscribers it still has to
    be given to, once they have been looked up. *)
Record flight := mkFlight {
  ft_ctx : option Ctx;
  ft_event : Event;
  ft_subs : option (list MeshSubscriber)
}.

Section InFlight.
Context {L P : Type} `{!EventLog L, !PeerLink P, MO : !MapOrder}.
Implicit Types n : MeshNode L P.

(** [select { case <-ctx.Done(): .. default: }] of a publish. *)
Definition flight_poll (f : flight) : option error * option Ctx :=
  match ft_ctx f with
  | None => (None, None)
  | Some ctx => let '(err, ctx) := poll ctx in (err, Some ctx)
  end.

(** One subscriber is given the event; an error is counted or logged. *)
Definition deliver_to (subscriber : MeshSubscriber) (event : Event) (h : Heap) : Heap :=
  if bool_decide (sub_Type subscriber = LocalClient) then
    match DeliverEvent subscriber event h with Some (_, h) => h | None => h end
  else h.

(** The next thing a delivery does: look up the subscribers, or serve one of them;
    [None] when it is over. *)
Definition flight_step (f : flight) n : option flight * MeshNode L P :=
  match ft_subs f with
  | None =>
    match rt_GetSubscribers (Topic (ft_event f)) (n_rt n) with
    | Ok subs => (Some (mkFlight (ft_ctx f) (ft_event f) (Some subs)), n)
    | _ => (None, n)
    end
  | Some [] => (None, n)
  | Some (subscriber :: rest) =>
    match flight_poll f with
    | (Some _, _) => (None, n)
    | (None, ctx) => (Some (mkFlight ctx (ft_event f) (Some rest)), with_heap (deliver_to subscriber (ft_event f) (n_heap n)) n)
    end
  end.

(** The deliveries to an address that a step gives up: the channel is full, or
    the publisher's context has ended with subscribers left. *)
Definition flight_lost (ref : nat) (f : flight) n : list Event :=
  match ft_subs f with
  | Some (subscriber :: rest) =>
    match flight_poll f with
    | (Some _, _) => replicate (deliver_count ref (subscriber :: rest)) (ft_event f)
    | (None, _) =>
      match DeliverEvent subscriber (ft_event f) (n_heap n) with
      | Some (Some _, _) => if decide (deliver_ref subscriber = Some ref) then [ft_event f] else []
      | _ => []
      end
    end
  | _ => []
  end.

(** A whole delivery, when nothing comes between its steps. *)
Inductive flight_runs : flight → MeshNode L P → MeshNode L P → Prop :=
  | flight_last f n n' : flight_step f n = (None, n') → flight_runs f n n'
  | flight_next f f' n n1 n' : flight_step f n = (Some f', n1) → flight_runs f' n1 n' → flight_runs f n n'.

Lemma with_heap_id n : with_heap (n_heap n) n = n.
Proof using Type. by destruct n. Qed.

Lemma deliver_loop_runs ctx event subs n res :
  let '(_, _, h) := deliver_loop ctx event subs (n_heap n) res in
  flight_runs (mkFlight (Some ctx) event (Some subs)) n (with_heap h n).
Proof using Type.
  revert ctx n res. induction subs as [|s subs IH]; intros ctx n res; cbn [deliver_loop].
  { rewrite with_heap_id. by apply flight_last. }
  destruct (poll ctx) as [[err|] ctx1] eqn:Hpoll.
  { rewrite with_heap_id. apply flight_last. unfold flight_step, flight_poll. cbn. by rewrite Hpoll. }
  assert (∀ res', let '(_, _, h) := deliver_loop ctx1 event subs (deliver_to s event (n_heap n)) res' in
    flight_runs (mkFlight (Some ctx) event (Some (s :: subs))) n (with_heap h n)) as Hnext.
  { intros res'. specialize (IH ctx1 (with_heap (deliver_to s event (n_heap n)) n) res'). cbn [n_heap with_heap] in IH.
    destruct (deliver_loop ctx1 event subs _ res') as [[res2 ctx2] h]. eapply flight_next; [|exact IH].
    unfold flight_step, flight_poll. cbn [ft_ctx ft_event ft_subs]. by rewrite Hpoll. }
  unfold deliver_to in Hnext. case_bool_decide; [|apply Hnext].
  destruct (DeliverEvent s event (n_heap n)) as [[[err|] h]|]; apply Hnext.
Qed.

(** [deliverToLocalSubscribers] is a delivery that is not interrupted. *)
Lemma deliverToLocal_runs ctx event n :
  flight_runs (mkFlight (Some ctx) event None) n (deliverToLocalSubscribers ctx event n).2.
Proof using Type.
  unfold deliverToLocalSubscribers. destruct (rt_GetSubscribers (Topic event) (n_rt n)) as [subs|err|m] eqn:Hs.
  - pose proof (deliver_loop_runs ctx event subs n no_deliveries) as Hl.
    destruct (deliver_loop _ _ _ _ _) as [[res ctx'] h]. eapply flight_next; [|exact Hl].
    unfold flight_step. cbn [ft_subs ft_event]. by rewrite Hs.
  - apply flight_last. unfold flight_step. cbn [ft_subs ft_event]. by rewrite Hs.
  - apply flight_last. unfold flight_step. cbn [ft_subs ft_event]. by rewrite Hs.
Qed.

Lemma incoming_loop_runs event subs n :
  flight_runs (mkFlight None event (Some subs)) n (with_heap (incoming_loop event subs (n_heap n)) n).
Proof using Type.
  revert n. induction subs as [|s subs IH]; intros n; cbn [incoming_loop]; [rewrite with_heap_id; by apply flight_last|].
  eapply flight_next; [done|]. specialize (IH (with_heap (deliver_to s event (n_heap n)) n)). cbn [n_heap with_heap] in IH.
  unfold deliver_to in IH |- *. case_bool_decide; [|done]. destruct (DeliverEvent _ _ _) as [[? ?]|]; done.
Qed.

(** So is the delivery of an event from a peer. *)
Lemma incoming_deliver_runs event n :
  flight_runs (mkFlight None event None) n (incoming_deliver (Topic event) event n).
Proof using Type.
  unfold incoming_deliver. destruct (rt_GetSubscribers (Topic event) (n_rt n)) as [subs|err|m] eqn:Hs.
  - eapply flight_next; [|apply incoming_loop_runs]. unfold flight_step. cbn [ft_subs ft_event]. by rewrite Hs.
  - apply flight_last. unfold flight_step. cbn [ft_subs ft_event]. by rewrite Hs.
  - apply flight_last. unfold flight_step. cbn [ft_subs ft_event]. by rewrite Hs.
Qed.

(** ** What a step leaves to do *)

(** The deliveries to an address that are still ahead, where an event of a topic
    is due [copies] times. *)
Definition due (copies : string → nat) (ref : nat) (f : flight) : list Event :=
  replicate (match ft_subs f with None => copies (Topic (ft_event f)) | Some subs => deliver_count ref subs end) (ft_event f).

(** Events, in any order and up to their representation. *)
Definition same_events (l l' : list Event) : Prop := (Copy <$> l) ≡ₚ (Copy <$> l').

Lemma Copy_eq e e' : e ≡ e' → Copy e = Copy e'.
Proof using Type. intros (Ho & Ht & Hp & Hts & Hhs). unfold Copy, copy_bytes. congruence. Qed.

Lemma Copy_events (l l' : list Event) : l ≡ l' → Copy <$> l = Copy <$> l'.
Proof using Type. induction 1 as [|e e' l l' He _ IH]; [done|]. cbn. f_equal; [by apply Copy_eq|exact IH]. Qed.

(** Nothing appears and nothing disappears in a step of a delivery: what is
    due is put into the channel, given up, or still due; other channels aside. *)
Lemma flight_step_account copies ref f n f' n' :
  (∀ t, deliver_count ref (matching n t) = copies t) → rt_closed (n_rt n) = false → flight_step f n = (f', n') →
  (∃ h, n' = with_heap h n) ∧
  same_events (eventChan (object_at (n_heap n) ref) ++ due copies ref f)
    (eventChan (object_at (n_heap n') ref) ++ flight_lost ref f n ++ from_option (due copies ref) [] f').
Proof using Type.
  intros Hcopies Hopen. unfold flight_step, flight_lost, due, same_events. destruct f as [ctx e [[|s subs]|]]; cbn [ft_subs ft_event].
  - intros [= <- <-]. split; [exists (n_heap n); by rewrite with_heap_id|done].
  - destruct (flight_poll _) as [[err|] ctx'].
    { intros [= <- <-]. split; [exists (n_heap n); by rewrite with_heap_id|]. cbn. by rewrite app_nil_r. }
    intros [= <- <-]. split; [by eexists|]. cbn [from_option n_heap with_heap ft_subs ft_event].
    rewrite deliver_count_cons. unfold deliver_to. destruct (deliver_ref s) as [ref'|] eqn:Href.
    + rewrite bool_decide_eq_true_2 by by eapply deliver_ref_local.
      destruct (DeliverEvent_spec s e (n_heap n) ref' Href) as (err & h' & -> & Herr & Hch).
      rewrite !fmap_app, (Copy_events _ _ (Hch ref)), fmap_app, <-(assoc_L (++)).
      destruct (decide (Some ref' = Some ref)) as [[= ->]|Hne].
      * rewrite (decide_True (P := ref = ref)) by done. destruct err as [err|], (has_room (n_heap n) ref).
        -- discriminate (proj2 Herr eq_refl).
        -- cbn [n_heap with_heap]. by rewrite app_nil_l.
        -- done.
        -- discriminate (proj1 Herr eq_refl).
      * rewrite (decide_False (P := ref' = ref)) by congruence. by destruct err.
    + rewrite (deliver_ref_None _ _ _ Href), decide_False by done. by case_bool_decide.
  - destruct (GetSubscribers_ok (n_rt n) (Topic e) Hopen) as (subs & -> & Hperm). intros [= <- <-].
    split; [exists (n_heap n); by rewrite with_heap_id|]. cbn. by rewrite <-Hcopies, (deliver_count_perm ref _ _ Hperm).
Qed.
End InFlight.
