(* ===== verification/NodeSubs.v ===== *)
(** * Subscriptions of the mesh node: metadata, routing table and interest

    The three tables a subscription touches (the routing table, the metadata
    kept for the HTTP API, the client map) and the aggregate interest a node
    announces: lemmas on the operations, the invariant that ties the tables, and
    its preservation by every operation of the node. *)
From S2P Require Import Prelude Topics EventLog RoutingTable Peers Clients PebbleKeys PebbleStorage.
From S2P Require Import MeshNode NodeLifecycle NodePublish.

#[local] Set Default Proof Using "Type*".

Abbreviation metadata := (gmap (string * string) ClientSubscription).

(** The topic patterns with a local subscription. *)
Definition topics_of (m : metadata) : gset string :=
  list_to_set ((λ kv : (string * string) * ClientSubscription, cs_Topic kv.2) <$> map_to_list m).

Lemma elem_of_topics_of m t :
  t ∈ topics_of m ↔ ∃ cid id sub, m !! (cid, id) = Some sub ∧ cs_Topic sub = t.
Proof.
  unfold topics_of. rewrite elem_of_list_to_set, list_elem_of_fmap. split.
  - intros ([[cid id] sub] & -> & Hin%elem_of_map_to_list). eauto.
  - intros (cid & id & sub & Hin & <-). exists ((cid, id), sub). by rewrite elem_of_map_to_list.
Qed.

Lemma topics_of_insert m cid id sub :
  m !! (cid, id) = None → topics_of (<[(cid, id) := sub]> m) = {[cs_Topic sub]} ∪ topics_of m.
Proof.
  intros Hnone. apply set_eq. intros t. rewrite elem_of_union, elem_of_singleton, !elem_of_topics_of.
  setoid_rewrite lookup_insert. split.
  - intros (c & i & s & Hs & <-). case_decide; naive_solver.
  - intros [->|(c & i & s & Hs & <-)]; [by exists cid, id, sub; rewrite decide_True|].
    exists c, i, s. by rewrite decide_False by congruence.
Qed.

Section NodeSubs.
Context {L P : Type} `{!EventLog L, !EventLogSpec L, !PeerLink P, !PeerLinkSpec P, MO : !MapOrder}.
Implicit Types n : MeshNode L P.

(** The subscriptions kept for the API, flattened. *)
Definition meta n : metadata := flat (n_subs n).

(** The node's aggregate interest. *)
Definition interest n : gset string := topics_of (meta n).

(** ** The interest count *)
Definition subscribed_count n (topic : string) : nat :=
  length (filter (λ '(_, _, sub), cs_Topic sub = topic) (range_nested (n_subs n))).

(** The metadata holds fewer subscriptions than an int can count. *)
Definition subs_bounded n : Prop := (Z.of_nat (size (meta n)) ≤ max_int64)%Z.

Lemma count_fold (topic : string) (l : list (string * string * ClientSubscription)) c :
  (0 ≤ c)%Z → (c + Z.of_nat (length l) ≤ max_int64)%Z →
  foldl (λ count '(_, _, subscription),
           if bool_decide (cs_Topic subscription = topic) then wrap64 (count + 1) else count) c l =
  (c + Z.of_nat (length (filter (λ '(_, _, sub), cs_Topic sub = topic) l)))%Z.
Proof.
  revert c. induction l as [|[[cid id] sub] l IH]; intros c Hc Hmax; [simpl; lia|].
  cbn [foldl length] in *. rewrite filter_cons. case_bool_decide as Ht.
  - rewrite decide_True by done. rewrite wrap64_id by (unfold is_int64, max_int64 in *; lia).
    rewrite IH by lia. cbn [length]. lia.
  - rewrite decide_False by done. apply IH; lia.
Qed.

Lemma localTopicInterestCount_eq n topic :
  subs_bounded n → localTopicInterestCount n topic = Z.of_nat (subscribed_count n topic).
Proof.
  intros Hb. unfold localTopicInterestCount. rewrite count_fold; [done|lia|].
  rewrite range_nested_perm, length_fmap, length_map_to_list. apply Hb.
Qed.

Lemma interest_count n topic :
  subs_bounded n → (0 < localTopicInterestCount n topic)%Z ↔ topic ∈ interest n.
Proof.
  intros Hb. rewrite (localTopicInterestCount_eq _ _ Hb). unfold interest.
  rewrite elem_of_topics_of. unfold subscribed_count, meta. split.
  - intros Hpos. destruct (filter _ (range_nested (n_subs n))) as [|[[cid id] sub] l] eqn:Hf; [simpl in Hpos; lia|].
    assert ((cid, id, sub) ∈ (cid, id, sub) :: l) as Hin by by left.
    rewrite <-Hf in Hin. apply list_elem_of_filter in Hin as [Ht Hin%elem_of_range_nested]. eauto.
  - intros (cid & id & sub & Hin & Ht).
    assert ((cid, id, sub) ∈ filter (λ '(_, _, sub), cs_Topic sub = topic) (range_nested (n_subs n))) as Hf
      by (apply list_elem_of_filter; by rewrite elem_of_range_nested).
    destruct (filter _ _); [by apply elem_of_nil in Hf|]. simpl. lia.
Qed.

Lemma interest_count_zero n topic :
  subs_bounded n → localTopicInterestCount n topic = 0%Z ↔ topic ∉ interest n.
Proof.
  intros Hb. rewrite <-(interest_count _ _ Hb), (localTopicInterestCount_eq _ _ Hb). lia.
Qed.

(** ** Metadata updates *)
Lemma meta_add now cid id topic n :
  meta (addSubscriptionMetadata now cid id topic n) =
    <[(cid, id) := mkClientSubscription id topic cid now]> (meta n).
Proof. unfold meta, addSubscriptionMetadata. simpl. apply flat_insert. Qed.

Lemma lookup_meta_remove cid topic n c i :
  meta (removeSubscriptionMetadataByTopic cid topic n) !! (c, i) =
    match meta n !! (c, i) with
    | Some sub => if decide (c = cid ∧ cs_Topic sub = topic) then None else Some sub
    | None => None
    end.
Proof.
  unfold meta, removeSubscriptionMetadataByTopic. destruct (n_subs n !! cid) as [subs|] eqn:Hc.
  - assert (∀ i, filter (λ '(_, sub), cs_Topic sub ≠ topic) subs !! i =
      match subs !! i with
      | Some sub => if decide (cs_Topic sub = topic) then None else Some sub
      | None => None
      end) as Hfilter.
    { intros j. apply option_eq. intros sub. rewrite map_lookup_filter_Some.
      destruct (subs !! j) as [sub'|]; [case_decide|]; naive_solver. }
    assert (∀ m, flat (n_subs (if bool_decide (size m = 0) then with_subs (delete cid (n_subs n)) n
                               else with_subs (<[cid := m]> (n_subs n)) n)) !! (c, i) =
      if decide (cid = c) then m !! i else flat (n_subs n) !! (c, i)) as Hlook.
    { intros m. case_bool_decide as Hs; simpl; [|by rewrite lookup_flat_insert].
      apply map_size_empty_inv in Hs as ->. rewrite !lookup_flat, lookup_delete. by case_decide. }
    rewrite Hlook. destruct (decide (cid = c)) as [<-|Hne].
    + rewrite Hfilter, lookup_flat, Hc. simpl. destruct (subs !! i) as [sub|]; [|done].
      repeat case_decide; naive_solver.
    + destruct (flat (n_subs n) !! (c, i)) as [sub|]; [|done]. by rewrite decide_False by naive_solver.
  - destruct (flat (n_subs n) !! (c, i)) as [sub|] eqn:Hs; [|done].
    rewrite decide_False; [done|]. intros [-> _]. rewrite lookup_flat, Hc in Hs. done.
Qed.

Lemma meta_remove_Some cid topic n c i sub :
  meta (removeSubscriptionMetadataByTopic cid topic n) !! (c, i) = Some sub ↔
  meta n !! (c, i) = Some sub ∧ ¬ (c = cid ∧ cs_Topic sub = topic).
Proof.
  rewrite lookup_meta_remove. destruct (meta n !! (c, i)); [|naive_solver]. case_decide; naive_solver.
Qed.

(** Removing subscriptions of one topic leaves the interest in the others. *)
Lemma interest_remove cid topic n t :
  t ≠ topic → t ∈ interest (removeSubscriptionMetadataByTopic cid topic n) ↔ t ∈ interest n.
Proof.
  intros Ht. unfold interest. rewrite !elem_of_topics_of. setoid_rewrite meta_remove_Some.
  split; intros (c & i & sub & H); [naive_solver|]. exists c, i, sub. naive_solver.
Qed.

Lemma interest_remove_sub cid topic n :
  interest (removeSubscriptionMetadataByTopic cid topic n) ⊆ interest n.
Proof.
  intros t. unfold interest. rewrite !elem_of_topics_of. setoid_rewrite meta_remove_Some. naive_solver.
Qed.

Lemma subs_bounded_remove cid topic n :
  subs_bounded n → subs_bounded (removeSubscriptionMetadataByTopic cid topic n).
Proof.
  unfold subs_bounded. intros Hb.
  assert (size (meta (removeSubscriptionMetadataByTopic cid topic n)) ≤ size (meta n)); [|lia].
  rewrite <-!size_dom. apply subseteq_size. intros [c i] [sub Hs]%elem_of_dom.
  apply meta_remove_Some in Hs as [Hs _]. apply elem_of_dom. by eexists.
Qed.

(** ** Propagation *)

(** What an operation that only sends control messages leaves alone. *)
Definition same_but_control n n' : Prop :=
  n_config n' = n_config n ∧ n_log n' = n_log n ∧ n_rt n' = n_rt n ∧ n_heap n' = n_heap n ∧
  n_clients n' = n_clients n ∧ n_subs n' = n_subs n ∧ n_peer_subs n' = n_peer_subs n ∧
  n_started n' = n_started n ∧ n_closed n' = n_closed n ∧
  GetConnectedPeers (n_link n') = GetConnectedPeers (n_link n) ∧
  ∀ q, link_events (n_link n') q = link_events (n_link n) q.

Lemma same_but_control_refl n : same_but_control n n.
Proof. by repeat split. Qed.

Lemma same_but_control_trans n1 n2 n3 :
  same_but_control n1 n2 → same_but_control n2 n3 → same_but_control n1 n3.
Proof. unfold same_but_control. intros. destruct_and!. split_and!; try (by etrans). intros q. etrans; eauto. Qed.

(** The messages the link has accepted for a peer. *)
Definition sent_to q n : list InterestMessage := link_control (n_link n) q.

(** A link on which control messages to peer [q] go through: [Room k p] says that
    [p] is connected to the given peers and can take [k] more control messages,
    for any peers, before one for [q] is refused. *)
Record reliable (q : string) (peers : list PeerNode) (Room : nat → P → Prop) : Prop := {
  rel_peers k p : Room k p → GetConnectedPeers p = Ok peers;
  rel_weaken k p : Room (S k) p → Room k p;
  rel_update k p ctx id u : Room (S k) p → ctx_live ctx →
    let '(r, _, p') := SendInterestUpdate ctx id u p in
    (∀ m, r ≠ Panic m) ∧ (id = q → r = Ok ()) ∧ Room k p';
  rel_snapshot k p ctx id s : Room (S k) p → ctx_live ctx →
    let '(r, _, p') := SendInterestSnapshot ctx id s p in
    (∀ m, r ≠ Panic m) ∧ Room k p'
}.

Lemma rel_weaken_le q peers Room j k p : reliable q peers Room → j ≤ k → Room k p → Room j p.
Proof. intros Hrel Hle. induction Hle as [|k Hle IH]; [done|]. intros H. by apply IH, (rel_weaken _ _ _ Hrel). Qed.

Lemma propagate_loop_spec ctx u peers n s f errs :
  let '(r, ctx', n') := propagate_loop ctx u peers n s f errs in
  same_but_control n n' ∧
  ∀ q, ∃ k, sent_to q n' = sent_to q n ++ replicate k (update_message u) ∧ k ≤ peer_count q peers ∧
    (∀ all Room j, reliable q all Room → Room (length peers + j) (n_link n) → ctx_live ctx →
       k = peer_count q peers ∧ (∃ counts, r = Ok counts) ∧ Room j (n_link n')).
Proof.
  revert ctx n s f errs. induction peers as [|peer peers IH]; intros ctx n s f errs; simpl.
  { split; [apply same_but_control_refl|]. intros q. exists 0. rewrite app_nil_r. split_and!; [done|done|].
    intros all Room j Hrel Hroom _. split_and!; [done|by eauto|done]. }
  destruct (SendInterestUpdate ctx (peer_ID peer) u (n_link n)) as [[r ctx1] p1] eqn:Hsend.
  destruct (SendInterestUpdate_law _ _ _ _ _ _ _ Hsend) as (Hcon & Hev & Hctx & Hctl).
  assert (∀ q all Room j, reliable q all Room → Room (S j) (n_link n) → ctx_live ctx →
    (∀ m, r ≠ Panic m) ∧ (peer_ID peer = q → r = Ok ()) ∧ Room j p1) as Hstep.
  { intros q all Room j Hrel Hroom Hl. pose proof (rel_update _ _ _ Hrel j _ ctx (peer_ID peer) u Hroom Hl) as H.
    by rewrite Hsend in H. }
  destruct r as [[]|err|m].
  - specialize (IH ctx1 (with_counters (count_update_sent (n_counters n)) (with_link p1 n)) (s + 1)%Z f errs).
    change (n_counters (with_link p1 n)) with (n_counters n).
    destruct (propagate_loop _ _ _ _ _ _ _) as [[r' ctx'] n']. destruct IH as [Hsame IH]. split.
    { eapply same_but_control_trans; [|exact Hsame]. by repeat split. }
    intros q. destruct (IH q) as (k & Hk & Hle & Hall). rewrite peer_count_cons.
    exists ((if decide (peer_ID peer = q) then 1 else 0) + k). split_and!; [|lia|].
    + rewrite Hk. unfold sent_to. simpl. rewrite (Hctl q), <-(assoc_L (++)), andb_true_r. f_equal.
      destruct (decide (peer_ID peer = q)); [by rewrite bool_decide_eq_true_2|by rewrite bool_decide_eq_false_2 by done].
    + intros all Room j Hrel Hroom Hl. destruct (Hstep q all Room _ Hrel Hroom Hl) as (_ & _ & Hroom').
      destruct (Hall all Room j Hrel Hroom') as (-> & Hr); [by rewrite Hctx|]. by split.
  - specialize (IH ctx1 (with_link p1 n) s (f + 1)%Z (errs ++ [err_send_to_peer (peer_ID peer) err])).
    destruct (propagate_loop _ _ _ _ _ _ _) as [[r' ctx'] n']. destruct IH as [Hsame IH]. split.
    { eapply same_but_control_trans; [|exact Hsame]. by repeat split. }
    intros q. destruct (IH q) as (k & Hk & Hle & Hall). rewrite peer_count_cons.
    exists k. split_and!; [|lia|].
    + rewrite Hk. unfold sent_to. simpl. by rewrite (Hctl q), andb_false_r, app_nil_r.
    + intros all Room j Hrel Hroom Hl. destruct (Hstep q all Room _ Hrel Hroom Hl) as (_ & Hok & Hroom').
      destruct (Hall all Room j Hrel Hroom') as (-> & Hr); [by rewrite Hctx|]. split; [|done].
      rewrite decide_False; [done|]. intros Hq. by specialize (Hok Hq).
  - split; [by repeat split|]. intros q. exists 0. rewrite peer_count_cons. split_and!; [|lia|].
    + unfold sent_to. simpl. by rewrite (Hctl q), andb_false_r.
    + intros all Room j Hrel Hroom Hl. destruct (Hstep q all Room _ Hrel Hroom Hl) as (Hnp & _). by destruct (Hnp m).
Qed.

(** The update a node sends about one topic. *)
Definition interest_update n (action topic : string) : InterestMessage :=
  update_message (mkUpdate (cfg_NodeID (n_config n)) action topic).

Lemma propagate_spec ctx action topic n :
  let '(r, ctx', n') := propagateInterestUpdate ctx action topic n in
  same_but_control n n' ∧
  ∀ q, ∃ k, sent_to q n' = sent_to q n ++ replicate k (interest_update n action topic) ∧
    (∀ all Room j, reliable q all Room → Room (length all + j) (n_link n) → ctx_live ctx → topic ≠ ""%string →
       action = "subscribe"%string ∨ action = "unsubscribe"%string →
       k = peer_count q all ∧ (∀ m, r ≠ Panic m) ∧ Room j (n_link n')).
Proof.
  unfold propagateInterestUpdate. case_bool_decide as H1.
  { split; [apply same_but_control_refl|]. intros q. exists 0. rewrite app_nil_r. split; [done|].
    intros all Room j _ _ _ Ht Hact. exfalso. destruct H1 as [->|?]; [by destruct Hact|done]. }
  case_bool_decide as H2.
  { split; [apply same_but_control_refl|]. intros q. exists 0. rewrite app_nil_r. split; [done|].
    intros all Room j _ _ _ Ht Hact. exfalso. naive_solver. }
  destruct (GetConnectedPeers (n_link n)) as [peers|err|m] eqn:Hpeers.
  2-3: split; [apply same_but_control_refl|]; intros q; exists 0; rewrite app_nil_r; split; [done|];
    intros all Room j Hrel Hroom; apply (rel_peers _ _ _ Hrel) in Hroom; congruence.
  case_bool_decide as H3.
  { apply nil_length_inv in H3 as ->. split; [apply same_but_control_refl|]. intros q. exists 0.
    rewrite app_nil_r. split; [done|]. intros all Room j Hrel Hroom.
    pose proof (rel_peers _ _ _ Hrel _ _ Hroom) as Hp. rewrite Hpeers in Hp. by injection Hp as <-. }
  pose proof (propagate_loop_spec ctx (mkUpdate (cfg_NodeID (n_config n)) action topic) peers n 0 0 []) as Hspec.
  destruct (propagate_loop _ _ _ _ _ _ _) as [[r ctx'] n']. destruct Hspec as [Hsame Hspec].
  assert (∀ (r' : outcome unit), ((∃ counts, r = Ok counts) → ∀ m, r' ≠ Panic m) →
    same_but_control n n' ∧ ∀ q, ∃ k,
      sent_to q n' = sent_to q n ++ replicate k (interest_update n action topic) ∧
      (∀ all Room j, reliable q all Room → Room (length all + j) (n_link n) → ctx_live ctx → topic ≠ ""%string →
         action = "subscribe"%string ∨ action = "unsubscribe"%string →
         k = peer_count q all ∧ (∀ m, r' ≠ Panic m) ∧ Room j (n_link n'))) as Hfin.
  { intros r' Hr'. split; [done|]. intros q. destruct (Hspec q) as (k & Hk & _ & Hall). exists k.
    split; [done|]. intros all Room j Hrel Hroom Hl _ _. pose proof (rel_peers _ _ _ Hrel _ _ Hroom) as Hp.
    rewrite Hpeers in Hp. injection Hp as <-.
    destruct (Hall peers Room j Hrel Hroom Hl) as (-> & (counts & ->) & Hroom').
    split; [done|]. split; [apply Hr'; eauto|done]. }
  destruct r as [[[s f] errs]|err|m]; [case_bool_decide| |]; apply Hfin; try done.
  by intros (? & [=]).
Qed.
End NodeSubs.
Arguments reliable P {_} q peers Room.
