(* ===== verification/Gossip.v ===== *)
(** * Interest gossip

    What a node announces about its own subscriptions, what its peers make of
    the announcements, and the agreement of the two: the invariant of the
    subscription tables, the effect of control messages on a peer's view, and
    the convergence of views under in-order delivery. *)
From S2P Require Import Prelude Topics EventLog RoutingTable Peers Clients PebbleKeys PebbleStorage.
From S2P Require Import MeshNode NodeLifecycle NodePublish NodeSubs.

#[local] Set Default Proof Using "Type*".

(** ** The receiving side: a peer's view of a node *)

(** The topic patterns a table of peer interest records as interesting. *)
Definition view_of (ps : nested bool) (id : string) : gset string :=
  dom (filter (λ '(_, interested), interested = true) (default ∅ (ps !! id))).

Lemma elem_of_view_of ps id t : t ∈ view_of ps id ↔ flat ps !! (id, t) = Some true.
Proof.
  unfold view_of. rewrite elem_of_dom, lookup_flat. split.
  - intros [b Hb]. apply map_lookup_filter_Some in Hb as [Hb ->]. by destruct (ps !! id).
  - intros Hb. exists true. apply map_lookup_filter_Some. split; [|done]. by destruct (ps !! id).
Qed.

(** What a control message does to the set of patterns of node [id]. *)
Definition apply_update (id : string) (u : InterestUpdate) (S : gset string) : gset string :=
  if bool_decide (iu_NodeId u ≠ id) then S
  else if bool_decide (iu_Action u = "subscribe"%string) then {[iu_Topic u]} ∪ S
  else if bool_decide (iu_Action u = "unsubscribe"%string) then S ∖ {[iu_Topic u]}
  else S.

Definition apply_snapshot (id : string) (s : InterestSnapshot) (S : gset string) : gset string :=
  if bool_decide (is_NodeId s ≠ id) then S else list_to_set (filter (λ t, t ≠ ""%string) (is_Topics s)).

Definition apply_message (id : string) (msg : InterestMessage) (S : gset string) : gset string :=
  match im_Update msg, im_Snapshot msg with
  | Some u, _ => apply_update id u S
  | None, Some s => apply_snapshot id s S
  | None, None => S
  end.

Definition apply_messages (id : string) (msgs : list InterestMessage) (S : gset string) : gset string :=
  foldl (λ S msg, apply_message id msg S) S msgs.

Lemma snapshot_topics_lookup topics t :
  snapshot_topics topics !! t = Some true ↔ t ∈ topics ∧ t ≠ ""%string.
Proof.
  unfold snapshot_topics.
  assert (∀ m : gmap string bool, foldl (λ m topic, if bool_decide (topic ≠ ""%string) then <[topic := true]> m else m)
    m topics !! t = Some true ↔ (t ∈ topics ∧ t ≠ ""%string) ∨ m !! t = Some true) as H.
  { induction topics as [|t' topics IH]; intros m; simpl; [set_solver|].
    rewrite IH, elem_of_cons. case_bool_decide; [rewrite lookup_insert; case_decide|]; naive_solver. }
  rewrite H, lookup_empty. naive_solver.
Qed.

Section Receiver.
Context {L P : Type} `{!EventLog L, !PeerLink P, MO : !MapOrder}.
Implicit Types n : MeshNode L P.

Definition view n (id : string) : gset string := view_of (n_peer_subs n) id.

Definition receive_all (msgs : list InterestMessage) n : MeshNode L P :=
  foldl (λ n msg, processIncomingInterestMessage (Some msg) n) n msgs.

Lemma view_process_update u n id :
  view (processIncomingInterestUpdate (Some u) n) id = apply_update id u (view n id).
Proof.
  apply set_eq. intros t. unfold view, apply_update. rewrite elem_of_view_of. simpl.
  rewrite lookup_flat_insert. destruct (decide (iu_NodeId u = id)) as [<-|Hid].
  - rewrite (bool_decide_eq_false_2 (_ ≠ _)) by auto.
    assert (∀ t, default ∅ (n_peer_subs n !! iu_NodeId u) !! t = flat (n_peer_subs n) !! (iu_NodeId u, t)) as Hin
      by (intros t'; rewrite lookup_flat; by destruct (n_peer_subs n !! iu_NodeId u)).
    repeat case_bool_decide.
    + rewrite elem_of_union, elem_of_singleton, elem_of_view_of, lookup_insert, Hin.
      case_decide; naive_solver.
    + rewrite elem_of_difference, elem_of_singleton, elem_of_view_of, lookup_delete, Hin.
      case_decide; naive_solver.
    + by rewrite elem_of_view_of, Hin.
  - by rewrite bool_decide_eq_true_2, elem_of_view_of.
Qed.

Lemma view_process_snapshot s n id :
  view (processIncomingInterestSnapshot (Some s) n) id = apply_snapshot id s (view n id).
Proof.
  apply set_eq. intros t. unfold view, apply_snapshot. rewrite elem_of_view_of. simpl.
  rewrite lookup_flat_insert. destruct (decide (is_NodeId s = id)) as [Hid|Hid].
  - rewrite (bool_decide_eq_false_2 (_ ≠ _)) by auto.
    rewrite snapshot_topics_lookup, elem_of_list_to_set, list_elem_of_filter. tauto.
  - by rewrite bool_decide_eq_true_2, elem_of_view_of.
Qed.

Lemma view_process msg n id :
  view (processIncomingInterestMessage (Some msg) n) id = apply_message id msg (view n id).
Proof.
  unfold processIncomingInterestMessage, apply_message.
  destruct (im_Update msg); [apply view_process_update|].
  destruct (im_Snapshot msg); [apply view_process_snapshot|done].
Qed.

Lemma view_receive_all msgs n id : view (receive_all msgs n) id = apply_messages id msgs (view n id).
Proof.
  revert n. induction msgs as [|msg msgs IH]; intros n; [done|].
  cbn [receive_all apply_messages foldl]. fold (receive_all msgs). rewrite <-view_process. apply IH.
Qed.

(** A peer gets an event if and only if its view holds a matching pattern. *)
Lemma elem_of_interested_peers n topic peers peer :
  peer ∈ getInterestedPeers n topic peers ↔
  peer ∈ peers ∧ ∃ pattern, pattern ∈ view n (peer_ID peer) ∧ topic_matches pattern topic.
Proof.
  unfold getInterestedPeers. rewrite list_elem_of_filter.
  match goal with |- (?P ∧ _) ↔ (_ ∧ ?Q) => enough (P ↔ Q) by tauto end.
  unfold view. setoid_rewrite elem_of_view_of. setoid_rewrite lookup_flat.
  destruct (n_peer_subs n !! peer_ID peer) as [topics|]; simpl; [|naive_solver].
  unfold peer_interested. rewrite existsb_exists. split.
  - intros ([pattern b] & Hin%list_elem_of_In%elem_of_range_map & [-> Hm]%andb_true_iff).
    rewrite matchesPeerSubscriptionPattern_spec in Hm. apply bool_decide_eq_true in Hm. eauto.
  - intros (pattern & Hin & Hm). exists (pattern, true). split; [by apply list_elem_of_In, elem_of_range_map|].
    simpl. rewrite matchesPeerSubscriptionPattern_spec. by apply bool_decide_eq_true_2.
Qed.
End Receiver.

(** ** The sending side *)
Section Sender.
Context {L P : Type} `{!EventLog L, !EventLogSpec L, !PeerLink P, !PeerLinkSpec P, MO : !MapOrder}.
Implicit Types n : MeshNode L P.

Lemma as_subscriber_ID c s : as_subscriber c = Some s → s = SubClient c ∧ sub_ID s = client_ID c.
Proof. by destruct c; intros [= <-]. Qed.

(** The node after the local part of an accepted [Subscribe] or [Unsubscribe]. *)
Definition subscribed (now now' : Z) (c : Client) (topic : string) n : MeshNode L P :=
  record_subscription now now' c topic
    (mkRoutingTable (nested_insert topic (client_ID c) (SubClient c) (rt_subscriptions (n_rt n))) false) n.

Definition unsubscribed (c : Client) (topic : string) n : MeshNode L P :=
  removeSubscriptionMetadataByTopic (client_ID c) topic
    (with_rt (rt_Unsubscribe topic (client_ID c) (n_rt n)).2 n).

Lemma guard_Ok verb n client topic c :
  subscription_guard verb n client topic = Ok c → client = Some c ∧ topic ≠ ""%string.
Proof.
  unfold subscription_guard. destruct (n_closed n), (n_started n); try done.
  destruct client as [c'|]; [|done]. case_bool_decide; [done|].
  destruct (client_IsAuthenticated c'); [|done]. by intros [= ->].
Qed.

Lemma Subscribe_cases ctx now now' client topic n :
  (∃ err, node_Subscribe ctx now now' client topic n = (Err err, ctx, n)) ∨
  ∃ c, client = Some c ∧ as_subscriber c = Some (SubClient c) ∧ topic ≠ ""%string ∧ rt_closed (n_rt n) = false ∧
    node_Subscribe ctx now now' client topic n =
      if bool_decide (0 < localTopicInterestCount n topic)%Z then (Ok (), ctx, subscribed now now' c topic n)
      else logged (propagateInterestUpdate ctx "subscribe" topic (subscribed now now' c topic n)).
Proof.
  unfold node_Subscribe. destruct (subscription_guard _ n client topic) as [c|err|m] eqn:Hg.
  - apply guard_Ok in Hg as [-> Ht]. destruct (as_subscriber c) as [s|] eqn:Hs; [|left; by eexists].
    destruct (as_subscriber_ID _ _ Hs) as [-> Hid]. unfold rt_Subscribe.
    rewrite bool_decide_eq_false_2 by done. destruct (rt_closed (n_rt n)) eqn:Hc; [left; by eexists|].
    right. exists c. by split_and!.
  - left. by eexists.
  - exfalso. revert Hg. unfold subscription_guard. by repeat case_match.
Qed.

Lemma Unsubscribe_cases ctx client topic n :
  (∃ err, node_Unsubscribe ctx client topic n = (Err err, ctx, n)) ∨
  ∃ c, client = Some c ∧ topic ≠ ""%string ∧ rt_closed (n_rt n) = false ∧
    node_Unsubscribe ctx client topic n =
      if bool_decide (localTopicInterestCount (unsubscribed c topic n) topic = 0)%Z
      then logged (propagateInterestUpdate ctx "unsubscribe" topic (unsubscribed c topic n))
      else (Ok (), ctx, unsubscribed c topic n).
Proof.
  unfold node_Unsubscribe. destruct (subscription_guard _ n client topic) as [c|err|m] eqn:Hg.
  - apply guard_Ok in Hg as [-> Ht]. destruct (rt_closed (n_rt n)) eqn:Hc.
    + left. unfold rt_Unsubscribe. rewrite Hc. by eexists.
    + right. exists c. destruct (flat_Unsubscribe (n_rt n) topic (client_ID c) Hc) as (Hr & _ & _).
      unfold unsubscribed. destruct (rt_Unsubscribe _ _ _) as [r rt]. simpl in *. subst r. by split_and!.
  - left. by eexists.
  - exfalso. revert Hg. unfold subscription_guard. by repeat case_match.
Qed.

Lemma logged_state r : (logged r : outcome unit * Ctx * MeshNode L P).2 = r.2.
Proof. by destruct r as [[[] ?] ?]. Qed.

(** ** The operations that change or announce interest *)
Inductive sub_op :=
  | OpSubscribe (ctx : Ctx) (now now' : Z) (client : option Client) (topic : string)
  | OpUnsubscribe (ctx : Ctx) (client : option Client) (topic : string)
  | OpUnsubscribeByID (ctx : Ctx) (clientID subscriptionID : string)
  | OpSync (ctx : Ctx) (peerID : string).

Definition sub_step (op : sub_op) n : MeshNode L P :=
  match op with
  | OpSubscribe ctx now now' client topic => (node_Subscribe ctx now now' client topic n).2
  | OpUnsubscribe ctx client topic => (node_Unsubscribe ctx client topic n).2
  | OpUnsubscribeByID ctx clientID subscriptionID => (UnsubscribeByID ctx clientID subscriptionID n).2
  | OpSync ctx peerID => (syncLocalSubscriptionsToPeer ctx peerID n).2
  end.

Definition sub_run (ops : list sub_op) n : MeshNode L P := foldl (λ n op, sub_step op n) n ops.

(** A clock reading gives a subscription id the client does not have yet, and
    the subscriptions can be counted. *)
Definition op_fresh (op : sub_op) n : Prop :=
  match op with
  | OpSubscribe _ now _ (Some c) _ =>
      meta n !! (client_ID c, subscription_id (client_ID c) now) = None ∧
      (Z.of_nat (size (meta n)) < max_int64)%Z
  | _ => True
  end.

(** The caller's context is not cancelled. *)
Definition op_live (op : sub_op) : Prop :=
  match op with
  | OpSubscribe ctx _ _ _ _ | OpUnsubscribe ctx _ _ | OpUnsubscribeByID ctx _ _ | OpSync ctx _ => ctx_live ctx
  end.

Fixpoint run_fresh (ops : list sub_op) n : Prop :=
  match ops with
  | [] => True
  | op :: ops => op_fresh op n ∧ run_fresh ops (sub_step op n)
  end.

(** ** The invariant of the subscription tables *)
Record tables_agree n : Prop := {
  ta_rt : rt_wf (n_rt n);
  ta_open : rt_closed (n_rt n) = false;
  ta_bounded : subs_bounded n;
  ta_topic cid id sub : meta n !! (cid, id) = Some sub → cs_Topic sub ≠ ""%string;
  (* routing entries and metadata stand for the same (topic, client) pairs *)
  ta_sync topic cid :
    is_Some (flat (rt_subscriptions (n_rt n)) !! (topic, cid)) ↔
    ∃ id sub, meta n !! (cid, id) = Some sub ∧ cs_Topic sub = topic
}.

Lemma same_tables_agree n n' : same_but_control n n' → tables_agree n → tables_agree n'.
Proof.
  intros (_ & _ & Hrt & _ & _ & Hsubs & _) [H1 H2 H3 H4 H5].
  unfold subs_bounded, meta in *. split; unfold subs_bounded, meta; by rewrite ?Hrt, ?Hsubs.
Qed.

Lemma meta_subscribed now now' c topic n :
  meta (subscribed now now' c topic n) =
    <[(client_ID c, subscription_id (client_ID c) now) :=
       mkClientSubscription (subscription_id (client_ID c) now) topic (client_ID c) now']> (meta n).
Proof. unfold subscribed, record_subscription. by rewrite meta_add. Qed.

Lemma subscribed_agree now now' c topic n :
  tables_agree n → topic ≠ ""%string →
  meta n !! (client_ID c, subscription_id (client_ID c) now) = None →
  (Z.of_nat (size (meta n)) < max_int64)%Z →
  tables_agree (subscribed now now' c topic n).
Proof.
  intros [Hrt Hopen Hb Ht Hs] Htopic Hfresh Hsize. split.
  - pose proof (rt_wf_insert (n_rt n) topic (SubClient c) Hopen Hrt) as Hw. rewrite Hopen in Hw. exact Hw.
  - done.
  - unfold subs_bounded. rewrite meta_subscribed, map_size_insert_None by done. lia.
  - intros cid id sub. rewrite meta_subscribed, lookup_insert. case_decide; [naive_solver|apply Ht].
  - intros t cid. rewrite meta_subscribed.
    change (rt_subscriptions (n_rt (subscribed now now' c topic n)))
      with (nested_insert topic (client_ID c) (SubClient c) (rt_subscriptions (n_rt n))).
    rewrite flat_insert, lookup_insert. setoid_rewrite lookup_insert. case_decide as Hk.
    + injection Hk as <- <-. split; [|by eexists]. intros _. eexists _, _. by rewrite decide_True.
    + rewrite (Hs t cid). split.
      * intros (id & sub & Hsub & <-). exists id, sub. split; [|done].
        by rewrite decide_False by (intros [= <- <-]; congruence).
      * intros (id & sub & Hsub & <-). case_decide as Hd; [|by eauto]. exfalso. naive_solver.
Qed.

Lemma unsubscribed_agree c topic n : tables_agree n → tables_agree (unsubscribed c topic n).
Proof.
  intros [Hrt Hopen Hb Ht Hs]. unfold unsubscribed.
  set (n1 := with_rt (rt_Unsubscribe topic (client_ID c) (n_rt n)).2 n).
  assert (n_rt (removeSubscriptionMetadataByTopic (client_ID c) topic n1) = (rt_Unsubscribe topic (client_ID c) (n_rt n)).2) as Hrt'.
  { unfold removeSubscriptionMetadataByTopic. repeat case_match; done. }
  destruct (flat_Unsubscribe (n_rt n) topic (client_ID c) Hopen) as (_ & Hc' & Hflat).
  split; rewrite ?Hrt'.
  - by apply rt_wf_Unsubscribe.
  - done.
  - by apply subs_bounded_remove.
  - intros cid id sub [Hsub _]%meta_remove_Some. by eapply Ht.
  - intros t cid. rewrite Hflat, lookup_delete. setoid_rewrite meta_remove_Some.
    change (meta n1) with (meta n). case_decide as Hk.
    + injection Hk as <- <-. split; [by intros [? ?]|]. naive_solver.
    + rewrite (Hs t cid). split; intros (id & sub & H); exists id, sub; naive_solver.
Qed.

(** Sending a snapshot changes nothing but the link and a counter. *)
Lemma sync_same ctx peerID n : same_but_control n (syncLocalSubscriptionsToPeer ctx peerID n).2.
Proof.
  unfold syncLocalSubscriptionsToPeer.
  destruct (SendInterestSnapshot ctx peerID _ (n_link n)) as [[r ctx1] p1] eqn:Hsend.
  destruct (SendInterestSnapshot_law _ _ _ _ _ _ _ Hsend) as (Hcon & Hev & _).
  by destruct r; repeat split.
Qed.

Lemma propagate_same ctx action topic n : same_but_control n (propagateInterestUpdate ctx action topic n).2.
Proof.
  pose proof (propagate_spec ctx action topic n) as Hspec.
  destruct (propagateInterestUpdate ctx action topic n) as [[r ctx'] n']. apply Hspec.
Qed.

Lemma UnsubscribeByID_cases ctx cid sid n :
  (UnsubscribeByID ctx cid sid n).2 = n ∨
  ∃ c sub, meta n !! (cid, sid) = Some sub ∧ n_clients n !! cid = Some c ∧
    (UnsubscribeByID ctx cid sid n).2 = (node_Unsubscribe ctx (Some c) (cs_Topic sub) n).2.
Proof.
  unfold UnsubscribeByID. destruct (n_subs n !! cid) as [subs|] eqn:Hc; [|by left].
  destruct (subs !! sid) as [sub|] eqn:Hs; [|by left].
  destruct (n_clients n !! cid) as [c|] eqn:Hcl; [|by left]. right. exists c, sub.
  split; [unfold meta; by rewrite lookup_flat, Hc|]. split; [done|].
  by destruct (node_Unsubscribe ctx (Some c) (cs_Topic sub) n) as [[? ?] ?].
Qed.

Lemma Unsubscribe_agree ctx client topic n :
  tables_agree n → tables_agree (node_Unsubscribe ctx client topic n).2.
Proof.
  intros Hn. destruct (Unsubscribe_cases ctx client topic n) as [[err ->]|(c & -> & _ & _ & ->)]; [done|].
  case_bool_decide; [|by apply unsubscribed_agree].
  rewrite logged_state. eapply same_tables_agree; [apply propagate_same|]. by apply unsubscribed_agree.
Qed.

Lemma sub_step_agree op n : op_fresh op n → tables_agree n → tables_agree (sub_step op n).
Proof.
  intros Hop Hn. destruct op as [ctx now now' client topic|ctx client topic|ctx cid sid|ctx peer]; simpl.
  - destruct (Subscribe_cases ctx now now' client topic n) as [[err ->]|(c & -> & _ & Ht & _ & ->)]; [done|].
    destruct Hop as [Hf Hb]. pose proof (subscribed_agree now now' c topic n Hn Ht Hf Hb) as Hs.
    case_bool_decide; [done|]. rewrite logged_state. by eapply same_tables_agree; [apply propagate_same|].
  - by apply Unsubscribe_agree.
  - destruct (UnsubscribeByID_cases ctx cid sid n) as [->|(c & sub & _ & _ & ->)]; [done|].
    by apply Unsubscribe_agree.
  - by eapply same_tables_agree; [apply sync_same|].
Qed.

Lemma sub_run_agree ops n : run_fresh ops n → tables_agree n → tables_agree (sub_run ops n).
Proof.
  revert n. induction ops as [|op ops IH]; intros n Hf Hn; [done|].
  destruct Hf as [Hop Hf]. apply (IH (sub_step op n)); [done|]. by apply sub_step_agree.
Qed.

(** ** The effect of one operation on a peer *)

Lemma apply_messages_app id l1 l2 S : apply_messages id (l1 ++ l2) S = apply_messages id l2 (apply_messages id l1 S).
Proof. apply foldl_app. Qed.

Lemma apply_replicate id u k S :
  0 < k → iu_NodeId u = id →
  apply_messages id (replicate k (update_message u)) S = apply_update id u S.
Proof.
  intros Hk Hid. destruct k as [|k]; [lia|]. clear Hk. cbn [replicate apply_messages foldl].
  change (apply_message id (update_message u) S) with (apply_update id u S).
  assert (apply_update id u (apply_update id u S) = apply_update id u S) as Hidem.
  { unfold apply_update. repeat case_bool_decide; set_solver. }
  induction k as [|k IH]; [done|]. cbn [replicate foldl].
  change (apply_message id (update_message u) ?S) with (apply_update id u S). by rewrite Hidem.
Qed.

Lemma apply_other id id' msgs S :
  id ≠ id' → Forall (λ msg, ∃ u, msg = update_message u ∧ iu_NodeId u = id) msgs ∨
             (∃ s, msgs = [snapshot_message s] ∧ is_NodeId s = id) →
  apply_messages id' msgs S = S.
Proof.
  intros Hid [Hall|(s & -> & Hs)].
  - induction Hall as [|msg msgs (u & -> & Hu) Hall IH]; [done|]. cbn [apply_messages foldl].
    replace (apply_message id' (update_message u) S) with S; [done|].
    unfold apply_message, apply_update. simpl. by rewrite bool_decide_eq_true_2 by congruence.
  - cbn. unfold apply_message, apply_snapshot. simpl. by rewrite bool_decide_eq_true_2 by congruence.
Qed.

Lemma elem_of_dedup_topics subs seen t :
  t ∈ dedup_topics subs seen ↔ (t ∉ seen) ∧ (∃ sub, sub ∈ subs ∧ cs_Topic sub = t).
Proof.
  revert seen. induction subs as [|sub subs IH]; intros seen; simpl.
  - rewrite elem_of_nil. split; [done|]. intros (_ & sub & Hin & _). by apply elem_of_nil in Hin.
  - setoid_rewrite elem_of_cons. case_bool_decide as Hseen.
    + rewrite IH. split; [naive_solver|]. intros (Hn & sub' & [->|Hin] & <-); [done|]. naive_solver.
    + rewrite elem_of_cons, IH, elem_of_union, elem_of_singleton. split.
      * intros [->|(Hn & sub' & Hin & <-)]; [split; [done|]; exists sub; auto|]. naive_solver.
      * intros (Hn & sub' & [->|Hin] & <-); [by left|].
        destruct (decide (cs_Topic sub' = cs_Topic sub)); [by left|]. right. naive_solver.
Qed.

Lemma NoDup_dedup_topics subs seen : NoDup (dedup_topics subs seen).
Proof.
  revert seen. induction subs as [|sub subs IH]; intros seen; simpl; [constructor|].
  case_bool_decide; [done|]. constructor; [|done]. rewrite elem_of_dedup_topics. set_solver.
Qed.

(** A snapshot lists the node's interest, sorted and without duplicates. *)
Lemma elem_of_localInterestSnapshot n t : t ∈ localInterestSnapshot n ↔ t ∈ interest n.
Proof.
  unfold localInterestSnapshot. rewrite sort_Strings_perm, elem_of_dedup_topics.
  unfold interest. rewrite elem_of_topics_of. unfold localSubscriptionSnapshot. setoid_rewrite list_elem_of_fmap.
  split.
  - intros (_ & sub & ([[cid id] sub'] & -> & Hin%elem_of_range_nested) & <-). eauto.
  - intros (cid & id & sub & Hin & <-). split; [set_solver|]. exists sub. split; [|done].
    exists ((cid, id), sub). by rewrite elem_of_range_nested.
Qed.

Definition own_messages n (msgs : list InterestMessage) : Prop :=
  Forall (λ msg, ∃ u, msg = update_message u ∧ iu_NodeId u = cfg_NodeID (n_config n)) msgs ∨
  (∃ s, msgs = [snapshot_message s] ∧ is_NodeId s = cfg_NodeID (n_config n)).

Lemma own_replicate n action topic k : own_messages n (replicate k (interest_update n action topic)).
Proof. left. apply Forall_replicate. by eexists. Qed.

(** The messages one operation makes a reliable peer receive turn the node's
    old interest into its new one. *)
Definition announces q n n' : Prop :=
  GetConnectedPeers (n_link n') = GetConnectedPeers (n_link n) ∧ n_config n' = n_config n ∧
  ∃ msgs, sent_to q n' = sent_to q n ++ msgs ∧ own_messages n msgs ∧
    apply_messages (cfg_NodeID (n_config n)) msgs (interest n) = interest n'.

Lemma announces_refl q n n' :
  GetConnectedPeers (n_link n') = GetConnectedPeers (n_link n) → n_config n' = n_config n →
  sent_to q n' = sent_to q n → interest n' = interest n → announces q n n'.
Proof.
  intros Hp Hc Hs Hi. split; [done|]. split; [done|]. exists [].
  split; [by rewrite app_nil_r|]. split; [by left|done].
Qed.

Section Announce.
Context (q : string) (all : list PeerNode) (Room : nat → P → Prop).
Context (Hrel : reliable P q all Room) (Hq : 0 < peer_count q all).

(** Local bookkeeping followed by an update of one topic. *)
Lemma announce_update ctx action topic n n1 j :
  Room (length all + j) (n_link n) → ctx_live ctx →
  n_link n1 = n_link n → n_config n1 = n_config n → topic ≠ ""%string →
  action = "subscribe"%string ∨ action = "unsubscribe"%string →
  interest n1 = apply_update (cfg_NodeID (n_config n)) (mkUpdate (cfg_NodeID (n_config n)) action topic) (interest n) →
  announces q n (logged (propagateInterestUpdate ctx action topic n1)).2 ∧
  Room j (n_link (logged (propagateInterestUpdate ctx action topic n1)).2).
Proof.
  intros Hroom Hl Hlink Hcfg Ht Hact Hint. rewrite logged_state.
  pose proof (propagate_spec ctx action topic n1) as Hspec.
  destruct (propagateInterestUpdate ctx action topic n1) as [[r ctx'] n'].
  destruct Hspec as [(Hc & _ & _ & _ & _ & Hsubs & _ & _ & _ & Hcon & _) Hspec].
  destruct (Hspec q) as (k & Hk & Hall). rewrite <-Hlink in Hroom.
  destruct (Hall all Room j Hrel Hroom Hl Ht Hact) as (-> & _ & Hroom'). simpl. split; [|done].
  assert (interest_update n1 action topic = interest_update n action topic) as Hu
    by (unfold interest_update; by rewrite Hcfg).
  rewrite Hu in Hk.
  split; [by rewrite Hcon, Hlink|]. split; [by rewrite Hc|].
  eexists. split; [unfold sent_to in Hk |- *; by rewrite Hk, Hlink|]. split; [apply own_replicate|].
  unfold interest_update. rewrite apply_replicate by done.
  rewrite <-Hint. unfold interest, meta. by rewrite Hsubs.
Qed.

(** Steps that send nothing leave the room as it is. *)
Lemma room_unused n n' j : n_link n' = n_link n → Room (length all + j) (n_link n) → Room j (n_link n').
Proof. intros ->. eapply rel_weaken_le; [done|lia]. Qed.

Lemma announce_unsubscribe ctx client topic n j :
  tables_agree n → Room (length all + j) (n_link n) → ctx_live ctx →
  announces q n (node_Unsubscribe ctx client topic n).2 ∧ Room j (n_link (node_Unsubscribe ctx client topic n).2).
Proof.
  intros Hn Hroom Hl. destruct (Unsubscribe_cases ctx client topic n) as [[err ->]|(c & -> & Ht & _ & ->)];
    [split; [by apply announces_refl|by eapply room_unused]|].
  pose proof (unsubscribed_agree c topic n Hn) as Hn1. set (n1 := unsubscribed c topic n) in *.
  assert (n_link n1 = n_link n ∧ n_config n1 = n_config n) as [Hlink Hcfg].
  { subst n1. unfold unsubscribed, removeSubscriptionMetadataByTopic. repeat case_match; done. }
  assert (∀ t, t ≠ topic → t ∈ interest n1 ↔ t ∈ interest n) as Hother
    by (intros t Hne; subst n1; unfold unsubscribed; by rewrite interest_remove).
  assert (interest n1 ⊆ interest n) as Hsub
    by exact (interest_remove_sub (client_ID c) topic (with_rt (rt_Unsubscribe topic (client_ID c) (n_rt n)).2 n)).
  case_bool_decide as Hz.
  - apply interest_count_zero in Hz; [|apply Hn1].
    eapply announce_update; try done; [by right|].
    unfold apply_update. simpl. rewrite bool_decide_eq_false_2 by (intros H'; by apply H'). simpl.
    apply set_eq. intros t. rewrite elem_of_difference, elem_of_singleton.
    destruct (decide (t = topic)) as [->|Hne]; [naive_solver|]. rewrite Hother by done. naive_solver.
  - cbn [snd]. split; [|by eapply room_unused].
    apply announces_refl; [by rewrite Hlink|done|by unfold sent_to; rewrite Hlink|].
    rewrite (interest_count_zero n1) in Hz by apply Hn1. apply dec_stable in Hz.
    apply set_eq. intros t. destruct (decide (t = topic)) as [->|Hne]; [|by apply Hother].
    split; [intros ?; by apply Hsub|done].
Qed.

Lemma announce_step op n j :
  op_fresh op n → op_live op → tables_agree n → Room (length all + j) (n_link n) →
  announces q n (sub_step op n) ∧ Room j (n_link (sub_step op n)).
Proof.
  intros Hop Hl Hn Hroom. destruct op as [ctx now now' client topic|ctx client topic|ctx cid sid|ctx peer]; simpl.
  - destruct (Subscribe_cases ctx now now' client topic n) as [[err ->]|(c & -> & _ & Ht & _ & ->)];
      [split; [by apply announces_refl|by eapply room_unused]|].
    destruct Hop as [Hf Hb]. set (n1 := subscribed now now' c topic n).
    assert (interest n1 = {[topic]} ∪ interest n) as Hint.
    { unfold interest. subst n1. rewrite meta_subscribed. by rewrite topics_of_insert. }
    case_bool_decide as Hz.
    + apply interest_count in Hz; [|apply Hn]. cbn [snd]. split; [|by eapply room_unused].
      apply announces_refl; try done.
      rewrite Hint. set_solver.
    + eapply announce_update; try done; [by left|].
      rewrite Hint. unfold apply_update. simpl. by rewrite bool_decide_eq_false_2 by (intros H'; by apply H').
  - by apply announce_unsubscribe.
  - destruct (UnsubscribeByID_cases ctx cid sid n) as [->|(c & sub & _ & _ & ->)];
      [split; [by apply announces_refl|by eapply room_unused]|].
    by apply announce_unsubscribe.
  - pose proof (sync_same ctx peer n) as (Hc & _ & _ & _ & _ & Hsubs & _ & _ & _ & Hcon & _).
    assert (1 + j ≤ length all + j) as Hone by (pose proof (peer_count_le q all); lia).
    pose proof (rel_weaken_le _ _ _ _ _ _ Hrel Hone Hroom) as Hroom1.
    unfold announces, sent_to, syncLocalSubscriptionsToPeer in *.
    set (s := mkSnapshot (cfg_NodeID (n_config n)) (localInterestSnapshot n)) in *.
    destruct (SendInterestSnapshot ctx peer s (n_link n)) as [[r ctx1] p1] eqn:Hsend.
    destruct (SendInterestSnapshot_law _ _ _ _ _ _ _ Hsend) as (_ & _ & _ & Hctl).
    pose proof (rel_snapshot _ _ _ Hrel j _ ctx peer s Hroom1 Hl) as Hsnap. rewrite Hsend in Hsnap.
    split; [|by destruct r; apply Hsnap]. split; [done|]. split; [done|].
    exists (if bool_decide (q = peer) && is_Ok r then [snapshot_message s] else []).
    assert (∀ n' : MeshNode L P, n_subs n' = n_subs n → interest n' = interest n) as Hi
      by (intros n' Hn'; unfold interest, meta; by rewrite Hn').
    split; [destruct r; simpl; by rewrite (Hctl q)|].
    match goal with |- _ ∧ _ = interest ?n' => replace (interest n') with (interest n) by (symmetry; by apply Hi) end.
    destruct (bool_decide (q = peer) && is_Ok r); [|by split; [left|]].
    split; [right; by exists s|]. cbn. unfold apply_message, apply_snapshot. simpl.
    rewrite bool_decide_eq_false_2 by (intros H'; by apply H').
    apply set_eq. intros t. rewrite elem_of_list_to_set, list_elem_of_filter, elem_of_localInterestSnapshot.
    split; [tauto|]. intros Hin. split; [|done]. apply elem_of_topics_of in Hin as (c & i & sub & Hsub & <-).
    by eapply (ta_topic _ Hn).
Qed.

Lemma announce_run ops n :
  run_fresh ops n → Forall op_live ops → tables_agree n → Room (length ops * length all) (n_link n) →
  (∃ msgs, sent_to q (sub_run ops n) = sent_to q n ++ msgs ∧
    apply_messages (cfg_NodeID (n_config n)) msgs (interest n) = interest (sub_run ops n) ∧
    (∀ id S, id ≠ cfg_NodeID (n_config n) → apply_messages id msgs S = S)) ∧
  Room 0 (n_link (sub_run ops n)).
Proof.
  intros Hf Hl. revert n Hf. induction Hl as [|op ops Hop' Hl IH]; intros n Hf Hn Hroom.
  { split; [|done]. exists []. split; [by rewrite app_nil_r|done]. }
  destruct Hf as [Hop Hf]. destruct (announce_step op n _ Hop Hop' Hn Hroom) as ((Hp' & Hc & msgs & Hs & Hown & Hi) & Hroom').
  destruct (IH (sub_step op n) Hf (sub_step_agree _ _ Hop Hn) Hroom') as ((msgs' & Hs' & Hi' & Ho') & Hroom'').
  split; [|exact Hroom'']. rewrite Hc in Hi', Ho'. exists (msgs ++ msgs'). change (sub_run (op :: ops) n) with (sub_run ops (sub_step op n)).
  split; [by rewrite Hs', Hs, (assoc_L (++))|]. split; [by rewrite apply_messages_app, Hi|].
  intros id S Hid. rewrite apply_messages_app, Ho' by done. eapply apply_other; [by symmetry|exact Hown].
Qed.
End Announce.

(** ** Theorems *)

Lemma tables_agree_new n :
  n_rt n = NewInMemoryRoutingTable → n_subs n = ∅ → tables_agree n.
Proof.
  intros Hrt Hsubs. assert (meta n = ∅) as Hm by (unfold meta; by rewrite Hsubs, flat_empty).
  split; unfold subs_bounded; rewrite ?Hrt, ?Hm; try done.
  intros topic cid. simpl. rewrite flat_empty, lookup_empty. split; [by intros [? ?]|].
  intros (id & sub & Hsub & _). by rewrite lookup_empty in Hsub.
Qed.

(** The subscription tables agree.  From a node without subscriptions, after
    any sequence of subscribe and unsubscribe calls (by topic or by id, by any
    clients, succeeding or failing) and announcements, the routing table has an
    entry for a (topic, client) pair exactly when the metadata kept for the API
    lists a subscription of that client to that topic, provided each clock
    reading gave a new subscription id. *)
Theorem subscription_tables_agree (n : MeshNode L P) (ops : list sub_op)
    (Hrt : n_rt n = NewInMemoryRoutingTable) (Hsubs : n_subs n = ∅) (Hfresh : run_fresh ops n) :
  let n' := sub_run ops n in
  rt_wf (n_rt n') ∧
  (∀ topic cid, is_Some (flat (rt_subscriptions (n_rt n')) !! (topic, cid)) ↔
     ∃ id sub, meta n' !! (cid, id) = Some sub ∧ cs_Topic sub = topic) ∧
  interest n' = at_patterns (flat (rt_subscriptions (n_rt n'))).
Proof.
  intros n'. subst n'. destruct (sub_run_agree ops n Hfresh (tables_agree_new n Hrt Hsubs)) as [H1 _ _ _ H5].
  split; [done|]. split; [done|]. apply set_eq. intros t. unfold interest, at_patterns.
  rewrite elem_of_topics_of, elem_of_map. split.
  - intros (cid & id & sub & Hsub & <-). exists (cs_Topic sub, cid). split; [done|].
    apply elem_of_dom. rewrite (H5 (cs_Topic sub) cid). eauto.
  - intros ([t' cid] & -> & Hin%elem_of_dom). rewrite (H5 t' cid) in Hin. destruct Hin as (id & sub & ? & ?). eauto.
Qed.

(** C3: one-way gossip converges.  Let a peer be connected and its link have
    room for the messages of a run.  If the peer's view of this node is this node's
    interest, then after any sequence of subscribe, unsubscribe and announce
    operations the messages the link accepted for the peer, processed in order
    by any node, make its view the new interest, and leave its views of other
    nodes alone. *)
Theorem gossip_converges {L' P' : Type} `{!EventLog L', !PeerLink P'}
    (n : MeshNode L P) (m : MeshNode L' P') (ops : list sub_op) (q : string) (peers : list PeerNode)
    (Room : nat → P → Prop)
    (Hrel : reliable P q peers Room) (Hq : 0 < peer_count q peers)
    (Hroom : Room (length ops * length peers) (n_link n)) (Hlive : Forall op_live ops)
    (Htables : tables_agree n) (Hfresh : run_fresh ops n)
    (Hview : view m (cfg_NodeID (n_config n)) = interest n) :
  ∃ msgs, sent_to q (sub_run ops n) = sent_to q n ++ msgs ∧
    view (receive_all msgs m) (cfg_NodeID (n_config n)) = interest (sub_run ops n) ∧
    ∀ id, id ≠ cfg_NodeID (n_config n) → view (receive_all msgs m) id = view m id.
Proof.
  destruct (announce_run q peers Room Hrel Hq ops n Hfresh Hlive Htables Hroom) as ((msgs & Hs & Hi & Ho) & _).
  exists msgs. split; [done|]. rewrite view_receive_all, Hview. split; [done|].
  intros id Hid. rewrite view_receive_all. by apply Ho.
Qed.

(** C27: a snapshot repairs any view.  Whatever a peer believed about this node
    (updates lost, a restart, topics since dropped), the snapshot that
    [syncLocalSubscriptionsToPeer] sends is exactly this node's interest, sorted
    and without duplicates, and processing it makes the peer's view equal to it. *)
Theorem snapshot_repairs_view {L' P' : Type} `{!EventLog L', !PeerLink P'}
    (ctx : Ctx) (n : MeshNode L P) (m : MeshNode L' P') (q : string)
    (Htables : tables_agree n)
    (Hsent : (syncLocalSubscriptionsToPeer ctx q n).1.1 = Ok ()) :
  ∃ s, sent_to q (syncLocalSubscriptionsToPeer ctx q n).2 = sent_to q n ++ [snapshot_message s] ∧
    StronglySorted string_le (is_Topics s) ∧ NoDup (is_Topics s) ∧
    view (receive_all [snapshot_message s] m) (cfg_NodeID (n_config n)) = interest n.
Proof.
  exists (mkSnapshot (cfg_NodeID (n_config n)) (localInterestSnapshot n)).
  revert Hsent. unfold syncLocalSubscriptionsToPeer.
  destruct (SendInterestSnapshot _ _ _ _) as [[r ctx1] p1] eqn:Hsend.
  destruct (SendInterestSnapshot_law _ _ _ _ _ _ _ Hsend) as (_ & _ & _ & Hctl).
  destruct r as [[]| |]; [intros _|done..]. split; [|split; [|split]].
  - unfold sent_to. simpl. by rewrite (Hctl q), bool_decide_eq_true_2.
  - apply sort_Strings_sorted.
  - simpl. unfold localInterestSnapshot. rewrite sort_Strings_perm. apply NoDup_dedup_topics.
  - rewrite view_receive_all. cbn. unfold apply_message, apply_snapshot. simpl.
    rewrite bool_decide_eq_false_2 by (intros H'; by apply H').
    apply set_eq. intros t. rewrite elem_of_list_to_set, list_elem_of_filter, elem_of_localInterestSnapshot.
    split; [tauto|]. intros Hin. split; [|done]. apply elem_of_topics_of in Hin as (c & i & sub & Hsub & <-).
    by eapply (ta_topic _ Htables).
Qed.

(** A peer with an accurate view of a node finds it interested exactly when one of
    its routing entries matches. *)
Lemma interested_iff {L' P' : Type} `{!EventLog L', !PeerLink P'}
    (n : MeshNode L P) (m : MeshNode L' P') (peers : list PeerNode) (peer : PeerNode) (topic : string)
    (Htables : tables_agree n) (Hpeer : peer ∈ peers)
    (Hid : peer_ID peer = cfg_NodeID (n_config n))
    (Hview : view m (cfg_NodeID (n_config n)) = interest n) :
  peer ∈ getInterestedPeers m topic peers ↔ matching n topic ≠ [].
Proof.
  rewrite elem_of_interested_peers, Hid, Hview. unfold matching, at_matching, interest.
  setoid_rewrite elem_of_topics_of. split.
  - intros (_ & pattern & (cid & id & sub & Hsub & <-) & Hm) Hnil.
    destruct (proj2 (ta_sync _ Htables (cs_Topic sub) cid)) as [s Hs]; [eauto|].
    apply fmap_nil_inv, map_to_list_empty_iff in Hnil.
    assert (filter (λ '((pattern, _), _), topic_matches pattern topic) (flat (rt_subscriptions (n_rt n)))
      !! (cs_Topic sub, cid) = Some s) as Hf by (apply map_lookup_filter_Some; by split).
    by rewrite Hnil in Hf.
  - intros Hne. split; [done|].
    destruct (map_to_list (filter _ (flat (rt_subscriptions (n_rt n))))) as [|[[pattern cid] s] l] eqn:Hl; [done|].
    assert (((pattern, cid), s) ∈ ((pattern, cid), s) :: l) as Hin by by left.
    rewrite <-Hl in Hin. apply elem_of_map_to_list, map_lookup_filter_Some in Hin as [Hs Hm].
    exists pattern. split; [|done].
    destruct (proj1 (ta_sync _ Htables pattern cid)) as (id & sub & ? & ?); [by eexists|]. by exists cid, id, sub.
Qed.

(** C28: forwarding is precise.  When a publisher's view of a connected node is
    that node's interest, the publisher sends it an event if and only if some
    subscription in the node's routing table matches the event's topic: no
    needless traffic, no missed subscriber. *)
Theorem forwarding_precise {L' P' : Type} `{!EventLog L', !PeerLink P'}
    (n : MeshNode L P) (m : MeshNode L' P') (peers : list PeerNode) (peer : PeerNode) (topic : string)
    (Htables : tables_agree n) (Hpeer : peer ∈ peers)
    (Hid : peer_ID peer = cfg_NodeID (n_config n))
    (Hview : view m (cfg_NodeID (n_config n)) = interest n) :
  peer ∈ getInterestedPeers m topic peers ↔ matching n topic ≠ [].
Proof. exact (interested_iff n m peers peer topic Htables Hpeer Hid Hview). Qed.
End Sender.

Section Discovery.
Context {L P : Type} `{!EventLog L, !PeerLink P, MO : !MapOrder}.

(** The node a control message speaks for. *)
Definition message_node (msg : InterestMessage) : option string :=
  match im_Update msg, im_Snapshot msg with
  | Some u, _ => Some (iu_NodeId u)
  | None, Some s => Some (is_NodeId s)
  | None, None => None
  end.

(** A peer found by static discovery never gets an event.  Discovery
    identifies a seed by its address, and the connection keeps that identity,
    while interest is recorded under the node id the peer sends.  Whatever
    interest messages a new node has received, from nodes whose ids are not seed
    addresses, none of its seed connections is ever interested in any topic. *)
Theorem seed_peers_never_interested (n : MeshNode L P) (seeds : list string) (topic : string)
    (msgs : list InterestMessage)
    (Hnew : n_peer_subs n = ∅)
    (Hids : Forall (λ msg, ∀ id, message_node msg = Some id → id ∉ seeds) msgs) :
  getInterestedPeers (receive_all msgs n) topic (FindPeers seeds) = [].
Proof.
  destruct (getInterestedPeers _ _ _) as [|peer l] eqn:Hl; [done|]. exfalso.
  assert (peer ∈ peer :: l) as Hin by by left. rewrite <-Hl in Hin.
  apply elem_of_interested_peers in Hin as [Hseed (pattern & Hp & _)].
  unfold FindPeers in Hseed. apply list_elem_of_fmap in Hseed as (address & -> & Haddr). simpl in Hp.
  assert (∀ S : gset string, apply_messages address msgs S = S) as Hnone.
  { clear Hl Hp. induction Hids as [|msg msgs Hmsg Hids' IH]; intros S; [done|].
    cbn [apply_messages foldl]. replace (apply_message address msg S) with S; [by apply IH|].
    unfold message_node in Hmsg. unfold apply_message, apply_update, apply_snapshot.
    destruct (im_Update msg) as [u|], (im_Snapshot msg) as [s|]; try done;
      rewrite bool_decide_eq_true_2; try done; intros <-; by eapply Hmsg. }
  rewrite view_receive_all, Hnone in Hp. unfold view in Hp. apply elem_of_view_of in Hp.
  by rewrite Hnew, flat_empty in Hp.
Qed.
End Discovery.
