(* ===== verification/NodeWitness.v ===== *)
(** * A concrete node, and the node's theorems at it

    A node with the in-memory log and the recording link, one local client and
    one connected peer: it shows that the hypotheses of the theorems of
    [NodePublish.v] and [Gossip.v] hold together. *)
From S2P Require Import Prelude Topics EventLog MemoryLog RoutingTable Peers Clients MeshNode.
From S2P Require Import NodeLifecycle NodePublish NodeSubs Gossip.

#[local] Existing Instance map_order_id.

Abbreviation Node := (MeshNode InMemoryEventLog RecordingLink).

Definition peer_B : PeerNode := mkPeerNode "B" "localhost:9091".

Definition new_node (id : string) (peers : list PeerNode) : Node :=
  mkMeshNode (NewConfig id "localhost:9090") NewInMemoryEventLog NewInMemoryRoutingTable
    (mkRecordingLink peers [] []) ∅ true false (Some 0) [0] ∅ ∅ ∅ no_counters.

Definition carol : Client := TrustedClient "carol" 0 0.
Definition dave : Client := HTTPClient "dave" true 0 1.

Definition base_node : Node := new_node "A" [peer_B].

Definition sample_sub_ops : list sub_op := [
  OpSubscribe ctx_Background 1 2 (Some carol) "orders.*";
  OpSubscribe ctx_Background 3 4 (Some dave) "orders.*";
  OpSubscribe ctx_Background 5 6 (Some dave) "orders.created";
  OpUnsubscribe ctx_Background (Some carol) "orders.*";
  OpSync ctx_Background "B";
  OpUnsubscribeByID ctx_Background "dave" "sub-dave-3"].

Lemma sample_fresh : run_fresh sample_sub_ops base_node.
Proof. repeat (apply conj; [vm_compute; first [done | by repeat split]|]). done. Qed.

Lemma base_agree : tables_agree base_node.
Proof. by apply tables_agree_new. Qed.

Lemma recording_reliable : reliable RecordingLink "B" [peer_B] (λ _ p, rl_peers p = [peer_B]).
Proof.
  split; [by intros k p <-|done|intros k p ctx id u Hp _|intros k p ctx id s Hp _]; simpl; unfold rl_send.
  - rewrite Hp. case_bool_decide as Hin; [done|]. split; [done|]. split; [|done]. intros ->. simpl in Hin. set_solver.
  - by case_bool_decide.
Qed.

(** A node with one subscription of [carol] and a peer that wants a topic too. *)
Definition carol_table : InMemoryRoutingTable MeshSubscriber :=
  mkRoutingTable (nested_insert "orders.*" "carol" (SubClient carol) ∅) false.

Definition node_with (heap : Heap) : Node :=
  mkMeshNode (NewConfig "A" "localhost:9090") NewInMemoryEventLog carol_table
    (mkRecordingLink [peer_B] [] []) heap true false (Some 0) [0] {["carol" := carol]} ∅
    {["B" := {["*.created" := true]}]} no_counters.

Definition sample_node : Node := node_with ∅.

Lemma carol_table_wf : rt_wf carol_table.
Proof. exact (rt_wf_insert NewInMemoryRoutingTable "orders.*" (SubClient carol) eq_refl rt_wf_new). Qed.

Lemma carol_matches heap : matching (node_with heap) "orders.created" = [SubClient carol].
Proof. vm_compute. reflexivity. Qed.

Definition created_event : Event := NewEvent 7 "orders.created" (Some (bytes_of_string "x")).

Lemma publish_persists_first_witness :
  ∃ local remote, log_rep (n_log (PublishEventWithResult ctx_Background (Some carol) (Some created_event) sample_node).2)
      (abs_push abs_empty "orders.created" created_event) ∧
    distributed (WithOffset created_event 0) local remote sample_node
      (PublishEventWithResult ctx_Background (Some carol) (Some created_event) sample_node).2.
Proof.
  pose proof (publish_persists_first ctx_Background (Some carol) (Some created_event) sample_node abs_empty
    mem_rep_new carol_table_wf) as Hspec.
  destruct (PublishEventWithResult ctx_Background (Some carol) (Some created_event) sample_node)
    as [[r ctx'] n'] eqn:Heq.
  destruct Hspec as [(err & -> & _)|(e & local & remote & [= <-] & _ & Hlog & _ & Hd & _)].
  - intros e [= <-]. split; [done|]. vm_compute. done.
  - exfalso. apply (f_equal (λ x, x.1.1)) in Heq. vm_compute in Heq. discriminate.
  - exists local, remote. split; [exact Hlog|exact Hd].
Defined.

Lemma sample_room : room_for (n_heap sample_node) (matching sample_node "orders.created").
Proof.
  unfold sample_node. rewrite carol_matches. split.
  - intros s ->%list_elem_of_singleton _. by eexists.
  - intros ref. left. unfold deliver_count. rewrite filter_cons, filter_nil.
    assert (length (eventChan (object_at (n_heap (node_with ∅)) ref)) = 0) as -> by reflexivity.
    case_decide; simpl; unfold client_chan_cap; lia.
Qed.

Lemma recording_accepts : link_accepts ctx_Background (WithOffset created_event 0) (interested sample_node "orders.created") (n_link sample_node).
Proof. vm_compute. by eexists. Qed.

Lemma publish_succeeds_witness :
  ∃ n', PublishEventWithResult ctx_Background (Some carol) (Some created_event) sample_node =
    (Ok (WithOffset created_event 0), ctx_Background, n').
Proof.
  apply (publish_succeeds ctx_Background carol created_event sample_node abs_empty [peer_B]);
    [done|done|done|by vm_compute|apply mem_rep_new|done|done|done|by vm_compute|
     apply carol_table_wf|done|apply sample_room|done|apply recording_accepts].
Defined.

(** [carol]'s channel filled to its capacity. *)
Definition full_heap : Heap := {[0 := mkClientObject [] (replicate 100 created_event)]}.

Lemma full_heap_ok : heap_ok full_heap.
Proof.
  intros ref. unfold object_at, full_heap. destruct (decide (0 = ref)) as [<-|].
  - rewrite lookup_singleton_eq. simpl. unfold client_chan_cap. lia.
  - rewrite lookup_singleton_ne by done. simpl. unfold client_chan_cap. lia.
Qed.

Lemma publish_slow_consumer_witness :
  is_Ok (PublishEventWithResult ctx_Background (Some carol) (Some created_event)
           (node_with full_heap)).1.1 = false.
Proof.
  apply (publish_slow_consumer ctx_Background (Some carol) created_event (node_with full_heap)
    abs_empty 0 (SubClient carol));
    [apply mem_rep_new|apply carol_table_wf|done|by vm_compute|apply full_heap_ok| |done|reflexivity].
  change (Topic created_event) with "orders.created"%string. rewrite carol_matches. by left.
Defined.

Lemma incoming_event_stays_local_witness :
  n_link (processIncomingUserEvent ctx_Background created_event sample_node).2 = n_link sample_node.
Proof.
  apply (incoming_event_stays_local ctx_Background created_event sample_node abs_empty);
    [apply mem_rep_new|apply carol_table_wf|done|by vm_compute].
Defined.

Lemma subscription_tables_agree_witness :
  is_Some (flat (rt_subscriptions (n_rt (sub_run sample_sub_ops base_node))) !! ("orders.created"%string, "dave"%string)) ↔
  ∃ id sub, meta (sub_run sample_sub_ops base_node) !! ("dave"%string, id) = Some sub ∧ cs_Topic sub = "orders.created"%string.
Proof.
  apply (subscription_tables_agree base_node sample_sub_ops); [reflexivity|reflexivity|apply sample_fresh].
Defined.

Lemma gossip_converges_witness :
  ∃ msgs, sent_to "B" (sub_run sample_sub_ops base_node) = msgs ∧
    view (receive_all msgs (new_node "B" [])) "A" = interest (sub_run sample_sub_ops base_node).
Proof.
  destruct (gossip_converges base_node (new_node "B" []) sample_sub_ops "B" [peer_B] _ recording_reliable)
    as (msgs & Hs & Hv & _).
  - vm_compute. lia.
  - reflexivity.
  - by repeat constructor.
  - apply base_agree.
  - apply sample_fresh.
  - reflexivity.
  - exists msgs. split; [exact Hs|exact Hv].
Defined.

(** The interest at the end of the run is [orders.created] alone. *)
Example sample_interest : interest (sub_run sample_sub_ops base_node) = {["orders.created"%string]}.
Proof. vm_compute. reflexivity. Qed.

Lemma base_sync_ok : (syncLocalSubscriptionsToPeer ctx_Background "B" base_node).1.1 = Ok ().
Proof. vm_compute. reflexivity. Qed.

(** A view with a topic that is no longer wanted. *)
Definition stale_node : Node :=
  mkMeshNode (NewConfig "B" "localhost:9091") NewInMemoryEventLog NewInMemoryRoutingTable
    (mkRecordingLink [] [] []) ∅ true false (Some 0) [0] ∅ ∅ {["A" := {["stale" := true]}]} no_counters.

Lemma snapshot_repairs_view_witness :
  ∃ s, view (receive_all [snapshot_message s] stale_node) "A" = interest base_node.
Proof.
  pose proof (snapshot_repairs_view ctx_Background base_node stale_node "B" base_agree base_sync_ok) as Hs.
  destruct Hs as (s & _ & _ & _ & Hv). exists s. exact Hv.
Defined.

Lemma forwarding_precise_witness :
  peer_B ∈ getInterestedPeers (new_node "A" [peer_B]) "orders.created" [peer_B] ↔
  matching (new_node "B" []) "orders.created" ≠ [].
Proof.
  apply (forwarding_precise (new_node "B" []) (new_node "A" [peer_B]) [peer_B] peer_B);
    [by apply tables_agree_new|by left|reflexivity|reflexivity].
Defined.

Lemma seed_peers_never_interested_witness :
  getInterestedPeers
    (receive_all [update_message (mkUpdate "node1" "subscribe" "orders.*")] (new_node "node2" [])) "orders.created"
    (FindPeers ["localhost:8093"%string]) = [].
Proof.
  apply seed_peers_never_interested; [reflexivity|].
  apply Forall_cons. split; [|by apply Forall_nil]. intros id [= <-]. set_solver.
Defined.
