(* ===== verification/NodeHealth.v ===== *)
(** * The mesh node's lifecycle, health and statistics

    What holds of a node over its start, stop and close calls, and what its
    health report and routing statistics say. *)
From S2P Require Import Prelude Topics EventLog MemoryLog RoutingTable Peers Clients PebbleStorage MeshNode.
From S2P Require Import NodeLifecycle NodePublish NodeSubs Gossip NodeWitness.

#[local] Set Default Proof Using "Type*".

(** ** Lifecycle *)
Inductive life_op := LifeStart | LifeStop | LifeClose.

Section Lifecycle.
Context {L P : Type} `{!EventLog L, !PeerLink P, MO : !MapOrder}.
Implicit Types n : MeshNode L P.

Definition life_step (op : life_op) n : outcome unit * MeshNode L P :=
  match op with
  | LifeStart => node_Start n
  | LifeStop => node_Stop n
  | LifeClose => node_Close n
  end.

Definition life_run (ops : list life_op) n : MeshNode L P := foldl (λ n op, (life_step op n).2) n ops.

(** The background goroutines are those of the lifecycle context the node holds. *)
Record life_wf n : Prop := {
  life_running : n_running n = option_list (n_lifecycle n);
  life_started : n_closed n = false → n_started n = true ↔ is_Some (n_lifecycle n);
  life_closed : n_closed n = true → n_started n = false
}.

(** What a step that starts or stops nothing does to the lifecycle. *)
Definition same_life n n' : Prop :=
  n_started n' = n_started n ∧ n_closed n' = n_closed n ∧ n_lifecycle n' = n_lifecycle n ∧ n_running n' = n_running n.

Lemma life_wf_same n n' : same_life n n' → life_wf n → life_wf n'.
Proof. intros (H1 & H2 & H3 & H4) [W1 W2 W3]. split; by rewrite ?H1, ?H2, ?H3, ?H4. Qed.

Lemma Start_cases n :
  same_life n (node_Start n).2 ∨
  (node_Start n).1 = Ok () ∧ n_closed n = false ∧ n_started n = false ∧
  ∃ l, n_lifecycle (node_Start n).2 = Some l ∧ n_running (node_Start n).2 = l :: n_running n ∧
    n_started (node_Start n).2 = true ∧ n_closed (node_Start n).2 = false.
Proof.
  unfold node_Start. destruct (n_closed n) eqn:Hc; [by left|]. destruct (n_started n) eqn:Hs; [by left|].
  destruct (StartLink (n_link n)) as [[[]|err|m] p]; [|by left..].
  set (n1 := with_link p n). set (seeds := match cfg_SeedNodes _ with Some _ => _ | None => _ end).
  assert (same_life n1 seeds.2) as (H1 & H2 & H3 & H4).
  { subst seeds. destruct (cfg_SeedNodes _) as [[|s l]|]; [done| |done].
    unfold runDiscovery. by destruct (discovery_loop _ _ _). }
  destruct seeds as [r n2]. simpl in *. assert (∀ r' p', same_life n (r' : outcome unit, with_link p' n2).2) as Hsame
    by (intros; repeat split; simpl; congruence).
  assert (same_life n n2) as Hsame2 by (repeat split; simpl; congruence).
  destruct r as [[]|err|m]; [| |by left];
    (destruct (StartHeartbeats (n_link n2)) as [[[]|err'|m'] p']; [|by left; apply (Hsame (Ok ()))..]);
    right; simpl; (split; [done|]); (split; [done|]); (split; [done|]);
    eexists; (split; [done|]); simpl; rewrite H4; by rewrite H2.
Qed.

Lemma Stop_cases n :
  (n_started n = false ∧ node_Stop n = (Ok (), n)) ∨
  (n_started n = true ∧ n_started (node_Stop n).2 = false ∧ n_closed (node_Stop n).2 = n_closed n ∧
   n_lifecycle (node_Stop n).2 = None ∧
   n_running (node_Stop n).2 = cancel_lifecycle (n_lifecycle n) (n_running n)).
Proof.
  unfold node_Stop. destruct (n_started n); [right|by left]. simpl.
  destruct (StopHeartbeats _) as [[[]|err|m] p]; [|done..]. by destruct (StopLink _).
Qed.

Lemma Close_cases n :
  same_life n (node_Close n).2 ∨
  (node_Close n).1 = Ok () ∧ n_started (node_Close n).2 = false ∧ n_closed (node_Close n).2 = true ∧
  n_lifecycle (node_Close n).2 = n_lifecycle n ∧ n_running (node_Close n).2 = n_running n.
Proof.
  unfold node_Close. destruct (n_closed n) eqn:Hc; [by left|].
  destruct (CloseLog (n_log n)) as [[[]|err|m] l]; [|by left..].
  cbn [rt_Close]. destruct (CloseLink _) as [[[]|err|m] p]; [by right|by left..].
Qed.

Lemma life_step_wf op n : life_wf n → life_wf (life_step op n).2.
Proof.
  intros Hwf. destruct op; simpl.
  - destruct (Start_cases n) as [Hs|(_ & Hc & Hst & l & Hl & Hr & Hst' & Hc')]; [by eapply life_wf_same|].
    destruct Hwf as [W1 W2 W3]. assert (n_lifecycle n = None) as Hnone.
    { destruct (n_lifecycle n) eqn:He; [|done]. rewrite (proj2 (W2 Hc)) in Hst; [done|by eexists]. }
    split; [by rewrite Hr, Hl, W1, Hnone|intros _; rewrite Hl, Hst'; by split|congruence].
  - destruct (Stop_cases n) as [[_ ->]|(Hst & Hst' & Hc' & Hl & Hr)]; [done|].
    destruct Hwf as [W1 W2 W3]. split.
    + rewrite Hr, Hl, W1. destruct (n_lifecycle n) as [l|]; [|done]. simpl.
      rewrite filter_cons_False; [done|]. by intros H.
    + intros _. rewrite Hl, Hst'. split; [done|by intros [??]].
    + done.
  - destruct (Close_cases n) as [Hs|(_ & Hst & Hc & Hl & Hr)]; [by eapply life_wf_same|].
    destruct Hwf as [W1 W2 W3]. split; [by rewrite Hr, Hl|congruence|done].
Qed.

Lemma life_run_wf ops n : life_wf n → life_wf (life_run ops n).
Proof. revert n. induction ops as [|op ops IH]; intros n Hwf; [done|]. by apply IH, life_step_wf. Qed.

(** C38: the lifecycle.  From a new node, after any sequence of [Start], [Stop]
    and [Close] calls, whatever the link and the log answer: at most one set of
    background goroutines runs; while the node is not closed they run exactly
    while it is started; and a closed node is not started and stays closed. *)
Theorem lifecycle_invariant (ops ops' : list life_op) (n : MeshNode L P)
    (Hnew : n_started n = false ∧ n_closed n = false ∧ n_lifecycle n = None ∧ n_running n = []) :
  let n' := life_run ops n in
  length (n_running n') ≤ 1 ∧
  (n_closed n' = false → n_started n' = true ↔ n_running n' ≠ []) ∧
  (n_closed n' = true → n_started n' = false ∧ n_closed (life_run ops' n') = true).
Proof.
  destruct Hnew as (Hs & Hc & Hl & Hr). intros n'.
  assert (life_wf n') as [W1 W2 W3].
  { apply life_run_wf. split; [by rewrite Hl|intros _; rewrite Hs, Hl; split; [done|by intros [??]]|congruence]. }
  split; [rewrite W1; destruct (n_lifecycle n'); simpl; lia|]. split.
  - intros Hcl. rewrite (W2 Hcl), W1. destruct (n_lifecycle n'); [by split; eauto|]. split; [by intros [??]|done].
  - intros Hcl. split; [by apply W3|]. clearbody n'. clear W1 W2 W3. revert n' Hcl.
    induction ops' as [|op ops' IH]; intros n' Hcl; [done|]. apply IH. destruct op; simpl.
    + destruct (Start_cases n') as [(_ & Hcl' & _)|(_ & ? & _)]; congruence.
    + destruct (Stop_cases n') as [[_ ->]|(_ & _ & Hcl' & _)]; [done|congruence].
    + destruct (Close_cases n') as [(_ & Hcl' & _)|(_ & _ & Hcl' & _)]; congruence.
Qed.

(** Closing a running node leaves its goroutines running.  [Close] does not
    cancel the lifecycle context, and afterwards [Stop] returns at once: after a
    successful [Close] of a started node, no sequence of calls ends the
    goroutines that process peer events and resynchronise subscriptions. *)
Theorem close_leaves_goroutines (ops : list life_op) (n : MeshNode L P) (l : nat)
    (Hstarted : n_started n = true) (Hopen : n_closed n = false)
    (Hl : n_lifecycle n = Some l) (Hr : n_running n = [l])
    (Hok : (node_Close n).1 = Ok ()) :
  n_running (life_run ops (node_Close n).2) = [l].
Proof.
  assert (n_closed (node_Close n).2 = true ∧ n_started (node_Close n).2 = false ∧ n_running (node_Close n).2 = [l])
    as (Hc & Hs & Hrun).
  { revert Hok. unfold node_Close. rewrite Hopen.
    destruct (CloseLog (n_log n)) as [[[]|err|m] lg]; [|done..].
    cbn [rt_Close]. by destruct (CloseLink _) as [[[]|err|m] p]. }
  generalize dependent ((node_Close n).2). clear n Hstarted Hopen Hl Hr Hok.
  induction ops as [|op ops IH]; intros n Hc Hs Hr; [done|]. cbn [life_run foldl].
  assert ((life_step op n).2 = n) as ->; [|by apply IH].
  destruct op; simpl; [unfold node_Start|unfold node_Stop|unfold node_Close]; by rewrite ?Hc, ?Hs.
Qed.
End Lifecycle.

(** ** Health *)
Section Health.
Context {L P : Type} `{!EventLog L, !PeerLink P, MO : !MapOrder}.
Implicit Types n : MeshNode L P.

Lemma GetSubscribers_open topic (rt : InMemoryRoutingTable MeshSubscriber) :
  rt_closed rt = false → ∃ subs, rt_GetSubscribers topic rt = Ok subs.
Proof. intros Hc. unfold rt_GetSubscribers. rewrite Hc. by eexists. Qed.

(** The health report.  A node reports itself healthy exactly when it is not
    closed, its log answers a statistics query, its routing table is open and
    its link lists its peers; it says that all components are healthy exactly
    when, in addition, it is started - so a node that was never started is
    healthy with issues. *)
Theorem health_report (ctx ctx' : Ctx) (n : MeshNode L P) (h : HealthStatus)
    (Hh : GetHealth ctx n = (Ok h, ctx')) :
  (Healthy h = true ↔
     n_closed n = false ∧ is_Ok (GetStatistics ctx (n_log n)).1 = true ∧ rt_closed (n_rt n) = false ∧
     is_Ok (GetConnectedPeers (n_link n)) = true) ∧
  Healthy h = negb (n_closed n) && EventLogHealthy h && RoutingTableHealthy h && PeerLinkHealthy h ∧
  (Message h = "All components healthy"%string ↔ Healthy h = true ∧ n_started n = true) ∧
  (n_closed n = false → ConnectedPeers h =
     match GetConnectedPeers (n_link n) with Ok peers => Z.of_nat (length peers) | _ => 0%Z end).
Proof.
  revert Hh. unfold GetHealth.
  destruct (n_closed n) eqn:Hc.
  { simpl. intros [= <- <-]. simpl. unfold lifecycle_messages. rewrite Hc. simpl. split; [naive_solver|]. split; [done|]. split; [naive_solver|done]. }
  destruct (GetStatistics ctx (n_log n)) as [r ctx1]. unfold check_component, lifecycle_messages. rewrite Hc. simpl.
  assert (∀ e, rt_GetSubscribers "__health.check" (n_rt n) = Err e → rt_closed (n_rt n) = true) as Hrt.
  { intros e He. destruct (rt_closed (n_rt n)) eqn:Hcl; [done|].
    destruct (GetSubscribers_open "__health.check" _ Hcl) as [subs Hs]. congruence. }
  assert (∀ s, rt_GetSubscribers "__health.check" (n_rt n) = Ok s → rt_closed (n_rt n) = false) as Hrt'.
  { intros s. unfold rt_GetSubscribers. by destruct (rt_closed (n_rt n)). }
  destruct r as [st|e1|p1]; simpl; [| |done];
    (destruct (rt_GetSubscribers _ _) as [subs|e2|p2] eqn:Hsub; simpl; [| |done]);
    (destruct (GetConnectedPeers _) as [ps|e3|p3]; simpl; [| |done]); intros [= <- <-]; simpl;
    rewrite ?(Hrt' _ eq_refl), ?(Hrt _ eq_refl); destruct (n_started n); simpl;
    (split; [naive_solver|]); (split; [done|]); (split; [naive_solver|done]).
Qed.
End Health.

(** ** Routing statistics *)

(** A loop that keeps some of the entries of a map, transformed. *)
Lemma foldl_pick {A B} (g : A → option B) (l : list (string * A)) (m : gmap string B) p :
  NoDup l.*1 →
  foldl (λ m '(k, x), match g x with Some y => <[k := y]> m | None => m end) m l !! p =
  match (list_to_map l : gmap string A) !! p ≫= g with Some y => Some y | None => m !! p end.
Proof.
  revert m. induction l as [|[k x] l IH]; intros m; [done|]. rewrite fmap_cons. intros [Hk Hl]%NoDup_cons.
  cbn [foldl list_to_map foldr fst snd]. rewrite IH by done.
  change (uncurry insert (k, x) (list_to_map l : gmap string A)) with (<[k := x]> (list_to_map l : gmap string A)).
  rewrite lookup_insert. case_decide as Hd; [subst|].
  - assert ((list_to_map l : gmap string A) !! p = None) as -> by by apply not_elem_of_list_to_map.
    simpl. destruct (g x); [by rewrite lookup_insert_eq|done].
  - destruct (g x); [|done]. by rewrite lookup_insert_ne.
Qed.

Section Statistics.
Context {L P : Type} `{!EventLog L, !EventLogSpec L, !PeerLink P, !PeerLinkSpec P, MO : !MapOrder}.
Implicit Types n : MeshNode L P.

Lemma localSubscriptionCounts_total n :
  subs_bounded n → (localSubscriptionCounts n).1 = Z.of_nat (size (meta n)).
Proof.
  intros Hb. unfold localSubscriptionCounts.
  assert (∀ (l : list (string * gmap string ClientSubscription)) c k, is_int64 c →
    (foldl (λ '(subscriptions, clients) '(_, clientSubscriptions),
       if bool_decide (size (clientSubscriptions : gmap string ClientSubscription) = 0) then (subscriptions, clients)
       else (wrap64 (subscriptions + Z.of_nat (size clientSubscriptions)), wrap64 (clients + 1)))
      (c, k)%Z l).1 = wrap64 (c + foldr (λ '(_, inner) s, (Z.of_nat (size (inner : gmap string ClientSubscription)) + s)%Z) 0%Z l))
    as Hfold.
  { induction l as [|[cid inner] l IH]; intros c k Hc; simpl; [by rewrite Z.add_0_r, wrap64_id|].
    case_bool_decide as Hs; [rewrite IH by done; f_equal; lia|].
    rewrite IH by apply wrap64_range. rewrite wrap64_add_l. f_equal. lia. }
  rewrite Hfold by (unfold is_int64; lia). rewrite <-length_range_nested. unfold subs_bounded, meta, max_int64 in *.
  rewrite wrap64_id; [done|]. unfold is_int64. lia.
Qed.

Lemma elem_of_interested_topics (topics : gmap string bool) t :
  t ∈ interested_topics topics ↔ topics !! t = Some true.
Proof.
  unfold interested_topics. rewrite list_elem_of_fmap. split.
  - intros ([t' b] & -> & Hin). apply list_elem_of_filter in Hin as [-> Hin]. by apply elem_of_range_map in Hin.
  - intros Ht. exists (t, true). split; [done|]. apply list_elem_of_filter. split; [done|]. by apply elem_of_range_map.
Qed.

Lemma NoDup_interested_topics (topics : gmap string bool) : NoDup (interested_topics topics).
Proof.
  unfold interested_topics. apply (sublist_NoDup _ _ (NoDup_range_map_keys topics)). apply fmap_sublist, sublist_filter.
Qed.

Lemma peerInterestSnapshot_lookup n p :
  peerInterestSnapshot n !! p = match n_peer_subs n !! p with
    | Some topics => if decide (interested_topics topics = []) then None
                     else Some (sort_Strings (interested_topics topics))
    | None => None
    end.
Proof.
  set (g := λ topics : gmap string bool, if bool_decide (size topics = 0) then None
    else if bool_decide (length (interested_topics topics) = 0) then None
    else Some (sort_Strings (interested_topics topics))).
  assert (peerInterestSnapshot n = foldl (λ m '(k, x), match g x with Some y => <[k := y]> m | None => m end) ∅
    (range_map (n_peer_subs n))) as ->.
  { unfold peerInterestSnapshot. generalize (∅ : gmap string (list string)).
    induction (range_map (n_peer_subs n)) as [|[k x] l IH]; intros m; [done|]. cbn [foldl].
    rewrite IH. f_equal. unfold g. repeat case_bool_decide; done. }
  rewrite foldl_pick by apply NoDup_range_map_keys.
  rewrite (list_to_map_proper _ _ (NoDup_range_map_keys _) (range_map_perm (n_peer_subs n))), list_to_map_to_list.
  destruct (n_peer_subs n !! p) as [topics|]; [simpl|done]. unfold g.
  case_bool_decide as Hs.
  - apply map_size_empty_inv in Hs as ->. unfold interested_topics. rewrite range_map_empty. done.
  - destruct (interested_topics topics) as [|t l]; [done|]. done.
Qed.

(** The routing statistics are the routing state.  They count every local
    subscription once, list the node's aggregate interest sorted and without
    duplicates, and for every peer whose view is not empty list it likewise,
    leaving out the others. *)
Theorem routing_stats_accurate (n : MeshNode L P) (Hbounded : subs_bounded n) :
  let stats := GetRoutingStats n in
  rs_LocalSubscriptions stats = Z.of_nat (size (meta n)) ∧
  (StronglySorted string_le (rs_LocalInterestTopics stats) ∧ NoDup (rs_LocalInterestTopics stats) ∧
   ∀ t, t ∈ rs_LocalInterestTopics stats ↔ t ∈ interest n) ∧
  (∀ p, match rs_PeerInterest stats !! p with
        | Some topics => StronglySorted string_le topics ∧ NoDup topics ∧ topics ≠ [] ∧ ∀ t, t ∈ topics ↔ t ∈ view n p
        | None => view n p = ∅
        end) ∧
  rs_Counters stats = n_counters n.
Proof.
  unfold GetRoutingStats. pose proof (localSubscriptionCounts_total n Hbounded) as Hcount.
  destruct (localSubscriptionCounts n) as [subs clients]. simpl in *. split; [done|]. split; [|split; [|done]].
  - split; [apply sort_Strings_sorted|]. split; [|apply elem_of_localInterestSnapshot].
    unfold localInterestSnapshot. rewrite sort_Strings_perm. apply NoDup_dedup_topics.
  - intros p. rewrite peerInterestSnapshot_lookup.
    assert (∀ t, t ∈ view n p ↔ n_peer_subs n !! p ≫= (.!! t) = Some true) as Hview
      by (intros t; unfold view; by rewrite elem_of_view_of, lookup_flat).
    destruct (n_peer_subs n !! p) as [topics|]; simpl in Hview; [|apply set_eq; set_solver].
    case_decide as Hd.
    + apply set_eq. intros t. rewrite Hview, <-elem_of_interested_topics, Hd. set_solver.
    + split; [apply sort_Strings_sorted|]. split; [rewrite sort_Strings_perm; apply NoDup_interested_topics|].
      split; [intros He; apply Hd, Permutation_nil_r; by rewrite <-He, sort_Strings_perm|].
      intros t. by rewrite sort_Strings_perm, elem_of_interested_topics, Hview.
Qed.
End Statistics.

(** ** Witnesses *)
#[local] Existing Instance map_order_id.

Lemma lifecycle_invariant_witness :
  length (n_running (life_run [LifeStart; LifeStop; LifeStart; LifeClose; LifeStart]
    (mkMeshNode (NewConfig "A" "localhost:9090") NewInMemoryEventLog NewInMemoryRoutingTable
       (mkRecordingLink [peer_B] [] []) ∅ false false None [] ∅ ∅ ∅ no_counters))) ≤ 1.
Proof. by apply (lifecycle_invariant _ []). Defined.

Lemma close_leaves_goroutines_witness :
  n_running (life_run [LifeStop; LifeClose] (node_Close base_node).2) = [0].
Proof. by apply close_leaves_goroutines. Defined.

Lemma health_report_witness :
  ∃ h, (GetHealth ctx_Background base_node).1 = Ok h ∧
    (Message h = "All components healthy"%string ↔ Healthy h = true ∧ n_started base_node = true).
Proof.
  destruct (GetHealth ctx_Background base_node) as [[h| |] ctx'] eqn:Hh; [|by vm_compute in Hh..].
  exists h. split; [done|]. by apply (health_report ctx_Background ctx' base_node h Hh).
Defined.

Lemma routing_stats_accurate_witness :
  rs_LocalSubscriptions (GetRoutingStats (sub_run sample_sub_ops base_node)) =
  Z.of_nat (size (meta (sub_run sample_sub_ops base_node))).
Proof. apply (routing_stats_accurate (sub_run sample_sub_ops base_node)). by vm_compute. Defined.
