(* ===== verification/PeerMessages.v ===== *)
(** * Messages between peer links ([internal/peerlink/grpc.go])

    The queued messages, the wire messages of [proto/peerlink/v1], the
    conversions between them and the round trip of a message from one link to
    the other.  gRPC transports a wire message unchanged, except that proto3 does
    not tell an empty byte string, list or map from an absent one. *)
From S2P Require Import Prelude EventLog Peers PebbleStorage.

(** ** Wire messages ([proto/peerlink/v1/peerlink.proto]) *)
Record WireEvent := mkWireEvent {
  we_Topic : string;
  we_Offset : Z;
  we_Payload : option bytes;
  we_Headers : gmap string string
}.

Record Handshake := mkHandshake { hs_NodeId : string; hs_ProtocolVersion : Z }.

Inductive ControlPlaneMessage :=
  | ControlPlaneMessage_InterestUpdate (u : InterestUpdate)
  | ControlPlaneMessage_InterestSnapshot (s : InterestSnapshot)
  | ControlPlaneMessage_unset.

Inductive WireMessage :=
  | PeerMessage_Handshake (h : Handshake)
  | PeerMessage_Event (e : WireEvent)
  | PeerMessage_Ack (topic : string) (offset : Z)
  | PeerMessage_Heartbeat (timestamp : Z)
  | PeerMessage_ControlPlane (c : ControlPlaneMessage)
  | PeerMessage_unset.

#[export] Instance WireEvent_eq_dec : EqDecision WireEvent.
Proof. solve_decision. Defined.
#[export] Instance Handshake_eq_dec : EqDecision Handshake.
Proof. solve_decision. Defined.
#[export] Instance ControlPlaneMessage_eq_dec : EqDecision ControlPlaneMessage.
Proof. solve_decision. Defined.
#[export] Instance WireMessage_eq_dec : EqDecision WireMessage.
Proof. solve_decision. Defined.

Definition ProtocolVersion : Z := 100.

(** ** Queued messages

    The three implementations of the [PeerMessage] interface.  Times are in
    nanoseconds. *)
Inductive PeerMessage :=
  | DataPlaneMessage (peerID : string) (event : option Event) (sentAt : Z) (sendAttempts : Z)
  | ControlPlaneMsg (peerID : string) (interestMessage : option InterestMessage) (sentAt : Z) (sendAttempts : Z)
  | HeartbeatMsg (peerID : string) (sentAt : Z) (sendAttempts : Z).

#[export] Instance PeerMessage_eq_dec : EqDecision PeerMessage.
Proof. solve_decision. Defined.

Definition PeerID (m : PeerMessage) : string :=
  match m with DataPlaneMessage p _ _ _ | ControlPlaneMsg p _ _ _ | HeartbeatMsg p _ _ => p end.
Definition SentAt (m : PeerMessage) : Z :=
  match m with DataPlaneMessage _ _ t _ | ControlPlaneMsg _ _ t _ | HeartbeatMsg _ t _ => t end.
Definition SendAttempts (m : PeerMessage) : Z :=
  match m with DataPlaneMessage _ _ _ a | ControlPlaneMsg _ _ _ a | HeartbeatMsg _ _ a => a end.

(** [m.sendAttempts++] *)
Definition IncrementSendAttempts (m : PeerMessage) : Z * PeerMessage :=
  let a := wrap64 (SendAttempts m + 1) in
  (a, match m with
      | DataPlaneMessage p e t _ => DataPlaneMessage p e t a
      | ControlPlaneMsg p i t _ => ControlPlaneMsg p i t a
      | HeartbeatMsg p t _ => HeartbeatMsg p t a
      end).

Inductive peerMessagePlane := dataPlaneMessage | controlPlaneMessage.

#[export] Instance plane_eq_dec : EqDecision peerMessagePlane.
Proof. solve_decision. Defined.

#[export] Instance plane_countable : Countable peerMessagePlane.
Proof.
  refine (inj_countable' (λ p, match p with dataPlaneMessage => true | controlPlaneMessage => false end)
    (λ b : bool, if b then dataPlaneMessage else controlPlaneMessage) _). by intros [].
Defined.

Definition planeForMessage (m : PeerMessage) : peerMessagePlane :=
  match m with DataPlaneMessage _ _ _ _ => dataPlaneMessage | _ => controlPlaneMessage end.

Definition messageTopic (m : PeerMessage) : string :=
  match m with
  | DataPlaneMessage _ None _ _ => "unknown"
  | DataPlaneMessage _ (Some e) _ _ => Topic e
  | ControlPlaneMsg _ None _ _ => "unknown"
  | ControlPlaneMsg _ (Some i) _ _ =>
    match im_Update i, im_Snapshot i with
    | Some u, _ => iu_Topic u
    | None, Some _ => "interest-snapshot"
    | None, None => "unknown"
    end
  | HeartbeatMsg _ _ _ => "heartbeat"
  end.

(** ** Conversions *)
Definition err_interest_nil : error := ErrNew "interest message is nil".
Definition err_interest_empty : error := ErrNew "interest message has no update or snapshot".

Definition controlMessageToProto (message : option InterestMessage) : outcome ControlPlaneMessage :=
  match message with
  | None => Err err_interest_nil
  | Some message =>
    match im_Update message, im_Snapshot message with
    | Some u, _ => Ok (ControlPlaneMessage_InterestUpdate (mkUpdate (iu_NodeId u) (iu_Action u) (iu_Topic u)))
    | None, Some s => Ok (ControlPlaneMessage_InterestSnapshot (mkSnapshot (is_NodeId s) (is_Topics s)))
    | None, None => Err err_interest_empty
    end
  end.

(** [time.Time.UnixMilli] rounds towards minus infinity. *)
Definition UnixMilli (t : Z) : Z := t / 1000000.

Definition serializeMessage (m : PeerMessage) : outcome WireMessage :=
  match m with
  | DataPlaneMessage _ None _ _ => Panic nil_dereference
  | DataPlaneMessage _ (Some e) _ _ =>
      Ok (PeerMessage_Event (mkWireEvent (Topic e) (Offset e) (Payload e) (Headers e)))
  | ControlPlaneMsg _ i _ _ =>
      controlMsg ← controlMessageToProto i;
      Ok (PeerMessage_ControlPlane controlMsg)
  | HeartbeatMsg _ t _ => Ok (PeerMessage_Heartbeat (UnixMilli t))
  end.

Definition interestMessageFromProto (controlMsg : ControlPlaneMessage) : option InterestMessage :=
  match controlMsg with
  | ControlPlaneMessage_InterestUpdate u =>
      Some (mkInterestMessage (Some (mkUpdate (iu_NodeId u) (iu_Action u) (iu_Topic u))) None)
  | ControlPlaneMessage_InterestSnapshot s =>
      Some (mkInterestMessage None (Some (mkSnapshot (is_NodeId s) (is_Topics s))))
  | ControlPlaneMessage_unset => None
  end.

Definition eventFromProto (now : Z) (eventMsg : WireEvent) : Event :=
  {| Topic := we_Topic eventMsg;
     Payload := append_nil (contents (we_Payload eventMsg));
     Headers := we_Headers eventMsg;
     Offset := we_Offset eventMsg;
     Timestamp := now |}.

(** ** Round trip *)

(** What the receiver makes of a wire message: an event, an interest message,
    a heartbeat, or nothing. *)
Inductive Received :=
  | ReceivedEvent (e : Event)
  | ReceivedInterest (i : InterestMessage)
  | ReceivedHeartbeat
  | ReceivedNothing.

(** An update takes precedence over a snapshot in the same message. *)
Definition normal_interest (i : InterestMessage) : InterestMessage :=
  match im_Update i with Some u => update_message u | None => i end.

Definition receive_wire (now : Z) (w : WireMessage) : Received :=
  match w with
  | PeerMessage_Event e => ReceivedEvent (eventFromProto now e)
  | PeerMessage_ControlPlane c =>
      match interestMessageFromProto c with Some i => ReceivedInterest i | None => ReceivedNothing end
  | PeerMessage_Heartbeat _ => ReceivedHeartbeat
  | _ => ReceivedNothing
  end.

(** C32: a queued message reaches the other side.  Whatever is serialised is
    received as itself: an event with its topic, offset, headers and payload
    bytes but the receiver's clock as its time stamp and a nil payload when it
    was empty; an interest message as the update if it has one and as the
    snapshot otherwise; and a heartbeat.  Serialisation fails exactly for
    interest messages that carry neither. *)
Theorem wire_roundtrip (now : Z) (m : PeerMessage) :
  match m with
  | DataPlaneMessage _ None _ _ => ∃ p, serializeMessage m = Panic p
  | DataPlaneMessage _ (Some e) _ _ =>
      ∃ w, serializeMessage m = Ok w ∧
        receive_wire now w = ReceivedEvent
          {| Offset := Offset e; Topic := Topic e; Payload := append_nil (contents (Payload e));
             Timestamp := now; Headers := Headers e |}
  | ControlPlaneMsg _ i _ _ =>
      (is_Ok (serializeMessage m) = true ↔ ∃ i', i = Some i' ∧ (im_Update i' ≠ None ∨ im_Snapshot i' ≠ None)) ∧
      ∀ i' w, i = Some i' → serializeMessage m = Ok w → receive_wire now w = ReceivedInterest (normal_interest i')
  | HeartbeatMsg _ _ _ => ∃ w, serializeMessage m = Ok w ∧ receive_wire now w = ReceivedHeartbeat
  end.
Proof.
  destruct m as [p [e|] t a|p [[u s]|] t a|p t a]; simpl; [by eexists|by eexists| | |by eexists].
  - destruct u as [[? ? ?]|], s as [[? ?]|]; simpl; (split; [naive_solver|]); by intros i' w [= <-] [= <-].
  - split; [naive_solver|]. done.
Qed.
