(* ===== verification/GRPCLink.v ===== *)
(** * The gRPC peer link: state and operations ([internal/peerlink])

    [GRPCPeerLink] of [grpc.go], with [grpc_lifecycle.go], [grpc_heartbeat.go],
    [grpc_metrics.go] and [config.go].  An operation that holds the mutex
    throughout is one function.  The clock is a component of the state that the
    environment advances.  [net.Listen] and [grpc.NewClient] are parameters. *)
From S2P Require Import Prelude EventLog Peers PeerMessages.

(** ** Channels

    A buffered channel: its capacity, the buffered values, oldest first, and
    whether it was closed. *)
Record Chan (A : Type) := mkChan { ch_cap : nat; ch_buf : list A; ch_closed : bool }.
Arguments mkChan {A}.
Arguments ch_cap {A}.
Arguments ch_buf {A}.
Arguments ch_closed {A}.

Definition make_chan {A} (cap : nat) : Chan A := mkChan cap [] false.
Definition close_chan {A} (c : Chan A) : Chan A := mkChan (ch_cap c) (ch_buf c) true.

(** A send that does not wait: done, not possible now, or a panic. *)
Inductive send_result (A : Type) := Sent (c : Chan A) | SendFull | SendPanic.
Arguments Sent {A}.
Arguments SendFull {A}.
Arguments SendPanic {A}.

Definition chan_send {A} (x : A) (c : Chan A) : send_result A :=
  if ch_closed c then SendPanic
  else if bool_decide (length (ch_buf c) < ch_cap c)
  then Sent (mkChan (ch_cap c) (ch_buf c ++ [x]) (ch_closed c)) else SendFull.

(** A receive: a closed channel still gives its buffered values first. *)
Inductive recv_result (A : Type) := Recv (x : A) (c : Chan A) | RecvClosed | RecvEmpty.
Arguments Recv {A}.
Arguments RecvClosed {A}.
Arguments RecvEmpty {A}.

Definition chan_recv {A} (c : Chan A) : recv_result A :=
  match ch_buf c with
  | x :: rest => Recv x (mkChan (ch_cap c) rest (ch_closed c))
  | [] => if ch_closed c then RecvClosed else RecvEmpty
  end.

Definition send_on_closed : string := "send on closed channel".

(** ** Configuration ([config.go]) *)
Record LinkConfig := mkLinkConfig {
  lc_NodeID : string;
  lc_ListenAddress : string;
  SendQueueSize : Z;
  SendTimeout : Z;
  MaxSendAttempts : Z;
  HeartbeatInterval : Z;
  MissedHeartbeatLimit : Z;
  MaxMessageSize : Z
}.

Definition time_Second : Z := 1000000000.

Definition lc_Validate (c : LinkConfig) : option error :=
  if bool_decide (lc_NodeID c = ""%string) then Some (ErrNew "node ID cannot be empty")
  else if bool_decide (lc_ListenAddress c = ""%string) then Some (ErrNew "listen address cannot be empty")
  else None.

Definition or_default (value default : Z) : Z := if bool_decide (value ≤ 0)%Z then default else value.

Definition lc_SetDefaults (c : LinkConfig) : LinkConfig :=
  {| lc_NodeID := lc_NodeID c;
     lc_ListenAddress := lc_ListenAddress c;
     SendQueueSize := or_default (SendQueueSize c) 100;
     SendTimeout := or_default (SendTimeout c) (1 * time_Second);
     MaxSendAttempts := or_default (MaxSendAttempts c) 3;
     HeartbeatInterval := or_default (HeartbeatInterval c) (5 * time_Second);
     MissedHeartbeatLimit := or_default (MissedHeartbeatLimit c) 3;
     MaxMessageSize := or_default (MaxMessageSize c) (1024 * 1024) |}.

(** ** Metrics *)
Record peerMetrics := mkPeerMetrics {
  dropsCount : Z;
  dataPlaneDropsCount : Z;
  controlPlaneDropsCount : Z;
  dataPlaneQueuedCount : Z;
  controlPlaneQueuedCount : Z;
  dataPlaneFailureCount : Z;
  controlPlaneFailureCount : Z;
  healthState : PeerHealthState;
  failureCount : Z;
  missedHeartbeatCount : Z;
  lastSeenAt : option Z   (* None: the zero time *)
}.

Definition new_metrics (now : Z) : peerMetrics := mkPeerMetrics 0 0 0 0 0 0 0 PeerHealthy 0 0 (Some now).

Definition set_health (s : PeerHealthState) (m : peerMetrics) : peerMetrics :=
  mkPeerMetrics (dropsCount m) (dataPlaneDropsCount m) (controlPlaneDropsCount m) (dataPlaneQueuedCount m)
    (controlPlaneQueuedCount m) (dataPlaneFailureCount m) (controlPlaneFailureCount m) s
    (failureCount m) (missedHeartbeatCount m) (lastSeenAt m).

Definition seen_metrics (now : Z) (m : peerMetrics) : peerMetrics :=
  mkPeerMetrics (dropsCount m) (dataPlaneDropsCount m) (controlPlaneDropsCount m) (dataPlaneQueuedCount m)
    (controlPlaneQueuedCount m) (dataPlaneFailureCount m) (controlPlaneFailureCount m) PeerHealthy 0 0 (Some now).

Definition queued_metrics (plane : peerMessagePlane) (m : peerMetrics) : peerMetrics :=
  match plane with
  | dataPlaneMessage =>
      mkPeerMetrics (dropsCount m) (dataPlaneDropsCount m) (controlPlaneDropsCount m)
        (wrap64 (dataPlaneQueuedCount m + 1)) (controlPlaneQueuedCount m) (dataPlaneFailureCount m)
        (controlPlaneFailureCount m) (healthState m) (failureCount m) (missedHeartbeatCount m) (lastSeenAt m)
  | controlPlaneMessage =>
      mkPeerMetrics (dropsCount m) (dataPlaneDropsCount m) (controlPlaneDropsCount m)
        (dataPlaneQueuedCount m) (wrap64 (controlPlaneQueuedCount m + 1)) (dataPlaneFailureCount m)
        (controlPlaneFailureCount m) (healthState m) (failureCount m) (missedHeartbeatCount m) (lastSeenAt m)
  end.

Definition drop_metrics (plane : peerMessagePlane) (m : peerMetrics) : peerMetrics :=
  let drops := wrap64 (dropsCount m + 1) in
  match plane with
  | dataPlaneMessage =>
      mkPeerMetrics drops (wrap64 (dataPlaneDropsCount m + 1)) (controlPlaneDropsCount m)
        (dataPlaneQueuedCount m) (controlPlaneQueuedCount m) (dataPlaneFailureCount m)
        (controlPlaneFailureCount m) (healthState m) (failureCount m) (missedHeartbeatCount m) (lastSeenAt m)
  | controlPlaneMessage =>
      mkPeerMetrics drops (dataPlaneDropsCount m) (wrap64 (controlPlaneDropsCount m + 1))
        (dataPlaneQueuedCount m) (controlPlaneQueuedCount m) (dataPlaneFailureCount m)
        (controlPlaneFailureCount m) (healthState m) (failureCount m) (missedHeartbeatCount m) (lastSeenAt m)
  end.

Definition plane_failure_metrics (plane : peerMessagePlane) (m : peerMetrics) : peerMetrics :=
  match plane with
  | dataPlaneMessage =>
      mkPeerMetrics (dropsCount m) (dataPlaneDropsCount m) (controlPlaneDropsCount m)
        (dataPlaneQueuedCount m) (controlPlaneQueuedCount m) (wrap64 (dataPlaneFailureCount m + 1))
        (controlPlaneFailureCount m) (healthState m) (failureCount m) (missedHeartbeatCount m) (lastSeenAt m)
  | controlPlaneMessage =>
      mkPeerMetrics (dropsCount m) (dataPlaneDropsCount m) (controlPlaneDropsCount m)
        (dataPlaneQueuedCount m) (controlPlaneQueuedCount m) (dataPlaneFailureCount m)
        (wrap64 (controlPlaneFailureCount m + 1)) (healthState m) (failureCount m) (missedHeartbeatCount m) (lastSeenAt m)
  end.

Definition peer_failure_metrics (m : peerMetrics) : peerMetrics :=
  mkPeerMetrics (dropsCount m) (dataPlaneDropsCount m) (controlPlaneDropsCount m) (dataPlaneQueuedCount m)
    (controlPlaneQueuedCount m) (dataPlaneFailureCount m) (controlPlaneFailureCount m) PeerUnhealthy
    (wrap64 (failureCount m + 1)) (missedHeartbeatCount m) (lastSeenAt m).

(** ** State *)

(** [connectionInfo]: the peer and, for an inbound connection, its stream. *)
Record connectionInfo := mkConnectionInfo { ci_node : PeerNode; ci_stream : option nat }.

(** The address of a send queue: the plane and peer it was made for, and a number
    that tells apart the queues made for them over time. *)
Abbreviation QueueRef := (peerMessagePlane * string * nat)%type.

(** [g_queues], [g_event_chans] and [g_interest_chans] hold the channels that
    were made; [sendQueues] and the other maps of the code refer to them.
    [g_running] and [g_beating] are the contexts of connection goroutines and of
    heartbeat loops that are not cancelled; a context is a number, as are stream
    identities.  [g_now] is the clock and [g_next] the next unused number. *)
Record GRPCPeerLink := mkGRPCPeerLink {
  g_config : LinkConfig;
  g_closed : bool;
  g_started : bool;
  g_listener : option string;
  connections : gmap string connectionInfo;
  sendQueues : gmap string nat;
  controlQueues : gmap string nat;
  metrics : gmap string peerMetrics;
  subscribers : gset nat;
  interestSubscribers : gset nat;
  outboundConns : gmap string nat;
  outboundCancel : gmap string nat;
  heartbeatCancel : option nat;
  heartbeatToken : option nat;
  heartbeatsRunning : bool;
  g_queues : gmap QueueRef (Chan PeerMessage);
  g_event_chans : gmap nat (Chan Event);
  g_interest_chans : gmap nat (Chan InterestMessage);
  g_running : gset nat;
  g_beating : gset nat;
  g_next : nat;
  g_now : Z
}.

(** Field updates. *)
Definition with_server started listener (g : GRPCPeerLink) : GRPCPeerLink :=
  mkGRPCPeerLink (g_config g) (g_closed g) started listener (connections g) (sendQueues g) (controlQueues g)
    (metrics g) (subscribers g) (interestSubscribers g) (outboundConns g) (outboundCancel g) (heartbeatCancel g)
    (heartbeatToken g) (heartbeatsRunning g) (g_queues g) (g_event_chans g) (g_interest_chans g) (g_running g)
    (g_beating g) (g_next g) (g_now g).
Definition with_connections cs (g : GRPCPeerLink) : GRPCPeerLink :=
  mkGRPCPeerLink (g_config g) (g_closed g) (g_started g) (g_listener g) cs (sendQueues g) (controlQueues g)
    (metrics g) (subscribers g) (interestSubscribers g) (outboundConns g) (outboundCancel g) (heartbeatCancel g)
    (heartbeatToken g) (heartbeatsRunning g) (g_queues g) (g_event_chans g) (g_interest_chans g) (g_running g)
    (g_beating g) (g_next g) (g_now g).
Definition with_queue_maps sq cq (g : GRPCPeerLink) : GRPCPeerLink :=
  mkGRPCPeerLink (g_config g) (g_closed g) (g_started g) (g_listener g) (connections g) sq cq
    (metrics g) (subscribers g) (interestSubscribers g) (outboundConns g) (outboundCancel g) (heartbeatCancel g)
    (heartbeatToken g) (heartbeatsRunning g) (g_queues g) (g_event_chans g) (g_interest_chans g) (g_running g)
    (g_beating g) (g_next g) (g_now g).
Definition with_metrics ms (g : GRPCPeerLink) : GRPCPeerLink :=
  mkGRPCPeerLink (g_config g) (g_closed g) (g_started g) (g_listener g) (connections g) (sendQueues g) (controlQueues g)
    ms (subscribers g) (interestSubscribers g) (outboundConns g) (outboundCancel g) (heartbeatCancel g)
    (heartbeatToken g) (heartbeatsRunning g) (g_queues g) (g_event_chans g) (g_interest_chans g) (g_running g)
    (g_beating g) (g_next g) (g_now g).
Definition with_subscribers evs ins (g : GRPCPeerLink) : GRPCPeerLink :=
  mkGRPCPeerLink (g_config g) (g_closed g) (g_started g) (g_listener g) (connections g) (sendQueues g) (controlQueues g)
    (metrics g) evs ins (outboundConns g) (outboundCancel g) (heartbeatCancel g)
    (heartbeatToken g) (heartbeatsRunning g) (g_queues g) (g_event_chans g) (g_interest_chans g) (g_running g)
    (g_beating g) (g_next g) (g_now g).
Definition with_outbound conns cancels running (g : GRPCPeerLink) : GRPCPeerLink :=
  mkGRPCPeerLink (g_config g) (g_closed g) (g_started g) (g_listener g) (connections g) (sendQueues g) (controlQueues g)
    (metrics g) (subscribers g) (interestSubscribers g) conns cancels (heartbeatCancel g)
    (heartbeatToken g) (heartbeatsRunning g) (g_queues g) (g_event_chans g) (g_interest_chans g) running
    (g_beating g) (g_next g) (g_now g).
Definition with_heartbeats cancel token running beating (g : GRPCPeerLink) : GRPCPeerLink :=
  mkGRPCPeerLink (g_config g) (g_closed g) (g_started g) (g_listener g) (connections g) (sendQueues g) (controlQueues g)
    (metrics g) (subscribers g) (interestSubscribers g) (outboundConns g) (outboundCancel g) cancel
    token running (g_queues g) (g_event_chans g) (g_interest_chans g) (g_running g)
    beating (g_next g) (g_now g).
Definition with_queues qs (g : GRPCPeerLink) : GRPCPeerLink :=
  mkGRPCPeerLink (g_config g) (g_closed g) (g_started g) (g_listener g) (connections g) (sendQueues g) (controlQueues g)
    (metrics g) (subscribers g) (interestSubscribers g) (outboundConns g) (outboundCancel g) (heartbeatCancel g)
    (heartbeatToken g) (heartbeatsRunning g) qs (g_event_chans g) (g_interest_chans g) (g_running g)
    (g_beating g) (g_next g) (g_now g).
Definition with_chans ecs ics (g : GRPCPeerLink) : GRPCPeerLink :=
  mkGRPCPeerLink (g_config g) (g_closed g) (g_started g) (g_listener g) (connections g) (sendQueues g) (controlQueues g)
    (metrics g) (subscribers g) (interestSubscribers g) (outboundConns g) (outboundCancel g) (heartbeatCancel g)
    (heartbeatToken g) (heartbeatsRunning g) (g_queues g) ecs ics (g_running g)
    (g_beating g) (g_next g) (g_now g).
Definition with_next (g : GRPCPeerLink) : GRPCPeerLink :=
  mkGRPCPeerLink (g_config g) (g_closed g) (g_started g) (g_listener g) (connections g) (sendQueues g) (controlQueues g)
    (metrics g) (subscribers g) (interestSubscribers g) (outboundConns g) (outboundCancel g) (heartbeatCancel g)
    (heartbeatToken g) (heartbeatsRunning g) (g_queues g) (g_event_chans g) (g_interest_chans g) (g_running g)
    (g_beating g) (S (g_next g)) (g_now g).
Definition with_now now (g : GRPCPeerLink) : GRPCPeerLink :=
  mkGRPCPeerLink (g_config g) (g_closed g) (g_started g) (g_listener g) (connections g) (sendQueues g) (controlQueues g)
    (metrics g) (subscribers g) (interestSubscribers g) (outboundConns g) (outboundCancel g) (heartbeatCancel g)
    (heartbeatToken g) (heartbeatsRunning g) (g_queues g) (g_event_chans g) (g_interest_chans g) (g_running g)
    (g_beating g) (g_next g) now.
Definition with_closed (g : GRPCPeerLink) : GRPCPeerLink :=
  mkGRPCPeerLink (g_config g) true (g_started g) (g_listener g) (connections g) (sendQueues g) (controlQueues g)
    (metrics g) (subscribers g) (interestSubscribers g) (outboundConns g) (outboundCancel g) (heartbeatCancel g)
    (heartbeatToken g) (heartbeatsRunning g) (g_queues g) (g_event_chans g) (g_interest_chans g) (g_running g)
    (g_beating g) (g_next g) (g_now g).

Definition NewGRPCPeerLink (config : LinkConfig) (now : Z) : outcome GRPCPeerLink :=
  match lc_Validate config with
  | Some err => Err err
  | None => Ok (mkGRPCPeerLink (lc_SetDefaults config) false false None ∅ ∅ ∅ ∅ ∅ ∅ ∅ ∅ None None false
                  ∅ ∅ ∅ ∅ ∅ 0 now)
  end.

(** ** Metrics operations ([grpc_metrics.go]) *)

(** [if metrics, exists := g.metrics\[peerID\]; exists { .. }] *)
Definition update_metrics (f : peerMetrics → peerMetrics) (peerID : string) (g : GRPCPeerLink) : GRPCPeerLink :=
  with_metrics (alter f peerID (metrics g)) g.

Definition SetPeerHealth (peerID : string) (newState : PeerHealthState) : GRPCPeerLink → GRPCPeerLink :=
  update_metrics (set_health newState) peerID.
Definition markPeerSeen (peerID : string) (g : GRPCPeerLink) : GRPCPeerLink :=
  update_metrics (seen_metrics (g_now g)) peerID g.
Definition recordPlaneQueued (peerID : string) (plane : peerMessagePlane) : GRPCPeerLink → GRPCPeerLink :=
  update_metrics (queued_metrics plane) peerID.
Definition recordPlaneDrop (peerID : string) (plane : peerMessagePlane) : GRPCPeerLink → GRPCPeerLink :=
  update_metrics (drop_metrics plane) peerID.
Definition recordPlaneSendFailure (peerID : string) (plane : peerMessagePlane) : GRPCPeerLink → GRPCPeerLink :=
  update_metrics (plane_failure_metrics plane) peerID.
Definition recordPeerSendFailure (peerID : string) : GRPCPeerLink → GRPCPeerLink :=
  update_metrics peer_failure_metrics peerID.

Definition queue_map (plane : peerMessagePlane) (g : GRPCPeerLink) : gmap string nat :=
  match plane with dataPlaneMessage => sendQueues g | controlPlaneMessage => controlQueues g end.

(** The queue of a peer, if it has one. *)
Definition peer_queue (plane : peerMessagePlane) (peerID : string) (g : GRPCPeerLink) : option (Chan PeerMessage) :=
  epoch ← queue_map plane g !! peerID; g_queues g !! (plane, peerID, epoch).

Definition queue_depth (plane : peerMessagePlane) (peerID : string) (g : GRPCPeerLink) : Z :=
  match peer_queue plane peerID g with Some c => Z.of_nat (length (ch_buf c)) | None => 0 end.

Definition GetQueueDepth (peerID : string) (g : GRPCPeerLink) : Z :=
  match sendQueues g !! peerID with
  | None => 0
  | Some _ => wrap64 (queue_depth dataPlaneMessage peerID g + queue_depth controlPlaneMessage peerID g)
  end.

Definition GetDropsCount (peerID : string) (g : GRPCPeerLink) : Z :=
  match metrics g !! peerID with Some m => dropsCount m | None => 0 end.

Record PeerMetrics := mkPeerMetricsReport {
  pm_PeerID : string;
  pm_QueueDepth : Z;
  pm_DataPlaneQueueDepth : Z;
  pm_ControlPlaneQueueDepth : Z;
  pm_metrics : peerMetrics   (* the remaining fields, copied one by one *)
}.

Definition err_link_closed : error := ErrNew "PeerLink is closed".
Definition err_not_connected : error := ErrNew "peer not connected".
Definition err_peer_not_found : error := ErrNew "peer not found".

Section Operations.
Context {MO : MapOrder}.
Implicit Types g : GRPCPeerLink.

Definition GetAllPeerMetrics g : list PeerMetrics :=
  (λ '(peerID, m),
     {| pm_PeerID := peerID;
        pm_QueueDepth := wrap64 (queue_depth dataPlaneMessage peerID g + queue_depth controlPlaneMessage peerID g);
        pm_DataPlaneQueueDepth := queue_depth dataPlaneMessage peerID g;
        pm_ControlPlaneQueueDepth := queue_depth controlPlaneMessage peerID g;
        pm_metrics := m |}) <$> range_map (metrics g).

Definition grpc_GetConnectedPeers g : outcome (list PeerNode) :=
  if g_closed g then Err err_link_closed else Ok ((λ '(_, conn), ci_node conn) <$> range_map (connections g)).

Definition GetConnectedPeerSummary g : outcome (list string) :=
  (λ peers : list PeerNode, (λ peer, peer_ID peer +:+ "@" +:+ peer_Address peer)%string <$> peers)
    <$> grpc_GetConnectedPeers g.

Definition GetPeerHealth (peerID : string) g : PeerHealthState * option error :=
  match metrics g !! peerID with
  | Some m => (healthState m, None)
  | None => (PeerDisconnected, Some err_peer_not_found)
  end.

(** ** Registration *)

(** [g.queues\[peerID\] = make(chan PeerMessage, size)] unless there is one. *)
Definition register_queue (plane : peerMessagePlane) (peerID : string) g : GRPCPeerLink :=
  match queue_map plane g !! peerID with
  | Some _ => g
  | None =>
    let epoch := g_next g in
    let g := with_queues (<[(plane, peerID, epoch) := make_chan (Z.to_nat (SendQueueSize (g_config g)))]> (g_queues g)) g in
    let g := match plane with
             | dataPlaneMessage => with_queue_maps (<[peerID := epoch]> (sendQueues g)) (controlQueues g) g
             | controlPlaneMessage => with_queue_maps (sendQueues g) (<[peerID := epoch]> (controlQueues g)) g
             end in
    with_next g
  end.

Definition registerPeer (peerID : string) g : GRPCPeerLink :=
  let g := register_queue dataPlaneMessage peerID g in
  let g := register_queue controlPlaneMessage peerID g in
  match metrics g !! peerID with
  | Some _ => g
  | None => with_metrics (<[peerID := new_metrics (g_now g)]> (metrics g)) g
  end.

(** ** Sending *)

(** The critical section: the queue of the peer. *)
Definition lookup_queue (plane : peerMessagePlane) (peerID : string) g : outcome nat :=
  if g_closed g then Err err_link_closed
  else match queue_map plane g !! peerID with
  | None => Err err_not_connected
  | Some epoch => Ok epoch
  end.

(** The [select] that follows, with the mutex released.  The timeout branch is
    taken if the caller's context is done, and when the queue stays full until
    the timeout; a queue that drains in time is the run in which the receive
    comes first. *)
Definition offer (full : string) (ctx : Ctx) (plane : peerMessagePlane) (peerID : string) (epoch : nat)
    (m : PeerMessage) g : outcome unit * Ctx * GRPCPeerLink :=
  let '(cancelled, ctx) := poll ctx in
  let queue := default (make_chan 0) (g_queues g !! (plane, peerID, epoch)) in
  match cancelled, chan_send m queue with
  | None, Sent queue =>
      (Ok (), ctx, recordPlaneQueued peerID plane (with_queues (<[(plane, peerID, epoch) := queue]> (g_queues g)) g))
  | None, SendPanic => (Panic send_on_closed, ctx, g)
  | _, _ => (Err (ErrNew full), ctx, recordPlaneDrop peerID plane g)
  end.

(** A send with nothing in between its two halves. *)
Definition send_message (full : string) (ctx : Ctx) (plane : peerMessagePlane) (peerID : string)
    (m : PeerMessage) g : outcome unit * Ctx * GRPCPeerLink :=
  match lookup_queue plane peerID g with
  | Ok epoch => offer full ctx plane peerID epoch m g
  | Err err => (Err err, ctx, g)
  | Panic p => (Panic p, ctx, g)
  end.

Definition grpc_SendEvent (ctx : Ctx) (peerID : string) (event : Event) g : outcome unit * Ctx * GRPCPeerLink :=
  send_message "send queue full - message dropped" ctx dataPlaneMessage peerID
    (DataPlaneMessage peerID (Some event) (g_now g) 0) g.

Definition sendInterestMessage (ctx : Ctx) (peerID : string) (message : InterestMessage) g
    : outcome unit * Ctx * GRPCPeerLink :=
  send_message "send queue full - interest message dropped" ctx controlPlaneMessage peerID
    (ControlPlaneMsg peerID (Some message) (g_now g) 0) g.

Definition grpc_SendInterestUpdate (ctx : Ctx) (peerID : string) (update : InterestUpdate) g :=
  sendInterestMessage ctx peerID (mkInterestMessage (Some update) None) g.
Definition grpc_SendInterestSnapshot (ctx : Ctx) (peerID : string) (snapshot : InterestSnapshot) g :=
  sendInterestMessage ctx peerID (mkInterestMessage None (Some snapshot)) g.

Definition SendHeartbeat (ctx : Ctx) (peerID : string) g : outcome unit * Ctx * GRPCPeerLink :=
  send_message "send queue full - heartbeat dropped" ctx controlPlaneMessage peerID
    (HeartbeatMsg peerID (g_now g) 0) g.

(** ** Receiving *)

Definition recv_chan_cap : nat := 10.

(** The registries of the channels that receive. *)
Definition registerSubscriber (ch : nat) g : GRPCPeerLink :=
  with_subscribers ({[ch]} ∪ subscribers g) (interestSubscribers g) g.
Definition unregisterSubscriber (ch : nat) g : GRPCPeerLink :=
  with_subscribers (subscribers g ∖ {[ch]}) (interestSubscribers g) g.
Definition registerInterestSubscriber (ch : nat) g : GRPCPeerLink :=
  with_subscribers (subscribers g) ({[ch]} ∪ interestSubscribers g) g.
Definition unregisterInterestSubscriber (ch : nat) g : GRPCPeerLink :=
  with_subscribers (subscribers g) (interestSubscribers g ∖ {[ch]}) g.

(** [ReceiveEvents]: the number of the new channel. *)
Definition ReceiveEvents g : outcome nat * GRPCPeerLink :=
  if g_closed g then (Err err_link_closed, g)
  else
    let ch := g_next g in
    let g := with_chans (<[ch := make_chan recv_chan_cap]> (g_event_chans g)) (g_interest_chans g) g in
    (Ok ch, with_next (registerSubscriber ch g)).

(** The goroutine that runs when the context of [ReceiveEvents] is done. *)
Definition cancel_ReceiveEvents (ch : nat) g : GRPCPeerLink :=
  let g := unregisterSubscriber ch g in
  with_chans (alter close_chan ch (g_event_chans g)) (g_interest_chans g) g.

Definition ReceiveInterestMessages g : outcome nat * GRPCPeerLink :=
  if g_closed g then (Err err_link_closed, g)
  else
    let ch := g_next g in
    let g := with_chans (g_event_chans g) (<[ch := make_chan recv_chan_cap]> (g_interest_chans g)) g in
    (Ok ch, with_next (registerInterestSubscriber ch g)).

Definition cancel_ReceiveInterestMessages (ch : nat) g : GRPCPeerLink :=
  let g := unregisterInterestSubscriber ch g in
  with_chans (g_event_chans g) (alter close_chan ch (g_interest_chans g)) g.

(** [select { case subscriber <- x: default: }] for every registered channel; a
    channel is not closed while it is registered, so the send cannot panic
    ([link_wf] below). *)
Definition offer_all {A} (x : A) (subs : gset nat) (chans : gmap nat (Chan A)) : gmap nat (Chan A) :=
  set_fold (λ ch chans,
    match chan_send x (default (make_chan 0) (chans !! ch)) with
    | Sent c => <[ch := c]> chans
    | _ => chans
    end) chans subs.

Definition distributeEvent (event : Event) g : GRPCPeerLink :=
  with_chans (offer_all event (subscribers g) (g_event_chans g)) (g_interest_chans g) g.
Definition distributeInterestMessage (message : InterestMessage) g : GRPCPeerLink :=
  with_chans (g_event_chans g) (offer_all message (interestSubscribers g) (g_interest_chans g)) g.

(** The body of the receiving goroutine, for one message: the same in
    [EventStream] and in [startReceiveGoroutine]. *)
Definition handle_received (peerID : string) (msg : WireMessage) g : GRPCPeerLink :=
  match msg with
  | PeerMessage_Event eventMsg =>
      let g := markPeerSeen peerID g in
      if g_closed g then g else distributeEvent (eventFromProto (g_now g) eventMsg) g
  | PeerMessage_ControlPlane controlMsg =>
      let g := markPeerSeen peerID g in
      match interestMessageFromProto controlMsg with
      | Some interestMessage => if g_closed g then g else distributeInterestMessage interestMessage g
      | None => g
      end
  | PeerMessage_Heartbeat _ => markPeerSeen peerID g
  | _ => g
  end.
End Operations.
