(* ===== verification/LinkLifecycle.v ===== *)
(** * The gRPC peer link: connections, lifecycle and heartbeats

    [Connect] and [Disconnect] of [grpc.go], [grpc_lifecycle.go] and
    [grpc_heartbeat.go], and [GRPCPeerLink] as an instance of the interface the
    mesh node uses. *)
From S2P Require Import Prelude EventLog Peers PeerMessages GRPCLink.

(** The network: [net.Listen] gives the address of the listener, and
    [grpc.NewClient] may refuse an address. *)
Class Network := {
  net_Listen : string → outcome string;
  grpc_NewClient : string → option error
}.

(** [time.Time.Sub] saturates. *)
Definition time_Sub (t u : Z) : Z := (min_int64 `max` (max_int64 `min` (t - u)))%Z.

(** [formatAddress] ([grpc_lifecycle.go]). *)
Definition formatAddress (addr : string) : string :=
  if bool_decide (addr = ""%string) then ""%string
  else if String.prefix "[::]:" addr
  then "localhost:" +:+ String.substring 5 (String.length addr - 5) addr
  else addr.

Section Lifecycle.
Context {MO : MapOrder} {NW : Network}.
Implicit Types g : GRPCPeerLink.

(** ** Connections *)

(** The peer is entered before [grpc.NewClient] and stays when it fails.  A
    connection goroutine is started for the new context. *)
Definition grpc_Connect (peer : PeerNode) g : outcome unit * GRPCPeerLink :=
  if g_closed g then (Err err_link_closed, g)
  else
    let peerID := peer_ID peer in
    match connections g !! peerID with
    | Some _ => (Ok (), g)
    | None =>
      let g := with_connections (<[peerID := mkConnectionInfo peer None]> (connections g)) g in
      let g := registerPeer peerID g in
      match grpc_NewClient (peer_Address peer) with
      | Some err => (Err err, g)
      | None =>
        let ctx := g_next g in
        (Ok (), with_next (with_outbound (<[peerID := ctx]> (outboundConns g)) (<[peerID := ctx]> (outboundCancel g))
                             ({[ctx]} ∪ g_running g) g))
      end
    end.

(** [close(queue); delete(g.queues, peerID)] *)
Definition close_queue (plane : peerMessagePlane) (peerID : string) g : GRPCPeerLink :=
  match queue_map plane g !! peerID with
  | None => g
  | Some epoch =>
    let g := with_queues (alter close_chan (plane, peerID, epoch) (g_queues g)) g in
    match plane with
    | dataPlaneMessage => with_queue_maps (delete peerID (sendQueues g)) (controlQueues g) g
    | controlPlaneMessage => with_queue_maps (sendQueues g) (delete peerID (controlQueues g)) g
    end
  end.

Definition Disconnect (peerID : string) g : outcome unit * GRPCPeerLink :=
  if g_closed g then (Err err_link_closed, g)
  else
    let g := with_connections (delete peerID (connections g)) g in
    let g := match outboundCancel g !! peerID with
             | Some ctx => with_outbound (outboundConns g) (delete peerID (outboundCancel g)) (g_running g ∖ {[ctx]}) g
             | None => g
             end in
    let g := with_outbound (delete peerID (outboundConns g)) (outboundCancel g) (g_running g) g in
    let g := close_queue dataPlaneMessage peerID g in
    let g := close_queue controlPlaneMessage peerID g in
    (Ok (), SetPeerHealth peerID PeerDisconnected g).

(** ** Lifecycle ([grpc_lifecycle.go])

    The server exists exactly while the link is started, so [started] stands for
    [started && grpcServer != nil]. *)
Definition link_Start g : outcome unit * GRPCPeerLink :=
  if g_closed g then (Err err_link_closed, g)
  else if g_started g then (Ok (), g)
  else match net_Listen (lc_ListenAddress (g_config g)) with
  | Ok addr => (Ok (), with_server true (Some addr) g)
  | Err err => (Err err, g)
  | Panic m => (Panic m, g)
  end.

(** Stopping the server ends its streams; each one's handler then runs its
    deferred function ([EventStream_cleanup]). *)
Definition link_Stop g : outcome unit * GRPCPeerLink :=
  if negb (g_started g) then (Ok (), g) else (Ok (), with_server false None g).

Definition link_Close g : outcome unit * GRPCPeerLink :=
  if g_closed g then (Ok (), g)
  else
    let g := match heartbeatCancel g with
             | Some ctx => with_heartbeats None None false (g_beating g ∖ {[ctx]}) g
             | None => g
             end in
    let g := if g_started g then with_server false None g else g in
    let cancelled : gset nat := list_to_set (range_map (outboundCancel g)).*2 in
    let g := with_outbound ∅ ∅ (g_running g ∖ cancelled) g in
    (Ok (), with_closed g).

Definition GetListeningAddress g : string := default ""%string (g_listener g).

(** ** Heartbeats ([grpc_heartbeat.go]) *)
Definition link_StartHeartbeats g : outcome unit * GRPCPeerLink :=
  if g_closed g then (Err err_link_closed, g)
  else if heartbeatsRunning g then (Ok (), g)
  else
    let token := g_next g in
    (Ok (), with_next (with_heartbeats (Some token) (Some token) true ({[token]} ∪ g_beating g) g)).

Definition link_StopHeartbeats g : outcome unit * GRPCPeerLink :=
  let beating := match heartbeatCancel g with Some ctx => g_beating g ∖ {[ctx]} | None => g_beating g end in
  (Ok (), with_heartbeats None None false beating g).

(** What the loop does when its context is done. *)
Definition clearHeartbeatLifecycle (token : nat) g : GRPCPeerLink :=
  if bool_decide (heartbeatToken g = Some token)
  then with_heartbeats None None false (g_beating g) g else g.

Definition heartbeatTimeout g : Z :=
  wrap64 (HeartbeatInterval (g_config g) * MissedHeartbeatLimit (g_config g)).

Definition silent_metrics (now interval timeout : Z) (m : peerMetrics) : peerMetrics :=
  match healthState m, lastSeenAt m with
  | PeerDisconnected, _ | _, None => m
  | _, Some seen =>
    if bool_decide (timeout ≤ time_Sub now seen)%Z then
      mkPeerMetrics (dropsCount m) (dataPlaneDropsCount m) (controlPlaneDropsCount m) (dataPlaneQueuedCount m)
        (controlPlaneQueuedCount m) (dataPlaneFailureCount m) (controlPlaneFailureCount m) PeerUnhealthy
        (failureCount m) (Z.quot (time_Sub now seen) interval) (lastSeenAt m)
    else m
  end.

Definition markSilentPeersUnhealthy (now : Z) g : GRPCPeerLink :=
  with_metrics (silent_metrics now (HeartbeatInterval (g_config g)) (heartbeatTimeout g) <$> metrics g) g.

Definition connectedPeerIDs g : list string := (range_map (connections g)).*1.

Fixpoint heartbeat_loop (ctx : Ctx) (peerIDs : list string) g : outcome unit * GRPCPeerLink :=
  match peerIDs with
  | [] => (Ok (), g)
  | peerID :: rest =>
    let '(r, ctx, g) := SendHeartbeat ctx peerID g in
    match r with
    | Ok _ => heartbeat_loop ctx rest g
    | Err _ => heartbeat_loop ctx rest (recordPeerSendFailure peerID (recordPlaneSendFailure peerID controlPlaneMessage g))
    | Panic m => (Panic m, g)
    end
  end.

(** One round of the heartbeat loop. *)
Definition sendHeartbeatToConnectedPeers (ctx : Ctx) g : outcome unit * GRPCPeerLink :=
  let g := markSilentPeersUnhealthy (g_now g) g in
  heartbeat_loop ctx (connectedPeerIDs g) g.

(** ** The interface of the mesh node *)
#[export] Instance GRPCPeerLink_ops : PeerLink GRPCPeerLink := {|
  SendEvent := grpc_SendEvent;
  SendInterestUpdate := grpc_SendInterestUpdate;
  SendInterestSnapshot := grpc_SendInterestSnapshot;
  GetConnectedPeers := grpc_GetConnectedPeers;
  Connect := grpc_Connect;
  StartLink := link_Start;
  StopLink := link_Stop;
  StartHeartbeats := link_StartHeartbeats;
  StopHeartbeats := link_StopHeartbeats;
  CloseLink := link_Close
|}.
End Lifecycle.
