(* ===== verification/LinkStreams.v ===== *)
(** * The gRPC peer link: streams

    [EventStream], the server's side of a stream, and the outbound connection
    goroutine ([runOutboundConnection] and the functions it calls) of
    [grpc.go].  Each function between two waiting points is one definition; where
    a [select] has several ready cases the definition lists the possible
    results. *)
From S2P Require Import Prelude EventLog Peers PeerMessages GRPCLink LinkLifecycle.

Section Streams.
Context {MO : MapOrder}.
Implicit Types g : GRPCPeerLink.

(** ** Taking the next message *)
Inductive next_result :=
  | NextStop (err : error)                        (* the context is done or the stream ended *)
  | NextClosed                                    (* a queue was closed *)
  | NextMessage (m : PeerMessage) (q : QueueRef).

(** A receive from a queue: no result while it would block; a queue the peer
    does not have is a nil channel, which always blocks. *)
Definition recv_ready (q : option QueueRef) g : list (next_result * GRPCPeerLink) :=
  match q with
  | None => []
  | Some q =>
    match chan_recv (default (make_chan 0) (g_queues g !! q)) with
    | Recv m c => [(NextMessage m q, with_queues (<[q := c]> (g_queues g)) g)]
    | RecvClosed => [(NextClosed, g)]
    | RecvEmpty => []
    end
  end.

(** [case <-ctx.Done()] and [case err := <-recvDone]. *)
Definition stop_ready (done recvDone : option error) g : list (next_result * GRPCPeerLink) :=
  match done with Some err => [(NextStop err, g)] | None => [] end ++
  match recvDone with Some err => [(NextStop err, g)] | None => [] end.

(** The queue addresses a goroutine reads from the maps. *)
Definition queue_ref (plane : peerMessagePlane) (peerID : string) g : option QueueRef :=
  (λ epoch, (plane, peerID, epoch)) <$> queue_map plane g !! peerID.

(** The client's side looks the queues up each time. *)
Definition nextOutboundMessageOrDone (peerID : string) (done recvDone : option error) g
    : list (next_result * GRPCPeerLink) :=
  let dataQueue := queue_ref dataPlaneMessage peerID g in
  let controlQueue := queue_ref controlPlaneMessage peerID g in
  match recv_ready controlQueue g with
  | (_ :: _) as control => control
  | [] => stop_ready done recvDone g ++ recv_ready controlQueue g ++ recv_ready dataQueue g
  end.

Definition nextOutboundMessage (peerID : string) (done : option error) g : list (option PeerMessage * GRPCPeerLink) :=
  (λ '(next, g), (match next with NextMessage m _ => Some m | _ => None end, g))
    <$> nextOutboundMessageOrDone peerID done None g.

(** The server's side keeps the queues it found when the stream was set up. *)
Definition server_next (controlQueue dataQueue : option QueueRef) (done recvDone : option error) g
    : list (next_result * GRPCPeerLink) :=
  match stop_ready done recvDone g ++ recv_ready controlQueue g with
  | (_ :: _) as first => first
  | [] => stop_ready done recvDone g ++ recv_ready controlQueue g ++ recv_ready dataQueue g
  end.

(** ** [EventStream] *)
Definition err_expected_handshake : error := ErrNew "expected handshake message".
Definition err_empty_peer_id : error := ErrNew "peer ID cannot be empty".

(** Up to the handshake response: the identity of the peer and the queues the
    handler will serve. *)
Definition EventStream_register (stream : nat) (first : outcome WireMessage) g
    : outcome (string * option QueueRef * option QueueRef) * GRPCPeerLink :=
  match first with
  | Err err => (Err err, g)
  | Panic m => (Panic m, g)
  | Ok (PeerMessage_Handshake handshake) =>
    let peerID := hs_NodeId handshake in
    if bool_decide (peerID = ""%string) then (Err err_empty_peer_id, g)
    else
      let g := registerPeer peerID g in
      let g := with_connections
        (<[peerID := mkConnectionInfo (mkPeerNode peerID "inbound-connection") (Some stream)]> (connections g)) g in
      (Ok (peerID, queue_ref controlPlaneMessage peerID g, queue_ref dataPlaneMessage peerID g), g)
  | Ok _ => (Err err_expected_handshake, g)
  end.

(** The deferred function. *)
Definition EventStream_cleanup (peerID : string) (stream : nat) g : GRPCPeerLink :=
  let g := match connections g !! peerID with
           | Some conn => if bool_decide (ci_stream conn = Some stream)
                          then with_connections (delete peerID (connections g)) g else g
           | None => g
           end in
  SetPeerHealth peerID PeerDisconnected g.

(** [sendServerStreamMessage]: what cannot be serialised is skipped.
    [stream_Send] is the result of sending on the stream. *)
Definition sendServerStreamMessage (queuedMsg : PeerMessage) (stream_Send : WireMessage → option error)
    : outcome unit :=
  match serializeMessage queuedMsg with
  | Ok peerMsg => match stream_Send peerMsg with Some err => Err err | None => Ok () end
  | Err _ => Ok ()
  | Panic p => Panic p
  end.

(** One iteration of the sending loop: [None] to go on, [Some r] to return. *)
Definition server_step (controlQueue dataQueue : option QueueRef) (done recvDone : option error)
    (stream_Send : WireMessage → option error) g : list (option (outcome unit) * GRPCPeerLink) :=
  (λ '(next, g),
     match next with
     | NextStop err => (Some (Err err), g)
     | NextClosed => (Some (Ok ()), g)
     | NextMessage m _ =>
       match sendServerStreamMessage m stream_Send with
       | Ok _ => (None, g)
       | r => (Some r, g)
       end
     end) <$> server_next controlQueue dataQueue done recvDone g.

(** ** The outbound connection *)
Definition err_stream_nil : error := ErrNew "stream is nil".

(** [processOutboundMessage]; [None] is a nil stream. *)
Definition processOutboundMessage (m : PeerMessage) (stream : option (WireMessage → option error)) : outcome unit :=
  match stream with
  | None => Err err_stream_nil
  | Some stream_Send =>
    peerMsg ← serializeMessage m;
    match stream_Send peerMsg with Some err => Err err | None => Ok () end
  end.

Definition dropFailedMessage (peerID : string) (m : PeerMessage) : GRPCPeerLink → GRPCPeerLink :=
  recordPlaneDrop peerID (planeForMessage m).

(** [handleSendFailure]: requeue the message it failed to send, if it has
    attempts left and there is room. *)
Definition handleSendFailure (peerID : string) (m : PeerMessage) (q : QueueRef) g : outcome unit * GRPCPeerLink :=
  let g := recordPlaneSendFailure peerID (planeForMessage m) g in
  let '(attempts, m) := IncrementSendAttempts m in
  if bool_decide (MaxSendAttempts (g_config g) < attempts)%Z then
    (Ok (), recordPeerSendFailure peerID (dropFailedMessage peerID m g))
  else
    match chan_send m (default (make_chan 0) (g_queues g !! q)) with
    | Sent c => (Ok (), recordPeerSendFailure peerID (with_queues (<[q := c]> (g_queues g)) g))
    | SendFull => (Ok (), recordPeerSendFailure peerID (dropFailedMessage peerID m g))
    | SendPanic => (Panic send_on_closed, g)
    end.

(** One iteration of [runBidirectionalStreamLoop]: what follows the receive, for
    what was received, in whatever state the link is by then.  [None] to go on,
    [Some b] to return [b]; [done] is [ctx.Err()]. *)
Definition client_finish (peerID : string) (done : option error) (stream_Send : WireMessage → option error)
    (next : next_result) g : outcome (option bool) * GRPCPeerLink :=
  match next with
  | NextStop _ => (Ok (Some (bool_decide (done = None))), g)
  | NextClosed => (Ok (Some false), g)
  | NextMessage m q =>
    match processOutboundMessage m (Some stream_Send) with
    | Ok _ => (Ok None, g)
    | Err err => let '(r, g) := handleSendFailure peerID m q g in ((λ _, Some true) <$> r, g)
    | Panic p => (Panic p, g)
    end
  end.

(** The iteration when nothing happens in between. *)
Definition client_step (peerID : string) (done recvDone : option error) (stream_Send : WireMessage → option error) g
    : list (outcome (option bool) * GRPCPeerLink) :=
  (λ '(next, g), client_finish peerID done stream_Send next g) <$> nextOutboundMessageOrDone peerID done recvDone g.

(** [establishStreamWithHandshake]: opening the stream, sending the handshake
    and receiving the answer, whose content is not looked at. *)
Definition establishStreamWithHandshake (peerID : string) (opened sent : option error) (answer : outcome WireMessage) g
    : outcome unit * GRPCPeerLink :=
  match opened, sent, answer with
  | Some err, _, _ => (Err err, g)
  | None, Some err, _ => (Err err, g)
  | None, None, Err err => (Err err, g)
  | None, None, Panic m => (Panic m, g)
  | None, None, Ok _ => (Ok (), markPeerSeen peerID g)
  end.

(** What happens during one call of [attemptStreamConnection]: the three results
    of the handshake and, once it is done, the run of the stream loop (the value
    it returns and the state it leaves). *)
Record Attempt := mkAttempt {
  at_opened : option error;
  at_sent : option error;
  at_answer : outcome WireMessage;
  at_loop : GRPCPeerLink → outcome bool * GRPCPeerLink
}.

Definition attemptStreamConnection (peerID : string) (a : Attempt) g : outcome bool * GRPCPeerLink :=
  let '(r, g) := establishStreamWithHandshake peerID (at_opened a) (at_sent a) (at_answer a) g in
  match r with
  | Err _ => (Ok true, g)
  | Panic m => (Panic m, g)
  | Ok _ => at_loop a g
  end.

Definition maxRetries : Z := 5.
Definition baseDelay : Z := 1 * time_Second.

Inductive outbound_exit := ExitCancelled | ExitClosed | ExitMaxRetries | ExitRunning | ExitPanic (m : string).

(** What the loop does after an attempt. *)
Inductive retry_decision := RetryNow | RetryAfter (retryCount delay : Z) | RetryNever.

Definition after_attempt (success : bool) (retryCount : Z) : retry_decision :=
  if success then RetryNow
  else
    let retryCount := (retryCount + 1)%Z in
    if bool_decide (maxRetries < retryCount)%Z then RetryNever
    else RetryAfter retryCount (wrap64 (retryCount * baseDelay)).

(** [runOutboundConnection] on a list of iterations: whether the context is done
    when the iteration starts, the attempt, and whether it is done before the
    delay is over.  The result is how it ends ([ExitRunning]: not within these
    iterations), the delays it waited, and the state. *)
Fixpoint runOutboundConnection (peerID : string) (script : list (bool * Attempt * bool)) (retryCount : Z) g
    : outbound_exit * list Z * GRPCPeerLink :=
  match script with
  | [] => (ExitRunning, [], g)
  | (done, attempt, done_waiting) :: rest =>
    if done then (ExitCancelled, [], g)
    else if g_closed g then (ExitClosed, [], g)
    else
      let '(r, g) := attemptStreamConnection peerID attempt g in
      match r with
      | Panic m => (ExitPanic m, [], g)
      | Err _ => runOutboundConnection peerID rest 0 g
      | Ok success =>
        match after_attempt success retryCount with
        | RetryNow => runOutboundConnection peerID rest 0 g
        | RetryNever => (ExitMaxRetries, [], SetPeerHealth peerID PeerUnhealthy g)
        | RetryAfter retryCount delay =>
          if done_waiting then (ExitCancelled, [delay], g)
          else
            let '(e, delays, g) := runOutboundConnection peerID rest retryCount g in
            (e, delay :: delays, g)
        end
      end
  end.
End Streams.
