(* ===== verification/ComposedLink.v ===== *)
(** * The peer link a node hands out ([internal/meshnode/peerlink_components.go])

    A node keeps its peer link in three fields, one for each interface it is used
    by, and [GetPeerLink] returns a value composed of the three.  The objects
    behind them live in a store; the methods that are not part of an interface
    are found by type assertion on the object.  When the three fields hold one
    object, as the constructor leaves them, the composed link is that object;
    when they hold three, each sees the calls of its interface alone. *)
From S2P Require Import Prelude EventLog Peers MeshNode PeerMessages GRPCLink LinkLifecycle.

(** ** The complete interface

    What [PeerLink] leaves out because the node reaches it otherwise; the last
    two are the methods of the type assertions ([None]: the object's type does
    not have the method). *)
Class CompletePeerLink (P : Type) `{!PeerLink P} := {
  cl_ReceiveEvents : P → outcome nat * P;
  cl_ReceiveInterestMessages : P → outcome nat * P;
  cl_SendHeartbeat : Ctx → string → P → outcome unit * Ctx * P;
  cl_GetPeerHealth : string → P → PeerHealthState * option error;
  cl_Disconnect : string → P → outcome unit * P;
  as_GetListeningAddress : P → option string;
  as_GetDropsCount : P → option (string → Z)
}.

#[export] Instance GRPCPeerLink_complete {MO : MapOrder} {NW : Network} : CompletePeerLink GRPCPeerLink := {|
  cl_ReceiveEvents := ReceiveEvents;
  cl_ReceiveInterestMessages := ReceiveInterestMessages;
  cl_SendHeartbeat := SendHeartbeat;
  cl_GetPeerHealth := GetPeerHealth;
  cl_Disconnect := Disconnect;
  as_GetListeningAddress g := Some (GetListeningAddress g);
  as_GetDropsCount g := Some (λ peerID, GetDropsCount peerID g)
|}.

(** A link with the interfaces' methods and no others. *)
#[export] Instance RecordingLink_complete : CompletePeerLink RecordingLink := {|
  cl_ReceiveEvents p := (Err (ErrNew "not supported"), p);
  cl_ReceiveInterestMessages p := (Err (ErrNew "not supported"), p);
  cl_SendHeartbeat ctx peerID p := rl_send peerID id ctx p;
  cl_GetPeerHealth peerID p :=
    if bool_decide (peerID ∈ peer_ID <$> rl_peers p) then (PeerHealthy, None)
    else (PeerDisconnected, Some (err_unknown_peer peerID));
  cl_Disconnect peerID p := (Ok (), mkRecordingLink (filter (λ q, peer_ID q ≠ peerID) (rl_peers p)) (rl_events p) (rl_control p));
  as_GetListeningAddress _ := None;
  as_GetDropsCount _ := None
|}.

(** ** Objects and references *)
Abbreviation Store P := (gmap nat P).

(** A field of an interface type: nil, or the object it refers to. *)
Abbreviation Ref := (option nat).

Record composedPeerLink := mkComposed { dataPlane : Ref; control : Ref; connections_ref : Ref }.

(** The three fields of the node. *)
Record LinkFields := mkLinkFields { dataPlanePeerLink : Ref; controlPlanePeerLink : Ref; peerConnections : Ref }.

Definition setPeerLink (peerLink : Ref) (_ : LinkFields) : LinkFields := mkLinkFields peerLink peerLink peerLink.

Definition completePeerLink (f : LinkFields) : composedPeerLink :=
  mkComposed (dataPlanePeerLink f) (controlPlanePeerLink f) (peerConnections f).

Definition GetPeerLink (f : LinkFields) : composedPeerLink := completePeerLink f.

Definition nil_dereference : string := "runtime error: invalid memory address or nil pointer dereference".

Section Composed.
Context {P : Type} `{!PeerLink P, !CompletePeerLink P}.
Implicit Types (c : composedPeerLink) (s : Store P).

(** A method call through a field. *)
Definition call {A} (r : Ref) (m : P → A * P) (s : Store P) : outcome A * Store P :=
  match l ← r; p ← s !! l; Some (l, p) with
  | Some (l, p) => let '(a, p) := m p in (Ok a, <[l := p]> s)
  | None => (Panic nil_dereference, s)
  end.

(** A method that returns an error or a value. *)
Definition invoke {A} (r : Ref) (m : P → outcome A * P) (s : Store P) : outcome A * Store P :=
  let '(a, s) := call r m s in (a ≫= id, s).

(** The same with a context that is polled on the way. *)
Definition invoke_ctx {A} (ctx : Ctx) (r : Ref) (m : Ctx → P → outcome A * Ctx * P) (s : Store P) : outcome A * Ctx * Store P :=
  match call r (λ p, let '(a, ctx, p) := m ctx p in ((a, ctx), p)) s with
  | (Ok (a, ctx), s) => (a, ctx, s)
  | (Err err, s) => (Err err, ctx, s)
  | (Panic m, s) => (Panic m, ctx, s)
  end.

Definition composed_SendEvent c ctx peerID event := invoke_ctx ctx (dataPlane c) (λ ctx, SendEvent ctx peerID event).
Definition composed_ReceiveEvents c := invoke (dataPlane c) cl_ReceiveEvents.
Definition composed_SendInterestUpdate c ctx peerID update :=
  invoke_ctx ctx (control c) (λ ctx, SendInterestUpdate ctx peerID update).
Definition composed_SendInterestSnapshot c ctx peerID snapshot :=
  invoke_ctx ctx (control c) (λ ctx, SendInterestSnapshot ctx peerID snapshot).
Definition composed_ReceiveInterestMessages c := invoke (control c) cl_ReceiveInterestMessages.
Definition composed_SendHeartbeat c ctx peerID := invoke_ctx ctx (control c) (λ ctx, cl_SendHeartbeat ctx peerID).
Definition composed_GetPeerHealth c peerID := call (control c) (λ p, (cl_GetPeerHealth peerID p, p)).
Definition composed_StartHeartbeats c := invoke (control c) StartHeartbeats.
Definition composed_StopHeartbeats c := invoke (control c) StopHeartbeats.
Definition composed_Connect c peer := invoke (connections_ref c) (Connect peer).
Definition composed_Disconnect c peerID := invoke (connections_ref c) (cl_Disconnect peerID).
Definition composed_GetConnectedPeers c := invoke (connections_ref c) (λ p, (GetConnectedPeers p, p)).
Definition composed_Close c := invoke (connections_ref c) CloseLink.

(** [x, ok := c.field.(interface{ .. })]; the assertion on a nil field fails. *)
Definition asserted {A} (r : Ref) (as_method : P → option A) (s : Store P) : option A :=
  l ← r; p ← s !! l; as_method p.

Definition composed_GetListeningAddress c s : string :=
  match asserted (connections_ref c) as_GetListeningAddress s with Some addr => addr | None => ""%string end.
Definition composed_GetDropsCount c (peerID : string) s : Z :=
  match asserted (dataPlane c) as_GetDropsCount s with Some drops => drops peerID | None => 0%Z end.
End Composed.

(** ** Any call, on an object and on a composed link *)
Inductive link_plane := DataPlane | ControlPlane | ConnectionPlane.

#[export] Instance link_plane_eq_dec : EqDecision link_plane.
Proof. solve_decision. Defined.

Inductive link_call :=
  | CSendEvent (ctx : Ctx) (peerID : string) (event : Event)
  | CReceiveEvents
  | CGetDropsCount (peerID : string)
  | CSendInterestUpdate (ctx : Ctx) (peerID : string) (update : InterestUpdate)
  | CSendInterestSnapshot (ctx : Ctx) (peerID : string) (snapshot : InterestSnapshot)
  | CReceiveInterestMessages
  | CSendHeartbeat (ctx : Ctx) (peerID : string)
  | CGetPeerHealth (peerID : string)
  | CStartHeartbeats
  | CStopHeartbeats
  | CConnect (peer : PeerNode)
  | CDisconnect (peerID : string)
  | CGetConnectedPeers
  | CClose
  | CGetListeningAddress.

Definition plane_of (op : link_call) : link_plane :=
  match op with
  | CSendEvent _ _ _ | CReceiveEvents | CGetDropsCount _ => DataPlane
  | CSendInterestUpdate _ _ _ | CSendInterestSnapshot _ _ _ | CReceiveInterestMessages | CSendHeartbeat _ _
  | CGetPeerHealth _ | CStartHeartbeats | CStopHeartbeats => ControlPlane
  | CConnect _ | CDisconnect _ | CGetConnectedPeers | CClose | CGetListeningAddress => ConnectionPlane
  end.

Definition field_of (c : composedPeerLink) (plane : link_plane) : Ref :=
  match plane with DataPlane => dataPlane c | ControlPlane => control c | ConnectionPlane => connections_ref c end.

Inductive link_answer :=
  | AError (r : outcome unit)
  | AErrorCtx (r : outcome unit) (ctx : Ctx)
  | AChan (r : outcome nat)
  | APeers (r : outcome (list PeerNode))
  | AHealth (r : outcome (PeerHealthState * option error))
  | AText (addr : string)
  | ACount (n : Z).

Section Calls.
Context {P : Type} `{!PeerLink P, !CompletePeerLink P}.

Definition on_object (op : link_call) (p : P) : link_answer * P :=
  match op with
  | CSendEvent ctx peerID event => let '(r, ctx, p) := SendEvent ctx peerID event p in (AErrorCtx r ctx, p)
  | CReceiveEvents => let '(r, p) := cl_ReceiveEvents p in (AChan r, p)
  | CGetDropsCount peerID => (ACount (match as_GetDropsCount p with Some drops => drops peerID | None => 0%Z end), p)
  | CSendInterestUpdate ctx peerID update => let '(r, ctx, p) := SendInterestUpdate ctx peerID update p in (AErrorCtx r ctx, p)
  | CSendInterestSnapshot ctx peerID snapshot => let '(r, ctx, p) := SendInterestSnapshot ctx peerID snapshot p in (AErrorCtx r ctx, p)
  | CReceiveInterestMessages => let '(r, p) := cl_ReceiveInterestMessages p in (AChan r, p)
  | CSendHeartbeat ctx peerID => let '(r, ctx, p) := cl_SendHeartbeat ctx peerID p in (AErrorCtx r ctx, p)
  | CGetPeerHealth peerID => (AHealth (Ok (cl_GetPeerHealth peerID p)), p)
  | CStartHeartbeats => let '(r, p) := StartHeartbeats p in (AError r, p)
  | CStopHeartbeats => let '(r, p) := StopHeartbeats p in (AError r, p)
  | CConnect peer => let '(r, p) := Connect peer p in (AError r, p)
  | CDisconnect peerID => let '(r, p) := cl_Disconnect peerID p in (AError r, p)
  | CGetConnectedPeers => (APeers (GetConnectedPeers p), p)
  | CClose => let '(r, p) := CloseLink p in (AError r, p)
  | CGetListeningAddress => (AText (match as_GetListeningAddress p with Some addr => addr | None => ""%string end), p)
  end.

Definition on_composed (c : composedPeerLink) (op : link_call) (s : Store P) : link_answer * Store P :=
  match op with
  | CSendEvent ctx peerID event => let '(r, ctx, s) := composed_SendEvent c ctx peerID event s in (AErrorCtx r ctx, s)
  | CReceiveEvents => let '(r, s) := composed_ReceiveEvents c s in (AChan r, s)
  | CGetDropsCount peerID => (ACount (composed_GetDropsCount c peerID s), s)
  | CSendInterestUpdate ctx peerID update =>
    let '(r, ctx, s) := composed_SendInterestUpdate c ctx peerID update s in (AErrorCtx r ctx, s)
  | CSendInterestSnapshot ctx peerID snapshot =>
    let '(r, ctx, s) := composed_SendInterestSnapshot c ctx peerID snapshot s in (AErrorCtx r ctx, s)
  | CReceiveInterestMessages => let '(r, s) := composed_ReceiveInterestMessages c s in (AChan r, s)
  | CSendHeartbeat ctx peerID => let '(r, ctx, s) := composed_SendHeartbeat c ctx peerID s in (AErrorCtx r ctx, s)
  | CGetPeerHealth peerID => let '(r, s) := composed_GetPeerHealth c peerID s in (AHealth r, s)
  | CStartHeartbeats => let '(r, s) := composed_StartHeartbeats c s in (AError r, s)
  | CStopHeartbeats => let '(r, s) := composed_StopHeartbeats c s in (AError r, s)
  | CConnect peer => let '(r, s) := composed_Connect c peer s in (AError r, s)
  | CDisconnect peerID => let '(r, s) := composed_Disconnect c peerID s in (AError r, s)
  | CGetConnectedPeers => let '(r, s) := composed_GetConnectedPeers c s in (APeers r, s)
  | CClose => let '(r, s) := composed_Close c s in (AError r, s)
  | CGetListeningAddress => (AText (composed_GetListeningAddress c s), s)
  end.

Fixpoint calls_on {S} (step : link_call → S → link_answer * S) (ops : list link_call) (s : S) : list link_answer * S :=
  match ops with
  | [] => ([], s)
  | op :: ops =>
    let '(a, s) := step op s in
    let '(answers, s) := calls_on step ops s in
    (a :: answers, s)
  end.

(** A call goes to the object of its interface's field and to no other. *)
Lemma call_goes c op s l p :
  field_of c (plane_of op) = Some l → s !! l = Some p →
  on_composed c op s = ((on_object op p).1, <[l := (on_object op p).2]> s).
Proof.
  intros Hf Hl. destruct op; cbn [plane_of field_of] in Hf; cbn [on_composed on_object];
    unfold composed_SendEvent, composed_ReceiveEvents, composed_SendInterestUpdate, composed_SendInterestSnapshot,
      composed_ReceiveInterestMessages, composed_SendHeartbeat, composed_GetPeerHealth, composed_StartHeartbeats,
      composed_StopHeartbeats, composed_Connect, composed_Disconnect, composed_GetConnectedPeers, composed_Close,
      composed_GetDropsCount, composed_GetListeningAddress, invoke, invoke_ctx, asserted, call;
    rewrite Hf; cbn [mbind option_bind]; rewrite Hl; cbn [mbind option_bind];
    repeat case_match; simplify_eq; cbn [fst snd mbind outcome_bind id] in *; rewrite ?(insert_id _ _ _ Hl); done.
Qed.

(** Answers of one interface among those of a sequence of calls. *)
Fixpoint answers_of (plane : link_plane) (ops : list link_call) (answers : list link_answer) : list link_answer :=
  match ops, answers with
  | op :: ops, a :: answers =>
    if bool_decide (plane_of op = plane) then a :: answers_of plane ops answers else answers_of plane ops answers
  | _, _ => []
  end.

Lemma calls_shared l ops s p :
  s !! l = Some p →
  calls_on (on_composed (mkComposed (Some l) (Some l) (Some l))) ops s =
    ((calls_on on_object ops p).1, <[l := (calls_on on_object ops p).2]> s).
Proof.
  revert s p. induction ops as [|op ops IH]; intros s p Hl; [cbn; by rewrite insert_id|].
  cbn [calls_on]. rewrite (call_goes _ op s l p); [|by destruct (plane_of op)|done].
  destruct (on_object op p) as [a p']. cbn [fst snd]. rewrite (IH _ p') by apply lookup_insert_eq.
  destruct (calls_on on_object ops p') as [answers p'']. cbn [fst snd]. by rewrite insert_insert_eq.
Qed.

Lemma calls_separate c ops s plane l p :
  (∀ plane, ∃ l p, field_of c plane = Some l ∧ s !! l = Some p) →
  (∀ plane', plane' ≠ plane → field_of c plane' ≠ field_of c plane) →
  field_of c plane = Some l → s !! l = Some p →
  let mine := calls_on on_object (filter (λ op, plane_of op = plane) ops) p in
  let '(answers, s') := calls_on (on_composed c) ops s in
  answers_of plane ops answers = mine.1 ∧ s' !! l = Some mine.2.
Proof.
  intros Hall Hsep Hf. revert s p Hall. induction ops as [|op ops IH]; intros s p Hall Hl; [done|].
  cbn [calls_on]. destruct (Hall (plane_of op)) as (k & q & Hk & Hq). rewrite (call_goes c op s k q) by done.
  assert (∀ plane0, ∃ l0 p0, field_of c plane0 = Some l0 ∧ <[k := (on_object op q).2]> s !! l0 = Some p0) as Hall'.
  { intros plane0. destruct (Hall plane0) as (l0 & p0 & ? & ?). exists l0. destruct (decide (k = l0)) as [->|].
    - rewrite lookup_insert_eq. by eexists.
    - rewrite lookup_insert_ne by done. by eexists. }
  destruct (decide (plane_of op = plane)) as [Hp|Hp].
  - subst plane. rewrite Hf in Hk. injection Hk as <-. rewrite Hl in Hq. injection Hq as <-.
    rewrite filter_cons_True by done. cbn [calls_on]. destruct (on_object op p) as [a p'] eqn:Ho. cbn [fst snd] in *.
    specialize (IH _ p' Hall' (lookup_insert_eq _ _ _)).
    destruct (calls_on (on_composed c) ops _) as [answers s']. cbn [answers_of]. rewrite bool_decide_eq_true_2 by done.
    destruct (calls_on on_object _ p') as [answers' p'']. cbn [fst snd] in *. destruct IH as [-> ->]. done.
  - rewrite filter_cons_False by done.
    assert (k ≠ l) as Hkl by (intros ->; apply (Hsep _ Hp); congruence).
    specialize (IH _ p Hall'). rewrite lookup_insert_ne in IH by done. specialize (IH Hl).
    destruct (calls_on (on_composed c) ops _) as [answers s']. cbn [answers_of]. by rewrite bool_decide_eq_false_2.
Qed.

(** The composed link.  Whatever is called on the link a node hands out: if
    the node's three fields were set to one link, the answers, contexts and
    effects are those of the same calls on that link, and nothing else in the
    store changes; if the field of one interface refers to an object that the
    other two do not, the answers on that interface and the object's state are those
    of the calls of that interface alone.  A call through a nil field panics. *)
Theorem composed_link_transparent (ops : list link_call) (f : LinkFields) (c : composedPeerLink) (s : Store P)
    (l : nat) (p : P) (plane : link_plane) (Hl : s !! l = Some p) :
  calls_on (on_composed (GetPeerLink (setPeerLink (Some l) f))) ops s =
    ((calls_on on_object ops p).1, <[l := (calls_on on_object ops p).2]> s) ∧
  ((∀ plane, ∃ l p, field_of c plane = Some l ∧ s !! l = Some p) →
   (∀ plane', plane' ≠ plane → field_of c plane' ≠ field_of c plane) → field_of c plane = Some l →
   let mine := calls_on on_object (filter (λ op, plane_of op = plane) ops) p in
   let '(answers, s') := calls_on (on_composed c) ops s in
   answers_of plane ops answers = mine.1 ∧ s' !! l = Some mine.2) ∧
  (connections_ref c = None → ∀ peer, composed_Connect c peer s = (Panic nil_dereference, s)).
Proof.
  split; [by apply calls_shared|]. split; [intros; by eapply calls_separate|].
  intros Hc peer. unfold composed_Connect, invoke, call. by rewrite Hc.
Qed.
End Calls.

(** ** Witness *)

(** The data plane on a link of its own, which is not connected: events are
    refused there, while connections and gossip work. *)
Definition split_link : composedPeerLink := mkComposed (Some 1) (Some 0) (Some 0).
Definition two_links : Store RecordingLink :=
  <[0 := mkRecordingLink [] [] []]> (<[1 := mkRecordingLink [mkPeerNode "carol" "c:1"] [] []]> ∅).

Definition some_calls : list link_call :=
  [CConnect (mkPeerNode "bob" "b:1"); CSendEvent ctx_Background "bob" (NewEvent 0 "a" None);
   CSendInterestUpdate ctx_Background "bob" (mkUpdate "alice" "subscribe" "a"); CGetConnectedPeers;
   CSendEvent ctx_Background "carol" (NewEvent 0 "a" None); CGetListeningAddress; CGetDropsCount "carol"].

Lemma composed_link_transparent_witness :
  calls_on (on_composed (GetPeerLink (setPeerLink (Some 0) (mkLinkFields None None None)))) some_calls two_links =
    ((calls_on on_object some_calls (mkRecordingLink [] [] [])).1,
     <[0 := (calls_on on_object some_calls (mkRecordingLink [] [] [])).2]> two_links) ∧
  (let '(answers, s) := calls_on (on_composed split_link) some_calls two_links in
   answers = [AError (Ok ()); AErrorCtx (Err (err_unknown_peer "bob")) ctx_Background; AErrorCtx (Ok ()) ctx_Background;
              APeers (Ok [mkPeerNode "bob" "b:1"]); AErrorCtx (Ok ()) ctx_Background; AText ""; ACount 0] ∧
   answers_of DataPlane some_calls answers =
     (calls_on on_object (filter (λ op, plane_of op = DataPlane) some_calls) (mkRecordingLink [mkPeerNode "carol" "c:1"] [] [])).1).
Proof.
  split.
  - by apply (composed_link_transparent some_calls (mkLinkFields None None None) split_link two_links 0 _ DataPlane).
  - destruct (composed_link_transparent some_calls (mkLinkFields None None None) split_link two_links 1
      (mkRecordingLink [mkPeerNode "carol" "c:1"] [] []) DataPlane eq_refl) as (_ & H & _).
    specialize (H ltac:(intros []; [exists 1|exists 0|exists 0]; by eexists) ltac:(by intros []) eq_refl).
    destruct (calls_on (on_composed split_link) some_calls two_links) as [answers s'] eqn:E. destruct H as [H _].
    split; [|exact H]. vm_compute in E. by injection E as <- <-.
Defined.
