(* ===== verification/LinkSpec.v ===== *)
(** * The gRPC peer link: sending

    What one send does to the queues, the laws of [PeerLinkSpec] for
    [GRPCPeerLink], and the order in which the connection goroutines hand queued
    messages to the network. *)
From S2P Require Import Prelude EventLog Peers PeerMessages GRPCLink LinkLifecycle LinkStreams.

#[local] Set Default Proof Using "Type*".

(** The messages waiting for a peer on a plane. *)
Definition pending (plane : peerMessagePlane) (peerID : string) (g : GRPCPeerLink) : list PeerMessage :=
  match peer_queue plane peerID g with Some c => ch_buf c | None => [] end.

(** A send to the peer can be accepted: it has an open queue with room. *)
Definition queue_accepts (plane : peerMessagePlane) (peerID : string) (g : GRPCPeerLink) : Prop :=
  match peer_queue plane peerID g with
  | Some c => ch_closed c = false ∧ length (ch_buf c) < ch_cap c
  | None => False
  end.

#[export] Instance queue_accepts_dec plane peerID g : Decision (queue_accepts plane peerID g).
Proof. unfold queue_accepts. destruct (peer_queue _ _ _); apply _. Defined.

Section Send.
Context {MO : MapOrder}.
Implicit Types g : GRPCPeerLink.

(** Only metrics change. *)
Lemma peer_queue_metrics f peerID plane q g : peer_queue plane q (update_metrics f peerID g) = peer_queue plane q g.
Proof. by destruct plane. Qed.

Lemma peer_queue_set plane peerID epoch c g plane' q :
  queue_map plane g !! peerID = Some epoch →
  peer_queue plane' q (with_queues (<[(plane, peerID, epoch) := c]> (g_queues g)) g) =
  if decide (plane' = plane ∧ q = peerID) then Some c else peer_queue plane' q g.
Proof.
  intros He. unfold peer_queue.
  change (queue_map plane' (with_queues _ g)) with (queue_map plane' g). simpl.
  destruct (decide (plane' = plane ∧ q = peerID)) as [[-> ->]|Hne].
  - rewrite He. simpl. by rewrite lookup_insert_eq.
  - destruct (queue_map plane' g !! q) as [e|]; [simpl|done]. rewrite lookup_insert_ne; [done|]. naive_solver.
Qed.

(** The three ways a send ends. *)
Lemma send_message_cases full ctx plane peerID m g :
  let '(r, ctx', g') := send_message full ctx plane peerID m g in
  (ctx_live ctx → ctx' = ctx) ∧
  ((r = Ok () ∧ (poll ctx).1 = None ∧ g_closed g = false ∧ queue_accepts plane peerID g ∧
    ∃ epoch c, queue_map plane g !! peerID = Some epoch ∧ peer_queue plane peerID g = Some c ∧
      g' = recordPlaneQueued peerID plane
             (with_queues (<[(plane, peerID, epoch) := mkChan (ch_cap c) (ch_buf c ++ [m]) (ch_closed c)]> (g_queues g)) g)) ∨
   ((∃ err, r = Err err) ∧ (g' = g ∨ g' = recordPlaneDrop peerID plane g) ∧
    ((poll ctx).1 = None → g_closed g = false → queue_accepts plane peerID g → False)) ∨
   (r = Panic send_on_closed ∧ g' = g ∧ ∃ c, peer_queue plane peerID g = Some c ∧ ch_closed c = true)).
Proof.
  unfold send_message, lookup_queue. destruct (g_closed g) eqn:Hcl.
  { split; [done|]. right. left. split; [by eexists|]. split; [by left|done]. }
  destruct (queue_map plane g !! peerID) as [epoch|] eqn:He; cycle 1.
  { split; [done|]. right. left. split; [by eexists|]. split; [by left|].
    intros _ _ Hacc. unfold queue_accepts, peer_queue in Hacc. by rewrite He in Hacc. }
  unfold offer. destruct (poll ctx) as [[err|] ctx1] eqn:Hpoll.
  { assert (ctx_live ctx → ctx1 = ctx) as Hctx by (intros Hl; rewrite poll_live in Hpoll by done; congruence).
    split; [done|]. right. left. split; [by eexists|]. split; [by right|done]. }
  assert (ctx_live ctx → ctx1 = ctx) as Hctx by (intros Hl; rewrite poll_live in Hpoll by done; congruence).
  assert (peer_queue plane peerID g = g_queues g !! (plane, peerID, epoch)) as Hq by (unfold peer_queue; by rewrite He).
  unfold queue_accepts. rewrite Hq. destruct (g_queues g !! (plane, peerID, epoch)) as [c|] eqn:Hc; simpl; cycle 1.
  { split; [done|]. right. left. split; [by eexists|]. split; [by right|done]. }
  unfold chan_send. destruct (ch_closed c) eqn:Hclosed.
  { split; [done|]. right. right. split; [done|]. split; [done|]. by exists c. }
  case_bool_decide as Hlen; (split; [done|]).
  - left. split_and!; try done. exists epoch, c. by rewrite Hclosed.
  - right. left. split; [by eexists|]. split; [by right|]. lia.
Qed.

Lemma send_message_pending full ctx plane peerID m g r ctx' g' :
  send_message full ctx plane peerID m g = (r, ctx', g') →
  ∀ plane' q, pending plane' q g' =
    pending plane' q g ++ (if decide (plane' = plane) then if bool_decide (q = peerID) && is_Ok r then [m] else [] else []).
Proof.
  intros Hs plane' q. pose proof (send_message_cases full ctx plane peerID m g) as H. rewrite Hs in H.
  destruct H as [_ [(-> & _ & _ & _ & epoch & c & He & Hc & ->)|[([err ->] & Hg & _)|(-> & -> & _)]]].
  - unfold pending, recordPlaneQueued. rewrite peer_queue_metrics, peer_queue_set by done.
    rewrite andb_true_r. destruct (decide (plane' = plane)) as [->|]; [case_bool_decide; subst; simpl|].
    + rewrite decide_True by done. by rewrite Hc.
    + rewrite decide_False by naive_solver. by rewrite app_nil_r.
    + rewrite decide_False by naive_solver. by rewrite app_nil_r.
  - rewrite andb_false_r. assert (pending plane' q g' = pending plane' q g) as ->
      by (destruct Hg as [->| ->]; [done|unfold pending, recordPlaneDrop; by rewrite peer_queue_metrics]).
    by case_decide; rewrite app_nil_r.
  - rewrite andb_false_r. by case_decide; rewrite app_nil_r.
Qed.

Lemma send_message_frame full ctx plane peerID m g :
  let g' := (send_message full ctx plane peerID m g).2 in
  g_closed g' = g_closed g ∧ connections g' = connections g ∧ g_config g' = g_config g ∧
  sendQueues g' = sendQueues g ∧ controlQueues g' = controlQueues g.
Proof.
  pose proof (send_message_cases full ctx plane peerID m g) as H.
  destruct (send_message _ _ _ _ _ _) as [[r ctx'] g']. simpl.
  destruct H as [_ [(_ & _ & _ & _ & epoch & c & _ & _ & ->)|[(_ & [->| ->] & _)|(_ & -> & _)]]]; done.
Qed.

(** ** The laws the mesh node relies on *)
Definition event_of (m : PeerMessage) : option Event :=
  match m with DataPlaneMessage _ e _ _ => e | _ => None end.
Definition interest_of (m : PeerMessage) : option InterestMessage :=
  match m with ControlPlaneMsg _ i _ _ => i | _ => None end.

Lemma omap_snoc {A B} (f : A → option B) l x y : f x = Some y → omap f (l ++ [x]) = omap f l ++ [y].
Proof. intros Hx. rewrite omap_app. simpl. by rewrite Hx. Qed.

Context {NW : Network}.

Lemma send_message_laws full ctx plane peerID m g r ctx' g' :
  send_message full ctx plane peerID m g = (r, ctx', g') →
  grpc_GetConnectedPeers g' = grpc_GetConnectedPeers g ∧ (ctx_live ctx → ctx' = ctx) ∧
  ∀ plane' q, pending plane' q g' =
    pending plane' q g ++ (if decide (plane' = plane) then if bool_decide (q = peerID) && is_Ok r then [m] else [] else []).
Proof.
  intros Hs. split; [|split].
  - destruct (send_message_frame full ctx plane peerID m g) as (H1 & H2 & _). rewrite Hs in H1, H2. simpl in *.
    unfold grpc_GetConnectedPeers. by rewrite H1, H2.
  - pose proof (send_message_cases full ctx plane peerID m g) as H. rewrite Hs in H. apply H.
  - by eapply send_message_pending.
Qed.

#[export] Instance GRPCPeerLink_spec : PeerLinkSpec GRPCPeerLink.
Proof.
  refine {| link_events g q := omap event_of (pending dataPlaneMessage q g);
            link_control g q := omap interest_of (pending controlPlaneMessage q g) |};
    intros ctx peer x g r ctx' g' (Hcon & Hctx & Hp)%send_message_laws;
    (split; [exact Hcon|split; [intros q; by rewrite Hp, app_nil_r|split; [exact Hctx|]]]);
    intros q; rewrite Hp, decide_True by done; destruct (bool_decide _ && _);
    rewrite ?app_nil_r; try done; by apply omap_snoc.
Defined.
End Send.
