(* ===== verification/LinkInvariant.v ===== *)
(** * The gRPC peer link: invariant

    The steps the link takes (calls of the node, goroutines, streams, the
    clock), in any order and interleaving, and what holds after every one of
    them. *)
From S2P Require Import Prelude EventLog Peers PeerMessages GRPCLink LinkLifecycle LinkStreams LinkSpec.

#[local] Set Default Proof Using "Type*".

(** ** Well-formed states *)

(** Total drops are the drops of both planes. *)
Definition drops_ok (m : peerMetrics) : Prop :=
  dropsCount m = wrap64 (dataPlaneDropsCount m + controlPlaneDropsCount m).

(** A message that may sit in a queue of a plane and a peer. *)
Definition message_ok (limit : Z) (plane : peerMessagePlane) (peerID : string) (m : PeerMessage) : Prop :=
  planeForMessage m = plane ∧ PeerID m = peerID ∧ (0 ≤ SendAttempts m ≤ limit)%Z.

Definition queue_ok (config : LinkConfig) (q : QueueRef) (c : Chan PeerMessage) : Prop :=
  ch_cap c = Z.to_nat (SendQueueSize config) ∧ length (ch_buf c) ≤ ch_cap c ∧
  Forall (message_ok (MaxSendAttempts config) q.1.1 q.1.2) (ch_buf c).

Record link_wf (g : GRPCPeerLink) : Prop := {
  wf_attempts : (0 < MaxSendAttempts (g_config g) < max_int64)%Z;
  wf_queue q c : g_queues g !! q = Some c → queue_ok (g_config g) q c;
  wf_epoch q c : g_queues g !! q = Some c → q.2 < g_next g;
  wf_open plane peerID epoch : queue_map plane g !! peerID = Some epoch →
    ∃ c, g_queues g !! (plane, peerID, epoch) = Some c ∧ ch_closed c = false;
  wf_connected peerID conn : connections g !! peerID = Some conn →
    is_Some (sendQueues g !! peerID) ∧ is_Some (controlQueues g !! peerID) ∧ is_Some (metrics g !! peerID);
  wf_drops peerID m : metrics g !! peerID = Some m → drops_ok m;
  wf_subscribers ch : ch ∈ subscribers g → ∃ c, g_event_chans g !! ch = Some c ∧ ch_closed c = false;
  wf_interest_subscribers ch : ch ∈ interestSubscribers g →
    ∃ c, g_interest_chans g !! ch = Some c ∧ ch_closed c = false
}.

(** ** Metrics *)
Lemma drops_ok_new now : drops_ok (new_metrics now).
Proof. done. Qed.

Lemma drops_ok_drop plane m : drops_ok m → drops_ok (drop_metrics plane m).
Proof.
  unfold drops_ok. intros Hm. destruct plane; simpl; rewrite Hm.
  - rewrite !wrap64_add_l. f_equal. lia.
  - rewrite wrap64_add_l, (Z.add_comm _ (wrap64 _)), wrap64_add_l. f_equal. lia.
Qed.

Lemma drops_ok_queued plane m : drops_ok m → drops_ok (queued_metrics plane m).
Proof. by destruct plane. Qed.
Lemma drops_ok_failure plane m : drops_ok m → drops_ok (plane_failure_metrics plane m).
Proof. by destruct plane. Qed.
Lemma drops_ok_silent now interval timeout m : drops_ok m → drops_ok (silent_metrics now interval timeout m).
Proof. intros H. unfold silent_metrics. repeat case_match; done. Qed.

Create HintDb link.
#[export] Hint Resolve drops_ok_new drops_ok_drop drops_ok_queued drops_ok_failure drops_ok_silent : link.
#[export] Hint Extern 1 (drops_ok (set_health _ _)) => assumption : link.
#[export] Hint Extern 1 (drops_ok (seen_metrics _ _)) => assumption : link.
#[export] Hint Extern 1 (drops_ok (peer_failure_metrics _)) => assumption : link.

Lemma wf_update_metrics f peerID g :
  (∀ m, drops_ok m → drops_ok (f m)) → link_wf g → link_wf (update_metrics f peerID g).
Proof.
  intros Hf [H1 H2 H3 H4 H5 H6 H7 H8]. split; try done; simpl.
  - intros p conn Hp. destruct (H5 p conn Hp) as (? & ? & ?). split; [done|]. split; [done|].
    rewrite lookup_alter. case_decide; [by subst; apply fmap_is_Some|done].
  - intros p m. rewrite lookup_alter. case_decide; [subst|by apply H6].
    intros (m' & Hm' & ->)%fmap_Some_1. by eapply Hf, H6.
Qed.
#[export] Hint Resolve wf_update_metrics : link.

(** ** Queues *)

(** Replacing the contents of a queue. *)
Lemma wf_set_queue q c c' g :
  g_queues g !! q = Some c → ch_closed c' = ch_closed c →
  queue_ok (g_config g) q c' → link_wf g → link_wf (with_queues (<[q := c']> (g_queues g)) g).
Proof.
  intros Hq Hc Hok [H1 H2 H3 H4 H5 H6 H7 H8]. split; try done; simpl.
  - intros q' c''. rewrite lookup_insert. case_decide; [subst; by intros [= <-]|by apply H2].
  - intros q' c''. rewrite lookup_insert. case_decide; [subst; by eauto|by apply H3].
  - intros plane p ep Hm. destruct (H4 plane p ep Hm) as (c0 & Hc0 & Hop). rewrite lookup_insert. case_decide; [|by eauto].
    subst. pose proof (eq_trans (eq_sym Hq) Hc0) as [= ->]. exists c'. split; [done|]. congruence.
Qed.

Lemma chan_send_ok config q m c c' :
  queue_ok config q c → message_ok (MaxSendAttempts config) q.1.1 q.1.2 m → chan_send m c = Sent c' →
  queue_ok config q c' ∧ ch_closed c' = ch_closed c.
Proof.
  intros (Hcap & Hl & Hf) Hm. unfold chan_send. destruct (ch_closed c) eqn:Hc; [done|].
  case_bool_decide; intros [= <-]. split; [|done]. split; [done|]. split; simpl; [rewrite length_app; simpl; lia|].
  apply Forall_app. split; [done|]. by apply Forall_singleton.
Qed.

(** A send into a present queue; [g_queues] holds no queue with capacity 0 for
    an absent one, so an absent one is never sent to. *)
Lemma wf_send_queue q m c' g :
  link_wf g → message_ok (MaxSendAttempts (g_config g)) q.1.1 q.1.2 m →
  chan_send m (default (make_chan 0) (g_queues g !! q)) = Sent c' →
  link_wf (with_queues (<[q := c']> (g_queues g)) g).
Proof.
  intros Hwf Hm. destruct (g_queues g !! q) as [c|] eqn:Hq; [|by unfold chan_send; simpl].
  simpl. intros Hs. destruct (chan_send_ok _ q m c c' (wf_queue g Hwf q c Hq) Hm Hs) as [Hok Hc].
  by apply (wf_set_queue q c c').
Qed.

Lemma wf_recv_queue q m c' g :
  link_wf g → chan_recv (default (make_chan 0) (g_queues g !! q)) = Recv m c' →
  message_ok (MaxSendAttempts (g_config g)) q.1.1 q.1.2 m ∧ link_wf (with_queues (<[q := c']> (g_queues g)) g).
Proof.
  intros Hwf. destruct (g_queues g !! q) as [c|] eqn:Hq; simpl; unfold chan_recv; [|done].
  destruct (wf_queue g Hwf q c Hq) as (Hcap & Hl & Hf). destruct (ch_buf c) as [|m' rest] eqn:Hb; [by destruct (ch_closed c)|].
  intros [= <- <-]. apply Forall_cons in Hf as [Hm' Hf]. split; [done|].
  apply (wf_set_queue q c); [done|done| |done]. split; [done|]. split; simpl in *; [lia|done].
Qed.

Lemma wf_offer full ctx plane peerID epoch m g :
  link_wf g → message_ok (MaxSendAttempts (g_config g)) plane peerID m →
  link_wf (offer full ctx plane peerID epoch m g).2.
Proof.
  intros Hwf Hm. unfold offer. destruct (poll ctx) as [[err|] ctx'].
  - simpl. unfold recordPlaneDrop. auto with link.
  - destruct (chan_send m _) eqn:Hs; simpl; [|unfold recordPlaneDrop; auto with link|done].
    unfold recordPlaneQueued. apply wf_update_metrics; [auto with link|].
    by apply (wf_send_queue (plane, peerID, epoch) m).
Qed.

Lemma wf_register_queue plane peerID g : link_wf g → link_wf (register_queue plane peerID g).
Proof.
  intros Hwf. unfold register_queue. destruct (queue_map plane g !! peerID) eqn:Hm; [done|].
  destruct Hwf as [H1 H2 H3 H4 H5 H6 H7 H8].
  set (c0 := make_chan (A:=PeerMessage) (Z.to_nat (SendQueueSize (g_config g)))).
  assert (∀ q c, <[(plane, peerID, g_next g) := c0]> (g_queues g) !! q = Some c →
    queue_ok (g_config g) q c ∧ q.2 < S (g_next g)) as Hq.
  { intros q c. rewrite lookup_insert. case_decide; [subst|].
    - intros [= <-]. split; [|simpl; lia]. split; [done|]. split; simpl; [lia|by apply Forall_nil].
    - intros Hc. split; [by apply H2|]. specialize (H3 q c Hc). lia. }
  assert (∀ plane' p ep, queue_map plane' g !! p = Some ep →
    ∃ c, <[(plane, peerID, g_next g) := c0]> (g_queues g) !! (plane', p, ep) = Some c ∧ ch_closed c = false) as Ho.
  { intros plane' p ep Hp. destruct (H4 plane' p ep Hp) as (c & Hc & Hcl). exists c. split; [|done].
    rewrite lookup_insert_ne; [done|]. intros [= <- <- <-]. specialize (H3 _ _ Hc). simpl in H3. lia. }
  destruct plane; (split; [done|by apply Hq|by apply Hq| | |done|done|done]); simpl.
  - intros plane' p ep. destruct plane'; simpl.
    + rewrite lookup_insert. case_decide; [subst|apply (Ho dataPlaneMessage)].
      intros [= <-]. exists c0. by rewrite lookup_insert_eq.
    + apply (Ho controlPlaneMessage).
  - intros p conn Hp. destruct (H5 p conn Hp) as (? & ? & ?). split_and!; [|done|done].
    rewrite lookup_insert. by case_decide.
  - intros plane' p ep. destruct plane'; simpl.
    + apply (Ho dataPlaneMessage).
    + rewrite lookup_insert. case_decide; [subst|apply (Ho controlPlaneMessage)].
      intros [= <-]. exists c0. by rewrite lookup_insert_eq.
  - intros p conn Hp. destruct (H5 p conn Hp) as (? & ? & ?). split_and!; [done| |done].
    rewrite lookup_insert. by case_decide.
Qed.

Lemma wf_registerPeer peerID g : link_wf g → link_wf (registerPeer peerID g).
Proof.
  intros Hwf. unfold registerPeer.
  pose proof (wf_register_queue controlPlaneMessage peerID _ (wf_register_queue dataPlaneMessage peerID _ Hwf)) as Hwf'.
  set (g' := register_queue controlPlaneMessage _ _) in *. case_match eqn:Hm; [done|].
  destruct Hwf' as [H1 H2 H3 H4 H5 H6 H7 H8]. split; try done; simpl.
  - intros p conn Hp. destruct (H5 p conn Hp) as (? & ? & ?). split_and!; [done|done|].
    rewrite lookup_insert. by case_decide.
  - intros p m. rewrite lookup_insert. case_decide; [intros [= <-]; auto with link|by apply H6].
Qed.

(** A registered peer has both queues and metrics. *)
Lemma registerPeer_has peerID g :
  is_Some (sendQueues (registerPeer peerID g) !! peerID) ∧
  is_Some (controlQueues (registerPeer peerID g) !! peerID) ∧ is_Some (metrics (registerPeer peerID g) !! peerID).
Proof.
  assert (∀ plane g, is_Some (queue_map plane (register_queue plane peerID g) !! peerID)) as Hreg.
  { intros plane g'. unfold register_queue. destruct (queue_map plane g' !! peerID) eqn:Hm; [by rewrite Hm|].
    destruct plane; simpl; by rewrite lookup_insert_eq. }
  assert (∀ g, sendQueues (register_queue controlPlaneMessage peerID g) = sendQueues g) as Hsame.
  { intros g'. unfold register_queue. by destruct (queue_map controlPlaneMessage g' !! peerID). }
  unfold registerPeer. set (g1 := register_queue dataPlaneMessage peerID g).
  pose proof (Hreg dataPlaneMessage g : is_Some (sendQueues g1 !! peerID)) as H1. rewrite <-(Hsame g1) in H1.
  pose proof (Hreg controlPlaneMessage g1) as H2. simpl in H2. set (g2 := register_queue controlPlaneMessage peerID g1) in *.
  destruct (metrics g2 !! peerID) eqn:Hm; [by rewrite Hm|]. simpl. by rewrite lookup_insert_eq.
Qed.

Lemma wf_close_queue plane peerID g :
  connections g !! peerID = None → link_wf g → link_wf (close_queue plane peerID g).
Proof.
  intros Hcon Hwf. unfold close_queue. destruct (queue_map plane g !! peerID) as [epoch|] eqn:Hm; [|done].
  destruct Hwf as [H1 H2 H3 H4 H5 H6 H7 H8].
  assert (∀ q c, alter close_chan (plane, peerID, epoch) (g_queues g) !! q = Some c →
    ∃ c', g_queues g !! q = Some c' ∧ ch_cap c = ch_cap c' ∧ ch_buf c = ch_buf c') as Hq.
  { intros q c. rewrite lookup_alter. case_decide; [subst|intros ?; by exists c].
    intros (c' & ? & ->)%fmap_Some_1. by exists c'. }
  assert (∀ q c, alter close_chan (plane, peerID, epoch) (g_queues g) !! q = Some c →
    queue_ok (g_config g) q c) as Hok.
  { intros q c (c' & Hc' & Hcap & Hbuf)%Hq. unfold queue_ok. rewrite Hcap, Hbuf. by apply H2. }
  assert (∀ q c, alter close_chan (plane, peerID, epoch) (g_queues g) !! q = Some c → q.2 < g_next g) as Hep
    by (intros q c (c' & Hc' & _)%Hq; by eapply H3).
  assert (∀ plane' p ep, queue_map plane' g !! p = Some ep → (plane', p) ≠ (plane, peerID) →
    ∃ c, alter close_chan (plane, peerID, epoch) (g_queues g) !! (plane', p, ep) = Some c ∧ ch_closed c = false) as Ho.
  { intros plane' p ep Hp Hne. destruct (H4 plane' p ep Hp) as (c & Hc & Hcl). exists c. split; [|done].
    rewrite lookup_alter_ne; [done|]. congruence. }
  assert (∀ p conn, connections g !! p = Some conn → peerID ≠ p) as Hnc by congruence.
  destruct plane; (split; [done|done|done| | |done|done|done]); simpl.
  - intros plane' p ep. destruct plane'; simpl; [rewrite lookup_delete; case_decide; [done|]|]; intros Hp.
    + by apply (Ho dataPlaneMessage); [|congruence].
    + by apply (Ho controlPlaneMessage).
  - intros p conn Hp. rewrite lookup_delete_ne by eauto. by eapply H5.
  - intros plane' p ep. destruct plane'; simpl; [|rewrite lookup_delete; case_decide; [done|]]; intros Hp.
    + by apply (Ho dataPlaneMessage).
    + by apply (Ho controlPlaneMessage); [|congruence].
  - intros p conn Hp. rewrite lookup_delete_ne by eauto. by eapply H5.
Qed.

(** ** Preservation by each operation *)
Section Preserve.
Context {MO : MapOrder} {NW : Network}.
Implicit Types g : GRPCPeerLink.

Lemma wf_same_core g g' :
  link_wf g →
  g_config g' = g_config g → connections g' = connections g → sendQueues g' = sendQueues g →
  controlQueues g' = controlQueues g → metrics g' = metrics g → g_queues g' = g_queues g →
  subscribers g' = subscribers g → interestSubscribers g' = interestSubscribers g →
  g_event_chans g' = g_event_chans g → g_interest_chans g' = g_interest_chans g → g_next g ≤ g_next g' →
  link_wf g'.
Proof.
  intros [H1 H2 H3 H4 H5 H6 H7 H8] E1 E2 E3 E4 E5 E6 E7 E8 E9 E10 Hn.
  split; rewrite ?E1, ?E2, ?E3, ?E4, ?E5, ?E6, ?E7, ?E8, ?E9, ?E10; try done.
  - intros q c Hc. specialize (H3 q c Hc). lia.
  - intros plane p ep Hp. apply (H4 plane). by destruct plane; simpl in *; rewrite <-?E3, <-?E4.
Qed.

Lemma wf_connection peerID conn g :
  is_Some (sendQueues g !! peerID) → is_Some (controlQueues g !! peerID) → is_Some (metrics g !! peerID) →
  link_wf g → link_wf (with_connections (<[peerID := conn]> (connections g)) g).
Proof.
  intros ??? [H1 H2 H3 H4 H5 H6 H7 H8]. split; try done; simpl.
  intros p c. rewrite lookup_insert. case_decide; [by subst|apply H5].
Qed.

Lemma wf_delete_connection peerID g :
  link_wf g → link_wf (with_connections (delete peerID (connections g)) g).
Proof.
  intros [H1 H2 H3 H4 H5 H6 H7 H8]. split; try done; simpl.
  intros p c. rewrite lookup_delete. case_decide; [done|apply H5].
Qed.

(** Entering a connection and registering its peer, in either order. *)
Lemma wf_register_connection peerID conn g :
  link_wf g → link_wf (with_connections (<[peerID := conn]> (connections g)) (registerPeer peerID g)).
Proof.
  intros Hwf. destruct (registerPeer_has peerID g) as (? & ? & ?).
  assert (connections (registerPeer peerID g) = connections g) as <-.
  { unfold registerPeer, register_queue. repeat (case_match; simpl); done. }
  apply wf_connection; auto using wf_registerPeer.
Qed.

Lemma registerPeer_connections peerID cs g :
  registerPeer peerID (with_connections cs g) = with_connections cs (registerPeer peerID g).
Proof.
  assert (∀ plane g, register_queue plane peerID (with_connections cs g) =
    with_connections cs (register_queue plane peerID g)) as Hr.
  { intros plane g'. unfold register_queue.
    assert (queue_map plane (with_connections cs g') = queue_map plane g') as -> by by destruct plane.
    destruct (queue_map plane g' !! peerID); [done|]. by destruct plane. }
  unfold registerPeer. rewrite !Hr. simpl. by destruct (metrics _ !! peerID).
Qed.

Lemma wf_Connect peer g : link_wf g → link_wf (grpc_Connect peer g).2.
Proof.
  intros Hwf. unfold grpc_Connect. destruct (g_closed g); [done|].
  destruct (connections g !! peer_ID peer); [done|].
  rewrite registerPeer_connections.
  pose proof (wf_register_connection (peer_ID peer) (mkConnectionInfo peer None) g Hwf) as Hwf'.
  destruct (grpc_NewClient (peer_Address peer)); simpl; [exact Hwf'|].
  eapply wf_same_core; [exact Hwf'|done..|simpl; lia].
Qed.

Lemma wf_Disconnect peerID g : link_wf g → link_wf (Disconnect peerID g).2.
Proof.
  intros Hwf. unfold Disconnect. destruct (g_closed g); [done|].
  set (g1 := with_connections _ g). cbn [snd].
  assert (link_wf g1 ∧ connections g1 !! peerID = None) as [Hwf1 Hc1].
  { split; [by apply wf_delete_connection|]. simpl. by rewrite lookup_delete_eq. }
  assert (∀ g2, link_wf g2 → connections g2 !! peerID = None →
    link_wf (close_queue controlPlaneMessage peerID (close_queue dataPlaneMessage peerID g2))) as Hclose.
  { intros g2 Hwf2 Hc2. apply wf_close_queue; [|by apply wf_close_queue].
    unfold close_queue. by destruct (queue_map dataPlaneMessage g2 !! peerID). }
  unfold SetPeerHealth. apply wf_update_metrics; [auto with link|].
  destruct (outboundCancel g1 !! peerID); apply Hclose; try done;
    (eapply wf_same_core; [exact Hwf1|done..|simpl; lia]).
Qed.

Lemma wf_EventStream_register stream first g : link_wf g → link_wf (EventStream_register stream first g).2.
Proof.
  intros Hwf. unfold EventStream_register. destruct first as [[h| | | | |]| |]; try done.
  case_bool_decide; [done|]. cbn [snd].
  assert (connections (registerPeer (hs_NodeId h) g) = connections g) as ->.
  { unfold registerPeer, register_queue. repeat (case_match; simpl); done. }
  by apply wf_register_connection.
Qed.

Lemma wf_EventStream_cleanup peerID stream g : link_wf g → link_wf (EventStream_cleanup peerID stream g).
Proof.
  intros Hwf. unfold EventStream_cleanup, SetPeerHealth. apply wf_update_metrics; [auto with link|].
  repeat case_match; try done. by apply wf_delete_connection.
Qed.

(** Sending to channels keeps them and their open or closed state. *)
Lemma offer_all_open {A} (x : A) subs chans ch :
  (∃ c, chans !! ch = Some c ∧ ch_closed c = false) →
  ∃ c, offer_all x subs chans !! ch = Some c ∧ ch_closed c = false.
Proof.
  intros Hch. unfold offer_all.
  apply (set_fold_ind_L (λ r _, ∃ c, r !! ch = Some c ∧ ch_closed c = false)); [done|].
  intros ch' X r _ (c & Hc & Hop). destruct (chan_send _ _) as [c'| |] eqn:Hs; [|by eauto..].
  rewrite lookup_insert. case_decide; [subst|by eauto]. exists c'. split; [done|].
  rewrite Hc in Hs. simpl in Hs. unfold chan_send in Hs. rewrite Hop in Hs.
  case_bool_decide; by simplify_eq.
Qed.

Lemma wf_chans ecs ics g :
  link_wf g → (∀ ch, ch ∈ subscribers g → ∃ c, ecs !! ch = Some c ∧ ch_closed c = false) →
  (∀ ch, ch ∈ interestSubscribers g → ∃ c, ics !! ch = Some c ∧ ch_closed c = false) →
  link_wf (with_chans ecs ics g).
Proof. intros [H1 H2 H3 H4 H5 H6 H7 H8] He Hi. by split. Qed.

Lemma wf_distributeEvent e g : link_wf g → link_wf (distributeEvent e g).
Proof.
  intros Hwf. apply wf_chans; [done| |apply Hwf]. intros ch Hch. apply offer_all_open. by apply Hwf.
Qed.

Lemma wf_distributeInterest i g : link_wf g → link_wf (distributeInterestMessage i g).
Proof.
  intros Hwf. apply wf_chans; [done|apply Hwf|]. intros ch Hch. apply offer_all_open. by apply Hwf.
Qed.

Lemma wf_markPeerSeen peerID g : link_wf g → link_wf (markPeerSeen peerID g).
Proof. unfold markPeerSeen. auto with link. Qed.

Lemma wf_handle_received peerID msg g : link_wf g → link_wf (handle_received peerID msg g).
Proof.
  intros Hwf. unfold handle_received.
  repeat case_match; auto using wf_markPeerSeen, wf_distributeEvent, wf_distributeInterest.
Qed.

Lemma wf_ReceiveEvents g : link_wf g → link_wf (ReceiveEvents g).2.
Proof.
  intros Hwf. unfold ReceiveEvents. destruct (g_closed g); [done|].
  destruct Hwf as [H1 H2 H3 H4 H5 H6 H7 H8]. split; try done; simpl.
  - intros q c Hc. specialize (H3 q c Hc). lia.
  - intros ch Hch. rewrite lookup_insert. case_decide as Hd; [by eexists|].
    apply H7. set_solver.
Qed.

Lemma wf_ReceiveInterestMessages g : link_wf g → link_wf (ReceiveInterestMessages g).2.
Proof.
  intros Hwf. unfold ReceiveInterestMessages. destruct (g_closed g); [done|].
  destruct Hwf as [H1 H2 H3 H4 H5 H6 H7 H8]. split; try done; simpl.
  - intros q c Hc. specialize (H3 q c Hc). lia.
  - intros ch Hch. rewrite lookup_insert. case_decide as Hd; [by eexists|].
    apply H8. set_solver.
Qed.

Lemma wf_cancel_ReceiveEvents ch g : link_wf g → link_wf (cancel_ReceiveEvents ch g).
Proof.
  intros [H1 H2 H3 H4 H5 H6 H7 H8]. split; try done; simpl.
  intros ch' [Hin Hne]%elem_of_difference. rewrite lookup_alter_ne; [by apply H7|]. set_solver.
Qed.

Lemma wf_cancel_ReceiveInterestMessages ch g : link_wf g → link_wf (cancel_ReceiveInterestMessages ch g).
Proof.
  intros [H1 H2 H3 H4 H5 H6 H7 H8]. split; try done; simpl.
  intros ch' [Hin Hne]%elem_of_difference. rewrite lookup_alter_ne; [by apply H8|]. set_solver.
Qed.

(** Taking the next message, on either side of a stream. *)
Lemma wf_recv_ready q next g g' : link_wf g → (next, g') ∈ recv_ready q g →
  link_wf g' ∧ g_config g' = g_config g ∧
  ∀ m q', next = NextMessage m q' → message_ok (MaxSendAttempts (g_config g)) q'.1.1 q'.1.2 m.
Proof.
  intros Hwf. unfold recv_ready. destruct q as [q|]; [|by intros ?%not_elem_of_nil].
  destruct (chan_recv _) as [m c| |] eqn:Hr; [| |by intros ?%not_elem_of_nil];
    intros [= -> ->]%list_elem_of_singleton; [|by split_and!].
  destruct (wf_recv_queue _ _ _ _ Hwf Hr) as [Hm Hwf']. split_and!; [done|done|]. by intros m' q' [= <- <-].
Qed.

Lemma wf_stop_ready done recvDone next g g' : link_wf g → (next, g') ∈ stop_ready done recvDone g →
  link_wf g' ∧ g_config g' = g_config g ∧ ∀ m q', next ≠ NextMessage m q'.
Proof.
  intros Hwf Hin. assert (g' = g ∧ ∃ err, next = NextStop err) as (-> & err & ->); [|by split_and!].
  unfold stop_ready in Hin. destruct done as [err1|], recvDone as [err2|]; simpl in Hin;
    rewrite ?list_elem_of_singleton, ?elem_of_cons, ?elem_of_nil in Hin; naive_solver.
Qed.

Definition next_ok g (r : next_result * GRPCPeerLink) : Prop :=
  link_wf r.2 ∧ g_config r.2 = g_config g ∧
  ∀ m q, r.1 = NextMessage m q → message_ok (MaxSendAttempts (g_config g)) q.1.1 q.1.2 m.

Lemma next_ok_ready g done recvDone q1 q2 r : link_wf g →
  r ∈ stop_ready done recvDone g ++ recv_ready q1 g ++ recv_ready q2 g → next_ok g r.
Proof.
  intros Hwf. destruct r as [next g']. rewrite !elem_of_app. intros [H|[H|H]].
  - destruct (wf_stop_ready _ _ _ _ _ Hwf H) as (? & ? & Hn). split_and!; [done|done|]. intros m q ?. by destruct (Hn m q).
  - by apply (wf_recv_ready q1).
  - by apply (wf_recv_ready q2).
Qed.

Lemma next_ok_client peerID done recvDone r g :
  link_wf g → r ∈ nextOutboundMessageOrDone peerID done recvDone g → next_ok g r.
Proof.
  intros Hwf. unfold nextOutboundMessageOrDone. destruct (recv_ready (queue_ref controlPlaneMessage peerID g) g) eqn:Hc.
  - rewrite <-Hc. by apply next_ok_ready.
  - rewrite <-Hc. destruct r. by apply wf_recv_ready.
Qed.

Lemma next_ok_server controlQueue dataQueue done recvDone r g :
  link_wf g → r ∈ server_next controlQueue dataQueue done recvDone g → next_ok g r.
Proof.
  intros Hwf. unfold server_next. destruct (stop_ready done recvDone g ++ recv_ready controlQueue g) eqn:Hc.
  - by apply next_ok_ready.
  - rewrite <-Hc. intros Hin. apply (next_ok_ready g done recvDone controlQueue None); [done|].
    simpl. by rewrite app_nil_r.
Qed.

Lemma wf_handleSendFailure peerID m q g :
  link_wf g → message_ok (MaxSendAttempts (g_config g)) q.1.1 q.1.2 m → link_wf (handleSendFailure peerID m q g).2.
Proof.
  intros Hwf (Hplane & Hpeer & Ha). unfold handleSendFailure.
  set (g1 := recordPlaneSendFailure peerID (planeForMessage m) g).
  assert (link_wf g1) as Hwf1 by (unfold g1, recordPlaneSendFailure; auto with link).
  destruct (IncrementSendAttempts m) as [a m'] eqn:Hinc.
  unfold recordPeerSendFailure, dropFailedMessage, recordPlaneDrop. case_bool_decide as Hmax; [simpl; auto 6 with link|].
  assert (message_ok (MaxSendAttempts (g_config g1)) q.1.1 q.1.2 m') as Hm'.
  { pose proof (wf_attempts _ Hwf) as Hlim. change (g_config g1) with (g_config g) in *.
    unfold IncrementSendAttempts in Hinc. injection Hinc as <- <-.
    rewrite (wrap64_id (SendAttempts m + 1)) in * by (unfold is_int64, max_int64 in *; lia).
    destruct m; (split; [done|]); (split; [done|]); simpl in *; lia. }
  destruct (chan_send m' _) as [c| |] eqn:Hs; cbn [snd]; [|auto 6 with link|done].
  apply wf_update_metrics; [auto with link|]. by apply (wf_send_queue q m').
Qed.

Lemma wf_server_step controlQueue dataQueue done recvDone stream_Send r g g' :
  link_wf g → (r, g') ∈ server_step controlQueue dataQueue done recvDone stream_Send g → link_wf g'.
Proof.
  intros Hwf. unfold server_step. intros ([next g1] & Heq & Hin)%list_elem_of_fmap.
  destruct (next_ok_server _ _ _ _ _ _ Hwf Hin) as (Hwf1 & _). simpl in *.
  destruct next; repeat case_match; by simplify_eq.
Qed.

(** ** Heartbeats and lifecycle *)
Lemma wf_markSilent now g : link_wf g → link_wf (markSilentPeersUnhealthy now g).
Proof.
  intros [H1 H2 H3 H4 H5 H6 H7 H8]. split; try done; simpl.
  - intros p conn Hp. destruct (H5 p conn Hp) as (? & ? & ?). split_and!; [done|done|].
    rewrite lookup_fmap. by apply fmap_is_Some.
  - intros p m. rewrite lookup_fmap. intros (m' & Hm' & ->)%fmap_Some_1. apply drops_ok_silent. by eapply H6.
Qed.

Lemma wf_SendHeartbeat ctx peerID g : link_wf g → link_wf (SendHeartbeat ctx peerID g).2.
Proof.
  intros Hwf. unfold SendHeartbeat, send_message. destruct (lookup_queue _ _ _); [|done..].
  apply wf_offer; [done|]. split_and!; try done. pose proof (wf_attempts _ Hwf). simpl. lia.
Qed.

Lemma wf_heartbeat_loop ctx peerIDs g : link_wf g → link_wf (heartbeat_loop ctx peerIDs g).2.
Proof.
  revert ctx g. induction peerIDs as [|peerID rest IH]; intros ctx g Hwf; [done|]. simpl.
  pose proof (wf_SendHeartbeat ctx peerID g Hwf) as Hwf'.
  destruct (SendHeartbeat ctx peerID g) as [[[]ctx'] g']; [by apply IH| |done].
  apply IH. unfold recordPeerSendFailure, recordPlaneSendFailure. simpl in Hwf'. auto 6 with link.
Qed.

Lemma wf_Close g : link_wf g → link_wf (link_Close g).2.
Proof.
  intros Hwf. unfold link_Close. destruct (g_closed g); [done|].
  destruct (heartbeatCancel g); simpl; destruct (g_started g);
    (eapply wf_same_core; [exact Hwf|try done..|simpl; lia]).
Qed.

(** ** Steps and reachable states

    A send is the [offer] that follows its look-up, for the queue found then,
    which may have been closed since.  A connection goroutine takes a message from
    a queue, and if the stream does not accept it, handles that later, with
    anything in between ([step_client_failed]: a message that a queue of this
    link may hold); a stream handler steps through [server_step], which changes
    nothing after the receive.  What they receive, whether their context is done
    and whether a stream accepts a message is up to the environment. *)
Inductive link_step : GRPCPeerLink → GRPCPeerLink → Prop :=
  | step_offer full ctx plane peerID epoch m g :
      planeForMessage m = plane → PeerID m = peerID → SendAttempts m = 0%Z →
      link_step g (offer full ctx plane peerID epoch m g).2
  | step_connect peer g : link_step g (grpc_Connect peer g).2
  | step_disconnect peerID g : link_step g (Disconnect peerID g).2
  | step_establish peerID opened sent answer g :
      link_step g (establishStreamWithHandshake peerID opened sent answer g).2
  | step_client_take peerID done recvDone next g g' :
      (next, g') ∈ nextOutboundMessageOrDone peerID done recvDone g → link_step g g'
  | step_client_failed peerID m q g :
      message_ok (MaxSendAttempts (g_config g)) q.1.1 q.1.2 m → link_step g (handleSendFailure peerID m q g).2
  | step_give_up peerID g : link_step g (SetPeerHealth peerID PeerUnhealthy g)
  | step_register stream first g : link_step g (EventStream_register stream first g).2
  | step_server controlQueue dataQueue done recvDone stream_Send r g g' :
      (r, g') ∈ server_step controlQueue dataQueue done recvDone stream_Send g → link_step g g'
  | step_cleanup peerID stream g : link_step g (EventStream_cleanup peerID stream g)
  | step_receive peerID msg g : link_step g (handle_received peerID msg g)
  | step_ReceiveEvents g : link_step g (ReceiveEvents g).2
  | step_ReceiveInterest g : link_step g (ReceiveInterestMessages g).2
  | step_cancel_events ch g : link_step g (cancel_ReceiveEvents ch g)
  | step_cancel_interest ch g : link_step g (cancel_ReceiveInterestMessages ch g)
  | step_mark_silent now g : link_step g (markSilentPeersUnhealthy now g)
  | step_heartbeats ctx g : link_step g (sendHeartbeatToConnectedPeers ctx g).2
  | step_start_heartbeats g : link_step g (link_StartHeartbeats g).2
  | step_stop_heartbeats g : link_step g (link_StopHeartbeats g).2
  | step_clear_heartbeats token g : link_step g (clearHeartbeatLifecycle token g)
  | step_start g : link_step g (link_Start g).2
  | step_stop g : link_step g (link_Stop g).2
  | step_close g : link_step g (link_Close g).2
  | step_clock now g : link_step g (with_now now g).

Lemma link_step_wf g g' : link_step g g' → link_wf g → link_wf g'.
Proof.
  intros Hstep Hwf. pose proof (wf_attempts _ Hwf) as Hlim.
  destruct Hstep.
  - apply wf_offer; [done|]. split_and!; [done|done|lia|lia].
  - by apply wf_Connect.
  - by apply wf_Disconnect.
  - unfold establishStreamWithHandshake. repeat case_match; try done; by apply wf_markPeerSeen.
  - by destruct (next_ok_client _ _ _ _ _ Hwf H) as [? _].
  - by apply wf_handleSendFailure.
  - unfold SetPeerHealth. auto with link.
  - by apply wf_EventStream_register.
  - by eapply wf_server_step.
  - by apply wf_EventStream_cleanup.
  - by apply wf_handle_received.
  - by apply wf_ReceiveEvents.
  - by apply wf_ReceiveInterestMessages.
  - by apply wf_cancel_ReceiveEvents.
  - by apply wf_cancel_ReceiveInterestMessages.
  - by apply wf_markSilent.
  - apply wf_heartbeat_loop. by apply wf_markSilent.
  - unfold link_StartHeartbeats. repeat case_match; try done. eapply wf_same_core; [exact Hwf|done..|simpl; lia].
  - eapply wf_same_core; [exact Hwf|done..|simpl; lia].
  - unfold clearHeartbeatLifecycle. case_bool_decide; [|done]. eapply wf_same_core; [exact Hwf|done..|simpl; lia].
  - unfold link_Start. repeat case_match; try done. eapply wf_same_core; [exact Hwf|done..|simpl; lia].
  - unfold link_Stop. repeat case_match; try done. eapply wf_same_core; [exact Hwf|done..|simpl; lia].
  - by apply wf_Close.
  - eapply wf_same_core; [exact Hwf|done..|simpl; lia].
Qed.

(** The configuration is fixed when the link is made. *)
Lemma register_queue_config plane peerID g : g_config (register_queue plane peerID g) = g_config g.
Proof. unfold register_queue. destruct (queue_map plane g !! peerID), plane; done. Qed.
Lemma registerPeer_config peerID g : g_config (registerPeer peerID g) = g_config g.
Proof. unfold registerPeer. by destruct (metrics _ !! peerID); simpl; rewrite !register_queue_config. Qed.
Lemma close_queue_config plane peerID g : g_config (close_queue plane peerID g) = g_config g.
Proof. unfold close_queue. destruct (queue_map plane g !! peerID), plane; done. Qed.
Lemma offer_config full ctx plane peerID epoch m g : g_config (offer full ctx plane peerID epoch m g).2 = g_config g.
Proof. unfold offer. destruct (poll ctx) as [[]]; [done|]. by destruct (chan_send m _). Qed.

Lemma heartbeat_loop_config ctx peerIDs g : g_config (heartbeat_loop ctx peerIDs g).2 = g_config g.
Proof.
  revert ctx g. induction peerIDs as [|peerID rest IH]; intros ctx g; [done|]. simpl.
  assert (g_config (SendHeartbeat ctx peerID g).2 = g_config g) as Hc.
  { unfold SendHeartbeat, send_message. destruct (lookup_queue _ _ _); [apply offer_config|done..]. }
  destruct (SendHeartbeat ctx peerID g) as [[[]ctx'] g']; simpl in *; by rewrite ?IH.
Qed.

Lemma handleSendFailure_config peerID m q g : g_config (handleSendFailure peerID m q g).2 = g_config g.
Proof.
  unfold handleSendFailure. destruct (IncrementSendAttempts m). case_bool_decide; [done|]. by destruct (chan_send _ _).
Qed.

Lemma link_step_config g g' : link_step g g' → link_wf g → g_config g' = g_config g.
Proof.
  intros Hstep Hwf. destruct Hstep as
    [full ctx plane peerID epoch m g _ _ _|peer g|peerID g|peerID opened sent answer g
    |peerID done recvDone next g g' Hin|peerID m q g _| |stream first g|cq dq done recvDone stream_Send r g g' Hin
    |peerID stream g|peerID msg g|g|g| | | |ctx g|g| |token g|g|g|g| ]; try reflexivity.
  - apply offer_config.
  - unfold grpc_Connect. destruct (g_closed g), (connections g !! peer_ID peer); [done..| ].
    destruct (grpc_NewClient _); simpl; by rewrite registerPeer_config.
  - unfold Disconnect. destruct (g_closed g); [done|]. simpl. rewrite !close_queue_config. simpl. by case_match.
  - unfold establishStreamWithHandshake. by repeat case_match.
  - by destruct (next_ok_client _ _ _ _ _ Hwf Hin) as (_ & ? & _).
  - apply handleSendFailure_config.
  - unfold EventStream_register. repeat case_match; try done; apply registerPeer_config.
  - apply list_elem_of_fmap in Hin as ([next g1] & Heq & Hin).
    destruct (next_ok_server _ _ _ _ _ _ Hwf Hin) as (_ & <- & _). simpl in *.
    destruct next; repeat case_match; by simplify_eq.
  - unfold EventStream_cleanup. by repeat case_match.
  - unfold handle_received. by repeat case_match.
  - unfold ReceiveEvents. by case_match.
  - unfold ReceiveInterestMessages. by case_match.
  - unfold sendHeartbeatToConnectedPeers. by rewrite heartbeat_loop_config.
  - unfold link_StartHeartbeats. by repeat case_match.
  - unfold clearHeartbeatLifecycle. by case_bool_decide.
  - unfold link_Start. by repeat case_match.
  - unfold link_Stop. by repeat case_match.
  - unfold link_Close. destruct (g_closed g); [done|]. destruct (heartbeatCancel g); simpl; by destruct (g_started g).
Qed.

Lemma link_wf_new config now g :
  NewGRPCPeerLink config now = Ok g → (MaxSendAttempts config < max_int64)%Z → link_wf g.
Proof.
  unfold NewGRPCPeerLink. destruct (lc_Validate config); intros [= <-] Hmax.
  split; simpl; try done.
  - unfold or_default. case_bool_decide; unfold max_int64 in *; lia.
  - by intros [] ? ?.
Qed.

Lemma send_message_no_panic full ctx plane peerID m g p :
  link_wf g → (send_message full ctx plane peerID m g).1.1 ≠ Panic p.
Proof.
  intros Hwf. pose proof (send_message_cases full ctx plane peerID m g) as H.
  destruct (send_message _ _ _ _ _ _) as [[r ctx'] g'].
  destruct H as [_ [(-> & _)|[([err ->] & _)|(_ & _ & c & Hc & Hcl)]]]; [done|done|].
  unfold peer_queue in Hc. apply bind_Some in Hc as (epoch & He & Hc).
  destruct (wf_open _ Hwf _ _ _ He) as (c' & Hc' & Hop).
  pose proof (eq_trans (eq_sym Hc) Hc') as [= ->]. congruence.
Qed.

Lemma pending_ok plane peerID g :
  link_wf g → Forall (message_ok (MaxSendAttempts (g_config g)) plane peerID) (pending plane peerID g) ∧
  length (pending plane peerID g) ≤ Z.to_nat (SendQueueSize (g_config g)).
Proof.
  intros Hwf. unfold pending, peer_queue. destruct (queue_map plane g !! peerID) as [epoch|]; simpl; [|split; [by apply Forall_nil|lia]].
  destruct (g_queues g !! (plane, peerID, epoch)) as [c|] eqn:Hc; simpl; [|split; [by apply Forall_nil|lia]].
  destruct (wf_queue _ Hwf _ _ Hc) as (<- & ? & ?). done.
Qed.

(** C7: the peer link's invariant.  In every state a link reaches, by any
    interleaving of calls, goroutines, streams and clock readings: the messages
    waiting on a plane for a peer are of that plane and for that peer, have
    failed at most [MaxSendAttempts] times, and are at most [SendQueueSize] many;
    every connected peer has both queues and metrics; the total drop count is
    the sum of the two planes' counts; a send whose two halves are not
    separated never panics; and no receiver's channel is closed while the link
    still sends to it. *)
Theorem link_invariant (config : LinkConfig) (now : Z) (g0 g : GRPCPeerLink)
    (Hnew : NewGRPCPeerLink config now = Ok g0) (Hmax : (MaxSendAttempts config < max_int64)%Z)
    (Hsteps : rtc link_step g0 g) :
  (∀ plane peerID,
     Forall (message_ok (MaxSendAttempts (lc_SetDefaults config)) plane peerID) (pending plane peerID g) ∧
     length (pending plane peerID g) ≤ Z.to_nat (SendQueueSize (lc_SetDefaults config))) ∧
  (∀ peerID, is_Some (connections g !! peerID) →
     is_Some (sendQueues g !! peerID) ∧ is_Some (controlQueues g !! peerID) ∧ is_Some (metrics g !! peerID)) ∧
  (∀ peerID m, metrics g !! peerID = Some m →
     dropsCount m = wrap64 (dataPlaneDropsCount m + controlPlaneDropsCount m)) ∧
  (∀ full ctx plane peerID m p, (send_message full ctx plane peerID m g).1.1 ≠ Panic p) ∧
  (∀ ch, ch ∈ subscribers g → ∃ c, g_event_chans g !! ch = Some c ∧ ch_closed c = false) ∧
  (∀ ch, ch ∈ interestSubscribers g → ∃ c, g_interest_chans g !! ch = Some c ∧ ch_closed c = false).
Proof.
  assert (link_wf g ∧ g_config g = lc_SetDefaults config) as [Hwf <-].
  { pose proof (link_wf_new _ _ _ Hnew Hmax) as Hwf.
    assert (g_config g0 = lc_SetDefaults config) as Hcfg
      by (unfold NewGRPCPeerLink in Hnew; destruct (lc_Validate config); by simplify_eq).
    clear Hnew. induction Hsteps as [|g1 g2 g3 Hstep _ IH]; [done|].
    apply IH; [by eapply link_step_wf|]. by rewrite (link_step_config _ _ Hstep Hwf). }
  split_and!.
  - intros plane peerID. by apply pending_ok.
  - intros peerID [conn Hc]. by eapply wf_connected.
  - intros peerID m. by apply wf_drops.
  - intros. by apply send_message_no_panic.
  - by apply wf_subscribers.
  - by apply wf_interest_subscribers.
Qed.
End Preserve.
