(* ===== verification/LinkBehaviour.v ===== *)
(** * The gRPC peer link: behaviour of its operations

    Sends, failed sends, failed connection attempts, superseded streams,
    disconnection and heartbeats. *)
From S2P Require Import Prelude EventLog Peers PeerMessages GRPCLink LinkLifecycle LinkStreams LinkSpec.
From S2P Require Import LinkInvariant.

#[local] Set Default Proof Using "Type*".

Section Behaviour.
Context {MO : MapOrder} {NW : Network}.
Implicit Types g : GRPCPeerLink.

(** A send is accepted exactly when the link is open, the caller's context
    is not done and the peer's queue of that plane has room; the message then
    waits behind those before it, and the other plane and all other peers are
    as before.  So a full data queue never keeps control messages out, nor the
    reverse.  A refused send changes no queue. *)
Theorem send_accepted_iff (full : string) (ctx : Ctx) (plane : peerMessagePlane) (peerID : string)
    (m : PeerMessage) (g : GRPCPeerLink) (Hwf : link_wf g) :
  let '(r, _, g') := send_message full ctx plane peerID m g in
  (r = Ok () ↔ g_closed g = false ∧ (poll ctx).1 = None ∧ queue_accepts plane peerID g) ∧
  (∀ plane' q, pending plane' q g' =
     pending plane' q g ++ (if decide (plane' = plane ∧ q = peerID ∧ r = Ok ()) then [m] else [])) ∧
  connections g' = connections g.
Proof.
  pose proof (send_message_cases full ctx plane peerID m g) as H.
  pose proof (send_message_no_panic full ctx plane peerID m g send_on_closed Hwf) as Hnp.
  pose proof (send_message_frame full ctx plane peerID m g) as (_ & Hcon & _).
  destruct (send_message full ctx plane peerID m g) as [[r ctx'] g'] eqn:Hs. simpl in Hnp, Hcon.
  split; [|split; [|done]].
  - destruct H as [_ [(-> & ? & ? & ? & _)|[([err ->] & _ & Hno)|(-> & _)]]]; [by split|split; [done|tauto]|done].
  - intros plane' q. rewrite (send_message_pending _ _ _ _ _ _ _ _ _ Hs). f_equal.
    destruct (decide (plane' = plane)) as [->|]; [|by rewrite decide_False by tauto].
    case_bool_decide as Hq; simpl; [|by rewrite decide_False by tauto].
    destruct r as [[]| |]; simpl; [by rewrite decide_True|by rewrite decide_False by naive_solver..].
Qed.

(** ** Connections that fail *)

(** A refused address leaves a peer that counts as connected.  When
    [grpc.NewClient] fails, [Connect] returns its error, but the peer is listed
    as connected and healthy, no goroutine serves its queues, and every later
    [Connect] to it succeeds without doing anything. *)
Theorem connect_failure_leaves_peer (peer : PeerNode) (g : GRPCPeerLink) (err : error)
    (Hopen : g_closed g = false) (Hnew : connections g !! peer_ID peer = None)
    (Hm : metrics g !! peer_ID peer = None) (Hfail : grpc_NewClient (peer_Address peer) = Some err) :
  let '(r, g') := grpc_Connect peer g in
  r = Err err ∧ connections g' !! peer_ID peer = Some (mkConnectionInfo peer None) ∧
  GetPeerHealth (peer_ID peer) g' = (PeerHealthy, None) ∧
  g_running g' = g_running g ∧ grpc_Connect peer g' = (Ok (), g').
Proof.
  unfold grpc_Connect. rewrite Hopen, Hnew, registerPeer_connections, Hfail.
  set (g1 := registerPeer (peer_ID peer) g). set (g2 := with_connections _ g1).
  assert (metrics g1 !! peer_ID peer = Some (new_metrics (g_now g)) ∧ g_running g1 = g_running g ∧ g_closed g1 = false)
    as (Hm1 & Hr1 & Hc1).
  { subst g1. unfold registerPeer, register_queue.
    destruct (queue_map dataPlaneMessage g !! peer_ID peer); simpl;
      destruct (controlQueues g !! peer_ID peer); simpl; rewrite Hm; simpl; by rewrite lookup_insert_eq. }
  split; [done|]. split; [subst g2; simpl; by rewrite lookup_insert_eq|].
  split; [unfold GetPeerHealth; subst g2; simpl; by rewrite Hm1|]. split; [done|].
  subst g2. simpl. by rewrite Hc1, lookup_insert_eq.
Qed.

(** ** Streams *)
Lemma registerPeer_health peerID g m :
  metrics g !! peerID = Some m → metrics (registerPeer peerID g) = metrics g.
Proof.
  intros Hm. unfold registerPeer, register_queue.
  destruct (queue_map dataPlaneMessage g !! peerID); simpl; destruct (controlQueues g !! peerID); simpl; by rewrite Hm.
Qed.

(** The end of a superseded stream marks a connected peer as disconnected.
    When a peer opens a second stream and its first one ends, the peer stays
    connected over the second, but its health is [Disconnected], and so it is
    passed over when silent peers are marked. *)
Theorem superseded_stream_marks_disconnected (peerID : string) (s1 s2 : nat) (h : Handshake) (g : GRPCPeerLink)
    (now : Z) (Hid : hs_NodeId h = peerID) (Hne : peerID ≠ ""%string) (Hs : s1 ≠ s2) :
  let g1 := (EventStream_register s1 (Ok (PeerMessage_Handshake h)) g).2 in
  let g2 := (EventStream_register s2 (Ok (PeerMessage_Handshake h)) g1).2 in
  let g3 := EventStream_cleanup peerID s1 g2 in
  connections g3 !! peerID = Some (mkConnectionInfo (mkPeerNode peerID "inbound-connection") (Some s2)) ∧
  GetPeerHealth peerID g3 = (PeerDisconnected, None) ∧
  metrics (markSilentPeersUnhealthy now g3) !! peerID = metrics g3 !! peerID.
Proof.
  subst peerID. set (peerID := hs_NodeId h) in *. intros g1 g2 g3.
  assert (is_Some (metrics g1 !! peerID)) as [m1 Hm1].
  { subst g1. simpl. fold peerID. rewrite bool_decide_eq_false_2 by done. apply (registerPeer_has peerID g). }
  assert (connections g2 !! peerID = Some (mkConnectionInfo (mkPeerNode peerID "inbound-connection") (Some s2)) ∧
    metrics g2 = metrics g1) as [Hc2 Hm2].
  { subst g2. simpl. fold peerID. rewrite bool_decide_eq_false_2 by done. simpl. rewrite lookup_insert_eq.
    split; [done|]. by eapply registerPeer_health. }
  assert (metrics g3 !! peerID = Some (set_health PeerDisconnected m1)) as Hm3.
  { subst g3. unfold EventStream_cleanup. rewrite Hc2. simpl. rewrite bool_decide_eq_false_2 by congruence.
    rewrite Hm2. by rewrite lookup_alter_eq, Hm1. }
  split; [|split].
  - subst g3. unfold EventStream_cleanup. rewrite Hc2. simpl. by rewrite bool_decide_eq_false_2 by congruence.
  - unfold GetPeerHealth. by rewrite Hm3.
  - unfold markSilentPeersUnhealthy. cbn [metrics with_metrics]. by rewrite lookup_fmap, Hm3.
Qed.

(** ** Disconnecting *)
Lemma close_queue_queues plane peerID epoch g :
  queue_map plane g !! peerID = Some epoch →
  g_queues (close_queue plane peerID g) = alter close_chan (plane, peerID, epoch) (g_queues g).
Proof. intros He. unfold close_queue. rewrite He. by destruct plane. Qed.

Lemma close_queue_other plane plane' peerID q g :
  plane' ≠ plane →
  queue_map plane' (close_queue plane peerID g) = queue_map plane' g ∧
  g_queues (close_queue plane peerID g) !! (plane', peerID, q) = g_queues g !! (plane', peerID, q).
Proof.
  intros Hne. unfold close_queue. destruct (queue_map plane g !! peerID) as [epoch|]; [|done].
  split; [by destruct plane, plane'|]. destruct plane; simpl; rewrite lookup_alter_ne; congruence.
Qed.

(** Every queue the peer had is closed. *)
Lemma Disconnect_closes plane peerID epoch g :
  link_wf g → g_closed g = false → queue_map plane g !! peerID = Some epoch →
  ∃ c, g_queues (Disconnect peerID g).2 !! (plane, peerID, epoch) = Some c ∧ ch_closed c = true.
Proof.
  intros Hwf Hopen He. destruct (wf_open _ Hwf _ _ _ He) as (c & Hc & _). exists (close_chan c). split; [|done].
  unfold Disconnect. rewrite Hopen.
  match goal with |- context [close_queue dataPlaneMessage peerID ?g1] => set (g1' := g1) end.
  assert (queue_map plane g1' = queue_map plane g ∧ g_queues g1' = g_queues g) as [Hm Hq]
    by (subst g1'; simpl; destruct (outboundCancel g !! peerID), plane; done).
  clearbody g1'. cbn [snd]. unfold SetPeerHealth, update_metrics. cbn [g_queues with_metrics].
  rewrite <-Hm in He. rewrite <-Hq in Hc. destruct plane.
  - rewrite (proj2 (close_queue_other controlPlaneMessage dataPlaneMessage peerID epoch _ ltac:(done))).
    rewrite (close_queue_queues dataPlaneMessage peerID epoch) by done. by rewrite lookup_alter_eq, Hc.
  - destruct (close_queue_other dataPlaneMessage controlPlaneMessage peerID epoch g1' ltac:(done)) as [Hm' Hq'].
    rewrite (close_queue_queues controlPlaneMessage peerID epoch) by by rewrite Hm'.
    by rewrite lookup_alter_eq, Hq', Hc.
Qed.

(** C36: a disconnection during a send panics.  If [Disconnect] runs between the
    two halves of a send to that peer - after the queue was looked up, before
    the message is put in it - the send is on a closed channel, whatever the
    plane and the message: the process panics. *)
Theorem disconnect_during_send_panics (full : string) (ctx : Ctx) (plane : peerMessagePlane) (peerID : string)
    (epoch : nat) (m : PeerMessage) (g : GRPCPeerLink)
    (Hwf : link_wf g) (Hlive : ctx_live ctx) (Hfirst : lookup_queue plane peerID g = Ok epoch) :
  offer full ctx plane peerID epoch m (Disconnect peerID g).2 = (Panic send_on_closed, ctx, (Disconnect peerID g).2).
Proof.
  unfold lookup_queue in Hfirst. destruct (g_closed g) eqn:Hopen; [done|].
  destruct (queue_map plane g !! peerID) as [e|] eqn:He; [injection Hfirst as ->|done].
  destruct (Disconnect_closes plane peerID epoch g Hwf Hopen He) as (c & Hc & Hcl).
  unfold offer. rewrite poll_live by done. unfold chan_send.
  pose proof (f_equal (default (make_chan 0)) Hc) as Hd. simpl in Hd. rewrite Hd. by rewrite Hcl.
Qed.

(** ** Failed sends *)

(** C30: a message that fails to go out is retried a bounded number of times.
    A failed send makes the peer unhealthy and counts a failure of the message's
    plane.  The message goes back to the end of its queue, with one more attempt,
    while it has had fewer than [MaxSendAttempts] and there is room; otherwise it
    is counted as dropped.  If the queue was closed in the meantime, requeueing
    panics. *)
Theorem send_failure_accounting (peerID : string) (m : PeerMessage) (q : QueueRef) (c : Chan PeerMessage)
    (M : peerMetrics) (g : GRPCPeerLink)
    (Hwf : link_wf g) (Hm : message_ok (MaxSendAttempts (g_config g)) q.1.1 q.1.2 m)
    (Hq : g_queues g !! q = Some c) (HM : metrics g !! peerID = Some M) :
  let '(r, g') := handleSendFailure peerID m q g in
  let requeued := (SendAttempts m < MaxSendAttempts (g_config g))%Z ∧ length (ch_buf c) < ch_cap c in
  if decide ((SendAttempts m < MaxSendAttempts (g_config g))%Z ∧ ch_closed c = true) then r = Panic send_on_closed
  else
    r = Ok () ∧
    g_queues g' !! q = Some (mkChan (ch_cap c) (ch_buf c ++ if decide requeued then [(IncrementSendAttempts m).2] else [])
                               (ch_closed c)) ∧
    metrics g' !! peerID =
      Some (peer_failure_metrics ((if decide requeued then id else drop_metrics (planeForMessage m))
              (plane_failure_metrics (planeForMessage m) M))).
Proof.
  pose proof (wf_attempts _ Hwf) as Hlim. destruct Hm as (_ & _ & Ha).
  unfold handleSendFailure. destruct (IncrementSendAttempts m) as [a m'] eqn:Hinc.
  assert (a = SendAttempts m + 1 ∧ planeForMessage m' = planeForMessage m)%Z as [-> Hplane].
  { unfold IncrementSendAttempts in Hinc. injection Hinc as <- <-.
    rewrite wrap64_id by (unfold is_int64, max_int64 in *; lia). by destruct m. }
  cbn [g_config recordPlaneSendFailure update_metrics with_metrics snd].
  assert (mkChan (ch_cap c) (ch_buf c ++ []) (ch_closed c) = c) as Hsame by (rewrite app_nil_r; by destruct c).
  case_bool_decide as Hmax.
  { rewrite decide_False by lia. rewrite !(decide_False (P:=_ ∧ length _ < _)) by lia. rewrite Hsame. split; [done|]. split; [done|].
    unfold recordPeerSendFailure, dropFailedMessage, recordPlaneDrop, update_metrics. simpl.
    by rewrite !lookup_alter_eq, HM, Hplane. }
  cbn [g_queues recordPlaneSendFailure update_metrics with_metrics].
  assert (default (make_chan 0) (g_queues g !! q) = c) as Hd by exact (f_equal (default (make_chan 0)) Hq).
  rewrite Hd. unfold chan_send. destruct (ch_closed c) eqn:Hcl.
  { rewrite decide_True; [done|]. split; [lia|done]. }
  case_bool_decide as Hroom; rewrite (decide_False (P:=_ ∧ false = true)) by (by intros [_ ?]).
  - rewrite !(decide_True (P:=_ ∧ length _ < _)) by (split; [lia|done]). simpl.
    split; [done|]. split; [by rewrite lookup_insert_eq|].
    unfold recordPeerSendFailure, update_metrics. simpl. by rewrite !lookup_alter_eq, HM.
  - rewrite !(decide_False (P:=_ ∧ length _ < _)) by tauto. rewrite Hsame. split; [done|]. split; [done|].
    unfold recordPeerSendFailure, dropFailedMessage, recordPlaneDrop, update_metrics. simpl.
    by rewrite !lookup_alter_eq, HM, Hplane.
Qed.

(** ** Heartbeats *)

(** The message counts as a sign of life. *)
Definition sign_of_life (msg : WireMessage) : bool :=
  match msg with PeerMessage_Event _ | PeerMessage_ControlPlane _ | PeerMessage_Heartbeat _ => true | _ => false end.

Lemma handle_received_metrics peerID msg g :
  sign_of_life msg = true → metrics (handle_received peerID msg g) = metrics (markPeerSeen peerID g).
Proof. destruct msg as [| | | |c|]; try done; intros _; simpl; repeat case_match; done. Qed.

(** C31: heartbeats tell live peers from silent ones.  A peer a message was
    received from is healthy, with its failures forgotten; a check after
    [HeartbeatInterval * MissedHeartbeatLimit] or more without another message
    marks it unhealthy, and an earlier check does not. *)
Theorem heartbeat_detects_silence (peerID : string) (msg : WireMessage) (M : peerMetrics) (g : GRPCPeerLink) (now : Z)
    (HM : metrics g !! peerID = Some M) (Hmsg : sign_of_life msg = true)
    (Hlimit : is_int64 (HeartbeatInterval (g_config g) * MissedHeartbeatLimit (g_config g)))
    (Hnow : is_int64 (now - g_now g)) :
  let g1 := handle_received peerID msg g in
  GetPeerHealth peerID g1 = (PeerHealthy, None) ∧
  (∀ m1, metrics g1 !! peerID = Some m1 → failureCount m1 = 0%Z ∧ missedHeartbeatCount m1 = 0%Z) ∧
  GetPeerHealth peerID (markSilentPeersUnhealthy now g1) =
    (if decide (HeartbeatInterval (g_config g) * MissedHeartbeatLimit (g_config g) ≤ now - g_now g)%Z
     then PeerUnhealthy else PeerHealthy, None).
Proof.
  intros g1.
  assert (metrics g1 !! peerID = Some (seen_metrics (g_now g) M)) as Hm1.
  { subst g1. rewrite handle_received_metrics by done. simpl. by rewrite lookup_alter_eq, HM. }
  assert (g_config g1 = g_config g) as Hcfg.
  { subst g1. destruct msg; simpl; repeat case_match; done. }
  clearbody g1. split; [|split].
  - unfold GetPeerHealth. by rewrite Hm1.
  - intros m1. rewrite Hm1. by intros [= <-].
  - unfold GetPeerHealth, markSilentPeersUnhealthy. cbn [metrics with_metrics]. rewrite lookup_fmap, Hm1.
    unfold silent_metrics, heartbeatTimeout, time_Sub. simpl. rewrite Hcfg, wrap64_id by done.
    replace (min_int64 `max` (max_int64 `min` (now - g_now g)))%Z with (now - g_now g)%Z
      by (unfold is_int64, min_int64, max_int64 in *; lia).
    case_bool_decide; simpl; [by rewrite decide_True|by rewrite decide_False].
Qed.
End Behaviour.
