(* ===== verification/StreamRuns.v ===== *)
(** * The gRPC peer link: whole runs of its goroutines

    [EventStream] from the first message to its return, with the receiving
    goroutine beside it, the outbound connection's goroutine with its attempts and
    their streams, and the heartbeat loop from its start to its end, each
    interleaved with everything else the link does. *)
From S2P Require Import Prelude EventLog Peers PeerMessages GRPCLink LinkLifecycle LinkStreams LinkSpec LinkInvariant.

#[local] Set Default Proof Using "Type*".

Section Runs.
Context {MO : MapOrder} {NW : Network}.
Implicit Types g : GRPCPeerLink.

(** ** [EventStream] *)

(** What the handler answers a handshake with. *)
Definition handshake_response g : WireMessage := PeerMessage_Handshake (mkHandshake (lc_NodeID (g_config g)) ProtocolVersion).

(** The handler while it serves a peer: the link, and what the receiving
    goroutine has put into [recvDone] when it ended. *)
Inductive serve_step (peerID : string) (controlQueue dataQueue : option QueueRef)
    : option error * GRPCPeerLink → option error * GRPCPeerLink → Prop :=
  | serve_receive msg g :
      serve_step peerID controlQueue dataQueue (None, g) (None, handle_received peerID msg g)
  | serve_receive_error err g :
      serve_step peerID controlQueue dataQueue (None, g) (Some err, g)
  | serve_send done recvDone stream_Send g g' :
      (None, g') ∈ server_step controlQueue dataQueue done recvDone stream_Send g →
      serve_step peerID controlQueue dataQueue (recvDone, g) (recvDone, g')
  | serve_other recvDone g g' :
      link_step g g' → serve_step peerID controlQueue dataQueue (recvDone, g) (recvDone, g').

(** A call of [EventStream]: [first] is what the first [Recv] gives, [answered]
    the error of sending the response. *)
Inductive EventStream (stream : nat) (first : outcome WireMessage) (answered : option error) g : outcome unit → GRPCPeerLink → Prop :=
  | stream_refused err g' :
      EventStream_register stream first g = (Err err, g') →
      EventStream stream first answered g (Err err) g'
  | stream_unanswered peerID controlQueue dataQueue err g1 g2 :
      EventStream_register stream first g = (Ok (peerID, controlQueue, dataQueue), g1) →
      rtc link_step g1 g2 → answered = Some err →
      EventStream stream first answered g (Err err) g2
  | stream_served peerID controlQueue dataQueue done recvDone stream_Send r g1 g2 g3 g4 :
      EventStream_register stream first g = (Ok (peerID, controlQueue, dataQueue), g1) →
      rtc link_step g1 g2 → answered = None →
      rtc (serve_step peerID controlQueue dataQueue) (None, g2) (recvDone, g3) →
      (Some r, g4) ∈ server_step controlQueue dataQueue done recvDone stream_Send g3 →
      EventStream stream first answered g r (EventStream_cleanup peerID stream g4).

(** The identity a first message gives. *)
Definition handshake_id (first : outcome WireMessage) : option string :=
  match first with
  | Ok (PeerMessage_Handshake h) => if bool_decide (hs_NodeId h = ""%string) then None else Some (hs_NodeId h)
  | _ => None
  end.

Definition inbound_connection (peerID : string) (stream : nat) : connectionInfo :=
  mkConnectionInfo (mkPeerNode peerID "inbound-connection") (Some stream).

Lemma register_spec stream first g r g' :
  EventStream_register stream first g = (r, g') →
  match r with
  | Ok (peerID, _, _) => handshake_id first = Some peerID ∧ connections g' !! peerID = Some (inbound_connection peerID stream)
  | Err _ => handshake_id first = None ∧ g' = g
  | Panic _ => g' = g
  end.
Proof.
  unfold EventStream_register, handshake_id. destruct first as [[]|err|m]; try by intros [= <- <-].
  case_bool_decide; intros [= <- <-]; [done|]. split; [done|]. apply lookup_insert_eq.
Qed.

Lemma registerPeer_closed peerID g : g_closed (registerPeer peerID g) = g_closed g.
Proof.
  assert (∀ plane g, g_closed (register_queue plane peerID g) = g_closed g) as Hq.
  { intros plane g'. unfold register_queue. by destruct (queue_map plane g' !! peerID), plane. }
  unfold registerPeer. destruct (metrics _ !! peerID); cbn [g_closed with_metrics]; by rewrite !Hq.
Qed.

Lemma registerPeer_new peerID g :
  metrics g !! peerID = None → metrics (registerPeer peerID g) !! peerID = Some (new_metrics (g_now g)).
Proof.
  assert (∀ plane g, metrics (register_queue plane peerID g) = metrics g ∧ g_now (register_queue plane peerID g) = g_now g) as Hq.
  { intros plane g'. unfold register_queue. by destruct (queue_map plane g' !! peerID), plane. }
  intros Hm. unfold registerPeer. destruct (Hq dataPlaneMessage g) as [Hm1 Hn1].
  destruct (Hq controlPlaneMessage (register_queue dataPlaneMessage peerID g)) as [Hm2 Hn2].
  rewrite Hm2, Hm1, Hm, Hn2, Hn1. apply lookup_insert_eq.
Qed.

Lemma register_open stream first g p g' : EventStream_register stream first g = (Ok p, g') → g_closed g' = g_closed g.
Proof.
  unfold EventStream_register. destruct first as [[]|err|m]; try done. case_bool_decide; [done|].
  intros [= _ <-]. apply registerPeer_closed.
Qed.

Lemma register_healthy stream first g peerID cq dq g' :
  EventStream_register stream first g = (Ok (peerID, cq, dq), g') → metrics g !! peerID = None →
  GetPeerHealth peerID g' = (PeerHealthy, None).
Proof.
  unfold EventStream_register. destruct first as [[]|err|m]; try done. case_bool_decide; [done|].
  intros [= <- _ _ <-] Hm. unfold GetPeerHealth. cbn [metrics with_connections]. by rewrite registerPeer_new.
Qed.

(** *** The invariant holds all along *)
Lemma steps_wf g g' : rtc link_step g g' → link_wf g → link_wf g'.
Proof. induction 1 as [|g1 g2 g3 Hs _ IH]; [done|]. intros Hwf. by eapply IH, link_step_wf. Qed.

Lemma serve_step_link peerID controlQueue dataQueue s s' :
  serve_step peerID controlQueue dataQueue s s' → rtc link_step s.2 s'.2.
Proof.
  destruct 1 as [msg g|err g|done recvDone stream_Send g g' Hs|recvDone g g' Hs]; cbn [snd].
  - apply rtc_once, step_receive.
  - done.
  - by eapply rtc_once, step_server.
  - by apply rtc_once.
Qed.

Lemma serve_steps_link peerID controlQueue dataQueue s s' :
  rtc (serve_step peerID controlQueue dataQueue) s s' → rtc link_step s.2 s'.2.
Proof. induction 1 as [|s1 s2 s3 Hs _ IH]; [done|]. etrans; [by eapply serve_step_link|done]. Qed.

(** A run of the handler is a run of the link. *)
Lemma EventStream_steps stream first answered g r g' : EventStream stream first answered g r g' → rtc link_step g g'.
Proof.
  assert (∀ r g1, EventStream_register stream first g = (r, g1) → rtc link_step g g1) as Hreg.
  { intros r' g1 Hr. pose proof (step_register stream first g) as Hs. rewrite Hr in Hs. by apply rtc_once. }
  destruct 1 as [err g' Hr|peerID cq dq err g1 g2 Hr Hs _|peerID cq dq dn rd snd_ r g1 g2 g3 g4 Hr Hs _ Hserve Hlast].
  - by eapply Hreg.
  - etrans; [by eapply Hreg|done].
  - etrans; [by eapply Hreg|]. etrans; [done|].
    apply serve_steps_link in Hserve. etrans; [exact Hserve|].
    eapply rtc_l; [by eapply step_server|]. apply rtc_once, step_cleanup.
Qed.

(** *** The end *)
Lemma cleanup_gone peerID stream g :
  (∀ conn, connections (EventStream_cleanup peerID stream g) !! peerID = Some conn → ci_stream conn ≠ Some stream) ∧
  (∀ m, metrics (EventStream_cleanup peerID stream g) !! peerID = Some m → healthState m = PeerDisconnected).
Proof.
  unfold EventStream_cleanup, SetPeerHealth, update_metrics. split.
  - intros conn. cbn [connections with_metrics]. destruct (connections g !! peerID) as [conn'|] eqn:Hc; [|by rewrite Hc].
    case_bool_decide; cbn [connections with_connections]; [by rewrite lookup_delete_eq|]. rewrite Hc. by intros [= <-].
  - intros m. cbn [metrics with_metrics]. rewrite lookup_alter_eq. by intros (m' & _ & ->)%fmap_Some.
Qed.

(** C8: an inbound stream, from its first message to the return of its handler,
    with the receiving goroutine and everything else the link does in between.
    It is a run of the link, so the link's invariant holds after it.  Without a
    handshake that names a peer, it returns an error and has changed nothing.
    If the response cannot be sent, it returns that error at once and cleans
    nothing up: when nothing else happens, the peer stays listed as connected
    over the dead stream and its health is unchanged.  Otherwise, however it
    ends, the peer is no longer connected over this stream and is not healthy. *)
Theorem inbound_stream_lifecycle (stream : nat) (first : outcome WireMessage) (answered : option error) (g g' : GRPCPeerLink)
    (r : outcome unit) (Hrun : EventStream stream first answered g r g') (Hwf : link_wf g) :
  link_wf g' ∧ rtc link_step g g' ∧
  match handshake_id first, answered with
  | None, _ => (∃ err, r = Err err) ∧ g' = g
  | Some peerID, Some err =>
    r = Err err ∧
    let g1 := (EventStream_register stream first g).2 in
    EventStream stream first answered g (Err err) g1 ∧
    connections g1 !! peerID = Some (inbound_connection peerID stream) ∧
    (g_closed g = false → ∃ peers, grpc_GetConnectedPeers g1 = Ok peers ∧ mkPeerNode peerID "inbound-connection" ∈ peers) ∧
    (metrics g !! peerID = None → GetPeerHealth peerID g1 = (PeerHealthy, None))
  | Some peerID, None =>
    (∀ conn, connections g' !! peerID = Some conn → ci_stream conn ≠ Some stream) ∧
    (∀ m, metrics g' !! peerID = Some m → healthState m = PeerDisconnected)
  end.
Proof.
  pose proof (EventStream_steps _ _ _ _ _ _ Hrun) as Hsteps. split; [by eapply steps_wf|]. split; [done|].
  destruct Hrun as [err g' Hr|peerID cq dq err g1 g2 Hr Hs Hsent|peerID cq dq dn rd snd_ r g1 g2 g3 g4 Hr Hs Hsent Hserve Hlast].
  - apply register_spec in Hr as [-> ->]. split; [by eexists|done].
  - pose proof (register_spec _ _ _ _ _ Hr) as [-> Hc]. rewrite Hsent. split; [done|]. rewrite Hr. cbn [snd].
    split; [by eapply stream_unanswered; [exact Hr|apply rtc_refl|]|]. split; [done|]. split.
    + intros Hopen. apply register_open in Hr as Hclosed. unfold grpc_GetConnectedPeers. rewrite Hclosed, Hopen.
      eexists. split; [done|]. apply list_elem_of_fmap. exists (peerID, inbound_connection peerID stream).
      split; [done|]. by apply elem_of_range_map.
    + intros Hm. by eapply register_healthy.
  - apply register_spec in Hr as [-> _]. rewrite Hsent. apply cleanup_gone.
Qed.

(** ** The outbound connection *)

(** [runBidirectionalStreamLoop]: a message is taken, the stream takes it or not,
    and a failure is handled, each at its own time. *)
Inductive stream_loop (peerID : string) : GRPCPeerLink → outcome bool → GRPCPeerLink → Prop :=
  | loop_next done recvDone done' stream_Send next g g1 g2 g3 g4 r g' :
      rtc link_step g g1 → (next, g2) ∈ nextOutboundMessageOrDone peerID done recvDone g1 →
      rtc link_step g2 g3 → client_finish peerID done' stream_Send next g3 = (Ok None, g4) →
      stream_loop peerID g4 r g' → stream_loop peerID g r g'
  | loop_returns done recvDone done' stream_Send next b g g1 g2 g3 g4 :
      rtc link_step g g1 → (next, g2) ∈ nextOutboundMessageOrDone peerID done recvDone g1 →
      rtc link_step g2 g3 → client_finish peerID done' stream_Send next g3 = (Ok (Some b), g4) →
      stream_loop peerID g (Ok b) g4
  | loop_panics done recvDone done' stream_Send next p g g1 g2 g3 g4 :
      rtc link_step g g1 → (next, g2) ∈ nextOutboundMessageOrDone peerID done recvDone g1 →
      rtc link_step g2 g3 → client_finish peerID done' stream_Send next g3 = (Panic p, g4) →
      stream_loop peerID g (Panic p) g4.

(** An attempt whose stream, if it gets that far, runs like that. *)
Definition attempt_streams (peerID : string) (a : Attempt) : Prop :=
  ∀ g r g', at_loop a g = (r, g') → stream_loop peerID g r g'.

(** [runOutboundConnection] with everything else the link does in between: after
    the given number of attempts, how it has ended ([ExitRunning]: not yet) and the
    delays it has waited.  [possible] are the attempts the environment allows. *)
Inductive outbound_run (peerID : string) (possible : Attempt → Prop) (retryCount : Z) g
    : nat → outbound_exit → list Z → GRPCPeerLink → Prop :=
  | run_goes_on g' :
      rtc link_step g g' → outbound_run peerID possible retryCount g 0 ExitRunning [] g'
  | run_cancelled g' :
      rtc link_step g g' → outbound_run peerID possible retryCount g 0 ExitCancelled [] g'
  | run_closed g' :
      rtc link_step g g' → g_closed g' = true → outbound_run peerID possible retryCount g 0 ExitClosed [] g'
  | run_retries a success g1 g2 g3 k e delays g' :
      rtc link_step g g1 → g_closed g1 = false → rtc link_step g1 g2 →
      possible a → attemptStreamConnection peerID a g2 = (Ok success, g3) →
      after_attempt success retryCount = RetryNow →
      outbound_run peerID possible 0 g3 k e delays g' →
      outbound_run peerID possible retryCount g (S k) e delays g'
  | run_waits a success retryCount' delay g1 g2 g3 k e delays g' :
      rtc link_step g g1 → g_closed g1 = false → rtc link_step g1 g2 →
      possible a → attemptStreamConnection peerID a g2 = (Ok success, g3) →
      after_attempt success retryCount = RetryAfter retryCount' delay →
      outbound_run peerID possible retryCount' g3 k e delays g' →
      outbound_run peerID possible retryCount g (S k) e (delay :: delays) g'
  | run_gives_up a success g1 g2 g3 g' :
      rtc link_step g g1 → g_closed g1 = false → rtc link_step g1 g2 →
      possible a → attemptStreamConnection peerID a g2 = (Ok success, g3) →
      after_attempt success retryCount = RetryNever → rtc link_step g3 g' →
      outbound_run peerID possible retryCount g 1 ExitMaxRetries [] (SetPeerHealth peerID PeerUnhealthy g')
  | run_panics a p g1 g2 g' :
      rtc link_step g g1 → g_closed g1 = false → rtc link_step g1 g2 →
      possible a → attemptStreamConnection peerID a g2 = (Panic p, g') →
      outbound_run peerID possible retryCount g 1 (ExitPanic p) [] g'.

(** The taking and the failing of a message are steps of the link. *)
Lemma client_finish_step peerID done recvDone done' stream_Send next g1 g2 g3 r g4 :
  link_wf g1 → (next, g2) ∈ nextOutboundMessageOrDone peerID done recvDone g1 → rtc link_step g2 g3 →
  client_finish peerID done' stream_Send next g3 = (r, g4) → rtc link_step g1 g4.
Proof.
  intros Hwf Hnext Hsteps Hfin.
  destruct (next_ok_client _ _ _ _ _ Hwf Hnext) as (Hwf2 & Hcfg & Hm). cbn [fst snd] in *.
  assert (g_config g3 = g_config g1) as Hcfg3.
  { rewrite <-Hcfg. clear -Hsteps Hwf2. induction Hsteps as [|x y z Hs _ IH]; [done|].
    rewrite IH by by eapply link_step_wf. by apply link_step_config. }
  assert (rtc link_step g1 g3) as H13 by (eapply rtc_l; [by eapply step_client_take|done]).
  destruct next as [err| |m q]; cbn [client_finish] in Hfin; [by simplify_eq..|].
  destruct (processOutboundMessage m (Some stream_Send)); [by simplify_eq| |by simplify_eq].
  pose proof (step_client_failed peerID m q g3) as Hf. destruct (handleSendFailure peerID m q g3) as [r' g5].
  simplify_eq. eapply rtc_r; [exact H13|]. apply Hf. rewrite Hcfg3. by apply Hm.
Qed.

Lemma client_step_steps peerID done recvDone stream_Send r g g' :
  link_wf g → (r, g') ∈ client_step peerID done recvDone stream_Send g → rtc link_step g g'.
Proof.
  intros Hwf ([next g1] & Heq & Hin)%list_elem_of_fmap.
  by apply (client_finish_step peerID done recvDone done stream_Send next g g1 g1 r g' Hwf Hin (rtc_refl _ _)).
Qed.

(** A run of the stream loop is a run of the link. *)
Lemma stream_loop_steps peerID g r g' : stream_loop peerID g r g' → link_wf g → rtc link_step g g'.
Proof.
  induction 1 as [done rd done' ss next g g1 g2 g3 g4 r g' H1 Hn H2 Hf _ IH|done rd done' ss next b g g1 g2 g3 g4 H1 Hn H2 Hf|done rd done' ss next p g g1 g2 g3 g4 H1 Hn H2 Hf];
    intros Hwf; pose proof (steps_wf _ _ H1 Hwf) as Hwf1; pose proof (client_finish_step _ _ _ _ _ _ _ _ _ _ _ Hwf1 Hn H2 Hf) as Hs.
  - etrans; [exact H1|]. etrans; [exact Hs|]. apply IH. by eapply steps_wf.
  - by etrans.
  - by etrans.
Qed.

Lemma attempt_steps peerID a g r g' :
  attempt_streams peerID a → attemptStreamConnection peerID a g = (r, g') → link_wf g → rtc link_step g g'.
Proof.
  intros Ha. unfold attemptStreamConnection. pose proof (step_establish peerID (at_opened a) (at_sent a) (at_answer a) g) as He.
  destruct (establishStreamWithHandshake _ _ _ _ g) as [[u|err|m] g1]; cbn [snd] in He; intros Hr Hwf; [|by simplify_eq; apply rtc_once..].
  eapply rtc_l; [exact He|]. eapply stream_loop_steps; [by apply Ha|]. by eapply link_step_wf.
Qed.

(** So is a run of the goroutine. *)
Lemma outbound_run_steps peerID possible retryCount g k e delays g' :
  (∀ a, possible a → attempt_streams peerID a) →
  outbound_run peerID possible retryCount g k e delays g' → link_wf g → rtc link_step g g'.
Proof.
  intros Hpos. assert (∀ a r g g1 g2 g3, rtc link_step g g1 → rtc link_step g1 g2 → possible a →
    attemptStreamConnection peerID a g2 = (r, g3) → link_wf g → rtc link_step g g3) as Hatt.
  { intros a r g0 g1 g2 g3 H1 H2 Ha Hr Hwf. assert (rtc link_step g0 g2) as H12 by by etrans. etrans; [exact H12|].
    eapply attempt_steps; [by apply Hpos|done|by eapply steps_wf]. }
  induction 1 as [rc g g' Hs|rc g g' Hs|rc g g' Hs _|rc g a su g1 g2 g3 k e ds g' H1 _ H2 Ha Hr _ _ IH
    |rc g a su rc' d g1 g2 g3 k e ds g' H1 _ H2 Ha Hr _ _ IH|rc g a su g1 g2 g3 g' H1 _ H2 Ha Hr _ H3|rc g a p g1 g2 g' H1 _ H2 Ha Hr];
    intros Hwf; [done..| | | |by eapply Hatt].
  - pose proof (Hatt _ _ _ _ _ _ H1 H2 Ha Hr Hwf) as Hs. etrans; [exact Hs|]. apply IH. by eapply steps_wf.
  - pose proof (Hatt _ _ _ _ _ _ H1 H2 Ha Hr Hwf) as Hs. etrans; [exact Hs|]. apply IH. by eapply steps_wf.
  - pose proof (Hatt _ _ _ _ _ _ H1 H2 Ha Hr Hwf) as Hs. etrans; [exact Hs|]. eapply rtc_r; [exact H3|]. apply step_give_up.
Qed.

(** An attempt that fails before its stream is up. *)
Definition unreached (a : Attempt) : Prop :=
  (∀ p, at_answer a ≠ Panic p) ∧ (at_opened a ≠ None ∨ at_sent a ≠ None ∨ ∃ err, at_answer a = Err err).

Lemma unreached_attempt peerID a g : unreached a → attemptStreamConnection peerID a g = (Ok true, g).
Proof.
  intros [Hp Hf]. unfold attemptStreamConnection, establishStreamWithHandshake.
  destruct (at_opened a), (at_sent a), (at_answer a) as [w|err|p]; try done; [|by destruct (Hp p)].
  by destruct Hf as [?|[?|[err ?]]].
Qed.

Lemma unreached_run peerID retryCount g k e delays g' :
  outbound_run peerID unreached retryCount g k e delays g' →
  delays = [] ∧ (e = ExitRunning ∨ e = ExitCancelled ∨ e = ExitClosed ∧ g_closed g' = true) ∧ rtc link_step g g' ∧
  (e = ExitRunning → ∀ more g'', rtc link_step g' g'' → g_closed g'' = false →
   outbound_run peerID unreached retryCount g (k + more) ExitRunning [] g'').
Proof.
  assert (∀ a success g g', unreached a → attemptStreamConnection peerID a g = (Ok success, g') → success = true ∧ g' = g) as Hatt.
  { intros a success g0 g1 Ha. rewrite unreached_attempt by done. by intros [= <- <-]. }
  assert (∃ a, unreached a) as [a0 Ha0].
  { exists (mkAttempt (Some (ErrNew EmptyString)) None (Err (ErrNew EmptyString)) (λ g, (Ok true, g))). split; [done|by left]. }
  assert (∀ more rc g, g_closed g = false → outbound_run peerID unreached rc g more ExitRunning [] g) as Hmore.
  { induction more as [|more IH]; intros rc g0 Ho; [by apply run_goes_on|].
    eapply (run_retries _ _ _ _ a0 true g0 g0 g0); [done..|by apply unreached_attempt|done|by apply IH]. }
  induction 1 as [rc g g' Hs|rc g g' Hs|rc g g' Hs Hc|rc g a su g1 g2 g3 k e ds g' H1 Ho H2 Ha Hr Hd _ IH
    |rc g a su rc' d g1 g2 g3 k e ds g' H1 _ H2 Ha Hr Hd _ _|rc g a su g1 g2 g3 g' H1 _ H2 Ha Hr Hd _|rc g a p g1 g2 g' H1 _ H2 Ha Hr].
  - split_and!; [done|by left|done|]. intros _ more g'' Hs' Ho. assert (rtc link_step g g'') as Hs'' by by etrans.
    destruct more as [|more]; [by apply run_goes_on|].
    eapply (run_retries _ _ _ _ a0 true g'' g'' g''); [done..|by apply unreached_attempt|done|by apply Hmore].
  - by split_and!; [|right; left| |].
  - by split_and!; [|right; right| |].
  - destruct (Hatt _ _ _ _ Ha Hr) as [-> ->]. destruct IH as (-> & He & Hs & Hext). split_and!; [done..| |].
    + by etrans; [|etrans].
    + intros -> more g'' Hs' Hopen. by eapply run_retries; [..|apply Hext].
  - by destruct (Hatt _ _ _ _ Ha Hr) as [-> ->].
  - by destruct (Hatt _ _ _ _ Ha Hr) as [-> ->].
  - by rewrite unreached_attempt in Hr.
Qed.

Lemma silent_peer_unhealthy peerID m seen now g :
  metrics g !! peerID = Some m → healthState m ≠ PeerDisconnected → lastSeenAt m = Some seen →
  (heartbeatTimeout g ≤ time_Sub now seen)%Z →
  GetPeerHealth peerID (markSilentPeersUnhealthy now g) = (PeerUnhealthy, None).
Proof.
  intros Hm Hh Hs Ht. unfold GetPeerHealth, markSilentPeersUnhealthy. cbn [metrics with_metrics]. rewrite lookup_fmap, Hm.
  unfold silent_metrics. cbn [fmap option_fmap option_map]. rewrite Hs. destruct (healthState m); by rewrite ?bool_decide_eq_true_2.
Qed.

(** C37: a peer that cannot be reached is retried for ever, without a pause.  An
    attempt that fails to set up its stream asks to be retried, which the loop
    takes for a success.  So while no attempt reaches the peer, with anything else
    in the link between and during the attempts, the goroutine waits for
    nothing between them, it never gives the peer up after [maxRetries] attempts,
    it ends only when it is cancelled or the link is closed, and it changes
    nothing itself: the link's state is one that its other steps reach.  While the
    link is open it can always go on with any number of further attempts, and it does
    not notice the peer's health: a heartbeat check marks the peer unhealthy once it has
    been silent for the timeout, and the attempts go on as before. *)
Theorem unreachable_peer_retried_forever (peerID : string) (retryCount : Z) (g g' : GRPCPeerLink) (k : nat)
    (e : outbound_exit) (delays : list Z) (Hrun : outbound_run peerID unreached retryCount g k e delays g') :
  delays = [] ∧ (e = ExitRunning ∨ e = ExitCancelled ∨ e = ExitClosed ∧ g_closed g' = true) ∧ rtc link_step g g' ∧
  (e = ExitRunning → g_closed g' = false → ∀ more, outbound_run peerID unreached retryCount g (k + more) ExitRunning [] g' ∧
   ∀ m seen now, metrics g' !! peerID = Some m → healthState m ≠ PeerDisconnected → lastSeenAt m = Some seen →
     (heartbeatTimeout g' ≤ time_Sub now seen)%Z →
     let g'' := markSilentPeersUnhealthy now g' in
     GetPeerHealth peerID g'' = (PeerUnhealthy, None) ∧
     outbound_run peerID unreached retryCount g (k + more) ExitRunning [] g'').
Proof.
  destruct (unreached_run _ _ _ _ _ _ _ Hrun) as (Hd & He & Hs & Hext). split_and!; [done..|]. intros -> Hopen more.
  split; [by apply Hext|]. intros m seen now Hm Hh Hseen Ht g''. split; [by eapply silent_peer_unhealthy|].
  apply Hext; [done|apply rtc_once, step_mark_silent|done].
Qed.

(** ** The heartbeat loop *)

(** What happens while it waits: a tick, or anything else in the link. *)
Inductive heartbeat_step (ctx : Ctx) : GRPCPeerLink → GRPCPeerLink → Prop :=
  | heartbeat_tick g : heartbeat_step ctx g (sendHeartbeatToConnectedPeers ctx g).2
  | heartbeat_other g g' : link_step g g' → heartbeat_step ctx g g'.

(** A round at once, one for each tick, until the context is done. *)
Inductive runHeartbeatLoop (ctx : Ctx) (token : nat) g : GRPCPeerLink → Prop :=
  | heartbeat_done g' :
      rtc (heartbeat_step ctx) (sendHeartbeatToConnectedPeers ctx g).2 g' →
      runHeartbeatLoop ctx token g (clearHeartbeatLifecycle token g').

(** A loop that ends is a run of the link; it clears what is its own, so that
    the next [StartHeartbeats] starts a new loop, and leaves a loop that was
    started in its place alone. *)
Theorem heartbeat_loop_ends (ctx : Ctx) (token : nat) (g g' : GRPCPeerLink) (Hrun : runHeartbeatLoop ctx token g g') :
  rtc link_step g g' ∧ heartbeatToken g' ≠ Some token ∧
  ∃ before, rtc link_step g before ∧
    (heartbeatToken before = Some token → heartbeatsRunning g' = false ∧ heartbeatToken g' = None) ∧
    (heartbeatToken before ≠ Some token → g' = before).
Proof.
  destruct Hrun as [g1 Hticks].
  assert (rtc link_step g g1) as Hsteps.
  { eapply rtc_l; [apply (step_heartbeats ctx)|]. induction Hticks as [|g1 g2 g3 Hs _ IH]; [done|].
    eapply rtc_l; [|exact IH]. destruct Hs; [apply step_heartbeats|done]. }
  split; [eapply rtc_r; [exact Hsteps|apply step_clear_heartbeats]|].
  unfold clearHeartbeatLifecycle. case_bool_decide as Ht.
  - split; [done|]. exists g1. by split_and!.
  - split; [done|]. exists g1. by split_and!.
Qed.
End Runs.
