(* ===== verification/LinkGossip.v ===== *)
(** * Gossip over the gRPC peer link

    The order in which the connection goroutine sends what is queued, and the
    convergence theorem of [Gossip.v] for a mesh node on a [GRPCPeerLink]: from
    the subscribe call to the view of the receiving node. *)
From S2P Require Import Prelude EventLog Topics RoutingTable Peers Clients PebbleStorage MeshNode.
From S2P Require Import NodePublish NodeSubs Gossip PeerMessages GRPCLink LinkLifecycle LinkStreams.
From S2P Require Import LinkSpec LinkInvariant.

#[local] Set Default Proof Using "Type*".

(** ** Sending order *)
Section Order.
Context {MO : MapOrder} {NW : Network}.
Implicit Types g : GRPCPeerLink.

(** The connection goroutine sending up to [n] messages with nothing in between. *)
Fixpoint drain (n : nat) (peerID : string) g : list PeerMessage * GRPCPeerLink :=
  match n with
  | 0 => ([], g)
  | S n =>
    match nextOutboundMessageOrDone peerID None None g with
    | (NextMessage m q, g) :: _ => let '(ms, g) := drain n peerID g in (m :: ms, g)
    | _ => ([], g)
    end
  end.

(** What the peer will get, in order. *)
Definition outgoing (peerID : string) g : list PeerMessage :=
  pending controlPlaneMessage peerID g ++ pending dataPlaneMessage peerID g.

Lemma peer_queue_ref plane peerID epoch g :
  queue_map plane g !! peerID = Some epoch →
  peer_queue plane peerID g = g_queues g !! (plane, peerID, epoch) ∧
  queue_ref plane peerID g = Some (plane, peerID, epoch).
Proof. intros He. unfold peer_queue, queue_ref. by rewrite He. Qed.

(** A receive from a peer's queue takes its first message. *)
Lemma recv_ready_queue plane peerID epoch c g :
  queue_map plane g !! peerID = Some epoch → peer_queue plane peerID g = Some c → ch_closed c = false →
  recv_ready (queue_ref plane peerID g) g =
    match ch_buf c with
    | [] => []
    | m :: rest => [(NextMessage m (plane, peerID, epoch),
        with_queues (<[(plane, peerID, epoch) := mkChan (ch_cap c) rest (ch_closed c)]> (g_queues g)) g)]
    end.
Proof.
  intros He Hc Hcl. destruct (peer_queue_ref _ _ _ _ He) as [Hq ->]. rewrite Hc in Hq. symmetry in Hq.
  unfold recv_ready. pose proof (f_equal (default (make_chan 0)) Hq) as Hd. simpl in Hd. rewrite Hd.
  unfold chan_recv. rewrite Hcl. by destruct (ch_buf c).
Qed.

Lemma open_queue plane peerID g :
  link_wf g → is_Some (queue_map plane g !! peerID) →
  ∃ epoch c, queue_map plane g !! peerID = Some epoch ∧ peer_queue plane peerID g = Some c ∧ ch_closed c = false ∧
    pending plane peerID g = ch_buf c.
Proof.
  intros Hwf [epoch He]. destruct (wf_open _ Hwf _ _ _ He) as (c & Hc & Hcl). exists epoch, c.
  destruct (peer_queue_ref _ _ _ _ He) as [Hq _]. unfold pending. rewrite Hq. by rewrite Hc.
Qed.

(** One step: the first outgoing message, and it is the only possible result. *)
Lemma next_outgoing peerID g :
  link_wf g → is_Some (sendQueues g !! peerID) → is_Some (controlQueues g !! peerID) →
  match outgoing peerID g with
  | [] => nextOutboundMessageOrDone peerID None None g = []
  | m :: rest => ∃ q g', nextOutboundMessageOrDone peerID None None g = [(NextMessage m q, g')] ∧
      outgoing peerID g' = rest ∧ link_wf g' ∧ sendQueues g' = sendQueues g ∧ controlQueues g' = controlQueues g
  end.
Proof.
  intros Hwf Hd Hc.
  destruct (open_queue controlPlaneMessage peerID g Hwf Hc) as (ec & cc & Hec & Hpc & Hclc & Hbc).
  destruct (open_queue dataPlaneMessage peerID g Hwf Hd) as (ed & cd & Hed & Hpd & Hcld & Hbd).
  pose proof (recv_ready_queue _ _ _ _ _ Hec Hpc Hclc) as Hrc.
  pose proof (recv_ready_queue _ _ _ _ _ Hed Hpd Hcld) as Hrd.
  assert (∀ plane peer e c m rest, queue_map plane g !! peer = Some e → peer_queue plane peer g = Some c →
    ch_buf c = m :: rest →
    link_wf (with_queues (<[(plane, peer, e) := mkChan (ch_cap c) rest (ch_closed c)]> (g_queues g)) g)) as Hpop.
  { intros plane peer e c m rest He Hp Hb. destruct (peer_queue_ref _ _ _ _ He) as [Hq _]. rewrite Hp in Hq. symmetry in Hq.
    apply (wf_set_queue _ c); [done|done| |done]. destruct (wf_queue _ Hwf _ _ Hq) as (H1 & H2 & H3).
    rewrite Hb in H2, H3. apply Forall_cons in H3 as [_ H3]. split; [done|]. simpl in *. split; [lia|done]. }
  unfold nextOutboundMessageOrDone. rewrite Hrc, Hrd. unfold outgoing. rewrite Hbc, Hbd.
  destruct (ch_buf cc) as [|m rest] eqn:Hb; [destruct (ch_buf cd) as [|m rest] eqn:Hb'; [done|]|].
  - simpl. eexists _, _. split; [done|]. split_and!; [|by eapply Hpop|done|done].
    unfold pending. rewrite !peer_queue_set by done. rewrite decide_False by naive_solver.
    rewrite decide_True by done. by rewrite Hpc, Hb.
  - simpl. eexists _, _. split; [done|]. split_and!; [|by eapply Hpop|done|done].
    unfold pending. rewrite !peer_queue_set by done. rewrite decide_True by done.
    rewrite decide_False by naive_solver. by rewrite Hpd.
Qed.

(** What is queued goes out in order, control messages first.  With no
    other step in between, the connection goroutine of a peer with open queues
    takes the waiting control messages in the order they were accepted and then
    the events in theirs; at each point there is exactly one message it can
    take, and none is lost or repeated. *)
Theorem drain_in_order (n : nat) (peerID : string) (g : GRPCPeerLink) (Hwf : link_wf g)
    (Hd : is_Some (sendQueues g !! peerID)) (Hc : is_Some (controlQueues g !! peerID)) :
  let '(sent, g') := drain n peerID g in
  sent = take n (outgoing peerID g) ∧ outgoing peerID g' = drop n (outgoing peerID g) ∧
  (outgoing peerID g ≠ [] → length (nextOutboundMessageOrDone peerID None None g) = 1) ∧ link_wf g'.
Proof.
  revert g Hwf Hd Hc. induction n as [|n IH]; intros g Hwf Hd Hc.
  { pose proof (next_outgoing peerID g Hwf Hd Hc) as H. split_and!; [done|done| |done].
    destruct (outgoing peerID g); [done|]. by destruct H as (? & ? & -> & _). }
  pose proof (next_outgoing peerID g Hwf Hd Hc) as H. cbn [drain].
  destruct (outgoing peerID g) as [|m rest] eqn:Ho.
  - rewrite H. by rewrite Ho.
  - destruct H as (q & g1 & Hn & Ho1 & Hwf1 & Hs1 & Hs2). rewrite Hn.
    specialize (IH g1 Hwf1). rewrite Hs1, Hs2, Ho1 in IH. specialize (IH Hd Hc).
    destruct (drain n peerID g1) as [ms g2]. destruct IH as (-> & -> & _ & Hwf2). done.
Qed.
End Order.

(** ** From a subscription to the peer's view *)
Section OverTheLink.
Context {L : Type} `{!EventLog L, !EventLogSpec L} {MO : MapOrder} {NW : Network}.
Implicit Types n : MeshNode L GRPCPeerLink.

(** An open link whose connected peers are the given ones, with room for [k]
    more control messages for [q]. *)
Definition link_room (q : string) (peers : list PeerNode) (k : nat) (g : GRPCPeerLink) : Prop :=
  link_wf g ∧ g_closed g = false ∧ grpc_GetConnectedPeers g = Ok peers ∧
  ∃ c, peer_queue controlPlaneMessage q g = Some c ∧ ch_closed c = false ∧ length (ch_buf c) + k ≤ ch_cap c.

Lemma link_room_send q peers k ctx id i g :
  link_room q peers (S k) g → ctx_live ctx →
  let '(r, _, g') := sendInterestMessage ctx id i g in
  (∀ m, r ≠ Panic m) ∧ (id = q → r = Ok ()) ∧ link_room q peers k g'.
Proof.
  intros (Hwf & Hopen & Hpeers & c & Hc & Hcl & Hlen) Hlive. unfold sendInterestMessage.
  set (m := ControlPlaneMsg id (Some i) (g_now g) 0). set (full := "send queue full - interest message dropped"%string).
  pose proof (send_message_cases full ctx controlPlaneMessage id m g) as H.
  assert (∀ p, (send_message full ctx controlPlaneMessage id m g).1.1 ≠ Panic p) as Hnp
    by (intros p; by apply send_message_no_panic).
  assert (link_wf (send_message full ctx controlPlaneMessage id m g).2) as Hwf'.
  { unfold send_message. destruct (lookup_queue _ _ _); [|done..]. apply wf_offer; [done|].
    pose proof (wf_attempts _ Hwf). split_and!; simpl; done || lia. }
  destruct (send_message _ _ _ _ _ _) as [[r ctx'] g'] eqn:Hs.
  destruct (send_message_laws _ _ _ _ _ _ _ _ _ Hs) as (Hcon & _).
  pose proof (send_message_frame full ctx controlPlaneMessage id m g) as Hf. rewrite Hs in Hf.
  destruct Hf as (Hcl' & _). simpl in *. split; [done|]. split.
  - intros ->. destruct H as [_ [(-> & _)|[(_ & _ & Hno)|(-> & _)]]]; [done| |by destruct (Hnp send_on_closed)].
    exfalso. apply Hno; [by rewrite poll_live|done|]. unfold queue_accepts. rewrite Hc. split; [done|lia].
  - split; [done|]. split; [congruence|]. split; [congruence|].
    destruct H as [_ [(_ & _ & _ & _ & epoch & c' & He & Hc' & ->)|[(_ & [->| ->] & _)|(_ & -> & _)]]];
      [|exists c; split_and!; try done; lia..|exists c; split_and!; try done; lia].
    unfold recordPlaneQueued. rewrite peer_queue_metrics, peer_queue_set by done. case_decide as Hd.
    + destruct Hd as [_ <-]. rewrite Hc in Hc'. injection Hc' as <-. eexists. split; [done|]. simpl.
      rewrite length_app. simpl. split; [done|lia].
    + exists c. split_and!; try done; lia.
Qed.

Lemma link_reliable q peers : reliable GRPCPeerLink q peers (link_room q peers).
Proof.
  split.
  - by intros k g (_ & _ & ? & _).
  - intros k g (? & ? & ? & c & ? & ? & ?). split_and!; try done. exists c. split_and!; try done. lia.
  - intros k g ctx id u Hroom Hlive. exact (link_room_send q peers k ctx id _ g Hroom Hlive).
  - intros k g ctx id s Hroom Hlive. pose proof (link_room_send q peers k ctx id (mkInterestMessage None (Some s)) g Hroom Hlive) as H.
    simpl. unfold grpc_SendInterestSnapshot. destruct (sendInterestMessage _ _ _ _) as [[r ctx'] g'].
    destruct H as (? & _ & ?). by split.
Qed.

(** What the receiving node's control-plane consumer is handed for a list of
    queued messages: those that serialise, as the wire delivers them. *)
Definition over_the_wire (now : Z) (sent : list PeerMessage) : list InterestMessage :=
  omap (λ m, match serializeMessage m with
             | Ok w => match receive_wire now w with ReceivedInterest i => Some i | _ => None end
             | _ => None
             end) sent.

(** The wire loses nothing a view depends on. *)
Lemma apply_over_the_wire id now sent S :
  Forall (λ m, planeForMessage m = controlPlaneMessage) sent →
  apply_messages id (over_the_wire now sent) S = apply_messages id (omap interest_of sent) S.
Proof.
  intros Hp. revert S. induction Hp as [|m sent Hm Hp IH]; intros S; [done|].
  destruct m as [|p [i|] t a|]; simpl; [done| |by apply IH..].
  destruct i as [[u|] [s|]]; simpl; cbn [apply_messages foldl]; rewrite <-IH; try done; by destruct u || by destruct s.
Qed.

(** A subscription reaches the peer's view, over the real link.  Let a node
    run on a gRPC link that is open, connected to the peer, has delivered its
    earlier control messages to it, and has room in the peer's control queue.
    After any run of subscription operations, sending what is queued for the
    peer and processing what arrives makes the peer's view the node's interest. *)
Theorem gossip_over_the_link {L' P' : Type} `{!EventLog L', !PeerLink P'}
    (n : MeshNode L GRPCPeerLink) (m : MeshNode L' P') (ops : list sub_op) (q : string) (peers : list PeerNode) (now : Z)
    (Hroom : link_room q peers (length ops * length peers) (n_link n)) (Hq : 0 < peer_count q peers)
    (Hidle : omap interest_of (pending controlPlaneMessage q (n_link n)) = [])
    (Hlive : Forall op_live ops) (Htables : tables_agree n) (Hfresh : run_fresh ops n)
    (Hview : view m (cfg_NodeID (n_config n)) = interest n) :
  let sent := pending controlPlaneMessage q (n_link (sub_run ops n)) in
  view (receive_all (over_the_wire now sent) m) (cfg_NodeID (n_config n)) = interest (sub_run ops n).
Proof.
  intros sent.
  destruct (announce_run q peers (link_room q peers) (link_reliable q peers) Hq ops n Hfresh Hlive Htables Hroom)
    as ((msgs & Hs & Hi & _) & Hroom'). unfold sent_to in Hs. simpl in Hs. rewrite Hidle in Hs. simpl in Hs.
  rewrite view_receive_all, apply_over_the_wire; [subst sent; by rewrite Hs, Hview|].
  destruct Hroom' as (Hwf & _). destruct (pending_ok controlPlaneMessage q _ Hwf) as [Hall _].
  eapply Forall_impl; [exact Hall|]. by intros ? (? & _).
Qed.
End OverTheLink.
