(* ===== verification/Inbound.v ===== *)
(** * What a node receives from its peers ([node_peer_events.go])

    The two consumer goroutines of a node and the channels they read: messages
    that arrive on a stream are offered to the channels without waiting, and the
    consumers take them one by one.  With the sending side of [LinkGossip.v]
    this is the whole way of a subscription to the view of another node. *)
From S2P Require Import Prelude EventLog Topics RoutingTable Peers Clients PebbleStorage MeshNode.
From S2P Require Import NodePublish NodeSubs Gossip PeerMessages GRPCLink LinkLifecycle LinkStreams.
From S2P Require Import LinkSpec LinkInvariant LinkGossip.

#[local] Set Default Proof Using "Type*".

(** ** The consumers *)
Section Consumers.
Context {L : Type} `{!EventLog L, MO : !MapOrder} {NW : Network}.
Implicit Types n : MeshNode L GRPCPeerLink.

(** The calls the goroutines begin with. *)
Definition handleIncomingDataPlaneEvents_start n : outcome nat * MeshNode L GRPCPeerLink :=
  let '(r, g) := ReceiveEvents (n_link n) in (r, with_link g n).
Definition handleIncomingControlPlaneMessages_start n : outcome nat * MeshNode L GRPCPeerLink :=
  let '(r, g) := ReceiveInterestMessages (n_link n) in (r, with_link g n).

(** One round of a loop whose [select] takes the channel's case; the error
    channel never holds anything.  [false]: the channel is closed and the
    goroutine returns; a round that finds the channel empty does not happen. *)
Definition handleIncomingDataPlaneEvents_round (ctx : Ctx) (ch : nat) n : bool * Ctx * MeshNode L GRPCPeerLink :=
  let g := n_link n in
  match chan_recv (default (make_chan 0) (g_event_chans g !! ch)) with
  | Recv event c =>
    let n := with_link (with_chans (<[ch := c]> (g_event_chans g)) (g_interest_chans g) g) n in
    let '(ctx, n) := processIncomingUserEvent ctx event n in (true, ctx, n)
  | RecvClosed => (false, ctx, n)
  | RecvEmpty => (true, ctx, n)
  end.

Definition handleIncomingControlPlaneMessages_round (ch : nat) n : bool * MeshNode L GRPCPeerLink :=
  let g := n_link n in
  match chan_recv (default (make_chan 0) (g_interest_chans g !! ch)) with
  | Recv message c =>
    let n := with_link (with_chans (g_event_chans g) (<[ch := c]> (g_interest_chans g)) g) n in
    (true, processIncomingInterestMessage (Some message) n)
  | RecvClosed => (false, n)
  | RecvEmpty => (true, n)
  end.

(** ** Runs: arrivals and rounds in any order *)
Inductive inbound_op :=
  | Arrive (peerID : string) (msg : WireMessage)
  | TakeEvent (ctx : Ctx)
  | TakeInterest.

(** [ech] and [ich] are the channels of the two consumers. *)
Definition inbound_step (ech ich : nat) (op : inbound_op) n : MeshNode L GRPCPeerLink :=
  match op with
  | Arrive peerID msg => with_link (handle_received peerID msg (n_link n)) n
  | TakeEvent ctx => (handleIncomingDataPlaneEvents_round ctx ech n).2
  | TakeInterest => (handleIncomingControlPlaneMessages_round ich n).2
  end.

Definition inbound_run (ech ich : nat) (ops : list inbound_op) n : MeshNode L GRPCPeerLink :=
  foldl (λ n op, inbound_step ech ich op n) n ops.

Definition arrivals (ops : list inbound_op) : list WireMessage :=
  omap (λ op, match op with Arrive _ msg => Some msg | _ => None end) ops.

(** The interest messages waiting for the consumer. *)
Definition waiting (ich : nat) n : list InterestMessage :=
  match g_interest_chans (n_link n) !! ich with Some c => ch_buf c | None => [] end.

(** The consumer keeps up: whenever a message arrives, its channel has room. *)
Fixpoint keeps_up (ech ich : nat) (ops : list inbound_op) n : Prop :=
  match ops with
  | [] => True
  | op :: ops =>
    match op with Arrive _ _ => length (waiting ich n) < recv_chan_cap | _ => True end ∧
    keeps_up ech ich ops (inbound_step ech ich op n)
  end.

(** The channel is registered, open and of its fixed capacity. *)
Definition listening (ich : nat) n : Prop :=
  g_closed (n_link n) = false ∧ ich ∈ interestSubscribers (n_link n) ∧
  ∃ c, g_interest_chans (n_link n) !! ich = Some c ∧ ch_closed c = false ∧ ch_cap c = recv_chan_cap.

(** ** Offering *)
Lemma offer_all_lookup {A} (x : A) subs chans ch :
  offer_all x subs chans !! ch =
  if decide (ch ∈ subs) then
    match chan_send x (default (make_chan 0) (chans !! ch)) with Sent c => Some c | _ => chans !! ch end
  else chans !! ch.
Proof using Type.
  set (P (b : gmap nat (Chan A)) (X : gset nat) := ∀ ch, b !! ch = if decide (ch ∈ X) then
    match chan_send x (default (make_chan 0) (chans !! ch)) with Sent c => Some c | _ => chans !! ch end else chans !! ch).
  enough (P (offer_all x subs chans) subs) as HP by exact (HP ch). clear ch.
  unfold offer_all. apply (set_fold_ind_L P); [done|].
  intros ch0 X b Hn IH ch. pose proof (IH ch0) as IH0. rewrite (decide_False) in IH0 by done. rewrite IH0.
  destruct (decide (ch = ch0)) as [->|Hne].
  - rewrite decide_True by set_solver. destruct (chan_send x _) eqn:Hs; [by rewrite lookup_insert_eq|done..].
  - assert (∀ c, <[ch0 := c]> b !! ch = b !! ch) as Hins by (intros c; by rewrite lookup_insert_ne).
    assert (b !! ch = if decide (ch ∈ {[ch0]} ∪ X) then
      match chan_send x (default (make_chan 0) (chans !! ch)) with Sent c => Some c | _ => chans !! ch end else chans !! ch) as Hb
      by (rewrite IH; repeat case_decide; set_solver).
    rewrite <-Hb. destruct (chan_send x (default (make_chan 0) (chans !! ch0))); [apply Hins|done..].
Qed.

(** An offer to a channel that is listened to: it is taken if there is room. *)
Lemma offer_all_listening {A} (x : A) subs chans ch c :
  ch ∈ subs → chans !! ch = Some c → ch_closed c = false →
  offer_all x subs chans !! ch =
  Some (if bool_decide (length (ch_buf c) < ch_cap c) then mkChan (ch_cap c) (ch_buf c ++ [x]) false else c).
Proof using Type.
  intros Hin Hc Hcl. rewrite offer_all_lookup, decide_True, Hc by done. cbn [default from_option id].
  unfold chan_send. rewrite Hcl. by case_bool_decide.
Qed.

(** ** What a step does to the channel and the view *)

(** What the wire message says to the control plane. *)
Definition wire_interest (msg : WireMessage) : option InterestMessage :=
  match msg with PeerMessage_ControlPlane c => interestMessageFromProto c | _ => None end.

(** The view a node will have when its consumer is done with what is waiting. *)
Definition eventual (ich : nat) n (id : string) : gset string := apply_messages id (waiting ich n) (view n id).

Lemma update_metrics_frame f peerID g :
  let g' := update_metrics f peerID g in
  g_closed g' = g_closed g ∧ interestSubscribers g' = interestSubscribers g ∧ g_interest_chans g' = g_interest_chans g.
Proof using Type. done. Qed.

Lemma arrive_cases peerID msg g :
  g_closed g = false →
  let g' := handle_received peerID msg g in
  g_closed g' = false ∧ interestSubscribers g' = interestSubscribers g ∧
  g_interest_chans g' = match wire_interest msg with
                        | Some i => offer_all i (interestSubscribers g) (g_interest_chans g)
                        | None => g_interest_chans g
                        end.
Proof using Type.
  intros Hc. unfold handle_received, wire_interest, markPeerSeen, distributeEvent, distributeInterestMessage.
  destruct msg as [h|e|topic offset|t|c|]; cbn; rewrite ?Hc; try done. destruct (interestMessageFromProto c); cbn; by rewrite ?Hc.
Qed.

Lemma arrive_listening ich ech peerID msg n :
  listening ich n →
  let n' := inbound_step ech ich (Arrive peerID msg) n in
  listening ich n' ∧ (∀ id, view n' id = view n id) ∧
  waiting ich n' = waiting ich n ++
    (if bool_decide (length (waiting ich n) < recv_chan_cap) then option_list (wire_interest msg) else []).
Proof using Type.
  intros (Hcl & Hin & c & Hc & Hop & Hcap). cbn [inbound_step].
  destruct (arrive_cases peerID msg (n_link n) Hcl) as (Hcl' & Hsub & Hch).
  unfold listening, waiting. cbn [n_link with_link]. rewrite Hcl', Hsub, Hch, Hc.
  destruct (wire_interest msg) as [i|]; cbn [option_list].
  - rewrite (offer_all_listening i _ _ _ c) by done. rewrite Hcap. case_bool_decide.
    + split; [by split_and!; eauto|done].
    + rewrite app_nil_r. split; [by split_and!; eauto|done].
  - rewrite Hc. split; [by split_and!; eauto|]. split; [done|]. by case_bool_decide; rewrite app_nil_r.
Qed.

Lemma incoming_event_link ctx event n :
  n_link (processIncomingUserEvent ctx event n).2 = n_link n ∧ n_peer_subs (processIncomingUserEvent ctx event n).2 = n_peer_subs n.
Proof using Type. unfold processIncomingUserEvent, incoming_running, incoming_append, incoming_deliver. by repeat case_match; simplify_eq. Qed.

Lemma incoming_interest_link message n : n_link (processIncomingInterestMessage message n) = n_link n.
Proof using Type.
  destruct message as [message|]; [|done]. unfold processIncomingInterestMessage.
  destruct (im_Update message); [done|]. by destruct (im_Snapshot message).
Qed.

Lemma take_event_listening ich ech ctx n :
  listening ich n →
  let n' := inbound_step ech ich (TakeEvent ctx) n in
  listening ich n' ∧ (∀ id, view n' id = view n id) ∧ waiting ich n' = waiting ich n.
Proof using Type.
  intros Hl. cbn [inbound_step]. unfold handleIncomingDataPlaneEvents_round.
  destruct (chan_recv _) as [event c| |]; [|done..]. set (n1 := with_link _ n).
  destruct (incoming_event_link ctx event n1) as [Hlink Hps].
  destruct (processIncomingUserEvent ctx event n1) as [ctx' n2]. cbn [snd] in *.
  unfold listening, waiting, view. by rewrite Hlink, Hps.
Qed.

Lemma take_interest_listening ich ech n :
  listening ich n →
  let n' := inbound_step ech ich TakeInterest n in
  listening ich n' ∧
  match waiting ich n with
  | [] => n' = n
  | i :: rest => waiting ich n' = rest ∧ ∀ id, view n' id = apply_message id i (view n id)
  end.
Proof using All.
  intros (Hcl & Hin & c & Hc & Hop & Hcap). cbn [inbound_step]. unfold handleIncomingControlPlaneMessages_round, waiting.
  rewrite Hc. cbn [default from_option id]. unfold chan_recv. rewrite Hop.
  destruct (ch_buf c) as [|i rest] eqn:Hb; [split; [|done]; by split_and!; eauto|]. cbn [snd].
  set (n1 := with_link _ n). unfold listening. rewrite !incoming_interest_link. subst n1. cbn [n_link with_link with_chans g_interest_chans g_closed interestSubscribers].
  rewrite lookup_insert_eq. split; [by split_and!; eauto|]. split; [done|]. intros id. by rewrite view_process.
Qed.

(** *** Runs *)
Lemma eventual_step ich ech op n id :
  listening ich n → (match op with Arrive _ _ => length (waiting ich n) < recv_chan_cap | _ => True end) →
  listening ich (inbound_step ech ich op n) ∧
  eventual ich (inbound_step ech ich op n) id =
    apply_messages id (omap wire_interest (arrivals [op])) (eventual ich n id).
Proof using All.
  intros Hl Hroom. unfold eventual. destruct op as [peerID msg|ctx|].
  - destruct (arrive_listening ich ech peerID msg n Hl) as (Hl' & Hv & Hw). split; [done|].
    rewrite Hw, Hv, bool_decide_eq_true_2, apply_messages_app by done. cbn. by destruct (wire_interest msg).
  - destruct (take_event_listening ich ech ctx n Hl) as (Hl' & Hv & Hw). split; [done|]. by rewrite Hw, Hv.
  - destruct (take_interest_listening ich ech n Hl) as (Hl' & Hw). split; [done|].
    destruct (waiting ich n) as [|i rest] eqn:Hwait; [by rewrite Hw, Hwait|]. destruct Hw as [-> ->]. done.
Qed.

Lemma eventual_run ich ech ops n id :
  listening ich n → keeps_up ech ich ops n →
  listening ich (inbound_run ech ich ops n) ∧
  eventual ich (inbound_run ech ich ops n) id = apply_messages id (omap wire_interest (arrivals ops)) (eventual ich n id).
Proof using All.
  revert n. induction ops as [|op ops IH]; intros n Hl Hk; [done|]. destruct Hk as [Hroom Hk].
  destruct (eventual_step ich ech op n id Hl Hroom) as [Hl' He]. destruct (IH _ Hl' Hk) as [Hl2 He2].
  split; [exact Hl2|]. change (inbound_run ech ich (op :: ops) n) with (inbound_run ech ich ops (inbound_step ech ich op n)).
  rewrite He2, He, <-apply_messages_app. f_equal. rewrite <-omap_app. f_equal.
  change (op :: ops) with ([op] ++ ops). unfold arrivals. by rewrite omap_app.
Qed.

(** A message that arrives when ten are waiting is gone: it changes neither the
    view nor what is waiting. *)
Lemma interest_lost_when_full ich ech peerID msg n id :
  listening ich n → recv_chan_cap ≤ length (waiting ich n) →
  waiting ich (inbound_step ech ich (Arrive peerID msg) n) = waiting ich n ∧
  eventual ich (inbound_step ech ich (Arrive peerID msg) n) id = eventual ich n id.
Proof using All.
  intros Hl Hfull. destruct (arrive_listening ich ech peerID msg n Hl) as (_ & Hv & Hw).
  rewrite bool_decide_eq_false_2, app_nil_r in Hw by lia. split; [done|]. unfold eventual. by rewrite Hw, Hv.
Qed.

(** Before a consumer has registered its channel nothing is kept at all. *)
Lemma interest_lost_before_start peerID msg g :
  g_closed g = false → interestSubscribers g = ∅ →
  g_interest_chans (handle_received peerID msg g) = g_interest_chans g.
Proof using Type.
  intros Hc Hs. destruct (arrive_cases peerID msg g Hc) as (_ & _ & ->). rewrite Hs. by destruct (wire_interest msg).
Qed.

(** A consumer that has started is listening. *)
Lemma start_listening n ich n' :
  handleIncomingControlPlaneMessages_start n = (Ok ich, n') → listening ich n' ∧ waiting ich n' = [].
Proof using Type.
  unfold handleIncomingControlPlaneMessages_start, ReceiveInterestMessages. destruct (g_closed (n_link n)) eqn:Hc; [done|].
  intros [= <- <-]. unfold listening, waiting. cbn. rewrite lookup_insert_eq.
  split; [|done]. split; [done|]. split; [set_solver|]. by exists (make_chan recv_chan_cap).
Qed.
End Consumers.

(** ** From one node to the other *)

(** What a list of queued messages is on the wire. *)
Definition wires (sent : list PeerMessage) : list WireMessage :=
  omap (λ m, match serializeMessage m with Ok w => Some w | _ => None end) sent.

Lemma over_the_wire_wires now sent : over_the_wire now sent = omap wire_interest (wires sent).
Proof.
  induction sent as [|m sent IH]; [done|]. unfold over_the_wire, wires in *. cbn [omap list_omap].
  destruct (serializeMessage m) as [w|err|p]; [|exact IH..]. cbn [omap list_omap]. rewrite <-IH.
  destruct w as [h|e|topic offset|t|c|]; try done. cbn. by destruct (interestMessageFromProto c).
Qed.

Section AcrossNodes.
Context {L L' : Type} `{!EventLog L, !EventLogSpec L, !EventLog L', MO : !MapOrder} {NW : Network}.
Implicit Types (n : MeshNode L GRPCPeerLink) (m : MeshNode L' GRPCPeerLink).

(** Taking what is waiting. *)
Lemma take_waiting ech ich m id :
  listening ich m →
  view (inbound_run ech ich (replicate (length (waiting ich m)) TakeInterest) m) id = eventual ich m id.
Proof using All.
  remember (length (waiting ich m)) as k eqn:Hk. revert m Hk.
  induction k as [|k IH]; intros m Hk Hl.
  - apply symmetry, nil_length_inv in Hk. unfold eventual. by rewrite Hk.
  - destruct (take_interest_listening ich ech m Hl) as [Hl' Hw]. destruct (eventual_step ich ech TakeInterest m id Hl I) as [_ He].
    cbn [replicate]. change (inbound_run ech ich (TakeInterest :: ?l) m) with (inbound_run ech ich l (inbound_step ech ich TakeInterest m)).
    destruct (waiting ich m) as [|i rest]; [done|]. injection Hk as Hk. destruct Hw as [Hw _].
    rewrite IH; [by rewrite He|by rewrite Hw|done].
Qed.

(** C5: a subscription reaches the view of another node, all the way.  Let a
    node run on a gRPC link that is open, connected to a peer and has room in
    the peer's control queue, and let the peer's view of it be accurate and its
    consumer listen.  Whatever subscription operations the node then runs: if
    what it queued for the peer arrives there in order - among other messages,
    and with the consumers taking messages at any time - and never finds ten
    messages waiting, then once the consumer has taken what waits, the peer's
    view is the node's interest. *)
Theorem gossip_across_nodes (n : MeshNode L GRPCPeerLink) (m : MeshNode L' GRPCPeerLink) (ops : list sub_op) (q : string)
    (peers : list PeerNode) (ech ich : nat) (iops : list inbound_op)
    (Hroom : link_room q peers (length ops * length peers) (n_link n)) (Hq : 0 < peer_count q peers)
    (Hidle : omap interest_of (pending controlPlaneMessage q (n_link n)) = [])
    (Hlive : Forall op_live ops) (Htables : tables_agree n) (Hfresh : run_fresh ops n)
    (Hview : view m (cfg_NodeID (n_config n)) = interest n)
    (Hlisten : listening ich m) (Hempty : waiting ich m = [])
    (Harrive : omap wire_interest (arrivals iops) =
               omap wire_interest (wires (pending controlPlaneMessage q (n_link (sub_run ops n)))))
    (Hkeeps : keeps_up ech ich iops m) :
  let m' := inbound_run ech ich iops m in
  view (inbound_run ech ich (replicate (length (waiting ich m')) TakeInterest) m') (cfg_NodeID (n_config n)) =
  interest (sub_run ops n).
Proof using All.
  intros m'. destruct (eventual_run ich ech iops m (cfg_NodeID (n_config n)) Hlisten Hkeeps) as [Hl He].
  rewrite take_waiting by done. subst m'. rewrite He, Harrive, <-(over_the_wire_wires 0).
  unfold eventual. rewrite Hempty. cbn [apply_messages foldl].
  rewrite <-(gossip_over_the_link n m ops q peers 0) by done. by rewrite view_receive_all.
Qed.
End AcrossNodes.
