(* ===== verification/Delivery.v ===== *)
(** * An event's way from one node to another

    Publishing on a node that runs on the gRPC link, the data plane's queue and
    wire, and the event consumer of the node at the other end
    ([processIncomingUserEvent] behind its bounded channel): what a run of
    publishes leaves in the other node's log and in its clients' channels. *)
From S2P Require Import Prelude EventLog Topics RoutingTable Peers Clients PebbleStorage MeshNode.
From S2P Require Import NodePublish NodeSubs Gossip PeerMessages GRPCLink LinkLifecycle LinkStreams.
From S2P Require Import LinkSpec LinkInvariant LinkGossip Inbound.

#[local] Set Default Proof Using "Type*".

(** ** The publishing side *)
Section Publisher.
Context {L P : Type} `{!EventLog L, !EventLogSpec L, !PeerLink P, !PeerLinkSpec P, MO : !MapOrder}.
Implicit Types n : MeshNode L P.

(** Who is connected is not touched by a publish. *)
Lemma forward_loop_connected ctx event peers p res :
  GetConnectedPeers (forward_loop ctx event peers p res).2 = GetConnectedPeers p.
Proof.
  revert ctx p res. induction peers as [|peer peers IH]; intros ctx p res; simpl; [done|].
  destruct (poll ctx) as [[err|] ctx1]; [done|].
  destruct (SendEvent ctx1 (peer_ID peer) event p) as [[r ctx2] p1] eqn:Hsend.
  destruct (SendEvent_law _ _ _ _ _ _ _ Hsend) as (Hp & _).
  destruct r; [rewrite IH..|]; exact Hp.
Qed.

Lemma deliver_link ctx event n : n_link (deliverToLocalSubscribers ctx event n).2 = n_link n.
Proof. unfold deliverToLocalSubscribers. by repeat case_match. Qed.

Lemma publish_connected ctx client event n :
  GetConnectedPeers (n_link (PublishEventWithResult ctx client event n).2) = GetConnectedPeers (n_link n).
Proof.
  unfold PublishEventWithResult. destruct (validatePublishRequest n client event); [done|].
  destruct event as [e|]; [|done]. destruct (AppendEvent ctx (Topic e) (Some e) (n_log n)) as [[[ev|err|m] ctx1] log]; [|done..].
  unfold publish_deliver. pose proof (deliver_link ctx1 ev (with_log log n)) as Hl.
  destruct (deliverToLocalSubscribers ctx1 ev (with_log log n)) as [[r2 ctx2] n2]. cbn [snd] in Hl.
  change (n_link (with_log log n)) with (n_link n) in Hl.
  destruct r2 as [res|err|m]; cbn [snd]; [|by rewrite Hl..].
  destruct (poll ctx2) as [[err|] ctx3]; cbn [snd]; [by rewrite Hl|].
  enough (GetConnectedPeers (n_link (forwardToPeers ctx3 ev res n2).2) = GetConnectedPeers (n_link n)) as Hf.
  { destruct (forwardToPeers ctx3 ev res n2) as [[r4 ctx4] n4]. cbn [snd] in Hf. by repeat case_match. }
  unfold forwardToPeers. destruct (GetConnectedPeers (n_link n2)) as [peers|err|m] eqn:Hp; cbn [snd]; [|by rewrite Hl..].
  pose proof (forward_loop_connected ctx3 ev (getInterestedPeers n2 (Topic ev) peers) (n_link n2) res) as Hf.
  destruct (forward_loop _ _ _ _ _) as [[r4 ctx4] p]. cbn [snd n_link with_link] in *. by rewrite Hf, Hl.
Qed.

(** A run of publishes, and the results of the calls. *)
Fixpoint publish_all (ops : list (Ctx * Client * Event)) n : list (outcome Event) * MeshNode L P :=
  match ops with
  | [] => ([], n)
  | (ctx, client, e) :: ops =>
    let '(r, _, n) := PublishEventWithResult ctx (Some client) (Some e) n in
    let '(rs, n) := publish_all ops n in (r :: rs, n)
  end.

(** The log after a list of events, and the events as it numbers them. *)
Definition absorb (b : AbsLog) (evs : list Event) : AbsLog := foldl (λ b e, abs_push b (Topic e) e) b evs.
Fixpoint with_offsets (b : AbsLog) (evs : list Event) : list Event :=
  match evs with
  | [] => []
  | e :: evs => WithOffset e (abs_end b (Topic e)) :: with_offsets (abs_push b (Topic e) e) evs
  end.

(** What a publisher's view makes of an event. *)
Definition wanted n (q : string) (e : Event) : Prop := ∃ peer, peer ∈ interested n (Topic e) ∧ peer_ID peer = q.

Lemma wanted_tables n n' q e :
  n_peer_subs n' = n_peer_subs n → GetConnectedPeers (n_link n') = GetConnectedPeers (n_link n) →
  wanted n' q e ↔ wanted n q e.
Proof.
  intros Hps Hc. unfold wanted. assert (interested n' (Topic e) = interested n (Topic e)) as ->; [|done].
  unfold interested, connected, getInterestedPeers. by rewrite Hc, Hps.
Qed.

(** A peer that is connected once is forwarded an event it wants once. *)
Lemma peer_count_interested n q e peers `{!Decision (wanted n q e)} :
  GetConnectedPeers (n_link n) = Ok peers → peer_count q peers = 1 →
  peer_count q (interested n (Topic e)) = if decide (wanted n q e) then 1 else 0.
Proof.
  intros Hp Hq. assert (peer_count q (interested n (Topic e)) ≤ peer_count q peers) as Hle.
  { rewrite (interested_eq _ _ _ Hp). unfold peer_count, getInterestedPeers.
    rewrite list_filter_filter, (list_filter_iff _ (λ x, (match n_peer_subs n !! peer_ID x with
      Some peerTopics => peer_interested peerTopics (Topic e) | None => false end = true) ∧ peer_ID x = q)) by naive_solver.
    rewrite <-list_filter_filter. apply length_filter. }
  case_decide as Hw.
  - destruct Hw as (peer & Hin & Hid). enough (0 < peer_count q (interested n (Topic e))) by lia.
    unfold peer_count. assert (peer ∈ filter (λ peer, peer_ID peer = q) (interested n (Topic e))) as Hf by (by apply list_elem_of_filter).
    destruct (filter _ _); [by apply elem_of_nil in Hf|simpl; lia].
  - destruct (decide (peer_count q (interested n (Topic e)) = 0)) as [|Hne]; [done|]. exfalso. apply Hw.
    unfold peer_count in Hne. destruct (filter _ _) as [|peer l] eqn:Hf; [done|].
    assert (peer ∈ filter (λ peer, peer_ID peer = q) (interested n (Topic e))) as Hin by (rewrite Hf; by left).
    apply list_elem_of_filter in Hin as [? ?]. by exists peer.
Qed.
Lemma absorb_app b evs evs' : absorb b (evs ++ evs') = absorb (absorb b evs) evs'.
Proof. apply foldl_app. Qed.

Lemma numbered_app b evs evs' : with_offsets b (evs ++ evs') = with_offsets b evs ++ with_offsets (absorb b evs) evs'.
Proof. revert b. induction evs as [|e evs IH]; intros b; simpl; [done|]. by rewrite IH. Qed.

Lemma abs_end_empty t : abs_end abs_empty t = 0%Z.
Proof using Type. unfold abs_end, abs_topic. cbn [abs_events abs_empty]. by rewrite lookup_empty. Qed.

(** No topic ends later than by the number of events pushed. *)
Lemma abs_end_push_le b topic e t : (abs_end (abs_push b topic e) t ≤ abs_end b t + 1)%Z.
Proof.
  destruct (decide (topic = t)) as [->|]; [by rewrite abs_end_push|]. rewrite abs_end_push_ne by done. lia.
Qed.

(** The events of a run of publishes. *)
Definition published (ops : list (Ctx * Client * Event)) : list Event := (λ '(_, _, e), e) <$> ops.

(** A run of publishes that all succeed: the log has the events in order, and
    those that a peer wants are queued for it, each once and in order. *)
Lemma publish_all_forwarded (W : string → Prop) `{!∀ t, Decision (W t)} ops evs q peers n n' a :
  log_rep (n_log n) a → rt_wf (n_rt n) →
  Forall (λ e, log_accepts (Topic e) e) (published ops) →
  (∀ t, abs_end a t + Z.of_nat (length ops) ≤ max_int64)%Z →
  GetConnectedPeers (n_link n) = Ok peers → peer_count q peers = 1 →
  (∀ e, W (Topic e) ↔ wanted n q e) →
  publish_all ops n = (Ok <$> evs, n') →
  evs = with_offsets a (published ops) ∧ log_rep (n_log n') (absorb a (published ops)) ∧ same_tables n n' ∧
  link_events (n_link n') q = link_events (n_link n) q ++ filter (λ e, W (Topic e)) evs.
Proof.
  intros Hlog Hwf Hacc Hend Hpeers Hq HW. revert evs n a Hlog Hwf Hacc Hend Hpeers HW.
  induction ops as [|[[ctx client] e] ops IH]; intros evs n a Hlog Hwf Hacc Hend Hpeers HW Hrun.
  { injection Hrun as Hevs <-. symmetry in Hevs. apply fmap_nil_inv in Hevs as ->.
    split_and!; [done|done|done|by rewrite app_nil_r]. }
  cbn [published fmap list_fmap] in Hacc. apply Forall_cons in Hacc as [Hacc1 Hacc].
  assert (abs_end a (Topic e) < max_int64)%Z as Hend1 by (specialize (Hend (Topic e)); simpl in Hend; lia).
  cbn [publish_all] in Hrun.
  pose proof (publish_cases ctx (Some client) (Some e) n a Hlog Hwf) as Hpub.
  specialize (Hpub ltac:(by intros ? [= <-])). pose proof (publish_connected ctx (Some client) (Some e) n) as Hcon.
  destruct (PublishEventWithResult ctx (Some client) (Some e) n) as [[r ctx1] n1]. cbn [snd] in Hcon.
  destruct (publish_all ops n1) as [rs n2] eqn:Hrest. injection Hrun as Hevs ->.
  destruct evs as [|ev evs]; [done|]. injection Hevs as -> ->.
  destruct Hpub as [(err & Herr & _)|(e' & local & remote & [= <-] & _ & Hlog1 & Hsame & [_ Hlink] & _ & _ & Hex)]; [done|].
  destruct (Hex ev eq_refl) as (-> & _ & Hrem).
  pose proof Hsame as (Hcfg & Hrt & Hcl & Hsub & Hps & Hst & Hclo & Hctl).
  assert (∀ x, W (Topic x) ↔ wanted n1 q x) as HW1 by (intros x; rewrite HW; symmetry; by apply wanted_tables).
  destruct (IH evs n1 (abs_push a (Topic e) e)) as (-> & Hlog2 & Hsame2 & Hlink2); [done|by rewrite Hrt|done| |by rewrite Hcon|done|done|].
  { intros t. pose proof (abs_end_push_le a (Topic e) e t). specialize (Hend t). simpl in Hend. lia. }
  split; [done|]. split; [done|]. split.
  { destruct Hsame2 as (? & ? & ? & ? & ? & ? & ? & Hctl2). repeat (split; [congruence|]). intros p. by rewrite Hctl2. }
  rewrite Hlink2, Hlink, Hrem, <-(assoc_L (++)). f_equal. rewrite filter_cons.
  assert (Decision (wanted n q e)) as Hdec by (destruct (decide (W (Topic e))); [left|right]; by rewrite <-HW).
  rewrite (peer_count_interested n q e peers) by done. cbn [Topic WithOffset].
  repeat case_decide; [done|exfalso; by apply HW in H0 || naive_solver..|done].
Qed.
End Publisher.

(** ** On the wire *)
Definition wire_event (w : WireMessage) : option WireEvent :=
  match w with PeerMessage_Event e => Some e | _ => None end.
Definition event_wire (e : Event) : WireEvent := mkWireEvent (Topic e) (Offset e) (Payload e) (Headers e).

(** An event as the other node receives it at a time. *)
Definition received_as (now : Z) (e : Event) : Event := eventFromProto now (event_wire e).

Lemma wires_events sent : omap wire_event (wires sent) = event_wire <$> omap event_of sent.
Proof.
  induction sent as [|m sent IH]; [done|]. unfold wires in *. cbn [omap list_omap].
  destruct m as [p [e|] t a|p i t a|p t a]; cbn; [by f_equal|done| |done].
  by destruct (controlMessageToProto i).
Qed.

(** ** The receiving side *)
Section Receiver.
Context {L : Type} `{!EventLog L, !EventLogSpec L, MO : !MapOrder} {NW : Network}.
Implicit Types m : MeshNode L GRPCPeerLink.

(** The events waiting for the consumer, and that it is registered. *)
Definition waiting_events (ech : nat) m : list Event :=
  match g_event_chans (n_link m) !! ech with Some c => ch_buf c | None => [] end.
Definition listening_events (ech : nat) m : Prop :=
  g_closed (n_link m) = false ∧ ech ∈ subscribers (n_link m) ∧
  ∃ c, g_event_chans (n_link m) !! ech = Some c ∧ ch_closed c = false ∧ ch_cap c = recv_chan_cap.

(** The consumer keeps up with the events. *)
Fixpoint keeps_up_events (ech ich : nat) (ops : list inbound_op) m : Prop :=
  match ops with
  | [] => True
  | op :: ops =>
    match op with Arrive _ _ => length (waiting_events ech m) < recv_chan_cap | _ => True end ∧
    keeps_up_events ech ich ops (inbound_step ech ich op m)
  end.

(** The events that arrive. *)
Definition arrived_events (now : Z) (ops : list inbound_op) : list Event :=
  eventFromProto now <$> omap wire_event (arrivals ops).

(** The contexts of the consumer's rounds are live. *)
Definition inbound_live (op : inbound_op) : Prop := match op with TakeEvent ctx => ctx_live ctx | _ => True end.

(** What the consumer does not touch. *)
Definition consumer_frame m m' : Prop :=
  n_config m' = n_config m ∧ n_rt m' = n_rt m ∧ n_clients m' = n_clients m ∧ n_subs m' = n_subs m ∧
  n_started m' = n_started m ∧ n_closed m' = n_closed m ∧
  g_now (n_link m') = g_now (n_link m) ∧ g_queues (n_link m') = g_queues (n_link m) ∧
  sendQueues (n_link m') = sendQueues (n_link m) ∧ controlQueues (n_link m') = controlQueues (n_link m).

Lemma consumer_frame_trans m1 m2 m3 : consumer_frame m1 m2 → consumer_frame m2 m3 → consumer_frame m1 m3.
Proof using Type. unfold consumer_frame. intuition congruence. Qed.

(** *** One step *)
Lemma arrive_frame peerID msg g :
  g_closed g = false →
  let g' := handle_received peerID msg g in
  g_closed g' = false ∧ subscribers g' = subscribers g ∧ g_now g' = g_now g ∧ g_queues g' = g_queues g ∧
  sendQueues g' = sendQueues g ∧ controlQueues g' = controlQueues g ∧
  g_event_chans g' = match wire_event msg with
                     | Some e => offer_all (eventFromProto (g_now g) e) (subscribers g) (g_event_chans g)
                     | None => g_event_chans g
                     end.
Proof using Type.
  intros Hc. unfold handle_received, markPeerSeen, distributeEvent, distributeInterestMessage.
  destruct msg as [h|e|topic offset|t|c|]; cbn; rewrite ?Hc; try done. destruct (interestMessageFromProto c); cbn; by rewrite ?Hc.
Qed.

Lemma arrive_event ech ich peerID msg m :
  listening_events ech m → length (waiting_events ech m) < recv_chan_cap →
  let m' := inbound_step ech ich (Arrive peerID msg) m in
  listening_events ech m' ∧ consumer_frame m m' ∧ n_log m' = n_log m ∧ n_heap m' = n_heap m ∧
  waiting_events ech m' = waiting_events ech m ++ arrived_events (g_now (n_link m)) [Arrive peerID msg].
Proof using Type.
  intros (Hcl & Hin & c & Hc & Hop & Hcap) Hroom. cbn [inbound_step].
  destruct (arrive_frame peerID msg (n_link m) Hcl) as (Hcl' & Hsub & Hnow & Hq & Hs1 & Hs2 & Hch).
  unfold listening_events, waiting_events, consumer_frame, arrived_events, arrivals in *.
  cbn [n_link with_link omap list_omap] in *. rewrite Hcl', Hsub, Hch. rewrite Hc in Hroom |- *.
  destruct (wire_event msg) as [e|]; cbn [omap list_omap fmap list_fmap].
  - rewrite (offer_all_listening _ _ _ _ c), Hcap, bool_decide_eq_true_2 by done. by split_and!; eauto.
  - rewrite Hc, app_nil_r. by split_and!; eauto.
Qed.

Lemma processInterest_frame message m :
  let m' := processIncomingInterestMessage message m in
  consumer_frame m m' ∧ n_log m' = n_log m ∧ n_heap m' = n_heap m ∧ n_link m' = n_link m.
Proof using Type.
  destruct message as [[[u|] s]|]; [|destruct s as [s|]|]; by repeat split.
Qed.

Lemma take_interest_frame ech ich m :
  listening_events ech m →
  let m' := inbound_step ech ich TakeInterest m in
  listening_events ech m' ∧ consumer_frame m m' ∧ n_log m' = n_log m ∧ n_heap m' = n_heap m ∧
  waiting_events ech m' = waiting_events ech m.
Proof using Type.
  intros Hl. cbn [inbound_step]. unfold handleIncomingControlPlaneMessages_round.
  destruct (chan_recv _) as [i c| |]; [|(split; [exact Hl|by repeat split])..]. cbn [snd]. set (m1 := with_link _ m).
  destruct (processInterest_frame (Some i) m1) as (Hf & Hlog & Hheap & Hlink).
  assert (consumer_frame m m1) as Hf1 by by repeat split.
  unfold listening_events, waiting_events. rewrite Hlink, Hlog, Hheap. cbn [n_link with_link with_chans g_event_chans g_closed subscribers].
  split; [exact Hl|]. split; [by eapply consumer_frame_trans|]. done.
Qed.
(** *** What the node is to have of a list of events *)

(** The events given to an address, when [subs] are the subscribers of a topic. *)
Definition handed (subs : string → list MeshSubscriber) (ref : nat) (b : AbsLog) (evs : list Event) : list Event :=
  with_offsets b evs ≫= λ e, replicate (deliver_count ref (subs (Topic e))) e.

Lemma handed_app subs ref b evs evs' :
  handed subs ref b (evs ++ evs') = handed subs ref b evs ++ handed subs ref (absorb b evs) evs'.
Proof using Type. unfold handed. by rewrite numbered_app, bind_app. Qed.

(** A running node on an open log that has all of these events still to take:
    they are acceptable to its log, and its clients can take them. *)
Record receiver_ready (ech : nat) m (b : AbsLog) (evs : list Event) : Prop := {
  rr_listen : listening_events ech m;
  rr_run : n_started m = true ∧ n_closed m = false;
  rr_log : log_rep (n_log m) b;
  rr_open : abs_closed b = false;
  rr_wf : rt_wf (n_rt m);
  rr_rt : rt_closed (n_rt m) = false;
  rr_subs e s : e ∈ evs → s ∈ matching m (Topic e) → sub_Type s = LocalClient → is_Some (deliver_ref s);
  rr_room ref : length (eventChan (object_at (n_heap m) ref)) + length (handed (matching m) ref b evs) ≤ client_chan_cap ∨
                handed (matching m) ref b evs = [];
  rr_accepts : Forall (λ e, Topic e ≠ ""%string ∧ log_accepts (Topic e) e) evs;
  rr_end t : (abs_end b t + Z.of_nat (length evs) ≤ max_int64)%Z
}.

(** The same node after steps that leave its log and its clients alone. *)
Lemma receiver_ready_frame ech m m' b evs :
  consumer_frame m m' → n_log m' = n_log m → n_heap m' = n_heap m → listening_events ech m' →
  receiver_ready ech m b evs → receiver_ready ech m' b evs.
Proof using Type.
  intros (_ & Hrt & _ & _ & Hst & Hcl & _) Hlog Hheap Hl [].
  split; unfold matching in *; rewrite ?Hrt, ?Hst, ?Hcl, ?Hlog, ?Hheap; eauto.
Qed.

Lemma room_of_ready ech m b e evs : receiver_ready ech m b (e :: evs) → room_for (n_heap m) (matching m (Topic e)).
Proof using Type.
  intros [_ _ _ _ _ _ Hsubs Hroom _ _]. split; [intros s; apply (Hsubs e); by left|]. intros ref.
  specialize (Hroom ref). unfold handed in Hroom. cbn [with_offsets mbind list_bind] in Hroom. cbn [Topic WithOffset] in Hroom.
  rewrite length_app, length_replicate in Hroom. destruct Hroom as [Hroom|Hroom]; [left; lia|right].
  apply app_nil in Hroom as [Hroom _]. by destruct (deliver_count ref (matching m (Topic e))).
Qed.

(** The consumer takes one event. *)
Lemma take_event ech ich ctx m b e rest later :
  receiver_ready ech m b (e :: rest ++ later) → waiting_events ech m = e :: rest → ctx_live ctx →
  let m' := inbound_step ech ich (TakeEvent ctx) m in
  receiver_ready ech m' (abs_push b (Topic e) e) (rest ++ later) ∧ consumer_frame m m' ∧ waiting_events ech m' = rest ∧
  ∀ ref, eventChan (object_at (n_heap m') ref) ≡ eventChan (object_at (n_heap m) ref) ++ handed (matching m) ref b [e].
Proof using All.
  intros Hr Hw Hlive. pose proof (room_of_ready _ _ _ _ _ Hr) as Hroom.
  destruct Hr as [(Hgc & Hin & c & Hc & Hop & Hcap) [Hst Hcl] Hlog Hopen Hwf Hrt Hsubs Hall Hacc Hend].
  unfold waiting_events in Hw. rewrite Hc in Hw. cbn [inbound_step]. unfold handleIncomingDataPlaneEvents_round.
  rewrite Hc. cbn [default from_option id]. unfold chan_recv. rewrite Hw, Hop. set (m1 := with_link _ m).
  apply Forall_cons in Hacc as [[Htopic Hacc1] Hacc].
  assert (abs_guard ctx (append_args (Topic e) (Some e)) b = None) as Hg
    by (unfold abs_guard, append_args; by rewrite (poll_live _ Hlive), bool_decide_eq_false_2, Hopen).
  pose proof (Hend (Topic e)) as Hend1. cbn [length] in Hend1.
  destruct (append_ok ctx (Topic e) e (n_log m) b Hlog Hg Hacc1 ltac:(lia)) as (log & Happ & Hlog').
  unfold processIncomingUserEvent, incoming_running, incoming_append, incoming_deliver. change (n_closed m1) with (n_closed m). change (n_started m1) with (n_started m).
  change (n_log m1) with (n_log m). rewrite Hcl, Hst, Happ. cbn [orb negb]. rewrite (poll_live _ Hlive). cbn [snd].
  change (n_rt (with_log log m1)) with (n_rt m).
  destruct (GetSubscribers_ok (n_rt m) (Topic e) Hrt) as (subs & -> & Hperm). cbn [snd].
  destruct (incoming_loop_spec (WithOffset e (abs_end b (Topic e))) subs (n_heap m)) as (count & Hd & _ & Hex).
  specialize (Hex (room_for_perm _ _ _ (symmetry Hperm) Hroom)).
  set (m' := with_heap _ _).
  assert (∀ ref, eventChan (object_at (n_heap m') ref) ≡ eventChan (object_at (n_heap m) ref) ++ handed (matching m) ref b [e]) as Hch.
  { intros ref. subst m'. cbn [n_heap with_heap with_log]. change (n_heap m1) with (n_heap m).
    rewrite (Hd ref), Hex. unfold handed. cbn [with_offsets mbind list_bind]. rewrite app_nil_r. cbn [Topic WithOffset].
    by rewrite (deliver_count_perm ref _ _ Hperm). }
  split; [|split; [by repeat split|split; [|exact Hch]]].
  2: { unfold waiting_events. cbn. by rewrite lookup_insert_eq. }
  split; try done.
  - split; [done|]. split; [done|]. cbn. rewrite lookup_insert_eq. by eexists.
  - intros e' s He'. apply Hsubs. by right.
  - intros ref. change (matching m') with (matching m). pose proof (length_equiv_length _ _ (Hch ref)) as Hlen.
    rewrite length_app in Hlen. change (e :: rest ++ later) with ([e] ++ rest ++ later) in Hall.
    specialize (Hall ref). rewrite handed_app in Hall. cbn [absorb foldl] in Hall.
    destruct Hall as [Hall|[_ Hall]%app_nil]; [|by right]. left. rewrite length_app in Hall. lia.
  - intros t. specialize (Hend t). pose proof (abs_end_push_le b (Topic e) e t). cbn [length] in Hend. lia.
Qed.
(** *** Runs *)

(** What a run has done when it has taken [taken]. *)
Definition absorbed (ech : nat) (b : AbsLog) (taken : list Event) m m' : Prop :=
  receiver_ready ech m' (absorb b taken) (waiting_events ech m') ∧ consumer_frame m m' ∧
  ∀ ref, eventChan (object_at (n_heap m') ref) ≡ eventChan (object_at (n_heap m) ref) ++ handed (matching m) ref b taken.

Lemma arrived_events_cons now op ops :
  arrived_events now (op :: ops) = arrived_events now [op] ++ arrived_events now ops.
Proof using Type.
  unfold arrived_events, arrivals. change (op :: ops) with ([op] ++ ops). by rewrite !omap_app, fmap_app.
Qed.

Lemma inbound_events_run ech ich ops m b :
  receiver_ready ech m b (waiting_events ech m ++ arrived_events (g_now (n_link m)) ops) →
  keeps_up_events ech ich ops m → Forall inbound_live ops →
  ∃ taken, taken ++ waiting_events ech (inbound_run ech ich ops m) =
             waiting_events ech m ++ arrived_events (g_now (n_link m)) ops ∧
    absorbed ech b taken m (inbound_run ech ich ops m).
Proof using All.
  intros Hr Hk Hlive. revert m b Hr Hk. induction Hlive as [|op ops Hop Hlive IH]; intros m b Hr Hk.
  { exists []. rewrite app_nil_r in *. split; [done|]. split; [exact Hr|]. split; [by repeat split|].
    intros ref. by rewrite app_nil_r. }
  destruct Hk as [Hroom Hk]. change (inbound_run ech ich (op :: ops) m) with (inbound_run ech ich ops (inbound_step ech ich op m)).
  rewrite arrived_events_cons in Hr |- *. set (m1 := inbound_step ech ich op m) in *.
  (* a step that takes no event *)
  assert (∀ new, arrived_events (g_now (n_link m)) [op] = new →
    listening_events ech m1 ∧ consumer_frame m m1 ∧ n_log m1 = n_log m ∧ n_heap m1 = n_heap m ∧
    waiting_events ech m1 = waiting_events ech m ++ new →
    ∃ taken, taken ++ waiting_events ech (inbound_run ech ich ops m1) =
      waiting_events ech m ++ arrived_events (g_now (n_link m)) [op] ++ arrived_events (g_now (n_link m)) ops ∧
    absorbed ech b taken m (inbound_run ech ich ops m1)) as Hquiet.
  { intros new <- (Hl & Hf & Hlog & Hheap & Hw). pose proof Hf as (_ & Hrt & _ & _ & _ & _ & Hnow & _).
    destruct (IH m1 b) as (taken & Htk & Hr' & Hf' & Hch); [|done|].
    { rewrite Hw, Hnow, <-(assoc_L (++)). by eapply receiver_ready_frame. }
    exists taken. rewrite Htk, Hw, Hnow, <-(assoc_L (++)). split; [done|]. split; [done|].
    split; [by eapply consumer_frame_trans|]. intros ref. rewrite (Hch ref), Hheap. unfold matching. by rewrite Hrt. }
  destruct op as [peerID msg|ctx|].
  - apply (Hquiet (arrived_events (g_now (n_link m)) [Arrive peerID msg])); [done|].
    apply arrive_event; [by destruct Hr|done].
  - destruct (waiting_events ech m) as [|e rest] eqn:Hw.
    + apply (Hquiet []); [done|]. rewrite app_nil_r. enough (m1 = m) as -> by (split; [by destruct Hr|by repeat split]).
      destruct Hr as [(_ & _ & c & Hc & Hopen & _) _ _ _ _ _ _ _ _ _]. unfold waiting_events in Hw. rewrite Hc in Hw.
      subst m1. cbn [inbound_step]. unfold handleIncomingDataPlaneEvents_round, chan_recv. rewrite Hc. cbn. by rewrite Hw, Hopen.
    + cbn [app] in Hr |- *. change (arrived_events _ [TakeEvent ctx]) with (@nil Event) in Hr |- *. cbn [app] in Hr |- *.
      destruct (take_event ech ich ctx m b e rest _ Hr Hw Hop) as (Hr1 & Hf & Hw1 & Hch1). fold m1 in Hr1, Hf, Hw1, Hch1.
      pose proof Hf as (_ & Hrt & _ & _ & _ & _ & Hnow & _). rewrite <-Hw1, <-Hnow in Hr1.
      destruct (IH m1 _ Hr1 Hk) as (taken & Htk & Hr' & Hf' & Hch). exists (e :: taken).
      cbn [app]. rewrite Htk, Hw1, Hnow. split; [done|]. split; [exact Hr'|]. split; [by eapply consumer_frame_trans|].
      intros ref. rewrite (Hch ref), (Hch1 ref), <-(assoc_L (++)).
      change (e :: taken) with ([e] ++ taken). rewrite (handed_app _ ref b [e]). unfold matching. by rewrite Hrt.
  - apply (Hquiet []); [done|]. rewrite app_nil_r. apply take_interest_frame. by destruct Hr.
Qed.

(** Taking everything that waits. *)
Lemma take_all_events ech ich ctx m b :
  receiver_ready ech m b (waiting_events ech m) → ctx_live ctx →
  let m' := inbound_run ech ich (replicate (length (waiting_events ech m)) (TakeEvent ctx)) m in
  waiting_events ech m' = [] ∧ absorbed ech b (waiting_events ech m) m m'.
Proof using All.
  intros Hr Hlive. remember (waiting_events ech m) as evs eqn:Hevs. revert m b Hevs Hr.
  induction evs as [|e evs IH]; intros m b Hevs Hr.
  { intros m'. change m' with m. unfold absorbed. rewrite <-Hevs. split; [done|]. split; [exact Hr|].
    split; [by repeat split|]. intros ref. by rewrite app_nil_r. }
  cbn [length replicate]. change (inbound_run ech ich (TakeEvent ctx :: ?l) m) with (inbound_run ech ich l (inbound_step ech ich (TakeEvent ctx) m)).
  assert (receiver_ready ech m b (e :: evs ++ [])) as Hr0 by by rewrite app_nil_r.
  destruct (take_event ech ich ctx m b e evs [] Hr0 (eq_sym Hevs) Hlive) as (Hr1 & Hf & Hw1 & Hch1). rewrite app_nil_r in Hr1.
  pose proof Hf as (_ & Hrt & _).
  destruct (IH _ _ (eq_sym Hw1) Hr1) as (Hw2 & Hr2 & Hf2 & Hch2). split; [done|]. split; [exact Hr2|].
  split; [by eapply consumer_frame_trans|]. intros ref.
  rewrite (Hch2 ref), (Hch1 ref), <-(assoc_L (++)). change (e :: evs) with ([e] ++ evs). rewrite (handed_app _ ref b [e]).
  unfold matching. by rewrite Hrt.
Qed.
End Receiver.

(** ** From one node to the other *)
Section AcrossNodes.
Context {L L' : Type} `{!EventLog L, !EventLogSpec L, !EventLog L', !EventLogSpec L', MO : !MapOrder} {NW : Network}.

(** The two ends of the way of a run of publishes.  The publishing node's view of
    a connected peer is that peer's interest, and no event is waiting for it.
    The peer runs on an open log with its event consumer listening; what was
    queued for it arrives in order, among any other messages and with its
    consumers taking messages at any time, and never finds ten events waiting. *)
Record delivery (n : MeshNode L GRPCPeerLink) (m : MeshNode L' GRPCPeerLink) (ops : list (Ctx * Client * Event))
    (evs : list Event) (n' : MeshNode L GRPCPeerLink) (a b : AbsLog) (ech ich : nat) (iops : list inbound_op) : Prop := {
  dl_log : log_rep (n_log n) a;
  dl_wf : rt_wf (n_rt n);
  dl_accepts : Forall (λ e, log_accepts (L := L) (Topic e) e) (published ops);
  dl_end t : (abs_end a t + Z.of_nat (length ops) ≤ max_int64)%Z;
  dl_peers : ∃ peers, GetConnectedPeers (n_link n) = Ok peers ∧ peer_count (cfg_NodeID (n_config m)) peers = 1;
  dl_idle : link_events (n_link n) (cfg_NodeID (n_config m)) = [];
  dl_tables : tables_agree m;
  dl_view : view n (cfg_NodeID (n_config m)) = interest m;
  dl_empty : waiting_events ech m = [];
  dl_arrive : omap wire_event (arrivals iops) =
              omap wire_event (wires (pending dataPlaneMessage (cfg_NodeID (n_config m)) (n_link n')));
  dl_keeps : keeps_up_events ech ich iops m;
  dl_live : Forall inbound_live iops;
  dl_ready : receiver_ready ech m b (received_as (g_now (n_link m)) <$> filter (λ e, matching m (Topic e) ≠ []) evs)
}.

(** The receiving node when its consumer has taken what waits. *)
Definition taken_all (ech ich : nat) (iops : list inbound_op) (ctx : Ctx) (m : MeshNode L' GRPCPeerLink) : MeshNode L' GRPCPeerLink :=
  let m1 := inbound_run ech ich iops m in
  inbound_run ech ich (replicate (length (waiting_events ech m1)) (TakeEvent ctx)) m1.

Lemma delivery_reaches n m ops evs n' a b ech ich iops ctx :
  delivery n m ops evs n' a b ech ich iops → publish_all ops n = (Ok <$> evs, n') → ctx_live ctx →
  let got := received_as (g_now (n_link m)) <$> filter (λ e, matching m (Topic e) ≠ []) (with_offsets a (published ops)) in
  let m' := taken_all ech ich iops ctx m in
  evs = with_offsets a (published ops) ∧ log_rep (n_log n') (absorb a (published ops)) ∧
  log_rep (n_log m') (absorb b got) ∧ waiting_events ech m' = [] ∧ consumer_frame m m' ∧
  ∀ ref, eventChan (object_at (n_heap m') ref) ≡ eventChan (object_at (n_heap m) ref) ++ handed (matching m) ref b got.
Proof using All.
  intros [Hlog Hwf Hacc Hend (peers & Hpeers & Hq) Hidle Htables Hview Hempty Harrive Hkeeps Hlive Hready] Hpublish Hctx got m'.
  unfold taken_all in m'. set (m1 := inbound_run ech ich iops m) in m'.
  assert (∀ e, matching m (Topic e) ≠ [] ↔ wanted n (cfg_NodeID (n_config m)) e) as HW.
  { intros e. unfold wanted. rewrite (interested_eq _ _ _ Hpeers). split.
    - intros Hne. assert (∃ peer, peer ∈ peers ∧ peer_ID peer = cfg_NodeID (n_config m)) as (peer & Hin & Hid).
      { unfold peer_count in Hq. destruct (filter _ peers) as [|peer l] eqn:Hf; [done|]. exists peer.
        assert (peer ∈ filter (λ peer, peer_ID peer = cfg_NodeID (n_config m)) peers) as Hin by (rewrite Hf; by left).
        apply list_elem_of_filter in Hin. tauto. }
      exists peer. split; [|done]. by apply (interested_iff m n peers peer (Topic e) Htables).
    - intros (peer & Hin & Hid). apply (interested_iff m n peers peer (Topic e) Htables); [|done..].
      unfold getInterestedPeers in Hin. by apply list_elem_of_filter in Hin as [_ ?]. }
  destruct (publish_all_forwarded (λ t, matching m t ≠ []) ops evs _ peers n n' a Hlog Hwf Hacc Hend Hpeers Hq HW Hpublish)
    as (-> & Hlog' & _ & Hlink). rewrite Hidle in Hlink. cbn [app] in Hlink. fold got in Hready.
  assert (arrived_events (g_now (n_link m)) iops = got) as Harr.
  { unfold arrived_events. rewrite Harrive, wires_events. subst got. unfold received_as.
    change (omap event_of (pending dataPlaneMessage (cfg_NodeID (n_config m)) (n_link n'))) with
      (link_events (n_link n') (cfg_NodeID (n_config m))). by rewrite Hlink, <-list_fmap_compose. }
  destruct (inbound_events_run ech ich iops m b) as (taken & Htk & Hr1 & Hf1 & Hch1); [by rewrite Hempty, Harr|done..|].
  rewrite Hempty, Harr in Htk. cbn [app] in Htk. fold m1 in Htk, Hr1, Hf1, Hch1.
  destruct (take_all_events ech ich ctx m1 _ Hr1 Hctx) as (Hw & Hr2 & Hf2 & Hch2). fold m' in Hw, Hr2, Hf2, Hch2.
  split; [done|]. split; [done|]. rewrite <-absorb_app, Htk in Hr2. split; [by destruct Hr2|]. split; [done|].
  split; [by eapply consumer_frame_trans|].
  intros ref. rewrite (Hch2 ref), (Hch1 ref), <-(assoc_L (++)), <-Htk, handed_app.
  destruct Hf1 as (_ & Hrt & _). unfold matching. by rewrite Hrt.
Qed.

(** C6: an event published on one node reaches the subscribers of another, all
    the way, once and in order.  Let a run of publishes succeed on a node whose
    view of a connected peer is that peer's interest, with no event waiting for
    it.  Let the peer run on an open log with its event consumer listening, let
    what was queued for it arrive in order - among any other messages, and with
    its consumers taking messages at any time - and never find ten events
    waiting.  Then, once the consumer has taken what waits, the peer's log has
    got exactly those published events that one of its subscriptions matches, in
    the order of publishing and numbered by its own offsets; each of its clients
    has been handed exactly its share of them, once per matching pattern; and it
    has passed none of them on to anybody. *)
Theorem events_across_nodes (n : MeshNode L GRPCPeerLink) (m : MeshNode L' GRPCPeerLink)
    (ops : list (Ctx * Client * Event)) (evs : list Event) (n' : MeshNode L GRPCPeerLink)
    (a b : AbsLog) (ech ich : nat) (iops : list inbound_op) (ctx : Ctx)
    (Hpath : delivery n m ops evs n' a b ech ich iops) (Hpublish : publish_all ops n = (Ok <$> evs, n')) (Hctx : ctx_live ctx) :
  let got := received_as (g_now (n_link m)) <$> filter (λ e, matching m (Topic e) ≠ []) (with_offsets a (published ops)) in
  let m' := taken_all ech ich iops ctx m in
  evs = with_offsets a (published ops) ∧ log_rep (n_log n') (absorb a (published ops)) ∧
  log_rep (n_log m') (absorb b got) ∧ waiting_events ech m' = [] ∧
  (∀ ref, eventChan (object_at (n_heap m') ref) ≡ eventChan (object_at (n_heap m) ref) ++ handed (matching m) ref b got) ∧
  ∀ q, link_events (n_link m') q = link_events (n_link m) q.
Proof using All.
  intros got m'. destruct (delivery_reaches n m ops evs n' a b ech ich iops ctx Hpath Hpublish Hctx)
    as (? & ? & ? & ? & (_ & _ & _ & _ & _ & _ & _ & Hq1 & Hq2 & Hq3) & ?).
  do 5 (split; [done|]). intros q. fold m' in Hq1, Hq2, Hq3.
  cbn [link_events GRPCPeerLink_spec]. unfold pending, peer_queue, queue_map. by rewrite Hq1, Hq2.
Qed.
End AcrossNodes.
