(* ===== verification/LinkWitness.v ===== *)
(** * A concrete peer link, and the link's theorems at it

    A link connected to one peer over a network that refuses one address, and a
    node that runs on it: the hypotheses of the theorems of [LinkInvariant.v], [StreamRuns.v],
    [LinkBehaviour.v], [LinkGossip.v], [Inbound.v] and [Delivery.v] hold together. *)
From S2P Require Import Prelude Topics EventLog MemoryLog RoutingTable Peers Clients MeshNode NodePublish.
From S2P Require Import NodeSubs Gossip NodeWitness PeerMessages GRPCLink LinkLifecycle LinkStreams.
From S2P Require Import LinkSpec LinkInvariant LinkBehaviour StreamRuns LinkGossip Inbound Delivery.

#[local] Existing Instance map_order_id.

Definition err_bad_address : error := ErrNew "invalid address".

#[local] Instance sample_network : Network := {|
  net_Listen addr := Ok addr;
  grpc_NewClient addr := if bool_decide (addr = "bad"%string) then Some err_bad_address else None
|}.

Definition link_config : LinkConfig := mkLinkConfig "A" "localhost:9090" 0 0 0 0 0 0.

Definition new_link : GRPCPeerLink :=
  mkGRPCPeerLink (lc_SetDefaults link_config) false false None ∅ ∅ ∅ ∅ ∅ ∅ ∅ ∅ None None false ∅ ∅ ∅ ∅ ∅ 0 0.

Lemma new_link_new : NewGRPCPeerLink link_config 0 = Ok new_link.
Proof. reflexivity. Qed.

Lemma new_link_wf : link_wf new_link.
Proof. apply (link_wf_new link_config 0); [exact new_link_new|done]. Qed.

(** Connected to [peer_B], with one event and one control message waiting. *)
Definition link_B : GRPCPeerLink := (grpc_Connect peer_B new_link).2.
Definition busy_link : GRPCPeerLink :=
  (grpc_SendInterestUpdate ctx_Background "B" (mkUpdate "A" "subscribe" "orders.*")
     (grpc_SendEvent ctx_Background "B" created_event link_B).2).2.

Lemma link_B_wf : link_wf link_B.
Proof. apply wf_Connect, new_link_wf. Qed.

Lemma send_ok_wf full ctx plane peerID m g :
  link_wf g → planeForMessage m = plane → PeerID m = peerID → SendAttempts m = 0%Z →
  link_wf (send_message full ctx plane peerID m g).2.
Proof.
  intros Hwf Hp Hq Ha. unfold send_message. destruct (lookup_queue _ _ _); [|done..]. apply wf_offer; [done|].
  pose proof (wf_attempts _ Hwf). split_and!; done || lia.
Qed.

Lemma busy_link_wf : link_wf busy_link.
Proof. do 2 (apply send_ok_wf; [|done..]). exact link_B_wf. Qed.

Lemma link_invariant_witness : length (pending controlPlaneMessage "B" busy_link) ≤ 100.
Proof.
  apply (link_invariant link_config 0 new_link busy_link).
  - exact new_link_new.
  - reflexivity.
  - eapply rtc_l; [exact (step_connect peer_B new_link)|].
    eapply rtc_l; [exact (step_offer "send queue full - message dropped" ctx_Background dataPlaneMessage "B" 0
      (DataPlaneMessage "B" (Some created_event) 0 0) link_B eq_refl eq_refl eq_refl)|].
    eapply rtc_once.
    exact (step_offer "send queue full - interest message dropped" ctx_Background controlPlaneMessage "B" 1
      (ControlPlaneMsg "B" (Some (update_message (mkUpdate "A" "subscribe" "orders.*"))) 0 0) _ eq_refl eq_refl eq_refl).
Defined.

Lemma send_accepted_iff_witness :
  (send_message "full" ctx_Background dataPlaneMessage "B" (DataPlaneMessage "B" (Some created_event) 0 0) link_B).1.1
    = Ok () ↔ g_closed link_B = false ∧ (poll ctx_Background).1 = None ∧ queue_accepts dataPlaneMessage "B" link_B.
Proof.
  pose proof (send_accepted_iff "full" ctx_Background dataPlaneMessage "B"
    (DataPlaneMessage "B" (Some created_event) 0 0) link_B link_B_wf) as H.
  destruct (send_message _ _ _ _ _ _) as [[r ctx'] g']. apply H.
Defined.

Definition bad_peer : PeerNode := mkPeerNode "C" "bad".

Lemma connect_failure_leaves_peer_witness : (grpc_Connect bad_peer link_B).1 = Err err_bad_address.
Proof.
  pose proof (connect_failure_leaves_peer bad_peer link_B err_bad_address eq_refl eq_refl eq_refl eq_refl) as H.
  destruct (grpc_Connect bad_peer link_B) as [r g']. apply H.
Defined.

Definition refused_attempt : Attempt :=
  mkAttempt (Some (ErrNew "connection refused")) None (Err (ErrNew "unavailable")) (λ g, (Ok true, g)).

(** Two attempts, with an event queued for the peer in between. *)
Definition queued_B : GRPCPeerLink :=
  (offer "full" ctx_Background dataPlaneMessage "B" 0 (DataPlaneMessage "B" (Some created_event) 0 0) link_B).2.

Lemma refused_unreached : unreached refused_attempt.
Proof. split; [done|by left]. Qed.

Lemma refused_once k e delays g g' : g_closed g = false →
  outbound_run "B" unreached 0 g k e delays g' → outbound_run "B" unreached 0 g (S k) e delays g'.
Proof.
  intros Hopen Hrun. apply (run_retries _ _ _ _ refused_attempt true g g g); [apply rtc_refl|exact Hopen|apply rtc_refl| | | |exact Hrun].
  - exact refused_unreached.
  - apply unreached_attempt, refused_unreached.
  - reflexivity.
Qed.

Lemma refused_other k e delays g1 g2 g' : rtc link_step g1 g2 →
  outbound_run "B" unreached 0 g2 (S k) e delays g' → outbound_run "B" unreached 0 g1 (S k) e delays g'.
Proof.
  intros Hs Hrun. inversion Hrun; subst; clear Hrun.
  - eapply run_retries; [by etrans|done..].
  - eapply run_waits; [by etrans|done..].
  - eapply run_gives_up; [by etrans|done..].
  - eapply run_panics; [by etrans|done..].
Qed.

Lemma refused_twice : outbound_run "B" unreached 0 link_B 2 ExitRunning [] queued_B.
Proof.
  apply refused_once; [reflexivity|]. apply (refused_other _ _ _ _ queued_B).
  - apply rtc_once. exact (step_offer "full" ctx_Background dataPlaneMessage "B" 0 (DataPlaneMessage "B" (Some created_event) 0 0) link_B eq_refl eq_refl eq_refl).
  - apply refused_once; [reflexivity|]. apply run_goes_on, rtc_refl.
Qed.

Lemma unreachable_peer_retried_forever_witness :
  GetPeerHealth "B" (markSilentPeersUnhealthy (100 * time_Second) queued_B) = (PeerUnhealthy, None) ∧
  outbound_run "B" unreached 0 link_B 102 ExitRunning [] (markSilentPeersUnhealthy (100 * time_Second) queued_B).
Proof.
  destruct (unreachable_peer_retried_forever "B" 0 link_B queued_B 2 ExitRunning [] refused_twice) as (_ & _ & _ & H).
  destruct (H eq_refl eq_refl 100) as [_ Hsilent].
  by eapply (Hsilent _ 0%Z); [by vm_compute..|].
Defined.

Lemma superseded_stream_marks_disconnected_witness :
  GetPeerHealth "B" (EventStream_cleanup "B" 7
    (EventStream_register 8 (Ok (PeerMessage_Handshake (mkHandshake "B" 100)))
       (EventStream_register 7 (Ok (PeerMessage_Handshake (mkHandshake "B" 100))) new_link).2).2) = (PeerDisconnected, None).
Proof.
  apply (superseded_stream_marks_disconnected "B" 7 8 (mkHandshake "B" 100) new_link 0 eq_refl); done.
Defined.

Lemma disconnect_during_send_panics_witness :
  (offer "full" ctx_Background dataPlaneMessage "B" 0 (HeartbeatMsg "B" 0 0) (Disconnect "B" link_B).2).1.1 =
  Panic send_on_closed.
Proof.
  rewrite (disconnect_during_send_panics "full" ctx_Background dataPlaneMessage "B" 0 (HeartbeatMsg "B" 0 0) link_B
    link_B_wf); reflexivity.
Defined.

Lemma send_failure_accounting_witness :
  (handleSendFailure "B" (DataPlaneMessage "B" (Some created_event) 0 3) (dataPlaneMessage, "B"%string, 0) link_B).1 = Ok ().
Proof.
  pose proof (send_failure_accounting "B" (DataPlaneMessage "B" (Some created_event) 0 3)
    (dataPlaneMessage, "B"%string, 0) (make_chan 100) (new_metrics 0) link_B link_B_wf) as H.
  destruct (handleSendFailure "B" _ _ _) as [r g'].
  rewrite decide_False in H by (vm_compute; intuition congruence).
  apply H; [|reflexivity|reflexivity]. split; [done|]. split; [done|]. vm_compute. split; discriminate.
Defined.

Lemma heartbeat_detects_silence_witness :
  GetPeerHealth "B" (markSilentPeersUnhealthy (15 * time_Second)
    (handle_received "B" (PeerMessage_Heartbeat 0) link_B)) = (PeerUnhealthy, None).
Proof.
  apply (heartbeat_detects_silence "B" (PeerMessage_Heartbeat 0) (new_metrics 0) link_B (15 * time_Second));
    [reflexivity|reflexivity|by vm_compute|by vm_compute].
Defined.

Lemma drain_in_order_witness :
  (drain 5 "B" busy_link).1 =
    [ControlPlaneMsg "B" (Some (update_message (mkUpdate "A" "subscribe" "orders.*"))) 0 0;
     DataPlaneMessage "B" (Some created_event) 0 0].
Proof.
  pose proof (drain_in_order 5 "B" busy_link busy_link_wf) as H.
  destruct (drain 5 "B" busy_link) as [sent g'].
  destruct H as (-> & _); [by eexists|by eexists|reflexivity].
Defined.

(** A node on the link. *)
Definition linked_node : MeshNode InMemoryEventLog GRPCPeerLink :=
  mkMeshNode (NewConfig "A" "localhost:9090") NewInMemoryEventLog NewInMemoryRoutingTable link_B
    ∅ true false (Some 0) [0] ∅ ∅ ∅ no_counters.

Lemma linked_room k : k ≤ 100 → link_room "B" [peer_B] k link_B.
Proof.
  intros Hk. split; [exact link_B_wf|]. split; [reflexivity|]. split; [reflexivity|].
  exists (make_chan 100). split; [reflexivity|]. split; [reflexivity|]. simpl. lia.
Qed.

Lemma linked_fresh : run_fresh sample_sub_ops linked_node.
Proof. repeat (apply conj; [vm_compute; first [done | by repeat split]|]). done. Qed.

Lemma gossip_over_the_link_witness :
  view (receive_all (over_the_wire 9 (pending controlPlaneMessage "B" (n_link (sub_run sample_sub_ops linked_node))))
          (new_node "B" [])) "A" = interest (sub_run sample_sub_ops linked_node).
Proof.
  apply (gossip_over_the_link linked_node (new_node "B" []) sample_sub_ops "B" [peer_B] 9).
  - apply linked_room. simpl. lia.
  - vm_compute. lia.
  - reflexivity.
  - by repeat constructor.
  - by apply tables_agree_new.
  - apply linked_fresh.
  - reflexivity.
Defined.

(** A node that receives what it sends. *)
Definition starting_node : MeshNode InMemoryEventLog GRPCPeerLink :=
  mkMeshNode (NewConfig "B" "localhost:9091") NewInMemoryEventLog NewInMemoryRoutingTable new_link
    ∅ true false (Some 0) [0] ∅ ∅ ∅ no_counters.
Definition receiving_node : MeshNode InMemoryEventLog GRPCPeerLink := (handleIncomingControlPlaneMessages_start starting_node).2.

Definition sample_wires : list WireMessage :=
  wires (pending controlPlaneMessage "B" (n_link (sub_run sample_sub_ops linked_node))).
Definition sample_inbound : list inbound_op :=
  (sample_wires ≫= λ w, [Arrive "A" (PeerMessage_Heartbeat 7); Arrive "A" w]) ++ [TakeInterest; TakeEvent ctx_Background].

Lemma gossip_across_nodes_witness :
  view (inbound_run 1 0 (replicate (length (waiting 0 (inbound_run 1 0 sample_inbound receiving_node))) TakeInterest)
          (inbound_run 1 0 sample_inbound receiving_node)) "A" = interest (sub_run sample_sub_ops linked_node).
Proof.
  apply (gossip_across_nodes linked_node receiving_node sample_sub_ops "B" [peer_B] 1 0 sample_inbound).
  - apply linked_room. simpl. lia.
  - vm_compute. lia.
  - reflexivity.
  - by repeat constructor.
  - by apply tables_agree_new.
  - apply linked_fresh.
  - reflexivity.
  - by apply (start_listening starting_node 0 receiving_node).
  - reflexivity.
  - vm_compute. reflexivity.
  - vm_compute. repeat (split; [try lia|]). exact I.
Defined.

(** The eleventh message in a row is lost: the view keeps a topic that its node
    has given up. *)
Definition update_wire (action topic : string) : WireMessage :=
  PeerMessage_ControlPlane (ControlPlaneMessage_InterestUpdate (mkUpdate "A" action topic)).
Definition eleven_updates : list inbound_op :=
  replicate 10 (Arrive "A" (update_wire "subscribe" "orders.*")) ++ [Arrive "A" (update_wire "unsubscribe" "orders.*")] ++
  replicate 11 TakeInterest.

Example eleventh_update_lost : view (inbound_run 1 0 eleven_updates receiving_node) "A" = {["orders.*"%string]}.
Proof. vm_compute. reflexivity. Qed.

(** A node with a subscriber whose event consumer has started, and a publisher
    that knows of the subscription. *)
Definition subscriber_node : MeshNode InMemoryEventLog GRPCPeerLink :=
  sub_run [OpSubscribe ctx_Background 1 2 (Some carol) "orders.*"] (handleIncomingDataPlaneEvents_start starting_node).2.
Definition publisher_node : MeshNode InMemoryEventLog GRPCPeerLink :=
  processIncomingInterestMessage (Some (update_message (mkUpdate "B" "subscribe" "orders.*"))) linked_node.

Definition sample_publishes : list (Ctx * Client * Event) :=
  [(ctx_Background, dave, created_event);
   (ctx_Background, dave, NewEvent 3 "users.created" (Some []));
   (ctx_Background, dave, NewEvent 4 "orders.paid" None)].

Definition sample_event_wires : list WireMessage :=
  wires (pending dataPlaneMessage "B" (n_link (publish_all sample_publishes publisher_node).2)).
Definition sample_event_inbound : list inbound_op :=
  (sample_event_wires ≫= λ w, [Arrive "A" (PeerMessage_Heartbeat 7); TakeInterest; Arrive "A" w]) ++ [TakeEvent ctx_Background].

Definition subscriber_end : MeshNode InMemoryEventLog GRPCPeerLink :=
  let m1 := inbound_run 0 1 sample_event_inbound subscriber_node in
  inbound_run 0 1 (replicate (length (waiting_events 0 m1)) (TakeEvent ctx_Background)) m1.

Lemma subscriber_agree : tables_agree subscriber_node.
Proof. apply sub_run_agree; [by repeat split|]. by apply tables_agree_new. Qed.

Definition sample_persisted : list Event := with_offsets abs_empty (published sample_publishes).
Definition sample_got : list Event :=
  received_as (g_now (n_link subscriber_node)) <$> filter (λ e, matching subscriber_node (Topic e) ≠ []) sample_persisted.

Lemma subscriber_ready : receiver_ready 0 subscriber_node abs_empty sample_got.
Proof.
  split.
  - split; [reflexivity|]. split; [vm_compute; set_solver|]. by exists (make_chan recv_chan_cap).
  - by split.
  - apply mem_rep_new.
  - reflexivity.
  - apply subscriber_agree.
  - reflexivity.
  - intros e s _ Hs _. unfold matching, at_matching in Hs. apply list_elem_of_fmap in Hs as ([key s'] & -> & Hs).
    apply elem_of_map_to_list, map_lookup_filter_Some in Hs as [Hs _].
    assert (map_Forall (λ _ s, is_Some (deliver_ref s)) (flat (rt_subscriptions (n_rt subscriber_node)))) as Hall
      by (by apply (bool_decide_unpack _); vm_compute). exact (Hall key s' Hs).
  - intros [|ref]; [left; apply Nat.leb_le; by vm_compute|by right].
  - repeat constructor; done.
  - intros t. rewrite abs_end_empty. by vm_compute.
Qed.

Lemma sample_run_publishes : publish_all sample_publishes publisher_node = (Ok <$> sample_persisted, (publish_all sample_publishes publisher_node).2).
Proof. vm_compute. reflexivity. Qed.

Lemma sample_wires_arrive :
  omap wire_event (arrivals sample_event_inbound) =
  omap wire_event (wires (pending dataPlaneMessage (cfg_NodeID (n_config subscriber_node))
    (n_link (publish_all sample_publishes publisher_node).2))).
Proof. by vm_compute. Qed.

Lemma sample_keeps_up : keeps_up_events 0 1 sample_event_inbound subscriber_node.
Proof. vm_compute. repeat (split; [try lia|]). exact I. Qed.

Lemma sample_view : view publisher_node (cfg_NodeID (n_config subscriber_node)) = interest subscriber_node.
Proof. by vm_compute. Qed.

Lemma sample_delivery :
  delivery publisher_node subscriber_node sample_publishes sample_persisted (publish_all sample_publishes publisher_node).2
    abs_empty abs_empty 0 1 sample_event_inbound.
Proof.
  split; [apply mem_rep_new|apply rt_wf_new|by repeat constructor| | | |exact subscriber_agree|
    exact sample_view| |exact sample_wires_arrive|exact sample_keeps_up| |exact subscriber_ready].
  - intros t. rewrite abs_end_empty. by vm_compute.
  - exists [peer_B]. by split; vm_compute.
  - by vm_compute.
  - by vm_compute.
  - by vm_compute; repeat constructor.
Qed.

Lemma events_across_nodes_witness :
  eventChan (object_at (n_heap subscriber_end) 0) ≡
  eventChan (object_at (n_heap subscriber_node) 0) ++ handed (matching subscriber_node) 0 abs_empty sample_got.
Proof.
  destruct (events_across_nodes publisher_node subscriber_node sample_publishes sample_persisted
    (publish_all sample_publishes publisher_node).2 abs_empty abs_empty 0 1 sample_event_inbound ctx_Background)
    as (_ & _ & _ & _ & Hch & _); [exact sample_delivery|exact sample_run_publishes|done|exact (Hch 0)].
Defined.

Example carol_has_orders :
  (λ e, (Topic e, Offset e, Payload e)) <$> eventChan (object_at (n_heap subscriber_end) 0) =
  [("orders.created"%string, 0%Z, Some ["x"%char]); ("orders.paid"%string, 0%Z, Some [])].
Proof. vm_compute. reflexivity. Qed.

(** B opens a stream, its subscription arrives, one event goes out to it and the
    stream breaks; and a second stream whose response cannot be sent. *)
Definition hello_B : outcome WireMessage := Ok (PeerMessage_Handshake (mkHandshake "B" 100)).
Definition err_broken : error := ErrNew "stream broken".
Definition stream_1 : GRPCPeerLink := (EventStream_register 1 hello_B new_link).2.
Definition queue_B (plane : peerMessagePlane) : option QueueRef := queue_ref plane "B" stream_1.

Lemma stream_1_runs : ∃ g', EventStream 1 hello_B None new_link (Err err_broken) g'.
Proof.
  set (msg := PeerMessage_Heartbeat 5). eexists.
  eapply (stream_served 1 hello_B None new_link "B" (queue_B controlPlaneMessage) (queue_B dataPlaneMessage) None (Some err_broken) (λ _, None)
    (Err err_broken) stream_1 stream_1 (handle_received "B" msg stream_1) (handle_received "B" msg stream_1)).
  - reflexivity.
  - apply rtc_refl.
  - reflexivity.
  - eapply rtc_l; [apply serve_receive|]. apply rtc_once, serve_receive_error.
  - vm_compute. by left.
Qed.

Lemma inbound_stream_lifecycle_witness :
  (∃ g', EventStream 1 hello_B None new_link (Err err_broken) g' ∧ link_wf g' ∧
     ∀ conn, connections g' !! "B"%string = Some conn → ci_stream conn ≠ Some 1) ∧
  EventStream 1 hello_B (Some err_broken) new_link (Err err_broken) stream_1 ∧
  GetPeerHealth "B" stream_1 = (PeerHealthy, None) ∧ connections stream_1 !! "B"%string = Some (inbound_connection "B" 1).
Proof.
  split.
  - destruct stream_1_runs as [g' Hrun]. exists g'. split; [exact Hrun|].
    destruct (inbound_stream_lifecycle 1 hello_B None new_link g' _ Hrun new_link_wf) as (Hwf & _ & Hgone & _). by split.
  - assert (EventStream 1 hello_B (Some err_broken) new_link (Err err_broken) stream_1) as Hrun
      by (eapply (stream_unanswered 1 hello_B (Some err_broken) new_link "B"); [reflexivity|apply rtc_refl|reflexivity]).
    destruct (inbound_stream_lifecycle 1 hello_B (Some err_broken) new_link stream_1 _ Hrun new_link_wf)
      as (_ & _ & _ & _ & Hc & _ & Hh).
    split; [exact Hrun|]. split; [exact (Hh eq_refl)|exact Hc].
Defined.
