(* ===== verification/Utf8.v ===== *)
(** * UTF-8 text

    The parts of Go's [unicode/utf8] and [strings] that the HTTP layer relies
    on.  [range]ing over a Go string decodes it rune by rune; a byte that does
    not begin a valid encoding is a rune of its own ([utf8.RuneError] of size
    one).  [runes] is that decoding: it keeps the bytes of each rune. *)
From S2P Require Import Prelude.

(** ** Decoding *)
Inductive rune :=
  | RuneASCII (c : ascii)
  | RuneMulti (b : bytes)
  | RuneBad (c : ascii).

#[export] Instance rune_eq_dec : EqDecision rune.
Proof. solve_decision. Defined.

Definition code (c : ascii) : Z := Z.of_N (N_of_ascii c).
Definition between (lo hi : Z) (c : ascii) : bool := (lo <=? code c)%Z && (code c <=? hi)%Z.
Definition is_ascii (c : ascii) : bool := (code c <? 128)%Z.
Definition continuation : ascii → bool := between 128 191.

(** The valid encodings of two, three and four bytes (the [first] and
    [acceptRanges] tables of [unicode/utf8]). *)
Definition valid2 (b0 b1 : ascii) : bool := between 194 223 b0 && continuation b1.
Definition valid3 (b0 b1 b2 : ascii) : bool :=
  (between 224 224 b0 && between 160 191 b1 ||
   between 225 236 b0 && continuation b1 ||
   between 237 237 b0 && between 128 159 b1 ||
   between 238 239 b0 && continuation b1) && continuation b2.
Definition valid4 (b0 b1 b2 b3 : ascii) : bool :=
  (between 240 240 b0 && between 144 191 b1 ||
   between 241 243 b0 && continuation b1 ||
   between 244 244 b0 && between 128 143 b1) && continuation b2 && continuation b3.

Fixpoint runes (b : bytes) : list rune :=
  match b with
  | [] => []
  | b0 :: r0 =>
    if is_ascii b0 then RuneASCII b0 :: runes r0
    else match r0 with
    | b1 :: r1 =>
      if valid2 b0 b1 then RuneMulti [b0; b1] :: runes r1
      else match r1 with
      | b2 :: r2 =>
        if valid3 b0 b1 b2 then RuneMulti [b0; b1; b2] :: runes r2
        else match r2 with
        | b3 :: r3 =>
          if valid4 b0 b1 b2 b3 then RuneMulti [b0; b1; b2; b3] :: runes r3
          else RuneBad b0 :: runes r0
        | [] => RuneBad b0 :: runes r0
        end
      | [] => RuneBad b0 :: runes r0
      end
    | [] => RuneBad b0 :: runes r0
    end
  end.

Definition rune_bytes (r : rune) : bytes :=
  match r with RuneASCII c | RuneBad c => [c] | RuneMulti b => b end.

(** [utf8.AppendRune] of a code point (which is not a surrogate). *)
Definition byte_of (z : Z) : ascii := ascii_of_N (Z.to_N z).
Definition AppendRune (r : Z) : bytes :=
  if (r <? 0x80)%Z then [byte_of r]
  else if (r <? 0x800)%Z then
    [byte_of (Z.lor 0xC0 (Z.shiftr r 6)); byte_of (Z.lor 0x80 (Z.land r 0x3F))]
  else if (r <? 0x10000)%Z then
    [byte_of (Z.lor 0xE0 (Z.shiftr r 12)); byte_of (Z.lor 0x80 (Z.land (Z.shiftr r 6) 0x3F));
     byte_of (Z.lor 0x80 (Z.land r 0x3F))]
  else
    [byte_of (Z.lor 0xF0 (Z.shiftr r 18)); byte_of (Z.lor 0x80 (Z.land (Z.shiftr r 12) 0x3F));
     byte_of (Z.lor 0x80 (Z.land (Z.shiftr r 6) 0x3F)); byte_of (Z.lor 0x80 (Z.land r 0x3F))].

(** [utf8.RuneError], U+FFFD. *)
Definition replacement : bytes := AppendRune 0xFFFD.

(** What is left of a text that passes through a decoder and an encoder: every
    invalid byte becomes U+FFFD. *)
Definition fix_rune (r : rune) : rune :=
  match r with RuneBad _ => RuneMulti replacement | _ => r end.
Definition to_valid (b : bytes) : bytes := (fix_rune <$> runes b) ≫= rune_bytes.

(** [utf8.Valid]. *)
Definition is_bad (r : rune) : bool := match r with RuneBad _ => true | _ => false end.
Definition utf8_valid (b : bytes) : bool := forallb (λ r, negb (is_bad r)) (runes b).

(** ** [strings.TrimSpace] *)
Definition space_multi (b : bytes) : bool :=
  match code <$> b with
  | [0xC2; x]%Z => (x =? 0x85)%Z || (x =? 0xA0)%Z
  | [0xE1; 0x9A; 0x80]%Z => true
  | [0xE2; 0x80; x]%Z => (x <=? 0x8A)%Z || (x =? 0xA8)%Z || (x =? 0xA9)%Z || (x =? 0xAF)%Z
  | [0xE2; 0x81; 0x9F]%Z => true
  | [0xE3; 0x80; 0x80]%Z => true
  | _ => false
  end.
Definition is_space (r : rune) : bool :=
  match r with
  | RuneASCII c => between 9 13 c || between 32 32 c
  | RuneMulti b => space_multi b
  | RuneBad _ => false
  end.

Fixpoint trim_left (l : list rune) : list rune :=
  match l with
  | r :: l' => if is_space r then trim_left l' else l
  | [] => []
  end.
Definition trim_right (l : list rune) : list rune := reverse (trim_left (reverse l)).
Definition trim_bytes (b : bytes) : bytes := trim_right (trim_left (runes b)) ≫= rune_bytes.
Definition TrimSpace (s : string) : string := string_of_bytes (trim_bytes (bytes_of_string s)).

Example trim_example : TrimSpace "  a b	" = "a b"%string.
Proof. by vm_compute. Qed.

(** ** Lemmas *)

(** The runes that decoding produces. *)
Inductive rune_wf : rune → Prop :=
  | wf_ascii c : is_ascii c = true → rune_wf (RuneASCII c)
  | wf_two b0 b1 : is_ascii b0 = false → valid2 b0 b1 = true → rune_wf (RuneMulti [b0; b1])
  | wf_three b0 b1 b2 : is_ascii b0 = false → valid2 b0 b1 = false → valid3 b0 b1 b2 = true →
      rune_wf (RuneMulti [b0; b1; b2])
  | wf_four b0 b1 b2 b3 : is_ascii b0 = false → valid2 b0 b1 = false → valid3 b0 b1 b2 = false →
      valid4 b0 b1 b2 b3 = true → rune_wf (RuneMulti [b0; b1; b2; b3]).

(** Decoding is local: it resumes after a whole rune. *)
Lemma runes_app r b : rune_wf r → runes (rune_bytes r ++ b) = r :: runes b.
Proof. intros []; simpl; repeat match goal with H : _ = _ |- _ => rewrite H; clear H end; done. Qed.

Lemma runes_concat l : Forall rune_wf l → runes (l ≫= rune_bytes) = l.
Proof. induction 1 as [|r l Hr _ IH]; [done|]. by rewrite bind_cons, runes_app, IH. Qed.

(** Case analysis on one step of the decoder. *)
Lemma runes_cases b0 r0 :
  (∃ r rest, rune_wf r ∧ b0 :: r0 = rune_bytes r ++ rest ∧ runes (b0 :: r0) = r :: runes rest ∧
             length rest ≤ length r0) ∨
  runes (b0 :: r0) = RuneBad b0 :: runes r0.
Proof.
  simpl. destruct (is_ascii b0) eqn:H0; [left; exists (RuneASCII b0), r0; by split; [constructor|]|].
  destruct r0 as [|b1 r1]; [by right|]. destruct (valid2 b0 b1) eqn:H2.
  { left. exists (RuneMulti [b0; b1]), r1. split; [by constructor|]. simpl. split; [done|]. split; [done|lia]. }
  destruct r1 as [|b2 r2]; [by right|]. destruct (valid3 b0 b1 b2) eqn:H3.
  { left. exists (RuneMulti [b0; b1; b2]), r2. split; [by constructor|]. simpl. split; [done|]. split; [done|lia]. }
  destruct r2 as [|b3 r3]; [by right|]. destruct (valid4 b0 b1 b2 b3) eqn:H4; [|by right].
  left. exists (RuneMulti [b0; b1; b2; b3]), r3. split; [by constructor|]. simpl. split; [done|]. split; [done|lia].
Qed.

(** Decoding by induction on its steps. *)
Lemma runes_ind (Q : bytes → list rune → Prop) :
  Q [] [] →
  (∀ r b, rune_wf r → Q b (runes b) → Q (rune_bytes r ++ b) (r :: runes b)) →
  (∀ c b, Q b (runes b) → Q (c :: b) (RuneBad c :: runes b)) →
  ∀ b, Q b (runes b).
Proof.
  intros Hnil Hwf Hbad b. induction b as [b IH] using (induction_ltof1 _ (@length ascii)).
  unfold ltof in IH. destruct b as [|b0 r0]; [done|].
  destruct (runes_cases b0 r0) as [(r & rest & Hr & Hb & Hrun & Hlen)| ->].
  - rewrite Hrun, Hb. apply Hwf; [done|]. apply IH. simpl. lia.
  - apply Hbad, IH. simpl. lia.
Qed.

Lemma runes_bytes b : runes b ≫= rune_bytes = b.
Proof.
  apply (runes_ind (λ b l, l ≫= rune_bytes = b)); [done|intros r b' _ IH|intros c b' IH];
    by rewrite bind_cons, IH.
Qed.

Lemma fix_rune_wf b : Forall rune_wf (fix_rune <$> runes b).
Proof.
  apply (runes_ind (λ b l, Forall rune_wf (fix_rune <$> l))); [constructor| |].
  - intros r b' Hr IH. constructor; [by destruct Hr; constructor|done].
  - intros c b' IH. constructor; [|done]. by apply wf_three.
Qed.

Lemma runes_to_valid b : runes (to_valid b) = fix_rune <$> runes b.
Proof. apply runes_concat, fix_rune_wf. Qed.

Lemma to_valid_idemp b : to_valid (to_valid b) = to_valid b.
Proof.
  unfold to_valid at 1. rewrite runes_to_valid, <-list_fmap_compose. unfold to_valid. f_equal.
  apply list_fmap_ext. by intros _ [] _.
Qed.

Lemma to_valid_id b : utf8_valid b = true → to_valid b = b.
Proof.
  unfold utf8_valid, to_valid. rewrite forallb_forall. intros Hv. rewrite <-(runes_bytes b) at 2. f_equal.
  rewrite <-(list_fmap_id (runes b)) at 2. apply list_fmap_ext. intros i r Hr.
  apply list_elem_of_lookup_2, list_elem_of_In, Hv in Hr. by destruct r.
Qed.

Lemma utf8_valid_to_valid b : utf8_valid (to_valid b) = true.
Proof.
  unfold utf8_valid. rewrite runes_to_valid. apply forallb_forall. intros r Hr.
  apply list_elem_of_In, list_elem_of_fmap in Hr as (r' & -> & _). by destruct r'.
Qed.

(** Text without white space at its ends is left alone. *)
Lemma trim_left_id l : (∀ r, head l = Some r → is_space r = false) → trim_left l = l.
Proof. destruct l as [|r l]; [done|]. intros H. simpl. by rewrite (H r). Qed.

Lemma trim_right_id l : (∀ r, last l = Some r → is_space r = false) → trim_right l = l.
Proof.
  intros H. unfold trim_right. rewrite trim_left_id; [apply reverse_involutive|].
  intros r. rewrite <-last_reverse, reverse_involutive. apply H.
Qed.

Lemma trim_bytes_id b : Forall (λ r, is_space r = false) (runes b) → trim_bytes b = b.
Proof.
  intros H. rewrite Forall_forall in H. unfold trim_bytes. rewrite trim_left_id, trim_right_id.
  - apply runes_bytes.
  - intros r Hr. by apply H, last_Some_elem_of.
  - intros r Hr. by apply H, head_Some_elem_of.
Qed.

(** ASCII text. *)
Lemma runes_ascii b : Forall (λ c, is_ascii c = true) b → runes b = RuneASCII <$> b.
Proof. induction 1 as [|c b Hc _ IH]; [done|]. simpl. by rewrite Hc, IH. Qed.

Lemma ascii_valid b : Forall (λ c, is_ascii c = true) b → utf8_valid b = true.
Proof. intros Hb. unfold utf8_valid. rewrite runes_ascii by done. apply forallb_forall. by intros r (c & -> & _)%list_elem_of_In%list_elem_of_fmap. Qed.

Lemma TrimSpace_ascii s :
  Forall (λ c, is_ascii c = true ∧ is_space (RuneASCII c) = false) (bytes_of_string s) → TrimSpace s = s.
Proof.
  intros Hs. unfold TrimSpace. rewrite trim_bytes_id; [apply string_of_bytes_of_string|].
  rewrite runes_ascii by (eapply Forall_impl; [exact Hs|by intros ? []]).
  apply Forall_fmap. eapply Forall_impl; [exact Hs|by intros ? []].
Qed.
