(* ===== verification/Base64.v ===== *)
(** * [base64.RawURLEncoding]

    The encoding of SSE cursors: the URL alphabet, no padding.  Three bytes are
    four groups of six bits; a byte is its eight bits and a group its six, most
    significant first. *)
From S2P Require Import Prelude.

Abbreviation sextet := (bool * bool * bool * bool * bool * bool)%type.

Definition base64_alphabet : bytes :=
  bytes_of_string "ABCDEFGHIJKLMNOPQRSTUVWXYZabcdefghijklmnopqrstuvwxyz0123456789-_".

(** The value of a group, as the index into the alphabet. *)
Definition sextet_index : sextet → nat :=
  λ '(a, b, c, d, e, f),
    32 * Nat.b2n a + 16 * Nat.b2n b + 8 * Nat.b2n c + 4 * Nat.b2n d + 2 * Nat.b2n e + Nat.b2n f.

Definition sextet_char (s : sextet) : ascii := default "A"%char (base64_alphabet !! sextet_index s).

(** The reverse table ([decodeMap]): [None] for a byte outside the alphabet. *)
Definition index_sextet (n : nat) : sextet :=
  (Nat.testbit n 5, Nat.testbit n 4, Nat.testbit n 3, Nat.testbit n 2, Nat.testbit n 1, Nat.testbit n 0).

Fixpoint find_index (c : ascii) (l : bytes) (n : nat) : option nat :=
  match l with
  | [] => None
  | x :: l => if bool_decide (c = x) then Some n else find_index c l (S n)
  end.

Definition char_sextet (c : ascii) : option sextet := index_sextet <$> find_index c base64_alphabet 0.

(** Eight bits to six and back; the last group is filled with zeros. *)
Fixpoint octets_sextets (b : bytes) : list sextet :=
  match b with
  | Ascii a0 a1 a2 a3 a4 a5 a6 a7 :: Ascii b0 b1 b2 b3 b4 b5 b6 b7 :: Ascii c0 c1 c2 c3 c4 c5 c6 c7 :: b =>
    (a7, a6, a5, a4, a3, a2) :: (a1, a0, b7, b6, b5, b4) :: (b3, b2, b1, b0, c7, c6) ::
    (c5, c4, c3, c2, c1, c0) :: octets_sextets b
  | [Ascii a0 a1 a2 a3 a4 a5 a6 a7; Ascii b0 b1 b2 b3 b4 b5 b6 b7] =>
    [(a7, a6, a5, a4, a3, a2); (a1, a0, b7, b6, b5, b4); (b3, b2, b1, b0, false, false)]
  | [Ascii a0 a1 a2 a3 a4 a5 a6 a7] => [(a7, a6, a5, a4, a3, a2); (a1, a0, false, false, false, false)]
  | [] => []
  end.

(** [None]: a single group is left over.  The bits of the last group beyond a
    whole byte are ignored. *)
Fixpoint sextets_octets (l : list sextet) : option bytes :=
  match l with
  | (a7, a6, a5, a4, a3, a2) :: (a1, a0, b7, b6, b5, b4) :: (b3, b2, b1, b0, c7, c6) ::
    (c5, c4, c3, c2, c1, c0) :: l =>
    b ← sextets_octets l;
    Some (Ascii a0 a1 a2 a3 a4 a5 a6 a7 :: Ascii b0 b1 b2 b3 b4 b5 b6 b7 :: Ascii c0 c1 c2 c3 c4 c5 c6 c7 :: b)
  | [(a7, a6, a5, a4, a3, a2); (a1, a0, b7, b6, b5, b4); (b3, b2, b1, b0, _, _)] =>
    Some [Ascii a0 a1 a2 a3 a4 a5 a6 a7; Ascii b0 b1 b2 b3 b4 b5 b6 b7]
  | [(a7, a6, a5, a4, a3, a2); (a1, a0, _, _, _, _)] => Some [Ascii a0 a1 a2 a3 a4 a5 a6 a7]
  | [_] => None
  | [] => Some []
  end.

Definition EncodeToString (b : bytes) : string := string_of_bytes (sextet_char <$> octets_sextets b).

(** [base64.CorruptInputError]. *)
Definition CorruptInputError (n : nat) : error :=
  ErrNew ("illegal base64 data at input byte " +:+ pretty n).

Definition is_line_break (c : ascii) : bool := bool_decide (c = "010"%char) || bool_decide (c = "013"%char).

(** The groups of an encoded text; line breaks are skipped, and the first byte
    outside the alphabet is reported by its position. *)
Fixpoint decode_chars (pos : nat) (b : bytes) : outcome (list sextet) :=
  match b with
  | [] => Ok []
  | c :: b =>
    match char_sextet c with
    | Some s => (s ::.) <$> decode_chars (S pos) b
    | None => if is_line_break c then decode_chars (S pos) b else Err (CorruptInputError pos)
    end
  end.

Definition DecodeString (s : string) : outcome bytes :=
  l ← decode_chars 0 (bytes_of_string s);
  match sextets_octets l with
  | Some b => Ok b
  | None => Err (CorruptInputError (String.length s - 1))
  end.

Example base64_example : EncodeToString (bytes_of_string "{}") = "e30"%string.
Proof. by vm_compute. Qed.

(** ** Lemmas *)
Lemma char_sextet_char s : char_sextet (sextet_char s) = Some s.
Proof. by destruct s as [[[[[[] []] []] []] []] []]. Qed.

Lemma sextet_char_printable s : is_line_break (sextet_char s) = false.
Proof. by destruct s as [[[[[[] []] []] []] []] []]. Qed.

(** Induction in steps of three. *)
Lemma list_ind3 {A} (Q : list A → Prop) :
  Q [] → (∀ a, Q [a]) → (∀ a b, Q [a; b]) → (∀ a b c l, Q l → Q (a :: b :: c :: l)) → ∀ l, Q l.
Proof.
  intros H0 H1 H2 H3. fix IH 1. intros [|a [|b [|c l]]]; [done|done|done|]. by apply H3, IH.
Qed.

Lemma sextets_octets_sextets b : sextets_octets (octets_sextets b) = Some b.
Proof.
  induction b as [|[]|[] []|[] [] [] b IH] using list_ind3; [done..|].
  simpl. by rewrite IH.
Qed.

Lemma decode_chars_sextets pos l : decode_chars pos (sextet_char <$> l) = Ok l.
Proof.
  revert pos. induction l as [|s l IH]; intros pos; [done|].
  rewrite fmap_cons. simpl. by rewrite char_sextet_char, IH.
Qed.

Lemma DecodeString_EncodeToString b : DecodeString (EncodeToString b) = Ok b.
Proof.
  unfold DecodeString, EncodeToString. rewrite bytes_of_string_of_bytes, decode_chars_sextets.
  simpl. by rewrite sextets_octets_sextets.
Qed.

(** The encoded text is ASCII, from an alphabet without spaces or separators. *)
Definition base64_char (c : ascii) : Prop := c ∈ base64_alphabet.

Lemma sextet_char_base64 s : base64_char (sextet_char s).
Proof.
  apply (list_elem_of_lookup_2 _ (sextet_index s)).
  by destruct s as [[[[[[] []] []] []] []] []].
Qed.

Lemma EncodeToString_base64 b : Forall base64_char (bytes_of_string (EncodeToString b)).
Proof.
  unfold EncodeToString. rewrite bytes_of_string_of_bytes. apply Forall_fmap, Forall_true.
  intros s. apply sextet_char_base64.
Qed.

Lemma EncodeToString_nonempty b : b ≠ [] → EncodeToString b ≠ ""%string.
Proof.
  intros Hb H. apply Hb. unfold EncodeToString in H.
  apply (f_equal bytes_of_string) in H. rewrite bytes_of_string_of_bytes in H. simpl in H.
  apply fmap_nil_inv in H. by destruct b as [|[]|[] []|[] [] []] using list_ind3.
Qed.
