(* ===== verification/Json.v ===== *)
(** * JSON

    What the HTTP layer uses of [encoding/json]: compact output with Go's string
    escapes, the syntax that [Unmarshal] accepts, and the assignment of an
    object's members to the fields of a struct whose types are strings, 64-bit
    integers and maps of strings to 64-bit integers.  The texts of the errors
    are not modelled: an error is named by its type. *)
From Stdlib Require Import DecimalString DecimalZ DecimalN DecimalFacts.
From S2P Require Import Prelude Utf8.

(** ** Values *)
#[local] Unset Elimination Schemes.
Inductive json :=
  | JNull
  | JBool (b : bool)
  | JNum (lit : bytes)
  | JStr (s : bytes)
  | JArr (l : list json)
  | JObj (l : list (bytes * json)).
#[local] Set Elimination Schemes.

(** ** Characters *)
Definition dquote : ascii := ascii_of_N 34.
Definition backslash : ascii := ascii_of_N 92.
Definition is_digit : ascii → bool := between 48 57.
Definition is_ws (c : ascii) : bool :=
  between 32 32 c || between 9 10 c || between 13 13 c.

Fixpoint skip_ws (b : bytes) : bytes :=
  match b with
  | c :: b' => if is_ws c then skip_ws b' else b
  | [] => []
  end.

(** [strings.TrimPrefix] on a known prefix. *)
Fixpoint strip_prefix (p b : bytes) : option bytes :=
  match p, b with
  | [], _ => Some b
  | x :: p, y :: b => if bool_decide (x = y) then strip_prefix p b else None
  | _ :: _, [] => None
  end.

(** ** Integers ([strconv.AppendInt], [strconv.ParseInt]) *)
Definition FormatInt (z : Z) : bytes := bytes_of_string (NilZero.string_of_int (Z.to_int z)).

Definition ParseInt64 (lit : bytes) : option Z :=
  z ← Z.of_int <$> NilZero.int_of_string (string_of_bytes lit);
  if bool_decide (is_int64 z) then Some z else None.

(** ** Strings *)
Definition hex_digit (n : Z) : ascii := byte_of (if (n <? 10)%Z then 48 + n else 87 + n).
Definition hex_value (c : ascii) : option Z :=
  if between 48 57 c then Some (code c - 48)%Z
  else if between 97 102 c then Some (code c - 87)%Z
  else if between 65 70 c then Some (code c - 55)%Z
  else None.

(** [htmlSafeSet]: printable ASCII but for the quote, the backslash and the
    characters that are special in HTML. *)
Definition html_safe (c : ascii) : bool :=
  between 32 127 c && negb (between 34 34 c || between 38 38 c || between 60 60 c || between 62 62 c || between 92 92 c).

Definition escape_ascii (c : ascii) : bytes :=
  if html_safe c then [c]
  else if between 34 34 c || between 92 92 c then [backslash; c]
  else if between 8 8 c then [backslash; "b"%char]
  else if between 12 12 c then [backslash; "f"%char]
  else if between 10 10 c then [backslash; "n"%char]
  else if between 13 13 c then [backslash; "r"%char]
  else if between 9 9 c then [backslash; "t"%char]
  else [backslash; "u"%char; "0"%char; "0"%char; hex_digit (Z.shiftr (code c) 4); hex_digit (Z.land (code c) 15)].

(** U+2028 and U+2029. *)
Definition line_separator (b : bytes) : bool :=
  bool_decide (b = byte_of <$> [0xE2; 0x80; 0xA8]%Z) || bool_decide (b = byte_of <$> [0xE2; 0x80; 0xA9]%Z).

Definition escape_rune (r : rune) : bytes :=
  match r with
  | RuneASCII c => escape_ascii c
  | RuneMulti b =>
    if line_separator b
    then [backslash; "u"%char; "2"%char; "0"%char; "2"%char; hex_digit (Z.land (code (default zero (last b))) 15)]
    else b
  | RuneBad _ => backslash :: bytes_of_string "ufffd"
  end.

Definition print_string (s : bytes) : bytes := dquote :: (runes s ≫= escape_rune) ++ [dquote].

Definition simple_escape (c : ascii) : option ascii :=
  match code c with
  | 34 | 92 | 47 => Some c
  | 98 => Some (byte_of 8)
  | 102 => Some (byte_of 12)
  | 110 => Some (byte_of 10)
  | 114 => Some (byte_of 13)
  | 116 => Some (byte_of 9)
  | _ => None
  end%Z.

Definition hex4 (a b c d : ascii) : option Z :=
  a ← hex_value a; b ← hex_value b; c ← hex_value c; d ← hex_value d;
  Some (((a * 16 + b) * 16 + c) * 16 + d)%Z.

(** A surrogate stands for nothing on its own; a high one followed by a low one
    is a code point beyond U+FFFF ([utf16.DecodeRune]). *)
Definition is_surrogate (u : Z) : bool := (0xD800 <=? u)%Z && (u <? 0xE000)%Z.
Definition DecodeRune (u1 u2 : Z) : option Z :=
  if (0xD800 <=? u1)%Z && (u1 <? 0xDC00)%Z && (0xDC00 <=? u2)%Z && (u2 <? 0xE000)%Z
  then Some ((u1 - 0xD800) * 0x400 + (u2 - 0xDC00) + 0x10000)%Z else None.

Definition push (p : bytes) (o : option (bytes * bytes)) : option (bytes * bytes) :=
  '(s, r) ← o; Some (p ++ s, r).

(** The body of a string literal up to its closing quote, and what follows. *)
Fixpoint unescape (b : bytes) : option (bytes * bytes) :=
  match b with
  | [] => None
  | c :: r =>
    if between 34 34 c then Some ([], r)
    else if between 92 92 c then
      match r with
      | [] => None
      | e :: r1 =>
        match simple_escape e with
        | Some x => push [x] (unescape r1)
        | None =>
          if bool_decide (e = "u"%char) then
            match r1 with
            | h1 :: h2 :: h3 :: h4 :: r5 =>
              match hex4 h1 h2 h3 h4 with
              | None => None
              | Some u =>
                if is_surrogate u then
                  match r5 with
                  | bs :: eu :: k1 :: k2 :: k3 :: k4 :: r6 =>
                    if between 92 92 bs && bool_decide (eu = "u"%char) then
                      match hex4 k1 k2 k3 k4 ≫= DecodeRune u with
                      | Some v => push (AppendRune v) (unescape r6)
                      | None => push replacement (unescape r5)
                      end
                    else push replacement (unescape r5)
                  | _ => push replacement (unescape r5)
                  end
                else push (AppendRune u) (unescape r5)
              end
            | _ => None
            end
          else None
        end
      end
    else if between 0 31 c then None
    else push [c] (unescape r)
  end.

(** ** Numbers *)
Fixpoint take_digits (b : bytes) : bytes * bytes :=
  match b with
  | c :: b' => if is_digit c then let '(d, r) := take_digits b' in (c :: d, r) else ([], b)
  | [] => ([], [])
  end.

Definition some_digits (b : bytes) : option (bytes * bytes) :=
  match take_digits b with ([], _) => None | dr => Some dr end.

Definition parse_sign (b : bytes) : bytes * bytes :=
  match b with
  | c :: b' => if bool_decide (c = "-"%char) then ([c], b') else ([], b)
  | [] => ([], [])
  end.

Definition parse_integer (b : bytes) : option (bytes * bytes) :=
  match b with
  | c :: b' => if bool_decide (c = "0"%char) then Some ([c], b') else some_digits b
  | [] => None
  end.

Definition parse_fraction (b : bytes) : option (bytes * bytes) :=
  match b with
  | c :: b' => if bool_decide (c = "."%char) then push [c] (some_digits b') else Some ([], b)
  | [] => Some ([], [])
  end.

Definition parse_exponent (b : bytes) : option (bytes * bytes) :=
  match b with
  | c :: b' =>
    if bool_decide (c = "e"%char) || bool_decide (c = "E"%char) then
      match b' with
      | s :: b'' => if bool_decide (s = "+"%char) || bool_decide (s = "-"%char)
                    then push [c; s] (some_digits b'') else push [c] (some_digits b')
      | [] => None
      end
    else Some ([], b)
  | [] => Some ([], [])
  end.

Definition parse_number (b : bytes) : option (bytes * bytes) :=
  let '(s, b) := parse_sign b in
  '(i, b) ← parse_integer b; '(f, b) ← parse_fraction b; '(e, b) ← parse_exponent b;
  Some (s ++ i ++ f ++ e, b).

(** ** Values

    [fuel] bounds the number of bytes consumed and [depth] is the number of
    open brackets, at most [maxNestingDepth]. *)
Definition maxNestingDepth : N := 10000.

Fixpoint parse_value (fuel : nat) (depth : N) (b : bytes) {struct fuel} : option (json * bytes) :=
  match fuel with
  | 0 => None
  | S fuel =>
    match skip_ws b with
    | [] => None
    | c :: r =>
      if bool_decide (c = "{"%char) then
        if (maxNestingDepth <=? depth)%N then None
        else match skip_ws r with
             | [] => None
             | c' :: r' => if bool_decide (c' = "}"%char) then Some (JObj [], r')
                           else '(ms, r'') ← parse_members fuel (depth + 1) r; Some (JObj ms, r'')
             end
      else if bool_decide (c = "["%char) then
        if (maxNestingDepth <=? depth)%N then None
        else match skip_ws r with
             | [] => None
             | c' :: r' => if bool_decide (c' = "]"%char) then Some (JArr [], r')
                           else '(l, r'') ← parse_elements fuel (depth + 1) r; Some (JArr l, r'')
             end
      else if between 34 34 c then '(s, r') ← unescape r; Some (JStr (to_valid s), r')
      else match strip_prefix (bytes_of_string "true") (c :: r) with
           | Some r' => Some (JBool true, r')
           | None =>
             match strip_prefix (bytes_of_string "false") (c :: r) with
             | Some r' => Some (JBool false, r')
             | None =>
               match strip_prefix (bytes_of_string "null") (c :: r) with
               | Some r' => Some (JNull, r')
               | None => '(lit, r') ← parse_number (c :: r); Some (JNum lit, r')
               end
             end
           end
    end
  end
(** The members of an object, to its closing brace. *)
with parse_members (fuel : nat) (depth : N) (b : bytes) {struct fuel} : option (list (bytes * json) * bytes) :=
  match fuel with
  | 0 => None
  | S fuel =>
    match skip_ws b with
    | c :: r =>
      if between 34 34 c then
        '(k, r) ← unescape r;
        match skip_ws r with
        | c :: r =>
          if bool_decide (c = ":"%char) then
            '(v, r) ← parse_value fuel depth r;
            match skip_ws r with
            | c :: r =>
              if bool_decide (c = ","%char) then
                '(ms, r) ← parse_members fuel depth r; Some ((to_valid k, v) :: ms, r)
              else if bool_decide (c = "}"%char) then Some ([(to_valid k, v)], r)
              else None
            | [] => None
            end
          else None
        | [] => None
        end
      else None
    | [] => None
    end
  end
with parse_elements (fuel : nat) (depth : N) (b : bytes) {struct fuel} : option (list json * bytes) :=
  match fuel with
  | 0 => None
  | S fuel =>
    '(v, r) ← parse_value fuel depth b;
    match skip_ws r with
    | c :: r =>
      if bool_decide (c = ","%char) then
        '(l, r) ← parse_elements fuel depth r; Some (v :: l, r)
      else if bool_decide (c = "]"%char) then Some ([v], r)
      else None
    | [] => None
    end
  end.

(** [checkValid] and the value it accepts: nothing but white space follows. *)
Definition parse_json (b : bytes) : option json :=
  '(v, r) ← parse_value (S (length b)) 0 b;
  match skip_ws r with [] => Some v | _ => None end.

(** ** Output ([json.Marshal]): no white space *)
Fixpoint join_comma (l : list bytes) : bytes :=
  match l with
  | [] => []
  | [x] => x
  | x :: l => x ++ ","%char :: join_comma l
  end.

Fixpoint print (j : json) : bytes :=
  match j with
  | JNull => bytes_of_string "null"
  | JBool true => bytes_of_string "true"
  | JBool false => bytes_of_string "false"
  | JNum lit => lit
  | JStr s => print_string s
  | JArr l => "["%char :: join_comma (map print l) ++ ["]"%char]
  | JObj ms => "{"%char :: join_comma (map (λ '(k, v), print_string k ++ ":"%char :: print v) ms) ++ ["}"%char]
  end.

(** A member of a struct, and a map whose keys have been sorted. *)
Definition JInt (z : Z) : json := JNum (FormatInt z).
Definition JString (s : string) : json := JStr (bytes_of_string s).
Definition member (name : string) (v : json) : bytes * json := (bytes_of_string name, v).

(** ** Assignment to a struct ([json.Unmarshal])

    Members are taken in order, so of two for one field the last wins.  A
    member's name is looked up among the field names, then up to letter case;
    others are ignored.  [null] leaves a field as it is.  A value of the wrong
    type is an error of the whole call, reported when all members are done. *)
Definition err_json_syntax : error := ErrVar "*json.SyntaxError" "invalid JSON".
Definition err_json_type : error := ErrVar "*json.UnmarshalTypeError" "JSON value of the wrong type".

(** [foldRune]: the least rune that is equal up to case.  Two letters beyond
    ASCII fold to ASCII ones: U+017F to [S] and U+212A to [K]. *)
Definition fold_rune (r : rune) : rune :=
  match r with
  | RuneASCII c => RuneASCII (if between 97 122 c then byte_of (code c - 32) else c)
  | RuneMulti b =>
    if bool_decide (b = byte_of <$> [0xC5; 0xBF]%Z) then RuneASCII "S"%char
    else if bool_decide (b = byte_of <$> [0xE2; 0x84; 0xAA]%Z) then RuneASCII "K"%char
    else r
  | RuneBad _ => r
  end.
Definition fold_name (b : bytes) : list rune := fold_rune <$> runes b.

Abbreviation setter T := (json → T → option T).

Section Unmarshal.
Context {T : Type}.

Definition set_int (upd : Z → T → T) : setter T := λ v t,
  match v with
  | JNull => Some t
  | JNum lit => z ← ParseInt64 lit; Some (upd z t)
  | _ => None
  end.

Definition set_string (upd : string → T → T) : setter T := λ v t,
  match v with
  | JNull => Some t
  | JStr s => Some (upd (string_of_bytes s) t)
  | _ => None
  end.

(** An entry of a map starts from zero, so [null] assigns zero. *)
Definition set_entry (acc : option (gmap string Z)) (kv : bytes * json) : option (gmap string Z) :=
  m ← acc;
  match kv.2 with
  | JNull => Some (<[string_of_bytes kv.1 := 0%Z]> m)
  | JNum lit => z ← ParseInt64 lit; Some (<[string_of_bytes kv.1 := z]> m)
  | _ => None
  end.

(** A [map[string]int64]; entries are added to those already there. *)
Definition set_map (get : T → gmap string Z) (upd : gmap string Z → T → T) : setter T := λ v t,
  match v with
  | JNull => Some (upd ∅ t)
  | JObj ms => m ← foldl set_entry (Some (get t)) ms; Some (upd m t)
  | _ => None
  end.

Definition find_field (fields : list (string * setter T)) (name : bytes) : option (setter T) :=
  match list_find (λ f, bytes_of_string f.1 = name) fields with
  | Some (_, f) => Some f.2
  | None => (λ f, f.2.2) <$> list_find (λ f, fold_name (bytes_of_string f.1) = fold_name name) fields
  end.

Definition set_field (fields : list (string * setter T)) (acc : option T) (kv : bytes * json) : option T :=
  t ← acc;
  match find_field fields kv.1 with
  | Some set => set kv.2 t
  | None => Some t
  end.

Definition Unmarshal (fields : list (string * setter T)) (data : bytes) (t : T) : outcome T :=
  match parse_json data with
  | None => Err err_json_syntax
  | Some JNull => Ok t
  | Some (JObj ms) =>
    match foldl (set_field fields) (Some t) ms with
    | Some t' => Ok t'
    | None => Err err_json_type
    end
  | Some _ => Err err_json_type
  end.
End Unmarshal.
