(* ===== verification/JsonSpec.v ===== *)
(** * JSON: what is printed is read back

    A value that is printed and parsed is itself, with every string made valid
    UTF-8. *)
From Stdlib Require Import DecimalString DecimalZ DecimalN DecimalFacts.
From S2P Require Import Prelude Utf8 Json.

(** The first byte of a number tells it from every other value. *)
Definition number_head (c : ascii) : bool := is_digit c || bool_decide (c = "-"%char).
Definition number_char (c : ascii) : bool :=
  is_digit c || bool_decide (c ∈ bytes_of_string "+-.eE").

(** What may follow a value: the end of the text or of a line, or one of the
    delimiters. *)
Definition closes (c : ascii) : Prop := c = ","%char ∨ c = "}"%char ∨ c = "]"%char.
Definition delimited (rest : bytes) : Prop :=
  match rest with [] => True | c :: _ => c = byte_of 10 ∨ closes c end.

(** A literal that is read as itself. *)
Record number_literal (lit : bytes) : Prop := {
  num_head : ∃ c b, lit = c :: b ∧ number_head c = true;
  num_chars : Forall (λ c, number_char c = true) lit;
  num_parse rest : delimited rest → parse_number (lit ++ rest) = Some (lit, rest)
}.

(** Values nested at most [n] deep. *)
Inductive json_wf : nat → json → Prop :=
  | ij_null n : json_wf n JNull
  | ij_bool n b : json_wf n (JBool b)
  | ij_num n lit : number_literal lit → json_wf n (JNum lit)
  | ij_str n s : json_wf n (JStr s)
  | ij_arr n l : (∀ j, j ∈ l → json_wf n j) → json_wf (S n) (JArr l)
  | ij_obj n ms : (∀ k v, (k, v) ∈ ms → json_wf n v) → json_wf (S n) (JObj ms).

(** The value that is read back. *)
Fixpoint canon (j : json) : json :=
  match j with
  | JStr s => JStr (to_valid s)
  | JArr l => JArr (map canon l)
  | JObj ms => JObj (map (λ '(k, v), (to_valid k, canon v)) ms)
  | _ => j
  end.

(** ** Strings *)
Lemma unescape_ascii c x :
  is_ascii c = true → unescape (escape_ascii c ++ x) = push [c] (unescape x).
Proof. by destruct c as [[] [] [] [] [] [] [] []]. Qed.

Lemma unescape_high c x : is_ascii c = false → unescape (c :: x) = push [c] (unescape x).
Proof. by destruct c as [[] [] [] [] [] [] [] []]. Qed.

Lemma push_push p q o : push p (push q o) = push (p ++ q) o.
Proof. destruct o as [[s r]|]; [|done]. simpl. by rewrite (assoc_L (++)). Qed.

Lemma push_nil o : push [] o = o.
Proof. by destruct o as [[??]|]. Qed.

Lemma unescape_highs b x :
  Forall (λ c, is_ascii c = false) b → unescape (b ++ x) = push b (unescape x).
Proof.
  induction 1 as [|c b Hc _ IH]; [by rewrite push_nil|].
  rewrite <-app_comm_cons, unescape_high, IH, push_push by done. done.
Qed.

Lemma between_high lo hi c : (128 ≤ lo)%Z → between lo hi c = true → is_ascii c = false.
Proof. unfold between, is_ascii. intros ? [? _]%andb_true_iff. lia. Qed.

Lemma rune_wf_high b : rune_wf (RuneMulti b) → Forall (λ c, is_ascii c = false) b.
Proof.
  inversion 1 as [|b0 b1 H0 H2|b0 b1 b2 H0 _ H3|b0 b1 b2 b3 H0 _ _ H4]; subst;
    unfold valid2, valid3, valid4, continuation in *;
    repeat match goal with
    | H : (_ || _) = true |- _ => apply orb_true_iff in H as [H|H]
    | H : (_ && _) = true |- _ => apply andb_true_iff in H as [? ?]
    end; repeat constructor; try done; by eapply between_high; [|done].
Qed.

Lemma unescape_separator b x :
  line_separator b = true → unescape (escape_rune (RuneMulti b) ++ x) = push b (unescape x).
Proof.
  intros H. unfold escape_rune. rewrite H. unfold line_separator in H.
  by apply orb_true_iff in H as [->%bool_decide_eq_true| ->%bool_decide_eq_true].
Qed.

Lemma unescape_rune r x :
  rune_wf r → unescape (escape_rune r ++ x) = push (rune_bytes r) (unescape x).
Proof.
  intros Hr. destruct r as [c|b|c].
  - apply unescape_ascii. by inversion Hr.
  - destruct (line_separator b) eqn:Hs; [by apply unescape_separator|].
    unfold escape_rune. rewrite Hs. by apply unescape_highs, rune_wf_high.
  - inversion Hr.
Qed.

Lemma unescape_print s x :
  unescape ((runes s ≫= escape_rune) ++ dquote :: x) = Some (to_valid s, x).
Proof.
  unfold to_valid.
  apply (runes_ind (λ s l, unescape ((l ≫= escape_rune) ++ dquote :: x) = Some ((fix_rune <$> l) ≫= rune_bytes, x))); [done| |].
  - intros r b Hr IH. rewrite bind_cons, <-(assoc_L (++)), unescape_rune, IH by done.
    rewrite fmap_cons, bind_cons. by destruct Hr.
  - intros c b IH. rewrite bind_cons, <-(assoc_L (++)), fmap_cons, bind_cons.
    change (escape_rune (RuneBad c)) with (backslash :: bytes_of_string "ufffd").
    change (unescape ((backslash :: bytes_of_string "ufffd") ++ (runes b ≫= escape_rune) ++ dquote :: x))
      with (push replacement (unescape ((runes b ≫= escape_rune) ++ dquote :: x))).
    by rewrite IH.
Qed.

(** ** Integers *)
Lemma ParseInt64_FormatInt z : is_int64 z → ParseInt64 (FormatInt z) = Some z.
Proof.
  intros Hz. unfold ParseInt64, FormatInt. rewrite string_of_bytes_of_string, NilZero.isi.
  - simpl. rewrite DecimalZ.of_to. by rewrite bool_decide_eq_true_2.
  - intros H. apply (f_equal Z.of_int) in H as H'. rewrite DecimalZ.of_to in H'. simpl in H'. by subst z.
  - intros H. apply (f_equal Z.of_int) in H as H'. rewrite DecimalZ.of_to in H'. simpl in H'. by subst z.
Qed.

Definition digits (u : Decimal.uint) : bytes := bytes_of_string (NilEmpty.string_of_uint u).

Lemma take_digits_app u rest : delimited rest → take_digits (digits u ++ rest) = (digits u, rest).
Proof.
  intros Hrest. unfold digits. induction u as [|u IH|u IH|u IH|u IH|u IH|u IH|u IH|u IH|u IH|u IH];
    [|by simpl; rewrite IH..].
  destruct rest as [|c rest]; [done|]. by destruct Hrest as [->|[->|[->| ->]]].
Qed.

(** A decimal numeral without leading zeros. *)
Definition plain (u : Decimal.uint) : Prop := u = Decimal.zero ∨ Decimal.nzhead u = u ∧ u ≠ Decimal.Nil.

Lemma nzhead_D0 u v : Decimal.nzhead u ≠ Decimal.D0 v.
Proof. by induction u. Qed.

Lemma to_uint_plain n : plain (N.to_uint n).
Proof.
  assert (N.to_uint n = Decimal.unorm (N.to_uint n)) as ->.
  { rewrite <-DecimalN.Unsigned.to_of. by rewrite DecimalN.Unsigned.of_to. }
  unfold Decimal.unorm. destruct (Decimal.nzhead (N.to_uint n)) eqn:Hz; [by left|..];
    (right; split; [|done]; rewrite <-Hz; apply DecimalFacts.nzhead_involutive).
Qed.

Lemma parse_integer_plain u rest :
  plain u → delimited rest → parse_integer (digits u ++ rest) = Some (digits u, rest).
Proof.
  intros Hu Hrest. pose proof (take_digits_app u rest Hrest) as Ht.
  destruct Hu as [->|[Hz Hnil]]; [done|].
  destruct u; [done|by destruct (nzhead_D0 (Decimal.D0 u) u)|..];
    (unfold parse_integer, some_digits; cbn [digits bytes_of_string NilEmpty.string_of_uint String.list_ascii_of_string app] in *;
     rewrite bool_decide_eq_false_2 by done; by rewrite Ht).
Qed.

Lemma parse_fraction_delimited rest : delimited rest → parse_fraction rest = Some ([], rest).
Proof. destruct rest as [|c rest]; [done|]. by intros [->|[->|[->| ->]]]. Qed.

Lemma parse_exponent_delimited rest : delimited rest → parse_exponent rest = Some ([], rest).
Proof. destruct rest as [|c rest]; [done|]. by intros [->|[->|[->| ->]]]. Qed.

Lemma FormatInt_digits z :
  ∃ (sign : bytes) u, FormatInt z = sign ++ digits u ∧ plain u ∧ (sign = [] ∨ sign = ["-"%char]).
Proof.
  assert (∀ p, NilZero.string_of_uint (Pos.to_uint p) = NilEmpty.string_of_uint (Pos.to_uint p)) as Hp.
  { intros p. unfold NilZero.string_of_uint. destruct (Pos.to_uint p) eqn:E; [|done..].
    by destruct (DecimalPos.Unsigned.to_uint_nonnil p). }
  unfold FormatInt, Z.to_int. destruct z as [|p|p].
  - exists [], Decimal.zero. split; [done|]. split; by left.
  - exists [], (Pos.to_uint p). split; [simpl; by rewrite Hp|]. split; [apply (to_uint_plain (Npos p))|by left].
  - exists ["-"%char], (Pos.to_uint p). split; [simpl; by rewrite Hp|]. split; [apply (to_uint_plain (Npos p))|by right].
Qed.

Lemma digits_head u : plain u → ∃ c b, digits u = c :: b ∧ is_digit c = true.
Proof. intros [->|[_ Hn]]; [by exists "0"%char, []|]. destruct u; [done|..]; by eexists _, _. Qed.

Lemma parse_number_FormatInt z rest :
  delimited rest → parse_number (FormatInt z ++ rest) = Some (FormatInt z, rest).
Proof.
  intros Hrest. destruct (FormatInt_digits z) as (sign & u & -> & Hu & Hs).
  assert (parse_sign ((sign ++ digits u) ++ rest) = (sign, digits u ++ rest)) as Hsign.
  { destruct (digits_head u Hu) as (c & b & -> & Hc). destruct Hs as [->| ->]; simpl; [|done].
    rewrite bool_decide_eq_false_2; [done|]. by intros ->. }
  unfold parse_number. rewrite Hsign, parse_integer_plain by done. simpl.
  rewrite parse_fraction_delimited by done. simpl. rewrite parse_exponent_delimited by done. simpl.
  by rewrite (right_id_L [] (++)).
Qed.

(** ** Values *)

Lemma number_head_other c :
  number_head c = true →
  is_ws c = false ∧ c ≠ "{"%char ∧ c ≠ "["%char ∧ between 34 34 c = false ∧
  c ≠ "t"%char ∧ c ≠ "f"%char ∧ c ≠ "n"%char.
Proof. destruct c as [[] [] [] [] [] [] [] []]; intros H; try (by vm_compute in H); by split_and!. Qed.

Lemma FormatInt_head z : ∃ c b, FormatInt z = c :: b ∧ number_head c = true.
Proof.
  destruct (FormatInt_digits z) as (sign & u & -> & Hu & Hs).
  destruct (digits_head u Hu) as (c & b & -> & Hc). destruct Hs as [->| ->]; [|by eexists _, _].
  exists c, b. split; [done|]. unfold number_head. by rewrite Hc.
Qed.

Lemma digits_chars u : Forall (λ c, number_char c = true) (digits u).
Proof. unfold digits. by induction u; simpl; constructor. Qed.

Lemma FormatInt_literal z : number_literal (FormatInt z).
Proof.
  split; [apply FormatInt_head| |intros rest; apply parse_number_FormatInt].
  destruct (FormatInt_digits z) as (sign & u & -> & _ & Hs). apply Forall_app; split; [|apply digits_chars].
  destruct Hs as [->| ->]; by repeat constructor.
Qed.

Lemma parse_value_number fuel depth lit rest :
  number_literal lit → delimited rest → parse_value (S fuel) depth (lit ++ rest) = Some (JNum lit, rest).
Proof.
  intros [(c & b & Hz & Hc) _ Hp] Hrest. specialize (Hp rest Hrest). rewrite Hz in *.
  apply number_head_other in Hc as (Hws & ? & ? & Hq & ? & ? & ?).
  cbn [app] in *. cbn [parse_value skip_ws]. rewrite Hws, Hq, !bool_decide_eq_false_2 by done.
  assert (∀ x p, c ≠ x → strip_prefix (x :: p) (c :: b ++ rest) = None) as Hstrip.
  { intros x p Hx. simpl. by rewrite bool_decide_eq_false_2 by congruence. }
  cbn [bytes_of_string String.list_ascii_of_string].
  rewrite !Hstrip by done. by rewrite Hp.
Qed.

Lemma print_nonempty n j : json_wf n j → ∃ c b, print j = c :: b ∧ is_ws c = false ∧ c ≠ "]"%char ∧ c ≠ "}"%char.
Proof.
  intros [| |? lit Hlit| | |]; try (by eexists _, _); [destruct b; by eexists _, _|].
  destruct (num_head lit Hlit) as (c & b & Hz & Hc). exists c, b. split; [done|].
  split; [by apply number_head_other in Hc as []|]. split; intros ->; by vm_compute in Hc.
Qed.

Lemma skip_ws_head c b : is_ws c = false → skip_ws (c :: b) = c :: b.
Proof. simpl. by intros ->. Qed.

Definition print_member : bytes * json → bytes := λ '(k, v), print_string k ++ ":"%char :: print v.
Definition canon_member : bytes * json → bytes * json := λ '(k, v), (to_valid k, canon v).

Lemma join_comma_cons x y l : join_comma (x :: y :: l) = x ++ ","%char :: join_comma (y :: l).
Proof. done. Qed.

Section Containers.
#[local] Set Default Proof Using "Type*".
Context (n : nat) (depth : N).
Hypothesis IH : ∀ j fuel rest, json_wf n j → length (print j) < fuel → delimited rest →
  parse_value fuel depth (print j ++ rest) = Some (canon j, rest).

Lemma parse_member fuel k v rest c rest' :
  json_wf n v → length (print_member (k, v)) < fuel → closes c → rest = c :: rest' →
  parse_members (S fuel) depth (print_member (k, v) ++ rest) =
    if bool_decide (c = ","%char) then
      '(ms, r) ← parse_members fuel depth rest'; Some (canon_member (k, v) :: ms, r)
    else if bool_decide (c = "}"%char) then Some ([canon_member (k, v)], rest')
    else None.
Proof.
  intros Hv Hlen Hc ->. unfold print_member, print_string in *.
  rewrite <-!app_comm_cons, <-!(assoc_L (++)). cbn [parse_members].
  rewrite skip_ws_head by done. replace (between 34 34 dquote) with true by done.
  rewrite <-app_comm_cons. cbn [app]. rewrite unescape_print. cbn [mbind option_bind].
  rewrite skip_ws_head by done. rewrite bool_decide_eq_true_2 by done.
  rewrite IH; [|done| |by right].
  2:{ revert Hlen. rewrite length_app. simpl. lia. }
  cbn [mbind option_bind]. rewrite to_valid_idemp. rewrite skip_ws_head; [done|].
  by destruct Hc as [->|[->| ->]].
Qed.

Lemma parse_members_print ms : ∀ fuel rest,
  ms ≠ [] → (∀ k v, (k, v) ∈ ms → json_wf n v) → length (join_comma (map print_member ms)) < fuel →
  parse_members (S fuel) depth (join_comma (map print_member ms) ++ "}"%char :: rest) =
  Some (map canon_member ms, rest).
Proof.
  induction ms as [|[k v] ms IHms]; intros fuel rest Hne Hms Hlen; [done|].
  assert (json_wf n v) as Hv by (eapply Hms, list_elem_of_here).
  destruct ms as [|m ms]; cbn [map] in *.
  - cbn [join_comma]. erewrite parse_member; [|done|done| |reflexivity]; [done|]. unfold closes. tauto.
  - rewrite join_comma_cons, <-(assoc_L (++)), <-app_comm_cons.
    rewrite join_comma_cons, length_app in Hlen. cbn [length] in Hlen.
    erewrite parse_member; [|done|lia| |reflexivity]; [|unfold closes; tauto].
    rewrite bool_decide_eq_true_2 by done.
    destruct fuel as [|fuel]; [lia|].
    rewrite IHms; [done|done| |cbn [map] in *; lia].
    intros k' v' Hin. eapply Hms, list_elem_of_further, Hin.
Qed.

Lemma parse_elements_print l : ∀ fuel rest,
  l ≠ [] → (∀ j, j ∈ l → json_wf n j) → length (join_comma (map print l)) < fuel →
  parse_elements (S fuel) depth (join_comma (map print l) ++ "]"%char :: rest) =
  Some (map canon l, rest).
Proof.
  induction l as [|v l IHl]; intros fuel rest Hne Hl Hlen; [done|].
  assert (json_wf n v) as Hv by (eapply Hl, list_elem_of_here).
  destruct l as [|m l]; cbn [map] in *.
  - cbn [join_comma parse_elements] in *. rewrite IH; [done|done|done|simpl; unfold closes; tauto].
  - rewrite join_comma_cons, <-(assoc_L (++)), <-app_comm_cons.
    rewrite join_comma_cons, length_app in Hlen. cbn [length] in Hlen.
    cbn [parse_elements]. rewrite IH; [|done|lia|simpl; unfold closes; tauto].
    cbn [mbind option_bind]. rewrite skip_ws_head, bool_decide_eq_true_2 by done.
    destruct fuel as [|fuel]; [lia|].
    rewrite IHl; [done|done| |cbn [map] in *; lia].
    intros j Hin. by apply Hl, list_elem_of_further.
Qed.
End Containers.

Lemma parse_value_print n : ∀ j fuel depth rest,
  json_wf n j → length (print j) < fuel → (depth + N.of_nat n ≤ maxNestingDepth)%N → delimited rest →
  parse_value fuel depth (print j ++ rest) = Some (canon j, rest).
Proof.
  induction n as [n IHn] using lt_wf_ind. intros j fuel depth rest Hj Hfuel Hdepth Hrest.
  destruct fuel as [|fuel]; [lia|].
  destruct Hj as [n|n []|n lit Hlit|n s|n l Hl|n ms Hms]; [done|done|done|by apply parse_value_number| | |].
  - cbn [print]. unfold print_string. rewrite <-app_comm_cons, <-(assoc_L (++)).
    cbn [parse_value]. rewrite skip_ws_head by done. rewrite !bool_decide_eq_false_2 by done.
    replace (between 34 34 dquote) with true by done. cbn [app]. rewrite unescape_print. simpl. by rewrite to_valid_idemp.
  - cbn [print] in *. rewrite <-app_comm_cons, <-(assoc_L (++)). cbn [parse_value app]. rewrite skip_ws_head by done.
    rewrite bool_decide_eq_false_2, bool_decide_eq_true_2 by done.
    rewrite (proj2 (N.leb_gt _ _)) by lia.
    destruct l as [|x l]; [done|].
    destruct (print_nonempty n x) as (c & b & Hc & Hws & Hx & _); [by apply Hl, list_elem_of_here|].
    assert (∃ b', join_comma (map print (x :: l)) = c :: b') as [b' Hjoin].
    { destruct l as [|y l]; [by exists b|]. cbn [map]. rewrite join_comma_cons, Hc. by eexists. }
    rewrite Hjoin at 1. cbn [app]. rewrite skip_ws_head, bool_decide_eq_false_2 by done.
    cbn [length] in Hfuel. rewrite length_app in Hfuel. cbn [length] in Hfuel. destruct fuel as [|fuel]; [lia|].
    rewrite (parse_elements_print n); [done| |done|done|lia].
    intros j' fuel' rest' ???. apply (IHn n); [lia|done..|lia|done].
  - cbn [print] in *. rewrite <-app_comm_cons, <-(assoc_L (++)). cbn [parse_value app]. rewrite skip_ws_head by done.
    rewrite bool_decide_eq_true_2 by done.
    rewrite (proj2 (N.leb_gt _ _)) by lia.
    destruct ms as [|[k x] ms]; [done|].
    assert (∃ b', join_comma (map print_member ((k, x) :: ms)) = dquote :: b') as [b' Hjoin].
    { destruct ms as [|y ms]; [by eexists|]. cbn [map]. rewrite join_comma_cons. by eexists. }
    change (map (λ '(k0, v), print_string k0 ++ ":"%char :: print v) ((k, x) :: ms)) with (map print_member ((k, x) :: ms)) in *.
    rewrite Hjoin at 1. cbn [app]. rewrite skip_ws_head, bool_decide_eq_false_2 by done.
    cbn [length] in Hfuel. rewrite length_app in Hfuel. cbn [length] in Hfuel. destruct fuel as [|fuel]; [lia|].
    rewrite (parse_members_print n); [done| |done|done|lia].
    intros j' fuel' rest' ???. apply (IHn n); [lia|done..|lia|done].
Qed.

(** What is printed is read back, its strings made valid. *)
Lemma parse_json_print n j :
  json_wf n j → (N.of_nat n ≤ maxNestingDepth)%N → parse_json (print j) = Some (canon j).
Proof.
  intros Hj Hn. unfold parse_json.
  pose proof (parse_value_print n j (S (length (print j))) 0 [] Hj) as H.
  rewrite (right_id_L [] (++)) in H. rewrite H; [done|lia|lia|done].
Qed.

(** A line of JSON, as an encoder writes it. *)
Lemma parse_json_line n j :
  json_wf n j → (N.of_nat n ≤ maxNestingDepth)%N → parse_json (print j ++ [byte_of 10]) = Some (canon j).
Proof.
  intros Hj Hn. unfold parse_json. rewrite (parse_value_print n j); [done|done| |lia|by left].
  rewrite length_app. simpl. lia.
Qed.

Lemma print_nonnil n j : json_wf n j → print j ≠ [].
Proof. intros Hj. by destruct (print_nonempty n j Hj) as (? & ? & -> & _). Qed.
