(* ===== verification/SSECursor.v ===== *)
(** * SSE cursors ([internal/httpapi/sse_cursor.go], [pkg/httpclient/sse_cursor.go])

    The id of a streamed event is a cursor: base64 of a JSON object that names
    the node, the topic and the offset.  The client keeps the last offset of
    every topic and sends them back as one cursor over several topics. *)
From S2P Require Import Prelude PebbleKeys PebbleStorage Utf8 Base64 Json JsonSpec.

(** ** Data.  The server and the client declare the same two types. *)
Definition sseCursorVersion : Z := 1.

Record sseEventCursor := mkEventCursor {
  ec_Version : Z;
  ec_NodeID : string;
  ec_Topic : string;
  ec_Offset : Z
}.

Record sseMultiTopicCursor := mkMultiCursor {
  mc_Version : Z;
  mc_NodeID : string;
  mc_Topics : gmap string Z
}.

(** [json.Marshal]: the members in the order of the fields, the keys of a map
    sorted. *)
Definition event_cursor_json (c : sseEventCursor) : json :=
  JObj [member "v" (JInt (ec_Version c)); member "nodeId" (JString (ec_NodeID c));
        member "topic" (JString (ec_Topic c)); member "offset" (JInt (ec_Offset c))].

Definition sorted_entries (m : gmap string Z) : list (string * Z) :=
  merge_sort (λ p q, string_le p.1 q.1) (map_to_list m).

Definition topics_json (m : gmap string Z) : json :=
  JObj ((λ '(topic, offset), member topic (JInt offset)) <$> sorted_entries m).

Definition multi_cursor_json (c : sseMultiTopicCursor) : json :=
  JObj [member "v" (JInt (mc_Version c)); member "nodeId" (JString (mc_NodeID c));
        member "topics" (topics_json (mc_Topics c))].

(** ** The server *)

(** [json.Marshal] does not fail on either type. *)
Definition encodeSSECursor (cursor : json) : outcome string := Ok (EncodeToString (print cursor)).

Definition encodeSSEEventCursor (nodeID topic : string) (offset : Z) : outcome string :=
  encodeSSECursor (event_cursor_json (mkEventCursor sseCursorVersion nodeID topic offset)).

(** The struct that both kinds of cursor are parsed into. *)
Record cursor_envelope := mkEnvelope {
  env_Version : Z;
  env_NodeID : string;
  env_Topic : string;
  env_Offset : Z;
  env_Topics : gmap string Z
}.

Definition envelope_fields : list (string * setter cursor_envelope) :=
  [("v", set_int (λ x e, mkEnvelope x (env_NodeID e) (env_Topic e) (env_Offset e) (env_Topics e)));
   ("nodeId", set_string (λ x e, mkEnvelope (env_Version e) x (env_Topic e) (env_Offset e) (env_Topics e)));
   ("topic", set_string (λ x e, mkEnvelope (env_Version e) (env_NodeID e) x (env_Offset e) (env_Topics e)));
   ("offset", set_int (λ x e, mkEnvelope (env_Version e) (env_NodeID e) (env_Topic e) x (env_Topics e)));
   ("topics", set_map env_Topics (λ x e, mkEnvelope (env_Version e) (env_NodeID e) (env_Topic e) (env_Offset e) x))]%string.

Definition err_cursor_topic : error := ErrNew "SSE cursor topic is required".
Definition err_cursor_offset : error := ErrNew "SSE cursor offset must be non-negative".

Fixpoint validate_entries (entries : list (string * Z)) : option error :=
  match entries with
  | [] => None
  | (topic, offset) :: entries =>
    if bool_decide (topic = ""%string) then Some err_cursor_topic
    else if bool_decide (offset < 0)%Z then Some err_cursor_offset
    else validate_entries entries
  end.

Definition validateSSECursorTopics `{!MapOrder} (topics : gmap string Z) : option error :=
  validate_entries (range_map topics).

Definition decodeSSECursor `{!MapOrder} (raw : string) : outcome sseMultiTopicCursor :=
  if bool_decide (raw = ""%string) then Err (ErrNew "SSE cursor is required")
  else
    data ← wrap_err "decode SSE cursor" (DecodeString raw);
    envelope ← wrap_err "parse SSE cursor" (Unmarshal envelope_fields data (mkEnvelope 0 "" "" 0 ∅));
    if bool_decide (env_Version envelope ≠ sseCursorVersion)
    then Err (ErrNew ("unsupported SSE cursor version " +:+ pretty (env_Version envelope)))
    else if bool_decide (env_NodeID envelope = ""%string) then Err (ErrNew "SSE cursor nodeId is required")
    else if bool_decide (0 < Z.of_nat (size (env_Topics envelope)))%Z then
      match validateSSECursorTopics (env_Topics envelope) with
      | Some err => Err err
      | None => Ok (mkMultiCursor (env_Version envelope) (env_NodeID envelope) (env_Topics envelope))
      end
    else if bool_decide (env_Topic envelope = ""%string) then Err err_cursor_topic
    else if bool_decide (env_Offset envelope < 0)%Z then Err err_cursor_offset
    else Ok (mkMultiCursor (env_Version envelope) (env_NodeID envelope)
               {[env_Topic envelope := env_Offset envelope]}).

(** ** The client *)
Definition client_encodeSSECursor (cursor : json) : outcome string := Ok (EncodeToString (print cursor)).

Definition event_cursor_fields : list (string * setter sseEventCursor) :=
  [("v", set_int (λ x c, mkEventCursor x (ec_NodeID c) (ec_Topic c) (ec_Offset c)));
   ("nodeId", set_string (λ x c, mkEventCursor (ec_Version c) x (ec_Topic c) (ec_Offset c)));
   ("topic", set_string (λ x c, mkEventCursor (ec_Version c) (ec_NodeID c) x (ec_Offset c)));
   ("offset", set_int (λ x c, mkEventCursor (ec_Version c) (ec_NodeID c) (ec_Topic c) x))]%string.

Definition decodeSSEEventCursor (raw : string) : outcome sseEventCursor :=
  data ← wrap_err "decode SSE cursor" (DecodeString raw);
  cursor ← wrap_err "parse SSE cursor" (Unmarshal event_cursor_fields data (mkEventCursor 0 "" "" 0));
  if bool_decide (ec_Version cursor ≠ sseCursorVersion)
  then Err (ErrNew ("unsupported SSE cursor version " +:+ pretty (ec_Version cursor)))
  else if bool_decide (ec_NodeID cursor = ""%string) then Err (ErrNew "SSE cursor nodeId is required")
  else if bool_decide (ec_Topic cursor = ""%string) then Err err_cursor_topic
  else if bool_decide (ec_Offset cursor < 0)%Z then Err err_cursor_offset
  else Ok cursor.

Definition encodeSSEMultiTopicCursor (nodeID : string) (topics : gmap string Z) : outcome string :=
  if bool_decide (nodeID = ""%string) || bool_decide (size topics = 0) then Ok ""%string
  else client_encodeSSECursor (multi_cursor_json (mkMultiCursor sseCursorVersion nodeID topics)).

(** ** Lemmas *)
Definition valid_text (s : string) : Prop := utf8_valid (bytes_of_string s) = true.

Lemma string_of_valid s : valid_text s → string_of_bytes (to_valid (bytes_of_string s)) = s.
Proof. intros Hs. rewrite to_valid_id by done. apply string_of_bytes_of_string. Qed.

(** What a cursor must be for the rest of the server to use it. *)
Record cursor_ok (c : sseMultiTopicCursor) : Prop := {
  cok_version : mc_Version c = sseCursorVersion;
  cok_node : mc_NodeID c ≠ ""%string;
  cok_some : mc_Topics c ≠ ∅;
  cok_topics : ∀ topic offset, mc_Topics c !! topic = Some offset → topic ≠ ""%string ∧ (0 ≤ offset)%Z
}.

Lemma validate_entries_ok l :
  validate_entries l = None ↔ ∀ topic offset, (topic, offset) ∈ l → topic ≠ ""%string ∧ (0 ≤ offset)%Z.
Proof.
  induction l as [|[t o] l IH]; simpl.
  { split; [|done]. intros _ ?? []%not_elem_of_nil. }
  repeat case_bool_decide; (split; [try done|]).
  - intros Hl. by destruct (Hl t o (list_elem_of_here _ _)).
  - intros Hl. destruct (Hl t o (list_elem_of_here _ _)). lia.
  - intros Hn topic offset [[= -> ->]|Hin]%elem_of_cons; [split; [done|lia]|]. by apply IH.
  - intros Hl. apply IH. intros ???. by apply Hl, list_elem_of_further.
Qed.

Lemma validateSSECursorTopics_ok `{!MapOrder} (topics : gmap string Z) :
  validateSSECursorTopics topics = None ↔
  ∀ topic offset, topics !! topic = Some offset → topic ≠ ""%string ∧ (0 ≤ offset)%Z.
Proof. unfold validateSSECursorTopics. rewrite validate_entries_ok. by setoid_rewrite elem_of_range_map. Qed.

(** What a decoder accepts is a usable cursor. *)
Lemma decodeSSECursor_sound `{!MapOrder} raw c : decodeSSECursor raw = Ok c → cursor_ok c.
Proof.
  unfold decodeSSECursor. case_bool_decide; [done|].
  destruct (DecodeString raw) as [data| |]; [simpl|done..].
  destruct (Unmarshal _ _ _) as [e| |]; [simpl|done..].
  repeat (case_bool_decide; [done|]). case_bool_decide as Hsize.
  - destruct (validateSSECursorTopics (env_Topics e)) eqn:Hv; [done|]. intros [= <-].
    split; [simpl in *; by destruct (decide (env_Version e = sseCursorVersion))|done|simpl|by apply validateSSECursorTopics_ok].
    intros He. rewrite He, map_size_empty in Hsize. lia.
  - repeat (case_bool_decide; [done|]). intros [= <-].
    split; simpl; [by destruct (decide (env_Version e = sseCursorVersion))|done| |].
    + apply map_non_empty_singleton.
    + intros topic offset [<- <-]%lookup_singleton_Some. split; [done|lia].
Qed.

(** *** Reading back what was printed *)
Lemma event_cursor_wf c : json_wf 1 (event_cursor_json c).
Proof.
  constructor. intros k v. unfold event_cursor_json. rewrite !elem_of_cons.
  intros [[= -> ->]|[[= -> ->]|[[= -> ->]|[[= -> ->]|[]%not_elem_of_nil]]]]; constructor; apply FormatInt_literal.
Qed.

Lemma multi_cursor_wf c : json_wf 2 (multi_cursor_json c).
Proof.
  constructor. intros k v. unfold multi_cursor_json. rewrite !elem_of_cons.
  intros [[= -> ->]|[[= -> ->]|[[= -> ->]|[]%not_elem_of_nil]]]; constructor; try apply FormatInt_literal.
  intros k' v' ([topic offset] & [= -> ->] & _)%list_elem_of_fmap. constructor. apply FormatInt_literal.
Qed.

Lemma sorted_entries_perm m : sorted_entries m ≡ₚ map_to_list m.
Proof. apply merge_sort_Permutation. Qed.

Lemma set_entry_print t o m :
  valid_text t → is_int64 o → set_entry (Some m) (canon_member (member t (JInt o))) = Some (<[t := o]> m).
Proof. intros Ht Ho. simpl. rewrite ParseInt64_FormatInt by done. simpl. by rewrite string_of_valid. Qed.

Lemma set_entries_print (l : list (string * Z)) m :
  (∀ topic offset, (topic, offset) ∈ l → valid_text topic ∧ is_int64 offset) →
  foldl set_entry (Some m) (map canon_member ((λ '(topic, offset), member topic (JInt offset)) <$> l)) =
  Some (insert_all m l).
Proof.
  revert m. induction l as [|[t o] l IH]; intros m Hl; [done|].
  destruct (Hl t o (list_elem_of_here _ _)) as [Ht Ho]. rewrite fmap_cons. cbn [map foldl]. rewrite set_entry_print by done.
  apply IH. intros ???. by apply Hl, list_elem_of_further.
Qed.

Lemma set_topics_print (m : gmap string Z) :
  (∀ topic offset, m !! topic = Some offset → valid_text topic ∧ is_int64 offset) →
  foldl set_entry (Some ∅) (map canon_member ((λ '(topic, offset), member topic (JInt offset)) <$> sorted_entries m)) = Some m.
Proof.
  intros Hm. rewrite set_entries_print.
  - f_equal. apply insert_all_perm, sorted_entries_perm.
  - intros topic offset. rewrite sorted_entries_perm. intros Hin%elem_of_map_to_list. by apply Hm.
Qed.

Lemma parse_event_cursor c :
  parse_json (print (event_cursor_json c)) = Some (canon (event_cursor_json c)).
Proof. apply (parse_json_print 1); [apply event_cursor_wf|by vm_compute]. Qed.

Lemma parse_multi_cursor c :
  parse_json (print (multi_cursor_json c)) = Some (canon (multi_cursor_json c)).
Proof. apply (parse_json_print 2); [apply multi_cursor_wf|by vm_compute]. Qed.

Lemma set_field_found {T} (fields : list (string * setter T)) i name set v t :
  fields !! i = Some (name, set) →
  fst <$> list_find (λ f, bytes_of_string f.1 = to_valid (bytes_of_string name)) fields = Some i →
  set_field fields (Some t) (to_valid (bytes_of_string name), v) = set v t.
Proof.
  intros Hi Hfind. unfold set_field, find_field. simpl. destruct (list_find _ _) as [[i' f]|] eqn:Hf; [|done].
  simpl in Hfind. simplify_eq. apply list_find_Some in Hf as (Hi' & _). by simplify_eq.
Qed.

Lemma set_int_print {T} (upd : Z → T → T) z t : is_int64 z → set_int upd (JInt z) t = Some (upd z t).
Proof. intros Hz. simpl. by rewrite ParseInt64_FormatInt. Qed.

Lemma set_string_print {T} (upd : string → T → T) s t :
  valid_text s → set_string upd (canon (JString s)) t = Some (upd s t).
Proof. intros Hs. simpl. by rewrite string_of_valid. Qed.

(** Assign one member of a known name. *)
Ltac assign i lem :=
  cbn [foldl]; erewrite (set_field_found _ i) by reflexivity; rewrite lem by done.

Lemma unmarshal_event_cursor nodeID topic offset e :
  valid_text nodeID → valid_text topic → is_int64 offset →
  Unmarshal event_cursor_fields (print (event_cursor_json (mkEventCursor sseCursorVersion nodeID topic offset))) e =
  Ok (mkEventCursor sseCursorVersion nodeID topic offset).
Proof.
  intros Hn Ht Ho. unfold Unmarshal. rewrite parse_event_cursor.
  change (canon (event_cursor_json (mkEventCursor sseCursorVersion nodeID topic offset))) with
    (JObj [(to_valid (bytes_of_string "v"), JInt sseCursorVersion); (to_valid (bytes_of_string "nodeId"), canon (JString nodeID));
           (to_valid (bytes_of_string "topic"), canon (JString topic)); (to_valid (bytes_of_string "offset"), JInt offset)]).
  cbv iota. assign 0 @set_int_print. assign 1 @set_string_print.
  assign 2 @set_string_print. by assign 3 @set_int_print.
Qed.

Lemma envelope_event_cursor nodeID topic offset :
  valid_text nodeID → valid_text topic → is_int64 offset →
  Unmarshal envelope_fields (print (event_cursor_json (mkEventCursor sseCursorVersion nodeID topic offset))) (mkEnvelope 0 "" "" 0 ∅) =
  Ok (mkEnvelope sseCursorVersion nodeID topic offset ∅).
Proof.
  intros Hn Ht Ho. unfold Unmarshal. rewrite parse_event_cursor.
  change (canon (event_cursor_json (mkEventCursor sseCursorVersion nodeID topic offset))) with
    (JObj [(to_valid (bytes_of_string "v"), JInt sseCursorVersion); (to_valid (bytes_of_string "nodeId"), canon (JString nodeID));
           (to_valid (bytes_of_string "topic"), canon (JString topic)); (to_valid (bytes_of_string "offset"), JInt offset)]).
  cbv iota. assign 0 @set_int_print. assign 1 @set_string_print.
  assign 2 @set_string_print. by assign 3 @set_int_print.
Qed.

Lemma set_map_print {T} get (upd : gmap string Z → T → T) topics t :
  get t = ∅ → (∀ topic offset, topics !! topic = Some offset → valid_text topic ∧ is_int64 offset) →
  set_map get upd (canon (topics_json topics)) t = Some (upd topics t).
Proof. intros Hget Hm. cbn [canon topics_json set_map]. rewrite Hget. by rewrite set_topics_print. Qed.

Lemma envelope_multi_cursor nodeID topics :
  valid_text nodeID → (∀ topic offset, topics !! topic = Some offset → valid_text topic ∧ is_int64 offset) →
  Unmarshal envelope_fields (print (multi_cursor_json (mkMultiCursor sseCursorVersion nodeID topics))) (mkEnvelope 0 "" "" 0 ∅) =
  Ok (mkEnvelope sseCursorVersion nodeID "" 0 topics).
Proof.
  intros Hn Ht. unfold Unmarshal. rewrite parse_multi_cursor.
  change (canon (multi_cursor_json (mkMultiCursor sseCursorVersion nodeID topics))) with
    (JObj [(to_valid (bytes_of_string "v"), JInt sseCursorVersion); (to_valid (bytes_of_string "nodeId"), canon (JString nodeID));
           (to_valid (bytes_of_string "topics"), canon (topics_json topics))]).
  cbv iota. assign 0 @set_int_print. assign 1 @set_string_print.
  by assign 4 @set_map_print.
Qed.

Lemma encoded_nonempty n j : json_wf n j → EncodeToString (print j) ≠ ""%string.
Proof. intros Hj. by eapply EncodeToString_nonempty, print_nonnil. Qed.

Ltac cursor_fields :=
  cbn [wrap_err mbind outcome_bind ec_Version ec_NodeID ec_Topic ec_Offset
       env_Version env_NodeID env_Topic env_Offset env_Topics].

(** The id of an event. *)
Definition event_id (nodeID topic : string) (offset : Z) : string :=
  EncodeToString (print (event_cursor_json (mkEventCursor sseCursorVersion nodeID topic offset))).

Lemma encodeSSEEventCursor_ok nodeID topic offset :
  encodeSSEEventCursor nodeID topic offset = Ok (event_id nodeID topic offset).
Proof. done. Qed.

Lemma event_id_nonempty nodeID topic offset : event_id nodeID topic offset ≠ ""%string.
Proof. eapply encoded_nonempty, event_cursor_wf. Qed.

(** A server-issued id, as the client reads it. *)
Lemma client_reads_event_id nodeID topic offset :
  nodeID ≠ ""%string → topic ≠ ""%string → valid_text nodeID → valid_text topic → is_int64 offset → (0 ≤ offset)%Z →
  decodeSSEEventCursor (event_id nodeID topic offset) = Ok (mkEventCursor sseCursorVersion nodeID topic offset).
Proof.
  intros Hnode Htopic Hn Ht Ho Hpos. unfold decodeSSEEventCursor, event_id. rewrite DecodeString_EncodeToString. cbn [wrap_err mbind outcome_bind].
  rewrite unmarshal_event_cursor by done. cursor_fields.
  rewrite (bool_decide_eq_false_2 (sseCursorVersion ≠ sseCursorVersion)) by naive_solver.
  by rewrite !bool_decide_eq_false_2 by (done || lia).
Qed.

Section Server.
Context `{!MapOrder}.

(** A server-issued id, as the server reads it. *)
Lemma server_reads_event_id nodeID topic offset :
  nodeID ≠ ""%string → topic ≠ ""%string → valid_text nodeID → valid_text topic → is_int64 offset → (0 ≤ offset)%Z →
  decodeSSECursor (event_id nodeID topic offset) = Ok (mkMultiCursor sseCursorVersion nodeID {[topic := offset]}).
Proof.
  intros Hnode Htopic Hn Ht Ho Hpos. unfold decodeSSECursor.
  rewrite bool_decide_eq_false_2 by apply event_id_nonempty.
  unfold event_id. rewrite DecodeString_EncodeToString. cbn [wrap_err mbind outcome_bind]. rewrite envelope_event_cursor by done. cursor_fields.
  rewrite (bool_decide_eq_false_2 (sseCursorVersion ≠ sseCursorVersion)) by naive_solver.
  by rewrite !bool_decide_eq_false_2 by (done || lia).
Qed.

(** The client's resume header, as the server reads it. *)
Lemma server_reads_resume_header nodeID topics :
  nodeID ≠ ""%string → topics ≠ ∅ → valid_text nodeID →
  (∀ topic offset, topics !! topic = Some offset →
     topic ≠ ""%string ∧ valid_text topic ∧ is_int64 offset ∧ (0 ≤ offset)%Z) →
  ∃ h, encodeSSEMultiTopicCursor nodeID topics = Ok h ∧ h ≠ ""%string ∧
    decodeSSECursor h = Ok (mkMultiCursor sseCursorVersion nodeID topics).
Proof.
  intros Hnode Hne Hn Ht. unfold encodeSSEMultiTopicCursor.
  assert (size topics ≠ 0) as Hsize by by rewrite map_size_empty_iff.
  rewrite !bool_decide_eq_false_2 by done. eexists. split; [done|].
  split; [by eapply encoded_nonempty, multi_cursor_wf|]. unfold decodeSSECursor.
  rewrite bool_decide_eq_false_2 by (by eapply encoded_nonempty, multi_cursor_wf).
  rewrite DecodeString_EncodeToString. cbn [wrap_err mbind outcome_bind].
  rewrite envelope_multi_cursor; [|done|intros t o Hto; by destruct (Ht t o Hto) as (_ & ? & ? & _)]. cursor_fields.
  rewrite (bool_decide_eq_false_2 (sseCursorVersion ≠ sseCursorVersion)) by naive_solver.
  rewrite bool_decide_eq_false_2, bool_decide_eq_true_2 by (done || lia).
  rewrite (proj2 (validateSSECursorTopics_ok topics)); [done|].
  intros t o Hto. by destruct (Ht t o Hto) as (? & _ & _ & ?).
Qed.

(** C21: cursors survive the round trip.  The id the server gives to a streamed
    event is never empty; the client reads from it the node, the topic and the
    offset it was made of, and the server reads the same position.  The header
    a client resumes with is read by the server as exactly the offsets the
    client holds; and whatever text a client sends, a cursor the server accepts
    names a node, at least one topic and only non-negative offsets. *)
Theorem cursor_roundtrip (nodeID topic raw : string) (offset : Z) (topics : gmap string Z) (c : sseMultiTopicCursor)
    (Hnode : nodeID ≠ ""%string ∧ valid_text nodeID)
    (Htopic : topic ≠ ""%string ∧ valid_text topic) (Hoffset : is_int64 offset ∧ (0 ≤ offset)%Z)
    (Htopics : topics ≠ ∅ ∧ ∀ t o, topics !! t = Some o → t ≠ ""%string ∧ valid_text t ∧ is_int64 o ∧ (0 ≤ o)%Z) :
  (∃ id, encodeSSEEventCursor nodeID topic offset = Ok id ∧ id ≠ ""%string ∧
     decodeSSEEventCursor id = Ok (mkEventCursor sseCursorVersion nodeID topic offset) ∧
     decodeSSECursor id = Ok (mkMultiCursor sseCursorVersion nodeID {[topic := offset]})) ∧
  (∃ h, encodeSSEMultiTopicCursor nodeID topics = Ok h ∧ h ≠ ""%string ∧
     decodeSSECursor h = Ok (mkMultiCursor sseCursorVersion nodeID topics)) ∧
  (decodeSSECursor raw = Ok c → cursor_ok c).
Proof.
  destruct Hnode as [Hnode Hn], Htopic as [Htopic Ht], Hoffset as [Ho Hpos], Htopics as [Hne Hts].
  split; [|split; [by apply server_reads_resume_header|apply decodeSSECursor_sound]].
  exists (event_id nodeID topic offset). split; [done|]. split; [apply event_id_nonempty|].
  split; [by apply client_reads_event_id|by apply server_reads_event_id].
Qed.
End Server.

(** ** Witness *)
Lemma cursor_roundtrip_witness :
  let _ := map_order_id in
  ∃ id, encodeSSEEventCursor "node-1" "orders.eu" 41 = Ok id ∧ id ≠ ""%string ∧
    decodeSSEEventCursor id = Ok (mkEventCursor sseCursorVersion "node-1" "orders.eu" 41) ∧
    decodeSSECursor id = Ok (mkMultiCursor sseCursorVersion "node-1" {["orders.eu"%string := 41%Z]}).
Proof.
  intros mo. apply (cursor_roundtrip "node-1" "orders.eu" "" 41 {["orders.eu"%string := 41%Z]} (mkMultiCursor 1 "" ∅)).
  - split; [done|by vm_compute].
  - split; [done|by vm_compute].
  - by vm_compute.
  - split; [done|]. intros t o [<- <-]%lookup_singleton_Some. by repeat split; vm_compute.
Defined.
