(* ===== verification/HTTP.v ===== *)
(** * Requests, responses and the handlers' state ([internal/httpapi])

    A request is what the handlers read from it; a response is the status line
    and the bytes written.  A connection may break: [w_room] is the number of
    writes that still succeed ([None]: all of them). *)
From S2P Require Import Prelude Utf8 Json.

(** [JWTClaims], as the handlers see them. *)
Record JWTClaims := mkClaims { jwt_ClientID : string; jwt_IsAdmin : bool }.

(** A request: what arrived, and the values the middleware and the router put
    into its context ([GetClaims], [GetSubscriptionID], [GetTopicFromPath]). *)
Record Request := mkRequest {
  r_ctx : Ctx;
  r_Method : string;
  r_Path : string;
  r_Header : gmap string string;
  r_Query : gmap string string;
  r_Body : bytes;
  r_claims : option JWTClaims;
  r_subscriptionID : string;
  r_topic : string
}.

(** [r.Header.Get] and [r.URL.Query().Get]. *)
Definition r_header (r : Request) (key : string) : string := default ""%string (r_Header r !! key).
Definition r_query (r : Request) (key : string) : string := default ""%string (r_Query r !! key).

(** [r.WithContext(context.WithValue(..))] *)
Definition with_claims (c : JWTClaims) (r : Request) : Request :=
  mkRequest (r_ctx r) (r_Method r) (r_Path r) (r_Header r) (r_Query r) (r_Body r) (Some c) (r_subscriptionID r) (r_topic r).
Definition with_subscriptionID (id : string) (r : Request) : Request :=
  mkRequest (r_ctx r) (r_Method r) (r_Path r) (r_Header r) (r_Query r) (r_Body r) (r_claims r) id (r_topic r).
Definition with_topic (topic : string) (r : Request) : Request :=
  mkRequest (r_ctx r) (r_Method r) (r_Path r) (r_Header r) (r_Query r) (r_Body r) (r_claims r) (r_subscriptionID r) topic.

(** ** Paths

    Paths are taken decoded, as [URL.Path] has them; an escaped dot or slash
    ([URL.RawPath]) does not occur. *)
Fixpoint split_path (s : string) : list string :=
  match s with
  | EmptyString => [EmptyString]
  | String c s =>
    if Ascii.eqb c "/" then EmptyString :: split_path s
    else match split_path s with
         | seg :: segs => String c seg :: segs
         | [] => [String c EmptyString]
         end
  end.
Definition join_path (segs : list string) : string := String.concat "/" segs.

(** [resolvePath] of [net/url] for a reference that starts with a slash: the
    segments so far, last first. *)
Definition resolve_segment (dst : list string) (elem : string) : list string :=
  if bool_decide (elem = "."%string) then match dst with [] => [""%string] | _ => dst end
  else if bool_decide (elem = ".."%string) then tail dst
  else elem :: dst.

Definition resolvePath (full : string) : string :=
  let segs := split_path full in
  let dst := "/" +:+ join_path (reverse (foldl resolve_segment [] segs)) in
  let dst := if bool_decide (last segs = Some "."%string ∨ last segs = Some ".."%string) then dst +:+ "/" else dst in
  match dst with
  | String _ (String c rest) => if Ascii.eqb c "/" then String c rest else dst
  | _ => dst
  end.

(** [cleanPath] of [net/http]. *)
Definition clean_segment (dst : list string) (elem : string) : list string :=
  if bool_decide (elem = ""%string) || bool_decide (elem = "."%string) then dst
  else if bool_decide (elem = ".."%string) then tail dst
  else elem :: dst.

Definition cleanPath (p : string) : string :=
  if bool_decide (p = ""%string) then "/"%string
  else
    let p := match p with String c _ => if Ascii.eqb c "/" then p else "/" +:+ p | _ => p end in
    let segs := split_path p in
    let np := "/" +:+ join_path (reverse (foldl clean_segment [] segs)) in
    if bool_decide (last segs = Some ""%string) && bool_decide (np ≠ "/"%string) then np +:+ "/" else np.

(** A path whose segments are plain is left as it is. *)
Definition no_slash (s : string) : Prop := Forall (λ c, c ≠ "/"%char) (String.list_ascii_of_string s).
Definition plain_segment (s : string) : Prop := s ≠ ""%string ∧ s ≠ "."%string ∧ s ≠ ".."%string ∧ no_slash s.

Lemma split_path_segment s rest : no_slash s → split_path (s +:+ String "/" rest) = s :: split_path rest.
Proof.
  unfold no_slash. induction s as [|c s IH]; intros Hs; [done|]. cbn [String.list_ascii_of_string] in Hs.
  apply Forall_cons in Hs as [Hc Hs]. change (String c s +:+ String "/" rest) with (String c (s +:+ String "/" rest)).
  cbn [split_path]. apply Ascii.eqb_neq in Hc. by rewrite Hc, IH.
Qed.

Lemma resolve_plain dst s : plain_segment s → resolve_segment dst s = s :: dst.
Proof. intros (_ & Hd & Hdd & _). unfold resolve_segment. by rewrite !bool_decide_eq_false_2. Qed.

Lemma clean_plain dst s : plain_segment s → clean_segment dst s = s :: dst.
Proof. intros (Hne & Hd & Hdd & _). unfold clean_segment. by rewrite !bool_decide_eq_false_2. Qed.

(** [fmt]'s [%d]. *)
Definition fmt_int (z : Z) : string := string_of_bytes (FormatInt z).

Record Writer := mkWriter {
  w_status : option Z;
  w_body : bytes;
  w_room : option nat
}.

Definition new_writer : Writer := mkWriter None [] None.

Definition err_connection_lost : error := ErrNew "write: connection lost".

(** Only the first status counts. *)
Definition WriteHeader (statusCode : Z) (w : Writer) : Writer :=
  match w_status w with
  | None => mkWriter (Some statusCode) (w_body w) (w_room w)
  | Some _ => w
  end.

(** Writing sends the status 200 if none has been sent. *)
Definition Write (b : bytes) (w : Writer) : option error * Writer :=
  match w_room w with
  | None => (None, mkWriter (Some (default 200%Z (w_status w))) (w_body w ++ b) None)
  | Some 0 => (Some err_connection_lost, w)
  | Some (S room) => (None, mkWriter (Some (default 200%Z (w_status w))) (w_body w ++ b) (Some room))
  end.

Definition StatusText (code : Z) : string :=
  match code with
  | 200 => "OK"
  | 201 => "Created"
  | 204 => "No Content"
  | 301 => "Moved Permanently"
  | 307 => "Temporary Redirect"
  | 400 => "Bad Request"
  | 401 => "Unauthorized"
  | 403 => "Forbidden"
  | 404 => "Not Found"
  | 405 => "Method Not Allowed"
  | 409 => "Conflict"
  | 413 => "Request Entity Too Large"
  | 500 => "Internal Server Error"
  | 503 => "Service Unavailable"
  | _ => ""
  end%Z%string.

(** [json.NewEncoder(w).Encode]: the text and a line break. *)
Definition newline : ascii := byte_of 10.
Definition encode_json (j : json) : bytes := print j ++ [newline].

Definition writeError (message : string) (statusCode : Z) (w : Writer) : Writer :=
  let errorResp := JObj [member "error" (JString (StatusText statusCode)); member "message" (JString message);
                         member "code" (JInt statusCode)] in
  (Write (encode_json errorResp) (WriteHeader statusCode w)).2.

Definition writeJSON (data : json) (statusCode : Z) (w : Writer) : Writer :=
  (Write (encode_json data) (WriteHeader statusCode w)).2.

(** The handlers' own state; the node they serve is shared and passed along. *)
Record Handlers := mkHandlers {
  sseResumeRequests : Z;
  sseResumeEventsReplayed : Z;
  sseResumeInvalidCursor : Z;
  sseResumeNodeMismatch : Z;
  sseResumeReplayLimitExceeded : Z
}.

Definition NewHandlers : Handlers := mkHandlers 0 0 0 0 0.

(** [atomic.Int64.Add]. *)
Definition add_requests (k : Z) (h : Handlers) : Handlers :=
  mkHandlers (wrap64 (sseResumeRequests h + k)) (sseResumeEventsReplayed h) (sseResumeInvalidCursor h)
    (sseResumeNodeMismatch h) (sseResumeReplayLimitExceeded h).
Definition add_replayed (k : Z) (h : Handlers) : Handlers :=
  mkHandlers (sseResumeRequests h) (wrap64 (sseResumeEventsReplayed h + k)) (sseResumeInvalidCursor h)
    (sseResumeNodeMismatch h) (sseResumeReplayLimitExceeded h).
Definition add_invalid (k : Z) (h : Handlers) : Handlers :=
  mkHandlers (sseResumeRequests h) (sseResumeEventsReplayed h) (wrap64 (sseResumeInvalidCursor h + k))
    (sseResumeNodeMismatch h) (sseResumeReplayLimitExceeded h).
Definition add_mismatch (k : Z) (h : Handlers) : Handlers :=
  mkHandlers (sseResumeRequests h) (sseResumeEventsReplayed h) (sseResumeInvalidCursor h)
    (wrap64 (sseResumeNodeMismatch h + k)) (sseResumeReplayLimitExceeded h).
Definition add_limit (k : Z) (h : Handlers) : Handlers :=
  mkHandlers (sseResumeRequests h) (sseResumeEventsReplayed h) (sseResumeInvalidCursor h)
    (sseResumeNodeMismatch h) (wrap64 (sseResumeReplayLimitExceeded h + k)).
