(* ===== verification/SSEMessage.v ===== *)
(** * Streamed messages ([eventToSSEMessage], [writeSSEMessage],
    [EventStreamMessage] of [internal/httpapi/types.go] and
    [pkg/httpclient/types.go])

    An event is streamed as a JSON object that carries its payload as JSON: a
    payload that is a JSON text as that value, any other as a string.  Through
    Go's [interface{}] a number becomes a [float64] and is printed as one, and
    the members of an object are sorted. *)
From S2P Require Import Prelude EventLog PebbleKeys Utf8 Json JsonSpec SSECursor HTTP.

(** The text formats of the standard library that are left abstract:
    [format_float] reads a number as a [float64] and prints it ([None]: out of
    range), [format_time] and [parse_time] are those of [time.Time] and
    [format_quoted] is the [%q] of [fmt], used in an error message. *)
Class TextFormats := {
  format_float : bytes → option bytes;
  format_time : Z → option bytes;
  parse_time : bytes → option Z;
  format_quoted : string → string
}.

(** A printed float is a JSON number and is printed the same when read again;
    a printed time is ASCII and is read back. *)
Class TextFormatsLaws `{TextFormats} := {
  format_float_literal lit lit' : format_float lit = Some lit' → number_literal lit';
  format_float_idemp lit lit' : format_float lit = Some lit' → format_float lit' = Some lit';
  format_time_ascii t b : format_time t = Some b → utf8_valid b = true;
  parse_format_time t b : format_time t = Some b → parse_time b = Some t
}.

Record EventStreamMessage := mkMessage {
  sm_EventID : string;
  sm_Topic : string;
  sm_Payload : json;
  sm_Timestamp : Z;
  sm_Offset : Z
}.

(** ** Values of type [interface{}] *)
Definition sort_members (ms : list (bytes * json)) : list (bytes * json) :=
  merge_sort (λ p q, bytes_le p.1 q.1)
    (map_to_list (insert_all (∅ : gmap bytes json) ms)).

(** [json.Unmarshal] into an [interface{}], as what it is printed as: of two
    members with one name the last counts. *)
Section interface_value.
Context `{!TextFormats}.

Fixpoint interface_value (j : json) : option json :=
  match j with
  | JNum lit => JNum <$> format_float lit
  | JArr l => JArr <$>
      (fix go l := match l with
                   | [] => Some []
                   | x :: l => x ← interface_value x; l ← go l; Some (x :: l)
                   end) l
  | JObj ms => (λ ms, JObj (sort_members ms)) <$>
      (fix go ms := match ms with
                    | [] => Some []
                    | (k, v) :: ms => v ← interface_value v; ms ← go ms; Some ((k, v) :: ms)
                    end) ms
  | _ => Some j
  end.

(** [var payload interface{}; if event.Payload != nil { if err :=
    json.Unmarshal(..); err != nil { payload = string(event.Payload) } }] *)
Definition payload_json (payload : option bytes) : json :=
  match payload with
  | None => JNull
  | Some b => match parse_json b ≫= interface_value with Some j => j | None => JStr b end
  end.

(** ** The server *)
Definition eventToSSEMessage (nodeID : string) (event : Event) : outcome EventStreamMessage :=
  let payload := payload_json (Payload event) in
  eventID ← encodeSSEEventCursor nodeID (Topic event) (Offset event);
  Ok (mkMessage eventID (Topic event) payload (Timestamp event) (Offset event)).

(** [json.Marshal] fails on a time outside the years 0 to 9999. *)
Definition message_json (m : EventStreamMessage) : outcome json :=
  match format_time (sm_Timestamp m) with
  | None => Err (ErrVar "*json.MarshalerError" "Time.MarshalJSON: year outside of range [0,9999]")
  | Some timestamp =>
    Ok (JObj [member "eventId" (JString (sm_EventID m)); member "topic" (JString (sm_Topic m));
              member "payload" (sm_Payload m); member "timestamp" (JStr timestamp);
              member "offset" (JInt (sm_Offset m))])
  end.

(** ["id: %s\ndata: %s\n\n"] *)
Definition sse_frame (id : string) (data : bytes) : bytes :=
  bytes_of_string "id: " ++ bytes_of_string id ++ newline :: bytes_of_string "data: " ++ data ++ [newline; newline].

Definition writeSSEMessage (w : Writer) (message : EventStreamMessage) : option error * Writer :=
  if bool_decide (sm_EventID message = ""%string) then (Some (ErrNew "SSE event ID is required"), w)
  else match message_json message with
  | Ok j => Write (sse_frame (sm_EventID message) (print j)) w
  | Err err => (Some (ErrWrap "failed to marshal SSE message" err), w)
  | Panic _ => (None, w)
  end.

(** ** The client *)
Definition set_any {T} (upd : json → T → T) : setter T := λ v t,
  v ← interface_value v; Some (upd v t).

Definition set_time {T} (upd : Z → T → T) : setter T := λ v t,
  match v with
  | JNull => Some t
  | JStr s => z ← parse_time s; Some (upd z t)
  | _ => None
  end.

Definition stream_message_fields : list (string * setter EventStreamMessage) :=
  [("eventId", set_string (λ x m, mkMessage x (sm_Topic m) (sm_Payload m) (sm_Timestamp m) (sm_Offset m)));
   ("topic", set_string (λ x m, mkMessage (sm_EventID m) x (sm_Payload m) (sm_Timestamp m) (sm_Offset m)));
   ("payload", set_any (λ x m, mkMessage (sm_EventID m) (sm_Topic m) x (sm_Timestamp m) (sm_Offset m)));
   ("timestamp", set_time (λ x m, mkMessage (sm_EventID m) (sm_Topic m) (sm_Payload m) x (sm_Offset m)));
   ("offset", set_int (λ x m, mkMessage (sm_EventID m) (sm_Topic m) (sm_Payload m) (sm_Timestamp m) x))]%string.

(** The zero value; [zero_time] is the zero [time.Time]. *)
Definition zero_time : Z := -62135596800000000000.
Definition zero_message : EventStreamMessage := mkMessage "" "" JNull zero_time 0.

Definition Unmarshal_message (data : bytes) : outcome EventStreamMessage :=
  Unmarshal stream_message_fields data zero_message.
End interface_value.
