(* ===== verification/JsonValues.v ===== *)
(** * JSON values that are stable

    What [encoding/json] reads into an [interface{}] is printed and read back as
    the same value: its strings are valid UTF-8, its numbers are printed floats
    and its objects are sorted. *)
From S2P Require Import Prelude PebbleKeys Utf8 Json JsonSpec HTTP SSEMessage.
#[local] Set Default Proof Using "Type*".

(** ** What the parser yields *)

(** Strings are valid UTF-8 and at most [n] brackets are nested. *)
Inductive clean : nat → json → Prop :=
  | cl_null n : clean n JNull
  | cl_bool n b : clean n (JBool b)
  | cl_num n lit : clean n (JNum lit)
  | cl_str n s : utf8_valid s = true → clean n (JStr s)
  | cl_arr n l : (∀ j, j ∈ l → clean n j) → clean (S n) (JArr l)
  | cl_obj n ms : (∀ k v, (k, v) ∈ ms → utf8_valid k = true) → (∀ k v, (k, v) ∈ ms → clean n v) → clean (S n) (JObj ms).

(** How deep the parser may still go. *)
Definition room (depth : N) : nat := N.to_nat (maxNestingDepth - depth).

Lemma room_succ depth : (maxNestingDepth <=? depth)%N = false → room depth = S (room (depth + 1)).
Proof. unfold room. intros ?%N.leb_gt. lia. Qed.

Definition value_clean (fuel : nat) : Prop := ∀ depth b j r,
  parse_value fuel depth b = Some (j, r) → clean (room depth) j.
Definition members_clean (fuel : nat) : Prop := ∀ depth b ms r,
  parse_members fuel depth b = Some (ms, r) → ∀ k v, (k, v) ∈ ms → utf8_valid k = true ∧ clean (room depth) v.
Definition elements_clean (fuel : nat) : Prop := ∀ depth b l r,
  parse_elements fuel depth b = Some (l, r) → ∀ j, j ∈ l → clean (room depth) j.

(** The alternatives of a parser, one step at a time. *)
Ltac parse_step H :=
  lazymatch type of H with
  | None = Some _ => discriminate H
  | Some _ = Some _ => injection H as <- <-
  | (match ?x with _ => _ end) = Some _ => destruct x eqn:?; try discriminate H
  | (mbind _ ?o) = Some _ => apply bind_Some in H as ([? ?] & ? & H)
  end.
Ltac parse_steps H := cbn beta iota in H; repeat (parse_step H; cbn beta iota in H).

Lemma parse_members_clean fuel : value_clean fuel → members_clean fuel → members_clean (S fuel).
Proof.
  intros Hv Hms depth b ms r Hp. cbn [parse_members] in Hp. parse_steps Hp; intros k' v' Hin.
  - apply elem_of_cons in Hin as [[= -> ->]|Hin]; [split; [apply utf8_valid_to_valid|by eapply Hv]|by eapply Hms].
  - apply list_elem_of_singleton in Hin as [= -> ->]. split; [apply utf8_valid_to_valid|by eapply Hv].
Qed.

Lemma parse_elements_clean fuel : value_clean fuel → elements_clean fuel → elements_clean (S fuel).
Proof.
  intros Hv Hl depth b l r Hp. cbn [parse_elements] in Hp. parse_steps Hp; intros x Hin.
  - apply elem_of_cons in Hin as [->|Hin]; [by eapply Hv|by eapply Hl].
  - apply list_elem_of_singleton in Hin as ->. by eapply Hv.
Qed.

Lemma parse_value_clean fuel : members_clean fuel → elements_clean fuel → value_clean (S fuel).
Proof.
  intros Hms Hl depth b j r Hp. cbn [parse_value] in Hp. parse_steps Hp;
    first [by constructor
          |by (rewrite room_succ by done; constructor; intros; exfalso; set_solver)
          |by (rewrite room_succ by done; constructor; intros; by eapply Hl)
          |by (rewrite room_succ by done; constructor; intros; by eapply Hms)
          |by (constructor; apply utf8_valid_to_valid)].
Qed.

Lemma parse_clean fuel : value_clean fuel ∧ members_clean fuel ∧ elements_clean fuel.
Proof.
  induction fuel as [|fuel (Hv & Hm & He)]; [split_and!; discriminate|].
  split_and!; auto using parse_value_clean, parse_members_clean, parse_elements_clean.
Qed.

Lemma parse_json_clean b j : parse_json b = Some j → clean (room 0) j.
Proof.
  unfold parse_json. intros ([j' r] & Hp & Hr)%bind_Some. apply parse_clean in Hp.
  destruct (skip_ws r); [|discriminate]. by injection Hr as <-.
Qed.

(** ** Values that are read as themselves *)
Section Stable.
Context `{TF : !TextFormats, TL : !TextFormatsLaws}.

Inductive std : nat → json → Prop :=
  | std_null n : std n JNull
  | std_bool n b : std n (JBool b)
  | std_num n lit : format_float lit = Some lit → std n (JNum lit)
  | std_str n s : utf8_valid s = true → std n (JStr s)
  | std_arr n l : (∀ j, j ∈ l → std n j) → std (S n) (JArr l)
  | std_obj n ms : (∀ k v, (k, v) ∈ ms → utf8_valid k = true) → (∀ k v, (k, v) ∈ ms → std n v) →
      sort_members ms = ms → std (S n) (JObj ms).

Lemma std_wf n j : std n j → json_wf n j.
Proof.
  induction 1; constructor; try done. by eapply format_float_literal.
Qed.

Lemma std_canon n j : std n j → canon j = j.
Proof.
  induction 1 as [| | |n s Hs|n l _ IH|n ms Hk _ IH _]; simpl; try done; f_equal.
  - by apply to_valid_id.
  - transitivity (map id l); [|by rewrite map_id]. apply map_ext_in. intros j Hj%list_elem_of_In. by apply IH.
  - transitivity (map id ms); [|by rewrite map_id]. apply map_ext_in. intros [k v] Hv%list_elem_of_In.
    rewrite to_valid_id by by eapply Hk. unfold id. f_equal. by eapply IH.
Qed.

(** The values of a list and of an object's members. *)
Definition member_value (kv : bytes * json) : option (bytes * json) := v ← interface_value kv.2; Some (kv.1, v).

Lemma interface_value_arr l : interface_value (JArr l) = JArr <$> mapM interface_value l.
Proof. reflexivity. Qed.

Lemma interface_value_obj ms : interface_value (JObj ms) = (λ ms, JObj (sort_members ms)) <$> mapM member_value ms.
Proof.
  cbn [interface_value]. f_equal. induction ms as [|[k v] ms IH]; [done|]. cbn [mapM]. rewrite IH.
  change (member_value (k, v)) with (v' ← interface_value v; Some (k, v')). by destruct (interface_value v).
Qed.

Lemma mapM_id {A} (f : A → option A) l : (∀ x, x ∈ l → f x = Some x) → mapM f l = Some l.
Proof.
  induction l as [|x l IH]; intros Hf; [done|]. cbn [mapM]. rewrite Hf by by left. cbn [mbind option_bind].
  rewrite IH; [done|]. intros y Hy. apply Hf. by right.
Qed.

Lemma std_interface n j : std n j → interface_value j = Some j.
Proof.
  induction 1 as [| |n lit Hl|n s Hs|n l _ IH|n ms Hk _ IH Hsort]; [done|done|simpl; by rewrite Hl|done| |].
  - rewrite interface_value_arr, mapM_id; [done|]. auto.
  - rewrite interface_value_obj, mapM_id; [simpl; by rewrite Hsort|].
    intros [k v] Hin. unfold member_value. cbn [fst snd]. by rewrite (IH k v Hin).
Qed.

(** Sorting twice is sorting once. *)
Lemma sort_members_perm ms : sort_members ms ≡ₚ map_to_list (insert_all (∅ : gmap bytes json) ms).
Proof. apply merge_sort_Permutation. Qed.

Lemma sort_members_idemp ms : sort_members (sort_members ms) = sort_members ms.
Proof. unfold sort_members at 1. by rewrite (insert_all_perm _ _ (sort_members_perm ms)). Qed.

Lemma sort_members_elem ms k v : (k, v) ∈ sort_members ms → (k, v) ∈ ms.
Proof. rewrite sort_members_perm. by intros [|[]%lookup_empty_Some]%elem_of_map_to_list%insert_all_elem. Qed.

Lemma interface_value_std n j j' : clean n j → interface_value j = Some j' → std n j'.
Proof.
  intros Hc. revert j'. induction Hc as [| |n lit|n s Hs|n l _ IH|n ms Hk _ IH]; intros j' Hj.
  - injection Hj as <-. constructor.
  - injection Hj as <-. constructor.
  - apply fmap_Some in Hj as (lit' & Hl & ->). constructor. by eapply format_float_idemp.
  - injection Hj as <-. by constructor.
  - rewrite interface_value_arr in Hj. apply fmap_Some in Hj as (l' & Hl%mapM_Some & ->). constructor. intros x' Hx.
    apply list_elem_of_lookup in Hx as [i Hi]. eapply Forall2_lookup_r in Hl as (x & Hx & Hv); [|done].
    eapply IH; [by eapply list_elem_of_lookup_2|done].
  - rewrite interface_value_obj in Hj. apply fmap_Some in Hj as (ms' & Hms%mapM_Some & ->).
    assert (∀ k v, (k, v) ∈ sort_members ms' → ∃ v0, (k, v0) ∈ ms ∧ interface_value v0 = Some v) as Hin.
    { intros k v Hkv%sort_members_elem. apply list_elem_of_lookup in Hkv as [i Hi].
      eapply Forall2_lookup_r in Hms as ([k0 v0] & Hx & Hv); [|done].
      apply bind_Some in Hv as (v1 & Hv1 & [= -> ->]). exists v0. split; [by eapply list_elem_of_lookup_2|done]. }
    constructor; [intros k v (v0 & ? & _)%Hin; by eapply Hk|intros k v (v0 & ? & ?)%Hin; by eapply IH|apply sort_members_idemp].
Qed.

(** ** Nesting *)
Fixpoint json_depth (j : json) : nat :=
  match j with
  | JArr l => S (list_max (map json_depth l))
  | JObj ms => S (list_max (map (λ kv, json_depth kv.2) ms))
  | _ => 0
  end.

Lemma json_wf_depth n j m : json_wf n j → json_depth j ≤ m → json_wf m j.
Proof.
  intros Hs. revert m. induction Hs as [| | | |n l Hl IH|n ms Hms IH]; intros m Hm; try (by constructor);
    cbn [json_depth] in Hm; (destruct m as [|m]; [lia|]); constructor; apply le_S_n in Hm; rewrite list_max_le, Forall_forall in Hm.
  - intros j Hj. apply IH; [done|]. apply Hm. apply list_elem_of_In, in_map, list_elem_of_In, Hj.
  - intros k v Hkv. eapply IH; [done|]. apply Hm.
    apply list_elem_of_In, (in_map (λ kv, json_depth kv.2) _ (k, v)), list_elem_of_In, Hkv.
Qed.

(** A payload that is streamed: its value, with its text made valid. *)
Lemma payload_json_bounded payload :
  ∃ n, n ≤ room 0 ∧ std n (canon (payload_json payload)) ∧ json_wf n (payload_json payload).
Proof.
  assert (∀ s, ∃ n, n ≤ room 0 ∧ std n (canon (JStr s)) ∧ json_wf n (JStr s)) as Hstr
    by (intros s; exists 0; split; [lia|]; split; [constructor; apply utf8_valid_to_valid|constructor]).
  unfold payload_json. destruct payload as [b|]; [|exists 0; split; [lia|]; split; constructor].
  destruct (parse_json b) as [j|] eqn:Hp; cbn [mbind option_bind]; [|apply Hstr].
  destruct (interface_value j) as [j'|] eqn:Hj; [|apply Hstr].
  apply interface_value_std with (n := room 0) in Hj; [|by eapply parse_json_clean].
  exists (room 0). split; [done|]. split; [by rewrite (std_canon (room 0))|by apply std_wf].
Qed.

Lemma payload_json_std payload : ∃ n, std n (canon (payload_json payload)) ∧ json_wf n (payload_json payload).
Proof. destruct (payload_json_bounded payload) as (n & _ & ? & ?). by exists n. Qed.
End Stable.
