(* ===== verification/SSEStream.v ===== *)
(** * Event streams ([StreamEvents] of [internal/httpapi/handlers.go])

    A streaming request registers a new client object for every subscription of
    the caller, replays what the resume cursor asks for, and then forwards what
    arrives on the client's channel until the connection ends.  The handler is
    given up to the point where it waits; each round of its loop is a step. *)
From S2P Require Import Prelude Topics EventLog RoutingTable Peers Clients MeshNode NodeLifecycle Utf8 Json SSECursor HTTP SSEMessage.

Definition maxSSEResumeTopics : Z := 64.
Definition maxSSEResumeReplayEvents : Z := 10000.
Definition sseReplayBatchSize : Z := 1000.

Definition errSSEReplayLimitExceeded : error :=
  ErrVar "httpapi.errSSEReplayLimitExceeded" "SSE resume replay exceeds server event limit".
Definition errSSEResumeTopicLimitExceeded : error :=
  ErrVar "httpapi.errSSEResumeTopicLimitExceeded" "SSE resume cursor exceeds server topic limit".

Definition err_replay_limit (total maxEvents : Z) : error :=
  ErrWith errSSEReplayLimitExceeded ("requested " +:+ pretty total +:+ " events, limit is " +:+ pretty maxEvents).
Definition err_topic_limit (topics maxTopics : Z) : error :=
  ErrWith errSSEResumeTopicLimitExceeded ("cursor has " +:+ pretty topics +:+ " topics, limit is " +:+ pretty maxTopics).
Definition err_resume_offset (topic : string) : error := ErrNew ("invalid SSE resume offset for topic " +:+ topic).

(** ** The resume cursor *)
Section Resume.
Context {L P : Type} `{!EventLog L, !PeerLink P, MO : !MapOrder, TF : !TextFormats}.
Implicit Types n : MeshNode L P.

Definition resumeCursorFromRequest (r : Request) : outcome (option sseMultiTopicCursor) :=
  let raw := TrimSpace (r_header r "Last-Event-ID") in
  let raw := if bool_decide (raw = ""%string) then TrimSpace (r_query r "since") else raw in
  if bool_decide (raw = ""%string) then Ok None
  else cursor ← decodeSSECursor raw; Ok (Some cursor).

Fixpoint topicCoveredBySubscriptions (topic : string) (subscriptions : list string) : bool :=
  match subscriptions with
  | [] => false
  | subscription :: subscriptions =>
    if matchesTopicPattern subscription topic then true else topicCoveredBySubscriptions topic subscriptions
  end.

(** The loop over the cursor's topics, with the number of events so far. *)
Fixpoint plan_loop (ctx : Ctx) (entries : list (string * Z)) (active : list string) (maxEvents total : Z) n
    : outcome unit * Ctx :=
  match entries with
  | [] => (Ok (), ctx)
  | (topic, offset) :: entries =>
    if negb (topicCoveredBySubscriptions topic active) then plan_loop ctx entries active maxEvents total n
    else
      let '(r, ctx) := GetTopicEndOffset ctx topic (n_log n) in
      match r with
      | Err err => (Err (ErrWrap ("get end offset for topic " +:+ topic) err), ctx)
      | Panic m => (Panic m, ctx)
      | Ok endOffset =>
        let nextOffset := wrap64 (offset + 1) in
        if bool_decide (nextOffset < 0)%Z then (Err (err_resume_offset topic), ctx)
        else if bool_decide (endOffset ≤ nextOffset)%Z then plan_loop ctx entries active maxEvents total n
        else
          let total := wrap64 (total + wrap64 (endOffset - nextOffset)) in
          if bool_decide (maxEvents < total)%Z then (Err (err_replay_limit total maxEvents), ctx)
          else plan_loop ctx entries active maxEvents total n
      end
  end.

Definition validateSSEReplayPlan (ctx : Ctx) (cursor : sseMultiTopicCursor) (active : list string)
    (maxEvents maxTopics : Z) n : outcome unit * Ctx :=
  if bool_decide (maxTopics < Z.of_nat (size (mc_Topics cursor)))%Z
  then (Err (err_topic_limit (Z.of_nat (size (mc_Topics cursor))) maxTopics), ctx)
  else plan_loop ctx (range_map (mc_Topics cursor)) active maxEvents 0 n.

(** ** Replay *)

(** [for _, event := range events]: the next offset is that of the last event
    written, plus one. *)
Fixpoint write_events (nodeID : string) (events : list Event) (w : Writer) (nextOffset : Z)
    : option error * Writer * Z :=
  match events with
  | [] => (None, w, nextOffset)
  | event :: events =>
    match eventToSSEMessage nodeID event with
    | Err err => (Some err, w, nextOffset)
    | Panic _ => (None, w, nextOffset)
    | Ok message =>
      match writeSSEMessage w message with
      | (Some err, w) => (Some err, w, nextOffset)
      | (None, w) => write_events nodeID events w (wrap64 (Offset event + 1))
      end
    end
  end.

(** One topic, in batches until a batch is not full.  [fuel] bounds the number
    of batches; [None]: it was not enough. *)
Fixpoint replay_topic (fuel : nat) (ctx : Ctx) (topic : string) (nextOffset : Z) (h : Handlers) (w : Writer) n
    : option (outcome unit * Ctx * Handlers * Writer) :=
  match fuel with
  | 0 => None
  | S fuel =>
    let '(r, ctx) := ReadEvents ctx topic nextOffset sseReplayBatchSize (n_log n) in
    match r with
    | Err err => Some (Err (ErrWrap ("read replay events for topic " +:+ topic) err), ctx, h, w)
    | Panic m => Some (Panic m, ctx, h, w)
    | Ok events =>
      if bool_decide (length events = 0) then Some (Ok (), ctx, h, w)
      else match write_events (GetNodeID n) events w nextOffset with
      | (Some err, w, _) => Some (Err err, ctx, h, w)
      | (None, w, nextOffset) =>
        let h := add_replayed (Z.of_nat (length events)) h in
        if bool_decide (Z.of_nat (length events) < sseReplayBatchSize)%Z then Some (Ok (), ctx, h, w)
        else replay_topic fuel ctx topic nextOffset h w n
      end
    end
  end.

Fixpoint replay_loop (fuel : nat) (ctx : Ctx) (entries : list (string * Z)) (active : list string)
    (h : Handlers) (w : Writer) n : option (outcome unit * Ctx * Handlers * Writer) :=
  match entries with
  | [] => Some (Ok (), ctx, h, w)
  | (topic, offset) :: entries =>
    if negb (topicCoveredBySubscriptions topic active) then replay_loop fuel ctx entries active h w n
    else
      '(r, ctx, h, w) ← replay_topic fuel ctx topic (wrap64 (offset + 1)) h w n;
      match r with
      | Ok _ => replay_loop fuel ctx entries active h w n
      | _ => Some (r, ctx, h, w)
      end
  end.

Definition replaySSECursor (fuel : nat) (ctx : Ctx) (cursor : sseMultiTopicCursor) (active : list string)
    (h : Handlers) (w : Writer) n : option (outcome unit * Ctx * Handlers * Writer) :=
  replay_loop fuel ctx (range_map (mc_Topics cursor)) active h w n.

(** ** Registration *)

(** Topics already seen are skipped.  On an error the topics subscribed so far
    stay subscribed. *)
Fixpoint register_loop (client : Client) (subscriptions : list ClientSubscription) (seen : gset string)
    (topics : list string) n : outcome (list string) * MeshNode L P :=
  match subscriptions with
  | [] => (Ok topics, n)
  | subscription :: subscriptions =>
    let topic := cs_Topic subscription in
    if bool_decide (topic ∈ seen) then register_loop client subscriptions seen topics n
    else match rt_Subscribe topic (as_subscriber client) (n_rt n) with
    | (Err err, rt) => (Err (ErrWrap ("topic " +:+ topic) err), with_rt rt n)
    | (Panic m, rt) => (Panic m, with_rt rt n)
    | (Ok _, rt) => register_loop client subscriptions ({[topic]} ∪ seen) (topics ++ [topic]) (with_rt rt n)
    end
  end.

Definition registerSSEClient (client : Client) (subscriptions : list ClientSubscription) n
    : outcome (list string) * MeshNode L P :=
  register_loop client subscriptions ∅ [] n.

(** Errors are logged and the loop goes on. *)
Fixpoint unregisterSSEClient (client : Client) (topics : list string) n : MeshNode L P :=
  match topics with
  | [] => n
  | topic :: topics => unregisterSSEClient client topics (with_rt (rt_Unsubscribe topic (client_ID client) (n_rt n)).2 n)
  end.

(** ** The handler *)
Definition is_streaming (r : Request) : bool :=
  bool_decide (r_header r "Accept" = "text/event-stream"%string) || bool_decide (r_query r "stream" = "true"%string).

Definition sse_greeting : bytes := bytes_of_string ": SSE connection established for all topics" ++ [newline; newline].

Definition msg_topic_query : string :=
  "topic query parameter is not supported for SSE streaming; create a subscription with POST /api/v1/subscriptions, then connect to /api/v1/events/stream".

Definition msg_other_node (theirs ours : string) : string :=
  "SSE resume cursor belongs to a different node " +:+ format_quoted theirs +:+ "; reconnect to " +:+
  format_quoted ours +:+ " or start a fresh stream".

(** How the handler goes on: it has returned, with a panic if there was one, or
    it waits in [streamWithKeepalive] for its client. *)
Inductive stream_state :=
  | StreamEnded
  | StreamPanicked (m : string)
  | Streaming (ctx : Ctx) (client : Client) (topics : list string).

(** [validateSSEReplayPlan], the response headers and [replaySSECursor] of a
    registered client; on every way out the client is unregistered again. *)
Definition stream_open (fuel : nat) (ctx : Ctx) (resume : option sseMultiTopicCursor) (client : Client)
    (topics : list string) (h : Handlers) (w : Writer) n
    : option (stream_state * Handlers * Writer * MeshNode L P) :=
  let leave n := unregisterSSEClient client topics n in
  let '(plan, ctx) :=
    match resume with
    | None => (Ok (), ctx)
    | Some cursor => validateSSEReplayPlan ctx cursor topics maxSSEResumeReplayEvents maxSSEResumeTopics n
    end in
  match plan with
  | Err err =>
    if errors_Is err "httpapi.errSSEReplayLimitExceeded" || errors_Is err "httpapi.errSSEResumeTopicLimitExceeded"
    then Some (StreamEnded, add_limit 1 h, writeError (error_String err) 413 w, leave n)
    else Some (StreamEnded, h, writeError ("Failed to validate SSE replay: " +:+ error_String err) 500 w, leave n)
  | Panic m => Some (StreamPanicked m, h, w, leave n)
  | Ok _ =>
    match Write sse_greeting (WriteHeader 200 w) with
    | (Some _, w) => Some (StreamEnded, h, w, leave n)
    | (None, w) =>
      match resume with
      | None => Some (Streaming ctx client topics, h, w, n)
      | Some cursor =>
        '(r, ctx, h, w) ← replaySSECursor fuel ctx cursor topics h w n;
        Some (match r with
              | Ok _ => (Streaming ctx client topics, h, w, n)
              | Err _ => (StreamEnded, h, w, leave n)
              | Panic m => (StreamPanicked m, h, w, leave n)
              end)
      end
    end
  end.

(** From the point where the request is known to be good. *)
Definition stream_subscribed (fuel : nat) (now : Z) (r : Request) (claims : JWTClaims)
    (resume : option sseMultiTopicCursor) (h : Handlers) (w : Writer) n
    : option (stream_state * Handlers * Writer * MeshNode L P) :=
  if negb (is_streaming r) then Some (StreamEnded, h, (Write sse_greeting (WriteHeader 200 w)).2, n)
  else
    let '(client, heap) := NewHTTPClient now (jwt_ClientID claims) (n_heap n) in
    let n := with_heap heap n in
    match registerSSEClient client (GetClientSubscriptions (jwt_ClientID claims) n) n with
    | (Err err, n) => Some (StreamEnded, h, writeError ("Failed to register SSE client: " +:+ error_String err) 500 w, n)
    | (Panic m, n) => Some (StreamPanicked m, h, w, n)
    | (Ok topics, n) => stream_open fuel (r_ctx r) resume client topics h w n
    end.

Definition StreamEvents (fuel : nat) (now : Z) (r : Request) (h : Handlers) (w : Writer) n
    : option (stream_state * Handlers * Writer * MeshNode L P) :=
  match r_claims r with
  | None => Some (StreamEnded, h, writeError "Authentication required" 401 w, n)
  | Some claims =>
    if bool_decide (TrimSpace (r_query r "topic") ≠ ""%string)
    then Some (StreamEnded, h, writeError msg_topic_query 400 w, n)
    else match resumeCursorFromRequest r with
    | Panic m => Some (StreamPanicked m, h, w, n)
    | Err err =>
      Some (StreamEnded, add_invalid 1 h, writeError ("Invalid SSE resume cursor: " +:+ error_String err) 400 w, n)
    | Ok None => stream_subscribed fuel now r claims None h w n
    | Ok (Some cursor) =>
      let h := add_requests 1 h in
      if bool_decide (mc_NodeID cursor ≠ GetNodeID n)
      then Some (StreamEnded, add_mismatch 1 h, writeError (msg_other_node (mc_NodeID cursor) (GetNodeID n)) 409 w, n)
      else stream_subscribed fuel now r claims (Some cursor) h w n
    end
  end.

(** One round of [streamWithKeepalive]: which case of its [select] is taken.
    Every way out runs the deferred [unregisterSSEClient].  [StreamReceive] is
    possible when the client's channel holds an event. *)
Inductive stream_event := StreamDone | StreamTick | StreamReceive.

Definition sse_ping : bytes := bytes_of_string ": ping" ++ [newline; newline].

Definition client_chan (client : Client) : nat :=
  match client with TrustedClient _ _ ref | HTTPClient _ _ _ ref => ref | OtherClient _ _ => 0 end.

Definition stream_step (ev : stream_event) (ctx : Ctx) (client : Client) (topics : list string) (w : Writer) n
    : option (stream_state * Writer * MeshNode L P) :=
  let leave w n := Some (StreamEnded, w, unregisterSSEClient client topics n) in
  match ev with
  | StreamDone => leave w n
  | StreamTick =>
    match Write sse_ping w with
    | (Some _, w) => leave w n
    | (None, w) => Some (Streaming ctx client topics, w, n)
    end
  | StreamReceive =>
    '(event, heap) ← chan_receive (client_chan client) (n_heap n);
    let n := with_heap heap n in
    match eventToSSEMessage (GetNodeID n) event with
    | Err _ => leave w n
    | Panic m => Some (StreamPanicked m, w, unregisterSSEClient client topics n)
    | Ok message =>
      match writeSSEMessage w message with
      | (Some _, w) => leave w n
      | (None, w) => Some (Streaming ctx client topics, w, n)
      end
    end
  end.
End Resume.
