(* ===== verification/SSEReplay.v ===== *)
(** * What a resumed stream replays

    A replay plan that was accepted is carried out: every covered topic of the
    cursor from the offset after the one the client holds to its end, in order,
    in at most eleven reads. *)
From S2P Require Import Prelude Topics EventLog RoutingTable Peers Clients MeshNode NodeLifecycle Utf8 Json JsonSpec SSECursor HTTP SSEMessage SSEStream.
#[local] Set Default Proof Using "Type*".

Section Replay.
Context {L P : Type} `{!EventLog L, !PeerLink P, MO : !MapOrder, TF : !TextFormats}.
Implicit Types n : MeshNode L P.

(** The bytes an event is streamed as. *)
Definition event_frame (nodeID : string) (e : Event) : bytes :=
  match m ← eventToSSEMessage nodeID e; j ← message_json m; Ok (sse_frame (sm_EventID m) (print j)) with
  | Ok b => b
  | _ => []
  end.

(** An event whose time can be printed. *)
Definition printable (e : Event) : Prop := is_Some (format_time (Timestamp e)).

Lemma writeSSEMessage_event nodeID e w :
  printable e → is_Some (w_status w) → w_room w = None →
  ∃ m, eventToSSEMessage nodeID e = Ok m ∧
    writeSSEMessage w m = (None, mkWriter (w_status w) (w_body w ++ event_frame nodeID e) None).
Proof.
  intros [ts Hts] [st Hst] Hroom. unfold event_frame, eventToSSEMessage. rewrite encodeSSEEventCursor_ok. cbn [mbind outcome_bind].
  eexists. split; [done|]. unfold writeSSEMessage. cbn [sm_EventID].
  rewrite bool_decide_eq_false_2 by apply event_id_nonempty.
  unfold message_json. cbn [sm_Timestamp]. rewrite Hts. cbn [mbind outcome_bind].
  unfold Write. by rewrite Hroom, Hst.
Qed.

(** The offset after the last event of a list. *)
Definition next_after (next : Z) (events : list Event) : Z :=
  match last events with Some e => wrap64 (Offset e + 1) | None => next end.

Lemma write_events_ok nodeID events w next :
  Forall printable events → is_Some (w_status w) → w_room w = None →
  write_events nodeID events w next =
    (None, mkWriter (w_status w) (w_body w ++ (events ≫= event_frame nodeID)) None, next_after next events).
Proof.
  intros Hev. revert w next. induction Hev as [|e events He Hev IH]; intros w next Hst Hroom; cbn [write_events].
  { destruct w; simpl in *; subst. by rewrite (right_id_L [] (++)). }
  destruct (writeSSEMessage_event nodeID e w He Hst Hroom) as (m & -> & ->).
  rewrite IH by done. rewrite bind_cons. cbn [w_status w_body]. rewrite (assoc_L (++)).
  replace (next_after next (e :: events)) with (next_after (wrap64 (Offset e + 1)) events); [done|].
  unfold next_after. rewrite last_cons. by destruct (last events).
Qed.

Lemma add_replayed_add a b h : add_replayed a (add_replayed b h) = add_replayed (b + a) h.
Proof. unfold add_replayed. cbn. rewrite wrap64_add_l. do 2 f_equal. lia. Qed.

Lemma add_replayed_0 h : is_int64 (sseResumeEventsReplayed h) → add_replayed 0 h = h.
Proof. intros Hh. unfold add_replayed. rewrite Z.add_0_r, wrap64_id by done. by destruct h. Qed.

Lemma printable_equiv (evs evs' : list Event) : evs ≡ evs' → Forall printable evs' → Forall printable evs.
Proof.
  induction 1 as [|e e' evs evs' He _ IH]; [done|]. intros [Hp Hps]%Forall_cons. constructor; [|by apply IH].
  unfold printable in *. destruct He as (_&_&_&Ht&_). by rewrite Ht.
Qed.

(** ** One topic *)
Section Topic.
Context `{!EventLogSpec L}.
Variables (n : MeshNode L P) (a : AbsLog) (ctx : Ctx).
Hypothesis Hrep : log_rep (n_log n) a.
Hypothesis Hlive : ctx_live ctx.
Hypothesis Hopen : abs_closed a = false.

(** The events of the topic after the first [s]. *)
Definition rest (topic : string) (s : Z) : list Event := drop (Z.to_nat s) (abs_topic a topic).

Lemma length_rest topic s : (0 ≤ s)%Z → Z.of_nat (length (rest topic s)) = Z.max (abs_end a topic - s) 0.
Proof. intros Hs. unfold rest, abs_end. rewrite length_drop. lia. Qed.

Lemma read_batch topic s :
  topic ≠ ""%string → (0 ≤ s)%Z → (s + sseReplayBatchSize ≤ max_int64)%Z → (abs_end a topic ≤ max_int64)%Z →
  ∃ evs, ReadEvents ctx topic s sseReplayBatchSize (n_log n) = (Ok evs, ctx) ∧ evs ≡ abs_slice a topic s sseReplayBatchSize.
Proof.
  intros Ht Hs Hmax Hend. apply (read_ok (L:=L)); [done..| |done|by vm_compute|done].
  unfold abs_guard, read_args. rewrite poll_live by done. cbn [fst].
  rewrite !bool_decide_eq_false_2; [by rewrite Hopen|by vm_compute|lia|done].
Qed.

Lemma next_after_batch topic s evs :
  evs ≡ abs_slice a topic s sseReplayBatchSize → evs ≠ [] → (0 ≤ s)%Z → (s + sseReplayBatchSize ≤ max_int64)%Z →
  next_after s evs = (s + Z.of_nat (length evs))%Z.
Proof.
  intros Hevs Hne Hs Hmax. unfold next_after. rewrite last_lookup.
  destruct (evs !! pred (length evs)) as [e|] eqn:He.
  2:{ apply lookup_ge_None in He. by destruct evs; simpl in *; [|lia]. }
  assert (length evs = length (abs_slice a topic s sseReplayBatchSize)) as Hlen by (by rewrite Hevs). unfold abs_slice in Hlen. fold (rest topic s) in Hlen. rewrite length_take in Hlen.
  pose proof (proj1 (list_equiv_lookup _ _) Hevs (pred (length evs))) as Hl. rewrite He in Hl.
  symmetry in Hl. apply Some_equiv_eq in Hl as (e' & He' & Heq).
  assert (Offset e = s + Z.of_nat (pred (length evs)))%Z as ->.
  { rewrite <-Heq. apply (abs_slice_offsets a topic s sseReplayBatchSize); [eapply log_rep_wf, Hrep|done|exact He']. }
  unfold sseReplayBatchSize, max_int64 in *. destruct evs; [done|]. cbn [length pred] in *. rewrite wrap64_id; [lia|unfold is_int64; lia].
Qed.

Lemma replay_topic_ok fuel : ∀ topic s h w,
  topic ≠ ""%string → Forall printable (abs_topic a topic) → is_Some (w_status w) → w_room w = None → is_int64 (sseResumeEventsReplayed h) →
  (0 ≤ s)%Z → (s + sseReplayBatchSize ≤ max_int64)%Z → (abs_end a topic + sseReplayBatchSize ≤ max_int64)%Z →
  (abs_end a topic - s < Z.of_nat fuel * sseReplayBatchSize)%Z → fuel ≠ 0 →
  ∃ evs, evs ≡ rest topic s ∧
    replay_topic fuel ctx topic s h w n =
    Some (Ok (), ctx, add_replayed (Z.of_nat (length evs)) h,
          mkWriter (w_status w) (w_body w ++ (evs ≫= event_frame (GetNodeID n))) None).
Proof.
  unfold sseReplayBatchSize.
  induction fuel as [|fuel IH]; intros topic s h w Ht Hprint Hst Hroom Hh Hs Hmax Hend Hfuel Hf; [done|]. clear Hf.
  destruct (read_batch topic s) as (evs & Hread & Hevs); [done|done|exact Hmax|lia|].
  assert (length evs = length (abs_slice a topic s sseReplayBatchSize)) as Hlen by (by rewrite Hevs). unfold abs_slice in Hlen. fold (rest topic s) in Hlen. rewrite length_take in Hlen.
  pose proof (length_rest topic s Hs) as Hrest.
  cbn [replay_topic]. rewrite Hread. case_bool_decide as Hz.
  { exists []. split.
    - destruct (rest topic s); [done|]. simpl in *. lia.
    - rewrite add_replayed_0 by done. destruct w; simpl in *; subst. by rewrite (right_id_L [] (++)). }
  assert (Forall printable evs) as Hp.
  { eapply printable_equiv; [done|]. by apply Forall_take, Forall_drop. }
  rewrite write_events_ok by done. rewrite (next_after_batch topic s evs Hevs); [|by intros ->|done|done].
  unfold sseReplayBatchSize in *. case_bool_decide as Hshort.
  - exists evs. split; [|done]. rewrite Hevs. unfold abs_slice. fold (rest topic s). rewrite take_ge; [done|]. lia.
  - destruct (IH topic (s + Z.of_nat (length evs))%Z (add_replayed (Z.of_nat (length evs)) h)
      (mkWriter (w_status w) (w_body w ++ (evs ≫= event_frame (GetNodeID n))) None))
      as (evs' & Hevs' & ->); [done|done|done|done|apply wrap64_range|lia..|].
    exists (evs ++ evs'). split.
    + assert (Z.to_nat (s + Z.of_nat (length evs)) = Z.to_nat s + Z.to_nat 1000) as Hnext by lia.
      rewrite Hevs'. unfold rest at 1. rewrite Hnext, Hevs. unfold rest, abs_slice. rewrite <-drop_drop. by rewrite take_drop.
    + rewrite add_replayed_add, bind_app. cbn [w_status w_body]. rewrite (assoc_L (++)), length_app. do 4 f_equal. lia.
Qed.

(** ** The whole cursor *)
Definition is_covered (active : list string) (entry : string * Z) : bool :=
  topicCoveredBySubscriptions entry.1 active.

(** The topics to replay with the offsets the client holds. *)
Definition to_replay (active : list string) (entries : list (string * Z)) : list (string * Z) :=
  filter (λ entry, is_covered active entry = true) entries.

(** The number of events after the cursor. *)
Definition outstanding (entry : string * Z) : Z := Z.max (abs_end a entry.1 - (entry.2 + 1)) 0.
Definition total_outstanding (entries : list (string * Z)) : Z :=
  foldr (λ entry k, (outstanding entry + k)%Z) 0%Z entries.

Lemma total_outstanding_nonneg entries : (0 ≤ total_outstanding entries)%Z.
Proof. induction entries as [|e l IH]; simpl; [done|]. unfold outstanding at 1. lia. Qed.

Lemma to_replay_cons active entry entries :
  to_replay active (entry :: entries) =
  if is_covered active entry then entry :: to_replay active entries else to_replay active entries.
Proof. unfold to_replay. rewrite filter_cons. case_decide as Hc; destruct (is_covered active entry); done. Qed.

(** A position of the cursor, far enough from the end of the 64-bit range. *)
Record entry_ok (maxEvents : Z) (entry : string * Z) : Prop := {
  eok_topic : entry.1 ≠ ""%string;
  eok_offset : (0 ≤ entry.2)%Z;
  eok_far : (entry.2 + 1 + sseReplayBatchSize ≤ max_int64)%Z;
  eok_end : (abs_end a entry.1 + Z.max maxEvents sseReplayBatchSize ≤ max_int64)%Z;
  eok_times : Forall printable (abs_topic a entry.1)
}.

Lemma end_offset topic :
  topic ≠ ""%string → (abs_end a topic ≤ max_int64)%Z →
  GetTopicEndOffset ctx topic (n_log n) = (Ok (abs_end a topic), ctx).
Proof.
  intros Ht Hend. erewrite (end_ok (L:=L)); [by rewrite poll_live|done| |done].
  unfold abs_guard, topic_args. rewrite poll_live by done. cbn [fst].
  by rewrite bool_decide_eq_false_2, Hopen.
Qed.

Lemma plan_loop_spec active maxEvents entries : ∀ total,
  Forall (entry_ok maxEvents) entries → (0 ≤ total ≤ maxEvents)%Z →
  if (total + total_outstanding (to_replay active entries) <=? maxEvents)%Z
  then plan_loop ctx entries active maxEvents total n = (Ok (), ctx)
  else ∃ k, plan_loop ctx entries active maxEvents total n = (Err (err_replay_limit k maxEvents), ctx).
Proof.
  induction entries as [|[topic offset] entries IH]; intros total Hok Htotal.
  { simpl. by rewrite (proj2 (Z.leb_le _ _)) by lia. }
  apply Forall_cons in Hok as [[Ht Hpos Hfar Hend _] Hok]. cbn [fst snd] in *.
  rewrite to_replay_cons. unfold is_covered at 1. cbn [fst plan_loop].
  destruct (topicCoveredBySubscriptions topic active); cbn [negb]; [|by apply IH].
  unfold sseReplayBatchSize, max_int64 in *. pose proof (total_outstanding_nonneg (to_replay active entries)) as Hnn.
  cbn [total_outstanding foldr]. fold (total_outstanding (to_replay active entries)). unfold outstanding at 1. cbn [fst snd].
  rewrite end_offset by (done || unfold max_int64; lia).
  rewrite (wrap64_id (offset + 1)) by (unfold is_int64; lia). rewrite bool_decide_eq_false_2 by lia.
  case_bool_decide as Hle.
  { specialize (IH total Hok Htotal). rewrite Z.max_r by lia. done. }
  rewrite Z.max_l by lia. rewrite (wrap64_id (_ - _)) by (unfold is_int64; lia).
  rewrite wrap64_id by (unfold is_int64; lia). rewrite (Z.add_assoc total).
  case_bool_decide as Hmax.
  - rewrite (proj2 (Z.leb_gt _ _)) by lia. by eexists.
  - apply IH; [done|lia].
Qed.

Lemma validateSSEReplayPlan_spec active cursor maxEvents maxTopics :
  Forall (entry_ok maxEvents) (range_map (mc_Topics cursor)) → (0 ≤ maxEvents)%Z →
  let entries := range_map (mc_Topics cursor) in
  (validateSSEReplayPlan ctx cursor active maxEvents maxTopics n = (Ok (), ctx) ↔
   (Z.of_nat (length entries) ≤ maxTopics)%Z ∧ (total_outstanding (to_replay active entries) ≤ maxEvents)%Z).
Proof.
  intros Hok Hmax entries. unfold validateSSEReplayPlan. rewrite <-length_range_map. fold entries.
  case_bool_decide as Hsize; [split; [done|intros []; lia]|].
  pose proof (plan_loop_spec active maxEvents entries 0 Hok) as Hplan. rewrite Z.add_0_l in Hplan.
  specialize (Hplan ltac:(lia)). destruct (Z.leb_spec (total_outstanding (to_replay active entries)) maxEvents).
  - rewrite Hplan. split; [|done]. intros _. split; [lia|done].
  - destruct Hplan as [k ->]. split; [done|]. intros []. lia.
Qed.

Lemma replay_loop_ok fuel active entries : ∀ h w,
  Forall (entry_ok maxSSEResumeReplayEvents) entries → is_Some (w_status w) → w_room w = None → is_int64 (sseResumeEventsReplayed h) →
  (total_outstanding (to_replay active entries) ≤ maxSSEResumeReplayEvents)%Z → 11 ≤ fuel →
  ∃ evss, Forall2 (λ entry evs, evs ≡ rest entry.1 (entry.2 + 1)) (to_replay active entries) evss ∧
    Z.of_nat (length (concat evss)) = total_outstanding (to_replay active entries) ∧
    replay_loop fuel ctx entries active h w n =
    Some (Ok (), ctx, add_replayed (Z.of_nat (length (concat evss))) h,
          mkWriter (w_status w) (w_body w ++ (concat evss ≫= event_frame (GetNodeID n))) None).
Proof.
  unfold maxSSEResumeReplayEvents.
  induction entries as [|[topic offset] entries IH]; intros h w Hok Hst Hroom Hh Htotal Hfuel.
  { exists []. split; [constructor|]. split; [done|]. cbn. rewrite add_replayed_0 by done. destruct w; simpl in *; subst.
    by rewrite (right_id_L [] (++)). }
  apply Forall_cons in Hok as [[Ht Hpos Hfar Hend Htimes] Hok]. cbn [fst snd] in *.
  rewrite to_replay_cons in *. unfold is_covered in *. cbn [fst replay_loop] in *.
  destruct (topicCoveredBySubscriptions topic active); cbn [negb]; [|by apply IH].
  cbn [total_outstanding foldr] in *. fold (total_outstanding (to_replay active entries)) in *.
  pose proof (total_outstanding_nonneg (to_replay active entries)) as Hnn. unfold outstanding at 1 in Htotal. cbn [fst snd] in *.
  rewrite wrap64_id by (unfold is_int64, sseReplayBatchSize, max_int64 in *; lia).
  destruct (replay_topic_ok fuel topic (offset + 1) h w) as (evs & Hevs & ->);
    [done..|lia|done|lia|unfold sseReplayBatchSize; lia|lia|].
  cbn [mbind option_bind].
  destruct (IH (add_replayed (Z.of_nat (length evs)) h)
      (mkWriter (w_status w) (w_body w ++ (evs ≫= event_frame (GetNodeID n))) None))
      as (evss & Hevss & Hlen & ->); [done|done|done|apply wrap64_range|lia|done|].
  assert (Z.of_nat (length evs) = outstanding (topic, offset)) as Hout.
  { unfold outstanding. cbn [fst snd]. rewrite <-length_rest by lia. by rewrite Hevs. }
  exists (evs :: evss). split; [by constructor|]. cbn [concat]. rewrite length_app. split; [lia|].
  rewrite add_replayed_add, bind_app. cbn [w_status w_body]. rewrite (assoc_L (++)). do 4 f_equal. lia.
Qed.
End Topic.

(** C13: the replay is what the plan allowed.  A resume cursor is accepted
    exactly when it names at most 64 topics and the topics covered by the
    client's subscriptions hold at most 10000 events after it.  An accepted
    cursor is replayed to the end: every covered topic, from the offset after
    the one the client holds, all events once and in order, whatever order the
    topics come in, with at most eleven reads for each; the counter of replayed
    events grows by their number. *)
Theorem replay_exact `{!EventLogSpec L} (n : MeshNode L P) (a : AbsLog) (ctx : Ctx)
    (cursor : sseMultiTopicCursor) (active : list string) (h : Handlers) (w : Writer) (fuel : nat)
    (Hrep : log_rep (n_log n) a) (Hlive : ctx_live ctx) (Hopen : abs_closed a = false)
    (Hcursor : Forall (entry_ok a maxSSEResumeReplayEvents) (range_map (mc_Topics cursor)))
    (Hstatus : is_Some (w_status w)) (Hroom : w_room w = None) (Hh : is_int64 (sseResumeEventsReplayed h)) (Hfuel : 11 ≤ fuel) :
  let entries := to_replay active (range_map (mc_Topics cursor)) in
  let plan := validateSSEReplayPlan ctx cursor active maxSSEResumeReplayEvents maxSSEResumeTopics n in
  (plan = (Ok (), ctx) ↔
     size (mc_Topics cursor) ≤ 64 ∧ (total_outstanding a entries ≤ maxSSEResumeReplayEvents)%Z) ∧
  (plan = (Ok (), ctx) →
   ∃ evss, Forall2 (λ entry evs, evs ≡ rest a entry.1 (entry.2 + 1)) entries evss ∧
     (Z.of_nat (length (concat evss)) ≤ maxSSEResumeReplayEvents)%Z ∧
     replaySSECursor fuel ctx cursor active h w n =
     Some (Ok (), ctx, add_replayed (Z.of_nat (length (concat evss))) h,
           mkWriter (w_status w) (w_body w ++ (concat evss ≫= event_frame (GetNodeID n))) None)).
Proof.
  intros entries plan. unfold plan.
  rewrite (validateSSEReplayPlan_spec n a ctx Hrep Hlive Hopen) by done. fold entries. split.
  { rewrite length_range_map. unfold maxSSEResumeTopics. split; intros [??]; (split; [lia|done]). }
  intros [_ Htotal].
  destruct (replay_loop_ok n a ctx Hrep Hlive Hopen fuel active (range_map (mc_Topics cursor)) h w)
    as (evss & Hevss & Hlen & Hreplay); [done..|].
  exists evss. split; [done|]. split; [|done]. by rewrite Hlen.
Qed.
End Replay.
