(* ===== verification/SSERegistry.v ===== *)
(** * Streams and the routing table

    A stream takes over the routing-table entries of its client's subscriptions
    and removes them when it ends.  The entries are keyed by the client's id,
    so two streams of one client share them. *)
From S2P Require Import Prelude Topics EventLog RoutingTable Peers Clients MeshNode NodeLifecycle Utf8 Json SSECursor HTTP SSEMessage SSEStream.
#[local] Set Default Proof Using "Type*".

Section Registry.
Context {L P : Type} `{!EventLog L, !PeerLink P, MO : !MapOrder, TF : !TextFormats}.
Implicit Types n : MeshNode L P.

(** The entries of the routing table, by topic pattern and subscriber id. *)
Definition rt_entries n : gmap (string * string) MeshSubscriber := flat (rt_subscriptions (n_rt n)).

(** The entries of one client at some topics. *)
Abbreviation own id topics key := (key.2 = id ∧ key.1 ∈ topics).


Lemma register_loop_spec client subs : ∀ seen topics n,
  as_subscriber client = Some (SubClient client) → rt_closed (n_rt n) = false →
  Forall (λ s, cs_Topic s ≠ ""%string) subs →
  ∃ ts rt, register_loop client subs seen topics n = (Ok (topics ++ ts), with_rt rt n) ∧
    rt_closed rt = false ∧ (∀ t, t ∈ ts ↔ t ∈ cs_Topic <$> subs ∧ t ∉ seen) ∧
    ∀ key, rt_entries (with_rt rt n) !! key =
      if decide (own (client_ID client) ts key) then Some (SubClient client) else rt_entries n !! key.
Proof.
  induction subs as [|s subs IH]; intros seen topics n Hcl Hopen Hsubs.
  { exists [], (n_rt n). rewrite (right_id_L [] (++)). split; [by destruct n|]. split; [done|].
    split; [set_solver|]. intros key. rewrite decide_False; [by destruct n|]. by intros [_ []%not_elem_of_nil]. }
  apply Forall_cons in Hsubs as [Hs Hsubs]. cbn [register_loop]. case_bool_decide as Hseen.
  { destruct (IH seen topics n) as (ts & rt & -> & Hc & Hts & Hkeys); [done..|].
    exists ts, rt. split; [done|]. split; [done|]. split; [|done]. intros t. rewrite Hts, fmap_cons. set_solver. }
  rewrite Hcl. unfold rt_Subscribe. rewrite bool_decide_eq_false_2, Hopen by done.
  destruct (IH ({[cs_Topic s]} ∪ seen) (topics ++ [cs_Topic s])
    (with_rt (mkRoutingTable (nested_insert (cs_Topic s) (client_ID client) (SubClient client) (rt_subscriptions (n_rt n))) false) n))
    as (ts & rt & Hreg & Hc & Hts & Hkeys); [done..|].
  exists (cs_Topic s :: ts), rt. cbn [sub_ID MeshSubscriber_subscriber]. rewrite Hreg, <-(assoc_L (++)). split; [done|]. split; [done|].
  split; [intros t; rewrite elem_of_cons, Hts, fmap_cons; destruct (decide (t = cs_Topic s)); set_solver|].
  intros [t id]. change (with_rt rt n) with (with_rt rt (with_rt (mkRoutingTable (nested_insert (cs_Topic s) (client_ID client) (SubClient client) (rt_subscriptions (n_rt n))) false) n)).
  rewrite Hkeys. unfold rt_entries. cbn [n_rt with_rt rt_subscriptions fst snd]. rewrite flat_insert, lookup_insert.
  repeat case_decide; simplify_eq; try done; set_solver.
Qed.

Lemma registerSSEClient_spec client subs n :
  as_subscriber client = Some (SubClient client) → rt_closed (n_rt n) = false →
  Forall (λ s, cs_Topic s ≠ ""%string) subs →
  ∃ topics rt, registerSSEClient client subs n = (Ok topics, with_rt rt n) ∧
    rt_closed rt = false ∧ (∀ t, t ∈ topics ↔ t ∈ cs_Topic <$> subs) ∧
    ∀ key, rt_entries (with_rt rt n) !! key =
      if decide (own (client_ID client) topics key) then Some (SubClient client) else rt_entries n !! key.
Proof.
  intros Hcl Hopen Hsubs. destruct (register_loop_spec client subs ∅ [] n) as (ts & rt & Hreg & Hc & Hts & Hkeys); [done..|].
  exists ts, rt. split_and!; [done..| |done]. intros t. rewrite Hts. set_solver.
Qed.

Lemma unregister_spec client topics : ∀ n,
  rt_closed (n_rt n) = false →
  ∃ rt, unregisterSSEClient client topics n = with_rt rt n ∧ rt_closed rt = false ∧
    ∀ key, rt_entries (with_rt rt n) !! key =
      if decide (own (client_ID client) topics key) then None else rt_entries n !! key.
Proof.
  induction topics as [|t topics IH]; intros n Hopen.
  { exists (n_rt n). split; [by destruct n|]. split; [done|]. intros key. rewrite decide_False; [by destruct n|].
    by intros [_ []%not_elem_of_nil]. }
  destruct (flat_Unsubscribe (n_rt n) t (client_ID client) Hopen) as (_ & Hc & Hflat).
  cbn [unregisterSSEClient].
  destruct (IH (with_rt (rt_Unsubscribe t (client_ID client) (n_rt n)).2 n) Hc) as (rt & -> & Hc' & Hkeys).
  exists rt. split; [done|]. split; [done|]. intros [t' id].
  change (with_rt rt n) with (with_rt rt (with_rt (rt_Unsubscribe t (client_ID client) (n_rt n)).2 n)).
  rewrite Hkeys. unfold rt_entries. cbn [n_rt with_rt fst snd]. rewrite Hflat, lookup_delete.
  repeat case_decide; simplify_eq; try done; set_solver.
Qed.

(** Streams of one client share their routing entries.  Opening a stream
    makes every subscribed topic's entry of the client point to the stream and
    leaves all other entries alone; closing it removes exactly those entries.
    A second stream of the same client takes them over, so that from then on
    nothing is delivered to the first; and when the first is closed, the
    entries are removed although the second is open. *)
Theorem streams_share_entries (client1 client2 : Client) (subs : list ClientSubscription) (n : MeshNode L P)
    (H1 : as_subscriber client1 = Some (SubClient client1)) (H2 : as_subscriber client2 = Some (SubClient client2))
    (Hid : client_ID client2 = client_ID client1) (Hopen : rt_closed (n_rt n) = false)
    (Hsubs : Forall (λ s, cs_Topic s ≠ ""%string) subs) :
  ∃ topics n1 topics2 n2,
    registerSSEClient client1 subs n = (Ok topics, n1) ∧ registerSSEClient client2 subs n1 = (Ok topics2, n2) ∧
    (∀ t, t ∈ topics ↔ t ∈ cs_Topic <$> subs) ∧
    (∀ key, rt_entries n1 !! key =
       if decide (own (client_ID client1) topics key) then Some (SubClient client1) else rt_entries n !! key) ∧
    (∀ key, rt_entries (unregisterSSEClient client1 topics n1) !! key =
       if decide (own (client_ID client1) topics key) then None else rt_entries n !! key) ∧
    (∀ key, rt_entries n2 !! key =
       if decide (own (client_ID client1) topics key) then Some (SubClient client2) else rt_entries n !! key) ∧
    (∀ key, rt_entries (unregisterSSEClient client1 topics n2) !! key =
       if decide (own (client_ID client1) topics key) then None else rt_entries n !! key).
Proof.
  destruct (registerSSEClient_spec client1 subs n) as (topics & rt1 & Hreg1 & Hc1 & Ht1 & Hk1); [done..|].
  destruct (registerSSEClient_spec client2 subs (with_rt rt1 n)) as (topics2 & rt2 & Hreg2 & Hc2 & Ht2 & Hk2); [done..|].
  assert (∀ key, rt_entries (with_rt rt2 (with_rt rt1 n)) !! key =
    if decide (own (client_ID client1) topics key) then Some (SubClient client2) else rt_entries n !! key) as Hk2'.
  { intros key. rewrite Hk2, Hid, Hk1.
    destruct (decide (own (client_ID client1) topics2 key)) as [[? Hin]|Hn]; case_decide as Hd; try done;
      exfalso; rewrite ?Ht1, ?Ht2 in *; tauto. }
  exists topics, (with_rt rt1 n), topics2, (with_rt rt2 (with_rt rt1 n)).
  split; [done|]. split; [done|]. split; [done|]. split; [done|].
  destruct (unregister_spec client1 topics (with_rt rt1 n)) as (rt3 & -> & _ & Hk3); [done|].
  destruct (unregister_spec client1 topics (with_rt rt2 (with_rt rt1 n))) as (rt4 & -> & _ & Hk4); [done|].
  split; [|split; [done|]]; intros key; rewrite ?Hk3, ?Hk4, ?Hk2', ?Hk1; by case_decide.
Qed.
End Registry.
