(* ===== verification/HTTPHandlers.v ===== *)
(** * The request handlers ([internal/httpapi/handlers.go])

    Login, publishing, reading, subscriptions, administration and health.  A
    handler takes the request, the response writer and the node, and leaves the
    last two; a panic is reported beside them and is recovered by the
    middleware. *)
From S2P Require Import Prelude EventLog RoutingTable Peers Clients MeshNode NodeLifecycle NodePublish PebbleStorage Utf8 Json SSECursor HTTP SSEMessage.

(** ** Tokens ([internal/httpapi/auth.go]) *)

(** The JWT library: signing claims with their times of issue and expiry under
    a key, and reading a token back at a given time.  [jwt_Parse] fails for a
    token that is malformed, not signed with an HMAC method under the key, or
    expired. *)
Class JWT := {
  jwt_Sign : string → JWTClaims → Z → Z → outcome string;
  jwt_Parse : string → Z → string → outcome JWTClaims
}.

(** Tokens are dotted base64 texts: no prefix "Bearer ".  What is signed is read
    back under the same key until it expires; a token holds its expiry in whole
    seconds. *)
Definition jwt_second : Z := 1000000000.

Class JWTLaws `{JWT} := {
  jwt_roundtrip key c issued expires token now :
    jwt_Sign key c issued expires = Ok token → (now < expires / jwt_second * jwt_second)%Z →
    jwt_Parse key now token = Ok c;
  jwt_token_text key c issued expires token :
    jwt_Sign key c issued expires = Ok token →
    token ≠ ""%string ∧ strip_prefix (bytes_of_string "Bearer ") (bytes_of_string token) = None
}.

(** Times are in nanoseconds. *)
Definition token_lifetime : Z := 24 * 3600 * 1000000000.

(** [strings.TrimPrefix]. *)
Definition TrimPrefix (s prefix : string) : string :=
  match strip_prefix (bytes_of_string prefix) (bytes_of_string s) with
  | Some b => string_of_bytes b
  | None => s
  end.
Definition HasPrefix (s prefix : string) : bool :=
  match strip_prefix (bytes_of_string prefix) (bytes_of_string s) with Some _ => true | None => false end.

Section Tokens.
Context `{!JWT}.

Definition GenerateToken (key : string) (now : Z) (clientID : string) (isAdmin : bool) : outcome (string * Z) :=
  if bool_decide (clientID = ""%string) then Err (ErrNew "clientID cannot be empty")
  else
    let expiresAt := (now + token_lifetime)%Z in
    token ← wrap_err "failed to create token" (jwt_Sign key (mkClaims clientID isAdmin) now expiresAt);
    Ok (token, expiresAt).

Definition ValidateToken (key : string) (now : Z) (tokenString : string) : outcome JWTClaims :=
  if bool_decide (tokenString = ""%string) then Err (ErrNew "token cannot be empty")
  else wrap_err "invalid token" (jwt_Parse key now (TrimPrefix tokenString "Bearer ")).
End Tokens.

(** ** Request bodies ([json.NewDecoder(r.Body).Decode]) *)

(** The first value of the body is read; what follows a closing bracket is not
    looked at. *)
Definition is_container (j : json) : bool := match j with JObj _ | JArr _ => true | _ => false end.

Definition decode_body {T} (fields : list (string * setter T)) (body : bytes) (t : T) : outcome T :=
  match parse_value (S (length body)) 0 body with
  | None => Err err_json_syntax
  | Some (j, r) =>
    if negb (is_container j) && negb (match r with [] => true | c :: _ => is_ws c end) then Err err_json_syntax
    else match j with
    | JNull => Ok t
    | JObj ms =>
      match foldl (set_field fields) (Some t) ms with
      | Some t' => Ok t'
      | None => Err err_json_type
      end
    | _ => Err err_json_type
    end
  end.

(** ** Validation *)

Definition msg_content_type : string := "Content-Type must be application/json".

Definition validateJSON (r : Request) : option error :=
  if bool_decide (r_header r "Content-Type" ≠ "application/json"%string) then Some (ErrNew msg_content_type) else None.

Definition validateAuthRequest (clientID : string) : option error :=
  if bool_decide (clientID = ""%string) then Some (ErrNew "clientId is required")
  else if bool_decide (len_string clientID < 2)%Z then Some (ErrNew "clientId must be at least 2 characters")
  else None.

Definition topic_char (r : rune) : bool :=
  match r with
  | RuneASCII c => between 97 122 c || between 65 90 c || between 48 57 c ||
                   bool_decide (c = "."%char) || bool_decide (c = "-"%char) || bool_decide (c = "_"%char)
  | _ => false
  end.

Definition err_topic_chars : error :=
  ErrNew "topic contains invalid characters (allowed: letters, numbers, ., -, _)".

Definition validateTopic (topic : string) : option error :=
  if bool_decide (topic = ""%string) then Some (ErrNew "topic is required")
  else if bool_decide (len_string topic < 2)%Z then Some (ErrNew "topic must be at least 2 characters")
  else if forallb topic_char (runes (bytes_of_string topic)) then None else Some err_topic_chars.

(** [PublishRequest]: the payload is an [interface{}], [JNull] when nil. *)
Record PublishRequest := mkPublishRequest { pr_Topic : string; pr_Payload : json }.

Definition http_validatePublishRequest (req : PublishRequest) : option error := validateTopic (pr_Topic req).

(** [strconv.ParseInt(s, 10, 64)] and [strconv.Atoi]: an optional sign. *)
Definition strconv_ParseInt (s : string) : option Z :=
  match bytes_of_string s with
  | c :: b => if bool_decide (c = "+"%char)
              then if bool_decide (head b = Some "-"%char) then None else ParseInt64 b
              else ParseInt64 (c :: b)
  | [] => None
  end.

(** ** Responses *)

(** A nil slice is printed as [null]. *)
Definition slice_json (l : list json) : json := match l with [] => JNull | _ => JArr l end.

Definition json_bool (b : bool) : json := JBool b.

(** [writeJSON] with data that may fail to be printed: the status is sent, the
    body is not. *)
Definition respond (data : outcome json) (statusCode : Z) (w : Writer) : Writer :=
  match data with
  | Ok j => writeJSON j statusCode w
  | _ => WriteHeader statusCode w
  end.

Fixpoint sequence {A} (l : list (outcome A)) : outcome (list A) :=
  match l with
  | [] => Ok []
  | x :: l => a ← x; l ← sequence l; Ok (a :: l)
  end.

Section Handlers.
Context {L P : Type} `{!EventLog L, !PeerLink P, MO : !MapOrder, TF : !TextFormats, !JWT}.
Implicit Types n : MeshNode L P.

Definition err_year : error := ErrVar "*json.MarshalerError" "Time.MarshalJSON: year outside of range [0,9999]".

Definition time_json (t : Z) : outcome json :=
  match format_time t with Some b => Ok (JStr b) | None => Err err_year end.

(** *** Login *)
Definition auth_fields : list (string * setter string) := [("clientId"%string, set_string (λ x _, x))].

Definition h_Login (key : string) (now : Z) (r : Request) (w : Writer) : Writer :=
  match validateJSON r with
  | Some err => writeError (error_String err) 400 w
  | None =>
    match decode_body auth_fields (r_Body r) ""%string with
    | Ok clientID =>
      match validateAuthRequest clientID with
      | Some err => writeError (error_String err) 400 w
      | None =>
        let isAdmin := bool_decide (clientID = "admin"%string) in
        match GenerateToken key now clientID isAdmin with
        | Ok (token, expiresAt) =>
          respond (expires ← time_json expiresAt;
                   Ok (JObj [member "token" (JString token); member "clientId" (JString clientID);
                             member "expiresAt" expires])) 200 w
        | _ => writeError "Failed to generate token" 500 w
        end
      end
    | _ => writeError "Invalid request body" 400 w
    end
  end.

(** *** Publishing *)
Definition publish_fields : list (string * setter PublishRequest) :=
  [("topic", set_string (λ x q, mkPublishRequest x (pr_Payload q)));
   ("payload", set_any (λ x q, mkPublishRequest (pr_Topic q) x))]%string.

(** [fmt.Sprintf("%s-%d", topic, offset)] *)
Definition plain_event_id (topic : string) (offset : Z) : string := topic +:+ "-" +:+ fmt_int offset.

Definition h_PublishEvent (now : Z) (r : Request) (w : Writer) n : option string * Writer * MeshNode L P :=
  match validateJSON r with
  | Some err => (None, writeError (error_String err) 400 w, n)
  | None =>
    match decode_body publish_fields (r_Body r) (mkPublishRequest "" JNull) with
    | Ok req =>
      match http_validatePublishRequest req with
      | Some err => (None, writeError (error_String err) 400 w, n)
      | None =>
        match r_claims r with
        | None => (None, writeError "Authentication required" 401 w, n)
        | Some claims =>
          let '(client, heap) := NewHTTPClient now (jwt_ClientID claims) (n_heap n) in
          let n := with_heap heap n in
          let payload := match pr_Payload req with JNull => None | j => Some (print j) end in
          let eventRecord := NewEvent now (pr_Topic req) payload in
          let '(res, _, n) := PublishEventWithResult (r_ctx r) (Some client) (Some eventRecord) n in
          match res with
          | Err err => (None, writeError ("Failed to publish event: " +:+ error_String err) 500 w, n)
          | Panic m => (Some m, w, n)
          | Ok event =>
            (None, respond (timestamp ← time_json (Timestamp event);
                            Ok (JObj [member "eventId" (JString (plain_event_id (Topic event) (Offset event)));
                                      member "offset" (JInt (Offset event)); member "timestamp" timestamp])) 201 w, n)
          end
        end
      end
    | _ => (None, writeError "Invalid request body" 400 w, n)
    end
  end.

(** *** Reading *)

(** The two query parameters; an error is the text of the response. *)
Definition parse_offset (s : string) : Z + string :=
  if bool_decide (s = ""%string) then inl 0%Z
  else match strconv_ParseInt s with
  | None => inr "Invalid offset parameter"%string
  | Some offset => if bool_decide (offset < 0)%Z then inr "Offset must be non-negative"%string else inl offset
  end.

Definition parse_limit (s : string) : Z + string :=
  if bool_decide (s = ""%string) then inl 100%Z
  else match strconv_ParseInt s with
  | None => inr "Invalid limit parameter"%string
  | Some limit =>
    if bool_decide (limit ≤ 0)%Z || bool_decide (1000 < limit)%Z then inr "Limit must be between 1 and 1000"%string
    else inl limit
  end.

(** The message of an event read from a topic: its id is not a cursor. *)
Definition read_message (event : Event) : EventStreamMessage :=
  mkMessage (plain_event_id (Topic event) (Offset event)) (Topic event) (payload_json (Payload event))
    (Timestamp event) (Offset event).

Definition read_response (events : list Event) (topic : string) (startOffset : Z) : outcome json :=
  messages ← sequence (message_json <$> (read_message <$> events));
  Ok (JObj [member "events" (slice_json messages); member "topic" (JString topic);
            member "startOffset" (JInt startOffset); member "count" (JInt (Z.of_nat (length events)))]).

Definition h_ReadTopicEvents (r : Request) (w : Writer) n : option string * Writer :=
  match r_claims r with
  | None => (None, writeError "Authentication required" 401 w)
  | Some _ =>
    let topic := r_topic r in
    if bool_decide (topic = ""%string) then (None, writeError "Topic is required" 400 w)
    else match validateTopic topic with
    | Some err => (None, writeError ("Invalid topic: " +:+ error_String err) 400 w)
    | None =>
      match parse_offset (r_query r "offset") with
      | inr msg => (None, writeError msg 400 w)
      | inl startOffset =>
        match parse_limit (r_query r "limit") with
        | inr msg => (None, writeError msg 400 w)
        | inl limit =>
          match (ReadEvents (r_ctx r) topic startOffset limit (n_log n)).1 with
          | Err err => (None, writeError ("Failed to read events: " +:+ error_String err) 500 w)
          | Panic m => (Some m, w)
          | Ok events => (None, respond (read_response events topic startOffset) 200 w)
          end
        end
      end
    end
  end.

(** *** Subscriptions *)

(** [ClientSubscription] has no field tags, so its members have the field names. *)
Definition subscription_json (names : string * string * string * string) (s : ClientSubscription) : outcome json :=
  let '(id, topic, clientID, createdAt) := names in
  created ← time_json (cs_CreatedAt s);
  Ok (JObj [member id (JString (cs_ID s)); member topic (JString (cs_Topic s));
            member clientID (JString (cs_ClientID s)); member createdAt created]).

Definition untagged : string * string * string * string := ("ID", "Topic", "ClientID", "CreatedAt")%string.
Definition tagged : string * string * string * string := ("id", "topic", "clientId", "createdAt")%string.

Definition h_ListSubscriptions (r : Request) (w : Writer) n : Writer :=
  match r_claims r with
  | None => writeError "Authentication required" 401 w
  | Some claims =>
    respond (JArr <$> sequence (subscription_json untagged <$> GetClientSubscriptions (jwt_ClientID claims) n)) 200 w
  end.

Definition subscription_fields : list (string * setter string) := [("topic"%string, set_string (λ x _, x))].

(** The loop that looks for the newest subscription of a topic. *)
Fixpoint newest_for (topic : string) (subs : list ClientSubscription) (created : option ClientSubscription)
    : option ClientSubscription :=
  match subs with
  | [] => created
  | sub :: subs =>
    if bool_decide (cs_Topic sub = topic) then
      match created with
      | None => newest_for topic subs (Some sub)
      | Some c => newest_for topic subs (if bool_decide (cs_CreatedAt c < cs_CreatedAt sub)%Z then Some sub else created)
      end
    else newest_for topic subs created
  end.

(** [now] is the client's, the others are the node's readings of the clock. *)
Definition h_CreateSubscription (now now1 now2 : Z) (r : Request) (w : Writer) n : option string * Writer * MeshNode L P :=
  match validateJSON r with
  | Some err => (None, writeError (error_String err) 400 w, n)
  | None =>
    match decode_body subscription_fields (r_Body r) ""%string with
    | Ok topic =>
      if bool_decide (topic = ""%string) then (None, writeError "Topic is required" 400 w, n)
      else match r_claims r with
      | None => (None, writeError "Authentication required" 401 w, n)
      | Some claims =>
        let '(client, heap) := NewHTTPClient now (jwt_ClientID claims) (n_heap n) in
        let n := with_heap heap n in
        let '(res, _, n) := node_Subscribe (r_ctx r) now1 now2 (Some client) topic n in
        match res with
        | Err err => (None, writeError ("Failed to subscribe: " +:+ error_String err) 500 w, n)
        | Panic m => (Some m, w, n)
        | Ok _ =>
          match newest_for topic (GetClientSubscriptions (jwt_ClientID claims) n) None with
          | None => (None, writeError "Failed to find created subscription" 500 w, n)
          | Some sub => (None, respond (subscription_json tagged sub) 201 w, n)
          end
        end
      end
    | _ => (None, writeError "Invalid request body" 400 w, n)
    end
  end.

Definition h_GetSubscriptions (r : Request) (w : Writer) n : Writer :=
  match r_claims r with
  | None => writeError "Authentication required" 401 w
  | Some claims =>
    respond (subs ← sequence (subscription_json tagged <$> GetClientSubscriptions (jwt_ClientID claims) n);
             Ok (JObj [member "subscriptions" (slice_json subs)])) 200 w
  end.

Definition h_DeleteSubscription (r : Request) (w : Writer) n : option string * Writer * MeshNode L P :=
  match r_claims r with
  | None => (None, writeError "Authentication required" 401 w, n)
  | Some claims =>
    let subscriptionID := r_subscriptionID r in
    if bool_decide (subscriptionID = ""%string) then (None, writeError "Subscription ID required" 400 w, n)
    else
      let '(res, _, n) := UnsubscribeByID (r_ctx r) (jwt_ClientID claims) subscriptionID n in
      match res with
      | Err err =>
        if errors_Is err "meshnode.ErrSubscriptionNotFound"
        then (None, writeError ("Subscription not found: " +:+ subscriptionID) 404 w, n)
        else (None, writeError ("Failed to delete subscription: " +:+ error_String err) 500 w, n)
      | Panic m => (Some m, w, n)
      | Ok _ => (None, WriteHeader 204 w, n)
      end
  end.

(** *** Administration *)

(** The check every administrative handler makes itself. *)
Definition admin_only (r : Request) (w : Writer) : option Writer :=
  match r_claims r with
  | None => Some (writeError "Authentication required" 401 w)
  | Some claims => if negb (jwt_IsAdmin claims) then Some (writeError "Admin privileges required" 403 w) else None
  end.

Definition client_ConnectedAt (c : Client) : Z :=
  match c with TrustedClient _ t _ | HTTPClient _ _ t _ => t | OtherClient _ _ => zero_time end.

Definition client_info_json n (c : Client) : outcome json :=
  connected ← time_json (client_ConnectedAt c);
  Ok (JObj [member "id" (JString (client_ID c)); member "authenticated" (JBool (client_IsAuthenticated c));
            member "connectedAt" connected;
            member "subscriptions" (slice_json ((λ s, JString (cs_Topic s)) <$> GetClientSubscriptions (client_ID c) n))]).

Definition h_AdminListClients (r : Request) (w : Writer) n : Writer :=
  match admin_only r w with
  | Some w => w
  | None => respond (infos ← sequence (client_info_json n <$> GetConnectedClients n);
                     Ok (JObj [member "clients" (slice_json infos)])) 200 w
  end.

Definition h_AdminListSubscriptions (r : Request) (w : Writer) n : Writer :=
  match admin_only r w with
  | Some w => w
  | None =>
    let subs := GetConnectedClients n ≫= λ c, GetClientSubscriptions (client_ID c) n in
    respond (infos ← sequence (subscription_json tagged <$> subs);
             Ok (JObj [member "subscriptions" (slice_json infos)])) 200 w
  end.

Definition peers_json (peers : gmap string (list string)) : json :=
  JObj ((λ '(k, topics), member k (slice_json (JString <$> topics))) <$>
        merge_sort (λ p q, string_le p.1 q.1) (map_to_list peers)).

Definition stats_json (health : HealthStatus) (subscriberCount topicCount : Z) (events : EventLogStatistics)
    (routing : RoutingStats) (h : Handlers) : json :=
  let peerInterestTopicCount :=
    foldl (λ k '(_, topics), wrap64 (k + Z.of_nat (length (topics : list string)))) 0%Z (map_to_list (rs_PeerInterest routing)) in
  JObj
    [member "connectedClients" (JInt (ConnectedClients health)); member "connectedPeers" (JInt (ConnectedPeers health));
     member "totalSubscriptions" (JInt subscriberCount); member "totalTopics" (JInt topicCount);
     member "eventsPublished" (JInt (TotalEvents events));
     member "eventLog" (JObj [member "totalEvents" (JInt (TotalEvents events)); member "topicCount" (JInt (TopicCount events))]);
     member "subscriptions" (JObj
       [member "localSubscriptions" (JInt (rs_LocalSubscriptions routing));
        member "localClientsWithSubscriptions" (JInt (rs_LocalClientsWithSubscriptions routing));
        member "localInterestTopicCount" (JInt (Z.of_nat (length (rs_LocalInterestTopics routing))));
        member "localInterestTopics" (slice_json (JString <$> rs_LocalInterestTopics routing))]);
     member "peerInterest" (JObj
       [member "peerCountWithInterest" (JInt (Z.of_nat (size (rs_PeerInterest routing))));
        member "topicCount" (JInt peerInterestTopicCount); member "peers" (peers_json (rs_PeerInterest routing))]);
     member "interestGossip" (JObj
       [member "updatesSent" (JInt (interestUpdatesSent (rs_Counters routing)));
        member "updatesReceived" (JInt (interestUpdatesReceived (rs_Counters routing)));
        member "snapshotsSent" (JInt (interestSnapshotsSent (rs_Counters routing)));
        member "snapshotsReceived" (JInt (interestSnapshotsReceived (rs_Counters routing)));
        member "emptySnapshotsReceived" (JInt (emptySnapshotsReceived (rs_Counters routing)));
        member "snapshotTopicsReceived" (JInt (snapshotTopicsReceived (rs_Counters routing)))]);
     member "sseResume" (JObj
       [member "requests" (JInt (sseResumeRequests h)); member "eventsReplayed" (JInt (sseResumeEventsReplayed h));
        member "invalidCursors" (JInt (sseResumeInvalidCursor h)); member "nodeMismatches" (JInt (sseResumeNodeMismatch h));
        member "replayLimitExceeded" (JInt (sseResumeReplayLimitExceeded h))])].

Definition failed {A} (what : string) (o : outcome A) (w : Writer) : option string * Writer :=
  match o with
  | Err err => (None, writeError ("Failed to get " +:+ what +:+ ": " +:+ error_String err) 500 w)
  | Panic m => (Some m, w)
  | Ok _ => (None, w)
  end.

Definition h_AdminGetStats (r : Request) (h : Handlers) (w : Writer) n : option string * Writer :=
  match admin_only r w with
  | Some w => (None, w)
  | None =>
    let '(health, ctx) := GetHealth (r_ctx r) n in
    match health with
    | Ok health =>
      match rt_GetTopicCount (n_rt n) with
      | Ok topicCount =>
        match rt_GetSubscriberCount (n_rt n) with
        | Ok subscriberCount =>
          match (GetStatistics ctx (n_log n)).1 with
          | Ok events =>
            (None, writeJSON (stats_json health subscriberCount topicCount events (GetRoutingStats n) h) 200 w)
          | e => failed "event statistics" e w
          end
        | e => failed "subscriber count" e w
        end
      | e => failed "topic count" e w
      end
    | e => failed "health status" e w
    end
  end.

(** *** Health *)
Definition health_json (h : HealthStatus) : json :=
  JObj [member "healthy" (JBool (Healthy h)); member "eventLogHealthy" (JBool (EventLogHealthy h));
        member "routingTableHealthy" (JBool (RoutingTableHealthy h)); member "peerLinkHealthy" (JBool (PeerLinkHealthy h));
        member "connectedClients" (JInt (ConnectedClients h)); member "connectedPeers" (JInt (ConnectedPeers h));
        member "message" (JString (Message h))].

Definition h_Health (r : Request) (w : Writer) n : option string * Writer :=
  match (GetHealth (r_ctx r) n).1 with
  | Ok health => (None, writeJSON (health_json health) (if Healthy health then 200 else 503) w)
  | Err _ => (None, writeError "Failed to get health status" 500 w)
  | Panic m => (Some m, w)
  end.
End Handlers.
