(* ===== verification/HTTPServer.v ===== *)
(** * The HTTP server ([internal/httpapi/middleware.go], [server.go])

    Authentication, the middleware chain and the routes.  A request is served by
    the route its path selects, once the router is content with the path; the handlers see the claims that authentication
    put into the request's context. *)
From S2P Require Import Prelude EventLog RoutingTable Peers Clients MeshNode NodeLifecycle NodePublish PebbleStorage Utf8 Json SSECursor HTTP SSEMessage SSEStream HTTPHandlers.

(** The server, its handlers' counters and the node it serves. *)
Record Server (L P : Type) := mkServer {
  srv_secretKey : string;
  srv_noAuth : bool;
  srv_handlers : Handlers;
  srv_node : MeshNode L P
}.
Arguments mkServer {L P}.
Arguments srv_secretKey {L P}.
Arguments srv_noAuth {L P}.
Arguments srv_handlers {L P}.
Arguments srv_node {L P}.

Definition default_secret_key : string := "eventmesh-mvp-secret-key-change-in-production".

Definition NewServer {L P} (n : MeshNode L P) (secretKey : string) (noAuth : bool) : Server L P :=
  mkServer (if bool_decide (secretKey = ""%string) then default_secret_key else secretKey) noAuth NewHandlers n.

(** The clock readings of a request. *)
Record Clock := mkClock { clk_now : Z; clk_now1 : Z; clk_now2 : Z }.

(** [strings.TrimSuffix] and [strings.HasSuffix]. *)
Definition strip_suffix (s suffix : string) : option string :=
  (λ b, string_of_bytes (reverse b)) <$> strip_prefix (reverse (bytes_of_string suffix)) (reverse (bytes_of_string s)).

Section Server.
Context {L P : Type} `{!EventLog L, !PeerLink P, MO : !MapOrder, TF : !TextFormats, !JWT}.
Implicit Types (n : MeshNode L P) (s : Server L P).

Definition with_node n s : Server L P := mkServer (srv_secretKey s) (srv_noAuth s) (srv_handlers s) n.
Definition with_handlers h s : Server L P := mkServer (srv_secretKey s) (srv_noAuth s) h (srv_node s).

(** *** Middleware *)
Definition extractToken (r : Request) : string :=
  let authHeader := r_header r "Authorization" in
  if bool_decide (authHeader = ""%string) then ""%string
  else if HasPrefix authHeader "Bearer " then TrimPrefix authHeader "Bearer " else authHeader.

(** The middleware's own copy. *)
Definition mw_writeError (message : string) (statusCode : Z) (w : Writer) : Writer := writeError message statusCode w.

(** The request with its claims, or the response that refuses it. *)
Definition AuthRequired (now : Z) (r : Request) (w : Writer) s : Request + Writer :=
  if srv_noAuth s then inl (with_claims (mkClaims "dev-client" false) r)
  else
    let token := extractToken r in
    if bool_decide (token = ""%string) then inr (mw_writeError "Authorization header required" 401 w)
    else match ValidateToken (srv_secretKey s) now token with
    | Ok claims => inl (with_claims claims r)
    | Err err => inr (mw_writeError ("Invalid token: " +:+ error_String err) 401 w)
    | Panic m => inr (mw_writeError "Internal server error" 500 w)
    end.

Definition AdminRequired (now : Z) (r : Request) (w : Writer) s : Request + Writer :=
  let token := extractToken r in
  if bool_decide (token = ""%string) then inr (mw_writeError "Authorization header required for admin access" 401 w)
  else match ValidateToken (srv_secretKey s) now token with
  | Ok claims =>
    if negb (jwt_IsAdmin claims) then inr (mw_writeError "Admin privileges required" 403 w)
    else inl (with_claims claims r)
  | Err err => inr (mw_writeError ("Invalid token for admin access: " +:+ error_String err) 401 w)
  | Panic m => inr (mw_writeError "Internal server error" 500 w)
  end.

(** [Recovery]: a panic of the handler becomes a response. *)
Definition Recovery (panic : option string) (w : Writer) : Writer :=
  match panic with Some _ => mw_writeError "Internal server error" 500 w | None => w end.

(** The server's own copies; the header is sent twice and the first one counts. *)
Definition srv_writeJSON (data : json) (statusCode : Z) (w : Writer) : Writer := writeJSON data statusCode w.
Definition srv_writeError (message : string) (statusCode : Z) (w : Writer) : Writer :=
  let errorResp := JObj [member "error" (JString (StatusText statusCode)); member "message" (JString message);
                         member "code" (JInt statusCode)] in
  srv_writeJSON errorResp statusCode (WriteHeader statusCode w).

(** *** Route handlers.  The result of a handler: how a stream goes on, the
    response, and the server. *)
Abbreviation served := (option (stream_state * Writer * Server L P)).

Definition finish (panic : option string) (w : Writer) s : served := Some (StreamEnded, Recovery panic w, s).

Definition on_node (res : option string * Writer * MeshNode L P) s : served :=
  let '(panic, w, n) := res in finish panic w (with_node n s).
Definition on_writer (res : option string * Writer) s : served := let '(panic, w) := res in finish panic w s.

Definition serve_stream (fuel : nat) (now : Z) (r : Request) (w : Writer) s : served :=
  '(st, h, w, n) ← StreamEvents fuel now r (srv_handlers s) w (srv_node s);
  let s := with_node n (with_handlers h s) in
  Some (match st with
        | StreamPanicked m => (StreamEnded, Recovery (Some m) w, s)
        | _ => (st, w, s)
        end).

(** [http.Redirect] writes no body once a content type is set. *)
Definition handleEvents (clk : Clock) (r : Request) (w : Writer) s : served :=
  if bool_decide (r_Method r = "POST"%string) then on_node (h_PublishEvent (clk_now clk) r w (srv_node s)) s
  else if bool_decide (r_Method r = "GET"%string) then finish None (WriteHeader 307 w) s
  else finish None (srv_writeError "Method not allowed" 405 w) s.

Definition handleSubscriptions (clk : Clock) (r : Request) (w : Writer) s : served :=
  if bool_decide (r_Method r = "GET"%string) then finish None (h_ListSubscriptions r w (srv_node s)) s
  else if bool_decide (r_Method r = "POST"%string) then
    on_node (h_CreateSubscription (clk_now clk) (clk_now1 clk) (clk_now2 clk) r w (srv_node s)) s
  else finish None (srv_writeError "Method not allowed" 405 w) s.

Definition handleSubscriptionByID (r : Request) (w : Writer) s : served :=
  if negb (HasPrefix (r_Path r) "/api/v1/subscriptions/") then finish None (srv_writeError "Invalid subscription path" 404 w) s
  else
    let subscriptionID := TrimPrefix (r_Path r) "/api/v1/subscriptions/" in
    if bool_decide (subscriptionID = ""%string) then finish None (srv_writeError "Subscription ID required" 400 w) s
    else if bool_decide (r_Method r = "DELETE"%string) then
      on_node (h_DeleteSubscription (with_subscriptionID subscriptionID r) w (srv_node s)) s
    else finish None (srv_writeError "Method not allowed" 405 w) s.

Definition handleTopicEvents (r : Request) (w : Writer) s : served :=
  if negb (HasPrefix (r_Path r) "/api/v1/topics/") then finish None (srv_writeError "Invalid topic path" 404 w) s
  else
    let pathAfterTopics := TrimPrefix (r_Path r) "/api/v1/topics/" in
    if bool_decide (pathAfterTopics = ""%string) then finish None (srv_writeError "Topic name required" 400 w) s
    else match strip_suffix pathAfterTopics "/events" with
    | None => finish None (srv_writeError "Invalid path, expected /events" 404 w) s
    | Some topic =>
      if bool_decide (topic = ""%string) then finish None (srv_writeError "Topic name required" 400 w) s
      else if bool_decide (r_Method r = "GET"%string) then on_writer (h_ReadTopicEvents (with_topic topic r) w (srv_node s)) s
      else finish None (srv_writeError "Method not allowed" 405 w) s
    end.

Definition strings_json (l : list (string * string)) : json := JObj ((λ '(k, v), member k (JString v)) <$> l).

(** A map is printed with its keys sorted. *)
Definition api_info : json :=
  JObj
    [member "authentication" (JString "Bearer JWT token required for most endpoints");
     member "description" (JString "RESTful HTTP API for EventMesh distributed event streaming");
     member "endpoints" (JObj
       [member "admin" (strings_json
          [("clients", "GET /api/v1/admin/clients"); ("stats", "GET /api/v1/admin/stats");
           ("subscriptions", "GET /api/v1/admin/subscriptions")]%string);
        member "auth" (strings_json [("login", "POST /api/v1/auth/login")]%string);
        member "events" (strings_json [("publish", "POST /api/v1/events"); ("stream", "GET /api/v1/events/stream")]%string);
        member "health" (JString "GET /api/v1/health");
        member "subscriptions" (strings_json
          [("create", "POST /api/v1/subscriptions"); ("delete", "DELETE /api/v1/subscriptions/{id}");
           ("list", "GET /api/v1/subscriptions")]%string);
        member "topics" (strings_json
          [("readEvents", "GET /api/v1/topics/{topic}/events?offset={offset}&limit={limit}")]%string)]);
     member "service" (JString "EventMesh HTTP API"); member "version" (JString "1.0.0")].

Definition handleRoot (r : Request) (w : Writer) s : served :=
  if bool_decide (r_Path r ≠ "/"%string) then finish None (srv_writeError "Not found" 404 w) s
  else finish None (srv_writeJSON api_info 200 w) s.

(** *** Routes *)

(** The patterns of [setupRoutes]; one that ends in a slash stands for all paths
    below it, and the longest that applies is chosen. *)
Inductive route :=
  | RouteLogin | RouteEvents | RouteStream | RouteSubscriptions | RouteSubscriptionByID
  | RouteTopics | RouteAdminClients | RouteAdminSubscriptions | RouteAdminStats | RouteHealth | RouteRoot.

#[export] Instance route_eq_dec : EqDecision route.
Proof. solve_decision. Defined.

Definition exact_routes : list (string * route) :=
  [("/api/v1/auth/login", RouteLogin); ("/api/v1/events", RouteEvents); ("/api/v1/events/stream", RouteStream);
   ("/api/v1/subscriptions", RouteSubscriptions); ("/api/v1/admin/clients", RouteAdminClients);
   ("/api/v1/admin/subscriptions", RouteAdminSubscriptions); ("/api/v1/admin/stats", RouteAdminStats);
   ("/api/v1/health", RouteHealth)]%string.

Definition find_route (path : string) : route :=
  match list_find (λ p, p.1 = path) exact_routes with
  | Some (_, p) => p.2
  | None =>
    if HasPrefix path "/api/v1/subscriptions/" then RouteSubscriptionByID
    else if HasPrefix path "/api/v1/topics/" then RouteTopics
    else RouteRoot
  end.

(** What [ServeMux] does before it calls a route: a path that is not clean, and
    the path of a registered tree without its slash, are redirected. *)
Definition mux_redirect (method path : string) : option string :=
  let cleaned := if bool_decide (method = "CONNECT"%string) then path else cleanPath path in
  if bool_decide (cleaned = "/api/v1/topics"%string) then Some (cleanPath path +:+ "/")
  else if bool_decide (cleaned = path) then None
  else Some cleaned.

Inductive protection := Public | Authenticated | AdminOnly.

#[export] Instance protection_eq_dec : EqDecision protection.
Proof. solve_decision. Defined.

(** The middleware each pattern is registered with. *)
Definition route_protection (rt : route) : protection :=
  match rt with
  | RouteLogin | RouteHealth | RouteRoot => Public
  | RouteAdminClients | RouteAdminSubscriptions | RouteAdminStats => AdminOnly
  | _ => Authenticated
  end.

Definition route_handler (fuel : nat) (clk : Clock) (rt : route) (r : Request) (w : Writer) s : served :=
  match rt with
  | RouteLogin => finish None (h_Login (srv_secretKey s) (clk_now clk) r w) s
  | RouteEvents => handleEvents clk r w s
  | RouteStream => serve_stream fuel (clk_now clk) r w s
  | RouteSubscriptions => handleSubscriptions clk r w s
  | RouteSubscriptionByID => handleSubscriptionByID r w s
  | RouteTopics => handleTopicEvents r w s
  | RouteAdminClients => finish None (h_AdminListClients r w (srv_node s)) s
  | RouteAdminSubscriptions => finish None (h_AdminListSubscriptions r w (srv_node s)) s
  | RouteAdminStats => on_writer (h_AdminGetStats r (srv_handlers s) w (srv_node s)) s
  | RouteHealth => on_writer (h_Health r w (srv_node s)) s
  | RouteRoot => handleRoot r w s
  end.

(** [Recovery(Logging(CORS(ContentType(handler))))] around the route of the path:
    a preflight request is answered before authentication. *)
Definition serve_route (fuel : nat) (clk : Clock) (r : Request) (w : Writer) s : served :=
  if bool_decide (r_Method r = "OPTIONS"%string) then finish None (WriteHeader 200 w) s
  else
    let rt := find_route (r_Path r) in
    match route_protection rt with
    | Public => route_handler fuel clk rt r w s
    | Authenticated =>
      match AuthRequired (clk_now clk) r w s with
      | inl r => route_handler fuel clk rt r w s
      | inr w => finish None w s
      end
    | AdminOnly =>
      match AdminRequired (clk_now clk) r w s with
      | inl r => route_handler fuel clk rt r w s
      | inr w => finish None w s
      end
    end.

(** The redirects are the router's own, outside the middleware; the page and the
    [Location] header they come with are left out. *)
Definition ServeHTTP (fuel : nat) (clk : Clock) (r : Request) (w : Writer) s : served :=
  match mux_redirect (r_Method r) (r_Path r) with
  | Some _ => Some (StreamEnded, WriteHeader 301 w, s)
  | None => serve_route fuel clk r w s
  end.
End Server.
