(* ===== verification/Middleware.v ===== *)
(** * The middleware around every handler ([internal/httpapi/middleware.go])

    What [HTTPServer.v] leaves out of the chain [Recovery(Logging(CORS(
    ContentType(handler))))]: response headers, the recorder that watches the
    status, and the access log.  A handler is the tree of calls it makes on its
    [http.ResponseWriter], each call followed by what the handler does with the
    call's result; middleware transforms such trees. *)
From S2P Require Import Prelude EventLog RoutingTable Peers Clients MeshNode PebbleStorage Utf8 Json SSECursor HTTP SSEMessage SSEStream HTTPHandlers HTTPServer.

#[local] Set Default Proof Using "Type*".

(** ** Handlers *)

(** The log record of a request: its attributes. *)
Record access_line := mkAccess {
  al_method : string;
  al_path : string;
  al_status : Z;
  al_duration_ms : Z;
  al_remote_addr : string
}.

Inductive rw_call :=
  | Header_Set (key value : string)
  | CallWriteHeader (statusCode : Z)
  | CallWrite (b : bytes)
  | CallFlush
  | CallLog (l : access_line).

(** A handler: it returns, panics, or makes a call and goes on with its error. *)
Inductive handler :=
  | Return
  | PanicWith (msg : string)
  | Do (call : rw_call) (next : option error → handler).

Fixpoint handler_then (p q : handler) : handler :=
  match p with
  | Return => q
  | PanicWith m => PanicWith m
  | Do c k => Do c (λ e, handler_then (k e) q)
  end.

(** Calls whose results are not looked at. *)
Definition calls (cs : list rw_call) (q : handler) : handler := foldr (λ c q, Do c (λ _, q)) q cs.

(** ** The connection *)

(** Headers count when the status is sent. *)
Record Response := mkResponse {
  rp_header : gmap string string;
  rp_sent : gmap string string;
  rp_writer : Writer;
  rp_log : list access_line
}.

Definition new_response : Response := mkResponse ∅ ∅ new_writer [].

(** The headers that go out with a call: those set so far, if nothing was sent before. *)
Definition send_header (w : Writer) (r : Response) : gmap string string :=
  if bool_decide (w_status (rp_writer r) = None ∧ w_status w ≠ None) then rp_header r else rp_sent r.
Definition with_writer (w : Writer) (r : Response) : Response :=
  mkResponse (rp_header r) (send_header w r) w (rp_log r).

Definition respond (c : rw_call) (r : Response) : option error * Response :=
  match c with
  | Header_Set key value => (None, mkResponse (<[key := value]> (rp_header r)) (rp_sent r) (rp_writer r) (rp_log r))
  | CallWriteHeader statusCode => (None, with_writer (WriteHeader statusCode (rp_writer r)) r)
  | CallWrite b => let '(err, w) := Write b (rp_writer r) in (err, with_writer w r)
  | CallFlush => (None, with_writer (WriteHeader 200 (rp_writer r)) r)
  | CallLog l => (None, mkResponse (rp_header r) (rp_sent r) (rp_writer r) (rp_log r ++ [l]))
  end.

(** How the handler ended, and the response. *)
Fixpoint run (p : handler) (r : Response) : option string * Response :=
  match p with
  | Return => (None, r)
  | PanicWith m => (Some m, r)
  | Do c k => let '(err, r) := respond c r in run (k err) r
  end.

(** ** [middleware.go] *)

(** [writeError]; encoding an [ErrorResponse] does not fail, and the error of a
    write makes it write once more. *)
Definition mw_error_response (message : string) (statusCode : Z) : bytes :=
  encode_json (JObj [member "error" (JString (StatusText statusCode)); member "message" (JString message);
                     member "code" (JInt statusCode)]).
Definition http_Error (message : string) (code : Z) : handler :=
  calls [Header_Set "Content-Type" "text/plain; charset=utf-8"; Header_Set "X-Content-Type-Options" "nosniff";
         CallWriteHeader code; CallWrite (bytes_of_string message ++ [newline])] Return.
Definition writeErrorCalls (message : string) (statusCode : Z) : handler :=
  calls [Header_Set "Content-Type" "application/json"; CallWriteHeader statusCode]
    (Do (CallWrite (mw_error_response message statusCode))
       (λ err, match err with Some _ => http_Error "Internal server error" 500 | None => Return end)).

Definition ContentType (next : handler) : handler := calls [Header_Set "Content-Type" "application/json"] next.

Definition cors_headers : list rw_call :=
  [Header_Set "Access-Control-Allow-Origin" "*";
   Header_Set "Access-Control-Allow-Methods" "GET, POST, PUT, DELETE, OPTIONS";
   Header_Set "Access-Control-Allow-Headers" "Content-Type, Authorization";
   Header_Set "Access-Control-Max-Age" "86400"].
Definition CORS (method : string) (next : handler) : handler :=
  calls cors_headers (if bool_decide (method = "OPTIONS"%string) then calls [CallWriteHeader 200] Return else next).

(** [statusRecorder]: every status passes through it, counted or not. *)
Fixpoint statusRecorder (line : Z → access_line) (statusCode : Z) (next : handler) : handler :=
  match next with
  | Return => calls [CallLog (line statusCode)] Return
  | PanicWith m => PanicWith m
  | Do c k =>
    let statusCode := match c with CallWriteHeader code => code | _ => statusCode end in
    Do c (λ err, statusRecorder line statusCode (k err))
  end.
Definition Logging (method path remote_addr : string) (duration_ms : Z) (next : handler) : handler :=
  statusRecorder (λ status, mkAccess method path status duration_ms remote_addr) 200 next.

Fixpoint RecoveryCalls (next : handler) : handler :=
  match next with
  | Return => Return
  | PanicWith _ => writeErrorCalls "Internal server error" 500
  | Do c k => Do c (λ err, RecoveryCalls (k err))
  end.

(** [withMiddleware] of [setupRoutes]. *)
Definition withMiddleware (method path remote_addr : string) (duration_ms : Z) (next : handler) : handler :=
  RecoveryCalls (Logging method path remote_addr duration_ms (CORS method (ContentType next))).

(** ** What the chain does *)

(** The status the recorder has after a run. *)
Fixpoint recorded (statusCode : Z) (p : handler) (r : Response) : Z :=
  match p with
  | Return | PanicWith _ => statusCode
  | Do c k =>
    let '(err, r) := respond c r in
    recorded (match c with CallWriteHeader code => code | _ => statusCode end) (k err) r
  end.

(** A handler that sends no status after another one was sent. *)
Fixpoint one_status (p : handler) (r : Response) : Prop :=
  match p with
  | Return | PanicWith _ => True
  | Do c k =>
    match c with
    | CallWriteHeader code => w_status (rp_writer r) = None ∨ w_status (rp_writer r) = Some code
    | _ => True
    end ∧ let '(err, r) := respond c r in one_status (k err) r
  end.

Definition add_line (l : access_line) (r : Response) : Response :=
  mkResponse (rp_header r) (rp_sent r) (rp_writer r) (rp_log r ++ [l]).

Lemma run_calls cs q r : run (calls cs q) r = run q (foldl (λ r c, (respond c r).2) r cs).
Proof.
  revert r. induction cs as [|c cs IH]; intros r; [done|]. cbn [calls foldr run foldl].
  destruct (respond c r) as [err r']. apply IH.
Qed.

Lemma run_recovery p r :
  run (RecoveryCalls p) r =
  match run p r with
  | (None, r) => (None, r)
  | (Some _, r) => run (writeErrorCalls "Internal server error" 500) r
  end.
Proof.
  revert r. induction p as [|m|c k IH]; intros r; [done..|]. cbn [RecoveryCalls run].
  destruct (respond c r) as [err r']. apply IH.
Qed.

Lemma run_recorder line p : ∀ statusCode r,
  run (statusRecorder line statusCode p) r =
  match run p r with
  | (None, r') => (None, add_line (line (recorded statusCode p r)) r')
  | (Some m, r') => (Some m, r')
  end.
Proof.
  induction p as [|m|c k IH]; intros statusCode r; [done..|]. cbn [statusRecorder run recorded].
  destruct (respond c r) as [err r']. apply IH.
Qed.

Lemma write_status b w w' err :
  Write b w = (err, w') → w_status w' = w_status w ∨ w_status w = None ∧ w_status w' = Some 200%Z.
Proof.
  unfold Write. destruct (w_room w) as [[|room]|]; intros [= <- <-]; [by left|destruct (w_status w) eqn:H; [by left|by right]..].
Qed.

Lemma WriteHeader_status code w : w_status (WriteHeader code w) = Some (default code (w_status w)).
Proof. unfold WriteHeader. by destruct (w_status w) eqn:H; [rewrite H|]. Qed.

(** The recorder sees the status that is sent. *)
Lemma recorded_sent p : ∀ statusCode r,
  one_status p r → statusCode = default 200%Z (w_status (rp_writer r)) →
  recorded statusCode p r = default 200%Z (w_status (rp_writer (run p r).2)).
Proof.
  induction p as [|m|c k IH]; intros statusCode r Hone Hst; [done..|]. cbn [recorded run one_status] in *.
  destruct Hone as [Hc Hone]. destruct (respond c r) as [err r'] eqn:Hr. apply IH; [exact Hone|].
  destruct c as [key value|code|b| |l]; cbn [respond] in Hr.
  - by injection Hr as <- <-.
  - injection Hr as <- <-. cbn [rp_writer with_writer]. rewrite WriteHeader_status. by destruct Hc as [->| ->].
  - destruct (Write b (rp_writer r)) as [err' w] eqn:Hw. injection Hr as <- <-. cbn [rp_writer with_writer].
    apply write_status in Hw as [->|[Hn ->]]; [done|]. by rewrite Hst, Hn.
  - injection Hr as <- <-. cbn [rp_writer with_writer]. rewrite WriteHeader_status, Hst. by destruct (w_status _).
  - by injection Hr as <- <-.
Qed.

(** A write that fails leaves a connection on which writes fail. *)
Lemma write_fails b w err w' : Write b w = (Some err, w') → w' = w ∧ ∀ b', Write b' w = (Some err, w).
Proof. unfold Write. by destruct (w_room w) as [[|room]|]; intros [= <- <-]. Qed.

(** The middleware's error response is the one of [HTTPServer.v], also when its
    body cannot be written; nothing escapes from it. *)
Lemma run_writeError message code r :
  let '(panic, r') := run (writeErrorCalls message code) r in
  panic = None ∧ rp_writer r' = mw_writeError message code (rp_writer r) ∧ rp_log r' = rp_log r.
Proof.
  unfold writeErrorCalls. rewrite run_calls. cbn [foldl respond snd run]. cbn [rp_writer with_writer].
  unfold mw_writeError, writeError. fold (mw_error_response message code).
  destruct (Write (mw_error_response message code) (WriteHeader code (rp_writer r))) as [[err|] w] eqn:Hw; [|done].
  destruct (write_fails _ _ _ _ Hw) as [-> Hfail].
  unfold http_Error. rewrite run_calls. cbn [foldl respond snd rp_writer with_writer].
  assert (WriteHeader 500 (WriteHeader code (rp_writer r)) = WriteHeader code (rp_writer r)) as ->
    by (unfold WriteHeader; by destruct (w_status (rp_writer r)) eqn:H; [rewrite H|]).
  rewrite Hfail. done.
Qed.

(** The response as the handler gets it. *)
Definition prepared (r : Response) : Response :=
  foldl (λ r c, (respond c r).2) r (cors_headers ++ [Header_Set "Content-Type" "application/json"]).

(** C19: the access log.  Whatever a handler does, no panic gets past the
    middleware, and the response is the handler's own, followed by the error
    response if it panicked.  A handler that returns adds one line
    with the request's method and path and the status that was sent, if it
    sends no other status after the first; but a request whose handler panics
    is not logged at all, although it is the one that is answered with 500.  A preflight request is
    answered and logged without the handler. *)
Theorem access_log_complete (method path remote_addr : string) (duration_ms : Z) (p : handler) (r : Response)
    (Hfresh : w_status (rp_writer r) = None) :
  let '(panic, r') := run (withMiddleware method path remote_addr duration_ms p) r in
  let '(panicked, r1) := run p (prepared r) in
  let line status := mkAccess method path status duration_ms remote_addr in
  panic = None ∧
  (method = "OPTIONS"%string →
    rp_writer r' = WriteHeader 200 (rp_writer r) ∧ rp_sent r' !! "Access-Control-Allow-Origin"%string = Some "*"%string ∧
    rp_log r' = rp_log r ++ [line 200%Z]) ∧
  (method ≠ "OPTIONS"%string →
    rp_writer r' = Recovery panicked (rp_writer r1) ∧
    match panicked with
    | None => ∃ status, rp_log r' = rp_log r1 ++ [line status] ∧
        (one_status p (prepared r) → status = default 200%Z (w_status (rp_writer r')))
    | Some _ => rp_log r' = rp_log r1 ∧ (w_status (rp_writer r1) = None → w_status (rp_writer r') = Some 500%Z)
    end).
Proof.
  unfold withMiddleware, Logging. rewrite run_recovery, run_recorder. unfold CORS. rewrite run_calls.
  destruct (run p (prepared r)) as [panicked r1] eqn:Hp.
  case_bool_decide as Hm.
  - change (recorded 200 _ r) with 200%Z. cbn [calls foldr run respond]. split; [done|]. split; [|done]. intros _.
    cbn [rp_writer rp_sent rp_log add_line with_writer]. split; [done|]. split; [|done].
    unfold send_header. rewrite WriteHeader_status, bool_decide_eq_true_2 by by split. cbn. by simplify_map_eq.
  - unfold ContentType. rewrite run_calls. rewrite <-foldl_app. fold (prepared r). rewrite Hp.
    change (recorded 200 (calls cors_headers _) r) with (recorded 200 p (prepared r)).
    destruct panicked as [msg|].
    + pose proof (run_writeError "Internal server error" 500 r1) as He. destruct (run _ r1) as [panic r']. destruct He as (-> & Hw & Hl).
      split; [done|]. split; [done|]. intros _. split; [exact Hw|]. split; [exact Hl|]. intros Hn. rewrite Hw.
      unfold mw_writeError, writeError. destruct (Write _ _) as [err w] eqn:Hwr. apply write_status in Hwr. cbn [snd].
      rewrite WriteHeader_status, Hn in Hwr. by destruct Hwr as [->|[? _]].
    + split; [done|]. split; [done|]. intros _. split; [done|]. eexists. split; [done|]. intros Hone.
      rewrite (recorded_sent p _ _ Hone), Hp; [done|]. unfold prepared. cbn. by rewrite Hfresh.
Qed.

(** ** Witness: a handler that panics after it has looked at nothing *)
Lemma access_log_complete_witness :
  (run (withMiddleware "GET" "/api/v1/health" "10.0.0.1" 3 (PanicWith "nil pointer")) new_response).1 = None ∧
  rp_log (run (withMiddleware "GET" "/api/v1/health" "10.0.0.1" 3 (PanicWith "nil pointer")) new_response).2 = [] ∧
  w_status (rp_writer (run (withMiddleware "GET" "/api/v1/health" "10.0.0.1" 3 (PanicWith "nil pointer")) new_response).2) = Some 500%Z.
Proof.
  pose proof (access_log_complete "GET" "/api/v1/health" "10.0.0.1" 3 (PanicWith "nil pointer") new_response eq_refl) as H.
  destruct (run (withMiddleware _ _ _ _ _) new_response) as [panic r']. cbn [run] in H. destruct H as (Hp & _ & H).
  destruct (H ltac:(done)) as (_ & Hlog & Hst). split; [exact Hp|]. split; [exact Hlog|exact (Hst eq_refl)].
Defined.

Example returns_and_is_logged :
  rp_log (run (withMiddleware "GET" "/x" "10.0.0.1" 3 (writeErrorCalls "Not found" 404)) new_response).2 =
    [mkAccess "GET" "/x" 404 3 "10.0.0.1"].
Proof. vm_compute. reflexivity. Qed.
