(* ===== verification/HTTPIsolation.v ===== *)
(** * Who may change what over HTTP

    A request changes the node only on behalf of an authenticated client, and
    then only that client's subscriptions and routing entries; the
    administrative routes answer only an administrator's token. *)
From S2P Require Import Prelude EventLog RoutingTable Peers Clients MeshNode NodeLifecycle NodePublish PebbleStorage Utf8 Json SSECursor HTTP SSEMessage SSEStream SSERegistry HTTPHandlers HTTPServer.
#[local] Set Default Proof Using "Type*".

Section Isolation.
Context {L P : Type} `{!EventLog L, !PeerLink P, MO : !MapOrder, TF : !TextFormats, !JWT}.
Implicit Types (n : MeshNode L P) (s : Server L P).

(** What no client has a part in: the configuration, the lifecycle and the view
    of the other nodes. *)
Definition held n :=
  (n_config n, n_started n, n_closed n, n_lifecycle n, n_running n, n_peer_subs n).

(** That, and what the node keeps about clients. *)
Definition tables n := (n_rt n, n_clients n, n_subs n, held n).

Lemma propagate_loop_tables ctx u peers n sc fc errs :
  tables (propagate_loop ctx u peers n sc fc errs).2 = tables n.
Proof.
  revert ctx n sc fc errs. induction peers as [|peer peers IH]; intros ctx n sc fc errs; [done|].
  cbn [propagate_loop]. destruct (SendInterestUpdate _ _ _ _) as [[[[]|err|m] ctx'] p]; [by rewrite IH..|done].
Qed.

Lemma propagate_tables ctx action topic n : tables (propagateInterestUpdate ctx action topic n).2 = tables n.
Proof.
  unfold propagateInterestUpdate. repeat (case_bool_decide; [done|]).
  destruct (GetConnectedPeers (n_link n)) as [peers|err|m]; [|done..]. case_bool_decide; [done|].
  pose proof (propagate_loop_tables ctx (mkUpdate (cfg_NodeID (n_config n)) action topic) peers n 0 0 []) as Hloop.
  destruct (propagate_loop _ _ _ _ _ _ _) as [[[[[sc fc] errs]|err|m] ctx'] n']; [by case_bool_decide|done..].
Qed.

Lemma logged_tables r : tables (logged r).2 = tables (r.2 : MeshNode L P).
Proof. by destruct r as [[[[]|err|m] ctx] n]. Qed.

Lemma publish_tables ctx client event n : tables (PublishEventWithResult ctx client event n).2 = tables n.
Proof.
  unfold PublishEventWithResult. destruct (validatePublishRequest _ _ _); [done|].
  destruct event as [e|]; [|done]. destruct (AppendEvent _ _ _ _) as [[[ev|err|m] ctx1] log]; [|done..].
  unfold publish_deliver, deliverToLocalSubscribers, forwardToPeers.
  repeat (case_match; simplify_eq/=; try done).
Qed.

(** *** Changes that concern one client only *)
Definition clients_keyed n : Prop := ∀ id c, n_clients n !! id = Some c → client_ID c = id.

Record only_client (id : string) n n' : Prop := {
  oc_clients other : other ≠ id → n_clients n' !! other = n_clients n !! other;
  oc_subs other : other ≠ id → n_subs n' !! other = n_subs n !! other;
  oc_entries topic other : other ≠ id → rt_entries n' !! (topic, other) = rt_entries n !! (topic, other);
  oc_keyed : clients_keyed n → clients_keyed n';
  oc_held : held n' = held n
}.

Lemma only_client_refl id n : only_client id n n.
Proof. by split. Qed.

Lemma only_client_trans id n1 n2 n3 : only_client id n1 n2 → only_client id n2 n3 → only_client id n1 n3.
Proof.
  intros [C1 S1 E1 K1 H1] [C2 S2 E2 K2 H2].
  split; intros; [by rewrite C2, C1|by rewrite S2, S1|by rewrite E2, E1|by auto|by rewrite H2].
Qed.

Lemma only_client_tables id n n' : tables n' = tables n → only_client id n n'.
Proof.
  intros Ht. assert (held n' = held n) as Hh by (unfold tables in Ht; congruence).
  assert (n_rt n' = n_rt n ∧ n_clients n' = n_clients n ∧ n_subs n' = n_subs n) as (Hr & Hc & Hs)
    by (unfold tables in Ht; split_and!; congruence).
  clear Ht. split; unfold rt_entries, clients_keyed; intros; rewrite ?Hr, ?Hs; rewrite Hc in * || idtac; auto.
Qed.

Lemma unsubscribe_entries topic id n other t :
  other ≠ id → rt_entries (with_rt (rt_Unsubscribe topic id (n_rt n)).2 n) !! (t, other) = rt_entries n !! (t, other).
Proof.
  intros Hne. unfold rt_entries. cbn [n_rt with_rt]. destruct (rt_closed (n_rt n)) eqn:Hc.
  { unfold rt_Unsubscribe. by rewrite Hc. }
  destruct (flat_Unsubscribe (n_rt n) topic id Hc) as (_ & _ & ->). rewrite lookup_delete_ne; congruence.
Qed.

Lemma only_client_record now now' client topic rt n :
  rt_Subscribe topic (Some (SubClient client)) (n_rt n) = (Ok (), rt) →
  only_client (client_ID client) n (record_subscription now now' client topic rt n).
Proof.
  unfold rt_Subscribe. case_bool_decide; [done|]. destruct (rt_closed (n_rt n)); [done|]. intros [= <-].
  split; unfold record_subscription; cbn.
  - intros other Hne. by rewrite lookup_insert_ne by congruence.
  - intros other Hne. unfold nested_insert. by rewrite lookup_insert_ne by congruence.
  - intros t other Hne. unfold rt_entries. cbn. rewrite flat_insert, lookup_insert_ne; [done|]. cbn. congruence.
  - intros Hk id c. cbn. rewrite lookup_insert. case_decide; [congruence|apply Hk].
  - done.
Qed.

Lemma only_client_subscribe ctx now now' client topic n :
  only_client (client_ID client) n (node_Subscribe ctx now now' (Some client) topic n).2.
Proof.
  unfold node_Subscribe. destruct (subscription_guard _ _ _ _) as [c|err|m] eqn:Hg; [|apply only_client_refl..].
  assert (c = client) as ->.
  { revert Hg. unfold subscription_guard. repeat (case_match; try done). congruence. }
  destruct (as_subscriber client) as [sub|] eqn:Hsub; [|apply only_client_refl].
  assert (sub = SubClient client) as -> by (by destruct client; simplify_eq/=).
  destruct (rt_Subscribe _ _ _) as [[[]|err|m] rt] eqn:Hrt; [|apply only_client_refl..].
  pose proof (only_client_record now now' client topic rt n Hrt) as Hrec.
  destruct (bool_decide _); [done|]. eapply only_client_trans; [exact Hrec|].
  apply only_client_tables. by rewrite logged_tables, propagate_tables.
Qed.

Lemma only_client_remove cid topic n :
  only_client cid n (removeSubscriptionMetadataByTopic cid topic n).
Proof.
  unfold removeSubscriptionMetadataByTopic. destruct (n_subs n !! cid) as [subs|]; [|apply only_client_refl].
  case_bool_decide; split; cbn; try done; intros other Hne; [by rewrite lookup_delete_ne by congruence|by rewrite lookup_insert_ne by congruence].
Qed.

Lemma only_client_unsubscribe ctx client topic n :
  only_client (client_ID client) n (node_Unsubscribe ctx (Some client) topic n).2.
Proof.
  unfold node_Unsubscribe. destruct (subscription_guard _ _ _ _) as [c|err|m] eqn:Hg; [|apply only_client_refl..].
  assert (c = client) as ->.
  { revert Hg. unfold subscription_guard. repeat (case_match; try done). congruence. }
  pose proof (unsubscribe_entries topic (client_ID client) n) as Hent.
  destruct (rt_Unsubscribe topic (client_ID client) (n_rt n)) as [[[]|err|m] rt]; [|apply only_client_refl..]. cbn [snd] in Hent.
  assert (only_client (client_ID client) n (removeSubscriptionMetadataByTopic (client_ID client) topic (with_rt rt n))) as Hrem.
  { eapply only_client_trans; [|apply only_client_remove]. split; try done. intros t other Hne. by apply Hent. }
  case_bool_decide; [|done]. eapply only_client_trans; [exact Hrem|].
  apply only_client_tables. by rewrite logged_tables, propagate_tables.
Qed.

Lemma only_client_unsubscribe_id ctx cid sid n :
  clients_keyed n → only_client cid n (UnsubscribeByID ctx cid sid n).2.
Proof.
  intros Hk. unfold UnsubscribeByID. destruct (n_subs n !! cid) as [subs|]; [|apply only_client_refl].
  destruct (subs !! sid) as [sub|]; [|apply only_client_refl].
  destruct (n_clients n !! cid) as [c|] eqn:Hc; [|apply only_client_refl].
  pose proof (only_client_unsubscribe ctx c (cs_Topic sub) n) as Hu. rewrite (Hk _ _ Hc) in Hu.
  by destruct (node_Unsubscribe _ _ _ _) as [[r ctx'] n'].
Qed.

Lemma only_client_register client subs : ∀ seen topics n,
  as_subscriber client = Some (SubClient client) →
  only_client (client_ID client) n (register_loop client subs seen topics n).2.
Proof.
  induction subs as [|sub subs IH]; intros seen topics n Hcl; [apply only_client_refl|].
  cbn [register_loop]. case_bool_decide; [by apply IH|]. rewrite Hcl. unfold rt_Subscribe.
  case_bool_decide; [by apply only_client_tables; destruct n|].
  destruct (rt_closed (n_rt n)) eqn:Hc; [by apply only_client_tables; destruct n|].
  eapply only_client_trans; [|by apply IH]. split; try done.
  intros t other Hne. unfold rt_entries. cbn. rewrite flat_insert, lookup_insert_ne; [done|]. cbn. congruence.
Qed.

Lemma only_client_unregister client topics : ∀ n,
  only_client (client_ID client) n (unregisterSSEClient client topics n).
Proof.
  induction topics as [|t topics IH]; intros n; [apply only_client_refl|]. cbn [unregisterSSEClient].
  eapply only_client_trans; [|apply IH]. split; try done. intros t' other Hne. by apply unsubscribe_entries.
Qed.

Lemma only_client_heap id heap n : only_client id n (with_heap heap n).
Proof. by apply only_client_tables. Qed.

(** *** Streams *)
Lemma only_client_stream_open fuel ctx resume client topics h w n st h' w' n' :
  stream_open fuel ctx resume client topics h w n = Some (st, h', w', n') → only_client (client_ID client) n n'.
Proof.
  unfold stream_open.
  destruct (match resume with None => _ | Some cursor => _ end) as [[[]|err|m] ctx'].
  - destruct (Write _ _) as [[err|] w1]; [intros [= <- <- <- <-]; apply only_client_unregister|].
    destruct resume as [cursor|]; [|intros [= <- <- <- <-]; apply only_client_refl].
    destruct (replaySSECursor _ _ _ _ _ _ _) as [[[[r ctx2] h2] w2]|]; [|done]. cbn [mbind option_bind].
    destruct r; intros [= <- <- <- <-]; [apply only_client_refl|apply only_client_unregister..].
  - destruct (_ || _); intros [= <- <- <- <-]; apply only_client_unregister.
  - intros [= <- <- <- <-]. apply only_client_unregister.
Qed.

Lemma only_client_stream_subscribed fuel now r claims resume h w n st h' w' n' :
  stream_subscribed fuel now r claims resume h w n = Some (st, h', w', n') → only_client (jwt_ClientID claims) n n'.
Proof.
  unfold stream_subscribed. destruct (negb (is_streaming r)); [intros [= <- <- <- <-]; apply only_client_refl|].
  unfold NewHTTPClient. set (client := HTTPClient (jwt_ClientID claims) true now (fresh_ref (n_heap n))).
  set (n1 := with_heap _ n). assert (only_client (jwt_ClientID claims) n n1) as H1 by apply only_client_heap.
  pose proof (only_client_register client (GetClientSubscriptions (jwt_ClientID claims) n1) ∅ [] n1 eq_refl) as H2.
  unfold registerSSEClient. destruct (register_loop _ _ _ _ _) as [[topics|err|m] n2]; cbn [snd] in H2.
  - intros Hopen. eapply only_client_trans; [exact H1|]. eapply only_client_trans; [exact H2|].
    by apply only_client_stream_open in Hopen.
  - intros [= <- <- <- <-]. by eapply only_client_trans.
  - intros [= <- <- <- <-]. by eapply only_client_trans.
Qed.

Lemma only_client_StreamEvents fuel now r claims h w n st h' w' n' :
  r_claims r = Some claims → StreamEvents fuel now r h w n = Some (st, h', w', n') →
  only_client (jwt_ClientID claims) n n'.
Proof.
  intros Hr. unfold StreamEvents. rewrite Hr. case_bool_decide; [intros [= <- <- <- <-]; apply only_client_refl|].
  destruct (resumeCursorFromRequest r) as [[cursor|]|err|m]; [|apply only_client_stream_subscribed|intros [= <- <- <- <-]; apply only_client_refl..].
  case_bool_decide; [intros [= <- <- <- <-]; apply only_client_refl|apply only_client_stream_subscribed].
Qed.

(** *** Handlers *)
Lemma only_client_publish now r claims w n :
  r_claims r = Some claims → only_client (jwt_ClientID claims) n (h_PublishEvent now r w n).2.
Proof.
  intros Hr. unfold h_PublishEvent. destruct (validateJSON r); [apply only_client_refl|].
  destruct (decode_body _ _ _) as [req|err|m]; [|apply only_client_refl..].
  destruct (http_validatePublishRequest req); [apply only_client_refl|]. rewrite Hr.
  unfold NewHTTPClient. cbv zeta iota beta.
  set (n1 := with_heap _ n). set (c := HTTPClient _ _ _ _). set (e := NewEvent _ _ _).
  pose proof (publish_tables (r_ctx r) (Some c) (Some e) n1) as Ht.
  destruct (PublishEventWithResult _ _ _ _) as [[[ev|err|m] ctx'] n2]; cbn [snd] in *; by apply only_client_tables.
Qed.

Lemma only_client_create now now1 now2 r claims w n :
  r_claims r = Some claims → only_client (jwt_ClientID claims) n (h_CreateSubscription now now1 now2 r w n).2.
Proof.
  intros Hr. unfold h_CreateSubscription. destruct (validateJSON r); [apply only_client_refl|].
  destruct (decode_body _ _ _) as [topic|err|m]; [|apply only_client_refl..].
  case_bool_decide; [apply only_client_refl|]. rewrite Hr.
  unfold NewHTTPClient. cbv zeta iota beta. set (n1 := with_heap _ n). set (c := HTTPClient _ _ _ _).
  pose proof (only_client_subscribe (r_ctx r) now1 now2 c topic n1) as Hs.
  assert (only_client (jwt_ClientID claims) n n1) as H1 by apply only_client_heap.
  destruct (node_Subscribe _ _ _ _ _ _) as [[[[]|err|m] ctx'] n2]; cbn [snd client_ID c] in *;
    [destruct (newest_for _ _ _)| |]; by eapply only_client_trans.
Qed.

Lemma only_client_delete r claims w n :
  r_claims r = Some claims → clients_keyed n → only_client (jwt_ClientID claims) n (h_DeleteSubscription r w n).2.
Proof.
  intros Hr Hk. unfold h_DeleteSubscription. rewrite Hr. case_bool_decide; [apply only_client_refl|].
  pose proof (only_client_unsubscribe_id (r_ctx r) (jwt_ClientID claims) (r_subscriptionID r) n Hk) as Hu.
  destruct (UnsubscribeByID _ _ _ _) as [[[[]|err|m] ctx'] n2]; cbn [snd] in *; [done|by destruct (errors_Is _ _)|done].
Qed.

(** *** The server *)

(** Whom a request acts for. *)
Definition acts_as (now : Z) (r : Request) (c : JWTClaims) s : Prop :=
  (srv_noAuth s = true ∧ c = mkClaims "dev-client" false) ∨
  ValidateToken (srv_secretKey s) now (extractToken r) = Ok c.

(** The settings of the server, which no request changes. *)
Definition settings s := (srv_secretKey s, srv_noAuth s).

Lemma route_handler_client fuel clk rt r claims w s st w' s' :
  r_claims r = Some claims → clients_keyed (srv_node s) →
  route_handler fuel clk rt r w s = Some (st, w', s') →
  only_client (jwt_ClientID claims) (srv_node s) (srv_node s') ∧ settings s' = settings s ∧
  (route_protection rt ≠ Authenticated → srv_node s' = srv_node s).
Proof.
  intros Hr Hk.
  assert (∀ p w0, finish p w0 s = Some (st, w', s') →
    only_client (jwt_ClientID claims) (srv_node s) (srv_node s') ∧ settings s' = settings s ∧
    (route_protection rt ≠ Authenticated → srv_node s' = srv_node s)) as Hfin.
  { intros p w0 [= <- <- <-]. split; [apply only_client_refl|done]. }
  assert (∀ res : option string * Writer * MeshNode L P, only_client (jwt_ClientID claims) (srv_node s) res.2 →
    route_protection rt = Authenticated → on_node res s = Some (st, w', s') →
    only_client (jwt_ClientID claims) (srv_node s) (srv_node s') ∧ settings s' = settings s ∧
    (route_protection rt ≠ Authenticated → srv_node s' = srv_node s)) as Hnode.
  { intros [[p w0] n] Hn Hrt [= <- <- <-]. done. }
  assert (∀ res : option string * Writer, on_writer res s = finish res.1 res.2 s) as Hwr by (by intros []).
  destruct rt; cbn [route_handler]; rewrite ?Hwr; try (by apply Hfin).
  - unfold handleEvents. repeat case_bool_decide; [|by apply Hfin..]. apply Hnode; [by apply only_client_publish|done].
  - unfold serve_stream. destruct (StreamEvents _ _ _ _ _ _) as [[[[st0 h0] w0] n0]|] eqn:Hst; [|done].
    eapply only_client_StreamEvents in Hst; [|done]. cbn [mbind option_bind]. by destruct st0; intros [= <- <- <-].
  - unfold handleSubscriptions. repeat case_bool_decide; [by apply Hfin| |by apply Hfin].
    apply Hnode; [by apply only_client_create|done].
  - unfold handleSubscriptionByID. destruct (negb _); [by apply Hfin|].
    repeat case_bool_decide; [by apply Hfin| |by apply Hfin]. apply Hnode; [by apply only_client_delete|done].
  - unfold handleTopicEvents. destruct (negb _); [by apply Hfin|]. case_bool_decide; [by apply Hfin|].
    destruct (strip_suffix _ _); [|by apply Hfin]. repeat case_bool_decide; rewrite ?Hwr; by apply Hfin.
  - unfold handleRoot. case_bool_decide; by apply Hfin.
Qed.

Lemma route_handler_public fuel clk rt r w s st w' s' :
  route_protection rt = Public → route_handler fuel clk rt r w s = Some (st, w', s') →
  srv_node s' = srv_node s ∧ settings s' = settings s.
Proof.
  intros Hrt. destruct rt; try done; cbn [route_handler].
  - by intros [= <- <- <-].
  - unfold on_writer. destruct (h_Health _ _ _). by intros [= <- <- <-].
  - unfold handleRoot. case_bool_decide; by intros [= <- <- <-].
Qed.

(** Whatever is answered, only one client's share of the node has changed. *)
Lemma serve_only_client fuel clk r w s st w' s' :
  clients_keyed (srv_node s) → ServeHTTP fuel clk r w s = Some (st, w', s') →
  ∃ id, only_client id (srv_node s) (srv_node s').
Proof.
  intros Hk.
  assert (∀ w0, finish None w0 s = Some (st, w', s') → ∃ id, only_client id (srv_node s) (srv_node s')) as Hfin
    by (intros w0 [= _ _ <-]; exists ""%string; apply only_client_refl).
  assert (∀ rt c, route_handler fuel clk rt (with_claims c r) w s = Some (st, w', s') →
    ∃ id, only_client id (srv_node s) (srv_node s')) as Hclient.
  { intros rt c Hh. eapply route_handler_client in Hh as (Hc & _); [by eexists|done..]. }
  unfold ServeHTTP. destruct (mux_redirect _ _); [intros [= _ _ <-]; exists ""%string; apply only_client_refl|].
  unfold serve_route. case_bool_decide; [apply Hfin|].
  destruct (route_protection (find_route (r_Path r))) eqn:Hrt.
  - intros [Hn _]%route_handler_public; [|done]. rewrite Hn. exists ""%string. apply only_client_refl.
  - unfold AuthRequired. repeat case_match; simplify_eq; first [apply Hclient|apply Hfin].
  - unfold AdminRequired. repeat case_match; simplify_eq; first [apply Hclient|apply Hfin].
Qed.

Lemma status_writeError msg code w : w_status w = None → w_status (writeError msg code w) = Some code.
Proof. intros Hw. unfold writeError, WriteHeader, Write. rewrite Hw. by destruct (w_room w) as [[|k]|]. Qed.

#[local] Ltac refuse H :=
  intros (?&?&?&Hne)%H; [|done];
  split; [done|]; split; [done|]; split; [by left|]; intros _; split; [done|]; intros _ Hw Hst; by destruct (Hne Hw).

(** C11: clients are isolated.  Whatever the request, the node is unchanged, or
    the request acts for an authenticated client - by a valid token, or for the
    fixed development client when authentication is switched off - and only
    that client's subscriptions, client entry and routing-table entries differ,
    neither the node's lifecycle nor its configuration nor its view of others;
    the administrative routes never change the node, and answer with success
    only to a valid token that grants administration, whether or not
    authentication is switched off. *)
Theorem client_isolation (fuel : nat) (clk : Clock) (r : Request) (w w' : Writer) (s s' : Server L P) (st : stream_state)
    (Hkeyed : clients_keyed (srv_node s)) (Hserve : ServeHTTP fuel clk r w s = Some (st, w', s')) :
  settings s' = settings s ∧ clients_keyed (srv_node s') ∧
  (srv_node s' = srv_node s ∨
   ∃ c, acts_as (clk_now clk) r c s ∧ only_client (jwt_ClientID c) (srv_node s) (srv_node s')) ∧
  (route_protection (find_route (r_Path r)) = AdminOnly →
   srv_node s' = srv_node s ∧
   (r_Method r ≠ "OPTIONS"%string → w_status w = None → w_status w' = Some 200%Z →
    ∃ c, ValidateToken (srv_secretKey s) (clk_now clk) (extractToken r) = Ok c ∧ jwt_IsAdmin c = true)).
Proof.
  assert (∀ s0, srv_node s0 = srv_node s → clients_keyed (srv_node s0)) as Hsame by (by intros s0 ->).
  revert Hserve. unfold ServeHTTP. destruct (mux_redirect _ _).
  { intros [= <- <- <-]. split; [done|]. split; [by apply Hsame|]. split; [by left|]. intros _. split; [done|].
    intros _ Hw. unfold WriteHeader. rewrite Hw. done. }
  unfold serve_route. case_bool_decide as Hm; [intros [= <- <- <-]; naive_solver|].
  destruct (route_protection (find_route (r_Path r))) eqn:Hrt.
  - intros Hh. apply route_handler_public in Hh as [Hn Hs]; [|done]. split; [done|]. split; [by apply Hsame|]. split; [by left|done].
  - unfold AuthRequired. destruct (srv_noAuth s) eqn:Hno.
    { intros Hh. eapply route_handler_client in Hh as (Hc & Hs & _); [|done..].
      split; [done|]. split; [by eapply oc_keyed|]. split; [right; eexists; split; [by left|done]|done]. }
    case_bool_decide; [intros [= <- <- <-]; naive_solver|].
    destruct (ValidateToken _ _ _) as [c|err|m] eqn:Hv; [|intros [= <- <- <-]; naive_solver..].
    intros Hh. eapply route_handler_client in Hh as (Hc & Hs & _); [|done..].
    split; [done|]. split; [by eapply oc_keyed|]. split; [right; exists c; split; [by right|done]|done].
  - unfold AdminRequired. assert (∀ msg code, code ≠ 200%Z → finish None (mw_writeError msg code w) s = Some (st, w', s') →
      settings s' = settings s ∧ clients_keyed (srv_node s') ∧ srv_node s' = srv_node s ∧
      (w_status w = None → w_status w' ≠ Some 200%Z)) as Hrefuse.
    { intros msg code Hcode [= <- <- <-]. split; [done|]. split; [done|]. split; [done|].
      intros Hw. unfold Recovery, mw_writeError. rewrite status_writeError by done. congruence. }
    case_bool_decide; [refuse Hrefuse|].
    destruct (ValidateToken _ _ _) as [c|err|m] eqn:Hv; [|refuse Hrefuse..].
    destruct (jwt_IsAdmin c) eqn:Hadm; cbn [negb]; [|refuse Hrefuse].
    intros Hh. eapply route_handler_client in Hh as (Hc & Hs & Hn); [|done..]. rewrite Hrt in Hn.
    specialize (Hn ltac:(done)). split; [done|]. split; [by apply Hsame|]. split; [by left|].
    intros _. split; [done|]. intros _ _ _. by exists c.
Qed.
End Isolation.
