(* ===== verification/APIClient.v ===== *)
(** * The HTTP client ([pkg/httpclient/client.go], [types.go])

    Requests are sent through a transport, which stands for the network and the
    server behind it; its state is threaded through every call. *)
From S2P Require Import Prelude EventLog PebbleStorage Utf8 Json SSECursor HTTP SSEMessage.

Record HTTPRequest := mkHTTPRequest {
  hq_Method : string;
  hq_Path : string;
  hq_Query : gmap string string;
  hq_Header : gmap string string;
  hq_Body : option bytes
}.

(** A response whose body may end with a read error. *)
Record HTTPResponse := mkHTTPResponse {
  hr_StatusCode : Z;
  hr_Status : string;
  hr_Body : bytes;
  hr_ReadErr : option error
}.

(** [http.Client.Do]. *)
Class Transport (W : Type) := http_Do : Ctx → HTTPRequest → W → outcome HTTPResponse * Ctx * W.

(** ** Client and configuration *)
Record ClientConfig := mkClientConfig {
  cc_ServerURL : string;
  cc_ClientID : string;
  cc_SecretKey : string;
  cc_Timeout : Z;
  cc_MaxRetries : Z
}.

(** Thirty seconds, in nanoseconds. *)
Definition cc_SetDefaults (c : ClientConfig) : ClientConfig :=
  mkClientConfig (cc_ServerURL c) (cc_ClientID c) (cc_SecretKey c)
    (if bool_decide (cc_Timeout c = 0)%Z then 30 * 1000000000 else cc_Timeout c)%Z
    (if bool_decide (cc_MaxRetries c = 0)%Z then 3 else cc_MaxRetries c)%Z.

Record APIClient := mkAPIClient { api_config : ClientConfig; api_token : string }.

(** [url_parses] is the answer of [url.Parse]. *)
Definition NewClient (url_parses : string → outcome unit) (config : ClientConfig) : outcome APIClient :=
  let config := cc_SetDefaults config in
  if bool_decide (cc_ServerURL config = ""%string) then Err (ErrNew "ServerURL is required")
  else if bool_decide (cc_ClientID config = ""%string) then Err (ErrNew "ClientID is required")
  else _ ← wrap_err "invalid ServerURL" (url_parses (cc_ServerURL config)); Ok (mkAPIClient config "").

Definition IsAuthenticated (c : APIClient) : bool := bool_decide (api_token c ≠ ""%string).
Definition GetToken (c : APIClient) : string := api_token c.
Definition SetToken (token : string) (c : APIClient) : APIClient := mkAPIClient (api_config c) token.

Definition err_not_authenticated : error := ErrNew "client not authenticated - call Authenticate() first".

(** ** Responses *)

(** [json.Unmarshal] into a slice of structs. *)
Definition Unmarshal_slice {T} (fields : list (string * setter T)) (zero : T) (data : bytes) : outcome (list T) :=
  match parse_json data with
  | None => Err err_json_syntax
  | Some JNull => Ok []
  | Some (JArr l) =>
    match mapM (λ j, match j with
                     | JNull => Some zero
                     | JObj ms => foldl (set_field fields) (Some zero) ms
                     | _ => None
                     end) l with
    | Some l => Ok l
    | None => Err err_json_type
    end
  | Some _ => Err err_json_type
  end.

(** [ErrorResponse]: only the [error] member is used; the others must have the
    right type. *)
Record ErrorResponse := mkErrorResponse { er_Error : string; er_Message : string; er_Code : Z }.
Definition error_fields : list (string * setter ErrorResponse) :=
  [("error", set_string (λ x e, mkErrorResponse x (er_Message e) (er_Code e)));
   ("message", set_string (λ x e, mkErrorResponse (er_Error e) x (er_Code e)));
   ("code", set_int (λ x e, mkErrorResponse (er_Error e) (er_Message e) x))]%string.

Record SubscriptionResponse := mkSubscriptionResponse {
  sr_ID : string;
  sr_Topic : string;
  sr_ClientID : string;
  sr_CreatedAt : Z
}.

Record PublishResponse := mkPublishResponse { pb_EventID : string; pb_Offset : Z; pb_Timestamp : Z }.

Record ReadEventsResponse := mkReadEventsResponse {
  re_Events : list EventStreamMessage;
  re_Topic : string;
  re_StartOffset : Z;
  re_Count : Z
}.

Record AuthResponse := mkAuthResponse { ar_Token : string; ar_ClientID : string; ar_ExpiresAt : Z }.

(** What an administrator sees. *)
Record ClientInfo := mkClientInfo {
  ci_ID : string;
  ci_Authenticated : bool;
  ci_ConnectedAt : Z;
  ci_Subscriptions : list string
}.

Record AdminSubscriptionInfo := mkAdminSubscriptionInfo {
  as_ID : string;
  as_Topic : string;
  as_ClientID : string;
  as_CreatedAt : Z
}.

Record AdminStatsResponse := mkAdminStatsResponse {
  st_ConnectedClients : Z;
  st_TotalSubscriptions : Z;
  st_TotalTopics : Z;
  st_EventsPublished : Z
}.

Record HealthResponse := mkHealthResponse {
  hl_Healthy : bool;
  hl_EventLogHealthy : bool;
  hl_RoutingTableHealthy : bool;
  hl_PeerLinkHealthy : bool;
  hl_ConnectedClients : Z;
  hl_ConnectedPeers : Z;
  hl_Message : string
}.

Section Fields.
Context `{!TextFormats}.

Definition set_bool {T} (upd : bool → T → T) : setter T := λ v t,
  match v with JNull => Some t | JBool b => Some (upd b t) | _ => None end.

(** A field that is a slice of strings. *)
Definition set_strings {T} (upd : list string → T → T) : setter T := λ v t,
  match v with
  | JNull => Some (upd [] t)
  | JArr l =>
    l ← mapM (λ j, match j with
                   | JNull => Some ""%string
                   | JStr s => Some (string_of_bytes s)
                   | _ => None
                   end) l;
    Some (upd l t)
  | _ => None
  end.

Definition auth_response_fields : list (string * setter AuthResponse) :=
  [("token", set_string (λ x r, mkAuthResponse x (ar_ClientID r) (ar_ExpiresAt r)));
   ("clientId", set_string (λ x r, mkAuthResponse (ar_Token r) x (ar_ExpiresAt r)));
   ("expiresAt", set_time (λ x r, mkAuthResponse (ar_Token r) (ar_ClientID r) x))]%string.

Definition subscription_response_fields : list (string * setter SubscriptionResponse) :=
  [("id", set_string (λ x r, mkSubscriptionResponse x (sr_Topic r) (sr_ClientID r) (sr_CreatedAt r)));
   ("topic", set_string (λ x r, mkSubscriptionResponse (sr_ID r) x (sr_ClientID r) (sr_CreatedAt r)));
   ("clientId", set_string (λ x r, mkSubscriptionResponse (sr_ID r) (sr_Topic r) x (sr_CreatedAt r)));
   ("createdAt", set_time (λ x r, mkSubscriptionResponse (sr_ID r) (sr_Topic r) (sr_ClientID r) x))]%string.

Definition publish_response_fields : list (string * setter PublishResponse) :=
  [("eventId", set_string (λ x r, mkPublishResponse x (pb_Offset r) (pb_Timestamp r)));
   ("offset", set_int (λ x r, mkPublishResponse (pb_EventID r) x (pb_Timestamp r)));
   ("timestamp", set_time (λ x r, mkPublishResponse (pb_EventID r) (pb_Offset r) x))]%string.

(** A field that is a slice of structs. *)
Definition set_structs {A T} (fields : list (string * setter A)) (zero : A) (upd : list A → T → T) : setter T := λ v t,
  match v with
  | JNull => Some (upd [] t)
  | JArr l =>
    l ← mapM (λ j, match j with
                   | JNull => Some zero
                   | JObj ms => foldl (set_field fields) (Some zero) ms
                   | _ => None
                   end) l;
    Some (upd l t)
  | _ => None
  end.

Definition read_response_fields : list (string * setter ReadEventsResponse) :=
  [("events", set_structs stream_message_fields zero_message
      (λ x r, mkReadEventsResponse x (re_Topic r) (re_StartOffset r) (re_Count r)));
   ("topic", set_string (λ x r, mkReadEventsResponse (re_Events r) x (re_StartOffset r) (re_Count r)));
   ("startOffset", set_int (λ x r, mkReadEventsResponse (re_Events r) (re_Topic r) x (re_Count r)));
   ("count", set_int (λ x r, mkReadEventsResponse (re_Events r) (re_Topic r) (re_StartOffset r) x))]%string.

Definition client_info_fields : list (string * setter ClientInfo) :=
  [("id", set_string (λ x c, mkClientInfo x (ci_Authenticated c) (ci_ConnectedAt c) (ci_Subscriptions c)));
   ("authenticated", set_bool (λ x c, mkClientInfo (ci_ID c) x (ci_ConnectedAt c) (ci_Subscriptions c)));
   ("connectedAt", set_time (λ x c, mkClientInfo (ci_ID c) (ci_Authenticated c) x (ci_Subscriptions c)));
   ("subscriptions", set_strings (λ x c, mkClientInfo (ci_ID c) (ci_Authenticated c) (ci_ConnectedAt c) x))]%string.

Definition admin_subscription_fields : list (string * setter AdminSubscriptionInfo) :=
  [("id", set_string (λ x s, mkAdminSubscriptionInfo x (as_Topic s) (as_ClientID s) (as_CreatedAt s)));
   ("topic", set_string (λ x s, mkAdminSubscriptionInfo (as_ID s) x (as_ClientID s) (as_CreatedAt s)));
   ("clientId", set_string (λ x s, mkAdminSubscriptionInfo (as_ID s) (as_Topic s) x (as_CreatedAt s)));
   ("createdAt", set_time (λ x s, mkAdminSubscriptionInfo (as_ID s) (as_Topic s) (as_ClientID s) x))]%string.

Definition stats_response_fields : list (string * setter AdminStatsResponse) :=
  [("connectedClients", set_int (λ x r, mkAdminStatsResponse x (st_TotalSubscriptions r) (st_TotalTopics r) (st_EventsPublished r)));
   ("totalSubscriptions", set_int (λ x r, mkAdminStatsResponse (st_ConnectedClients r) x (st_TotalTopics r) (st_EventsPublished r)));
   ("totalTopics", set_int (λ x r, mkAdminStatsResponse (st_ConnectedClients r) (st_TotalSubscriptions r) x (st_EventsPublished r)));
   ("eventsPublished", set_int (λ x r, mkAdminStatsResponse (st_ConnectedClients r) (st_TotalSubscriptions r) (st_TotalTopics r) x))]%string.

Definition health_response_fields : list (string * setter HealthResponse) :=
  [("healthy", set_bool (λ x r, mkHealthResponse x (hl_EventLogHealthy r) (hl_RoutingTableHealthy r) (hl_PeerLinkHealthy r)
                                  (hl_ConnectedClients r) (hl_ConnectedPeers r) (hl_Message r)));
   ("eventLogHealthy", set_bool (λ x r, mkHealthResponse (hl_Healthy r) x (hl_RoutingTableHealthy r) (hl_PeerLinkHealthy r)
                                  (hl_ConnectedClients r) (hl_ConnectedPeers r) (hl_Message r)));
   ("routingTableHealthy", set_bool (λ x r, mkHealthResponse (hl_Healthy r) (hl_EventLogHealthy r) x (hl_PeerLinkHealthy r)
                                  (hl_ConnectedClients r) (hl_ConnectedPeers r) (hl_Message r)));
   ("peerLinkHealthy", set_bool (λ x r, mkHealthResponse (hl_Healthy r) (hl_EventLogHealthy r) (hl_RoutingTableHealthy r) x
                                  (hl_ConnectedClients r) (hl_ConnectedPeers r) (hl_Message r)));
   ("connectedClients", set_int (λ x r, mkHealthResponse (hl_Healthy r) (hl_EventLogHealthy r) (hl_RoutingTableHealthy r)
                                  (hl_PeerLinkHealthy r) x (hl_ConnectedPeers r) (hl_Message r)));
   ("connectedPeers", set_int (λ x r, mkHealthResponse (hl_Healthy r) (hl_EventLogHealthy r) (hl_RoutingTableHealthy r)
                                  (hl_PeerLinkHealthy r) (hl_ConnectedClients r) x (hl_Message r)));
   ("message", set_string (λ x r, mkHealthResponse (hl_Healthy r) (hl_EventLogHealthy r) (hl_RoutingTableHealthy r)
                                  (hl_PeerLinkHealthy r) (hl_ConnectedClients r) (hl_ConnectedPeers r) x))]%string.
End Fields.

(** ** Requests *)
Section Requests.
Context {W : Type} `{!Transport W, TF : !TextFormats}.
Implicit Types (c : APIClient) (w : W).

Definition err_api (statusCode : Z) (text : string) : error :=
  ErrNew ("API error (" +:+ pretty statusCode +:+ "): " +:+ text).

(** [decode] is [json.Unmarshal] into the caller's variable, [None] when there
    is none.  Every path starts with a slash, so that [ResolveReference] takes
    the scheme and the host of the server's URL and none of its path; it removes
    dot segments. *)
Definition doRequestWithQuery {T} (ctx : Ctx) (method path : string) (query : gmap string string)
    (reqBody : option json) (decode : option (bytes → outcome T)) (requireAuth : bool) c w
    : outcome (option T) * Ctx * W :=
  let headers := match reqBody with Some _ => {["Content-Type"%string := "application/json"%string]} | None => ∅ end in
  let headers := if requireAuth && bool_decide (api_token c ≠ ""%string)
                 then <["Authorization"%string := "Bearer " +:+ api_token c]> headers else headers in
  match http_Do ctx (mkHTTPRequest method (resolvePath path) query headers (print <$> reqBody)) w with
  | (Err err, ctx, w) => (Err (ErrWrap "request failed" err), ctx, w)
  | (Panic m, ctx, w) => (Panic m, ctx, w)
  | (Ok resp, ctx, w) =>
    match hr_ReadErr resp with
    | Some err => (Err (ErrWrap "failed to read response body" err), ctx, w)
    | None =>
      if bool_decide (400 ≤ hr_StatusCode resp)%Z then
        match Unmarshal error_fields (hr_Body resp) (mkErrorResponse "" "" 0) with
        | Ok errResp => (Err (err_api (hr_StatusCode resp) (hr_Status resp +:+ " - " +:+ er_Error errResp)), ctx, w)
        | _ => (Err (err_api (hr_StatusCode resp) (string_of_bytes (hr_Body resp))), ctx, w)
        end
      else match decode with
      | None => (Ok None, ctx, w)
      | Some decode => (Some <$> wrap_err "failed to parse response" (decode (hr_Body resp)), ctx, w)
      end
    end
  end.

Definition doRequest {T} (ctx : Ctx) (method path : string) (reqBody : option json)
    (decode : option (bytes → outcome T)) (requireAuth : bool) c w : outcome (option T) * Ctx * W :=
  doRequestWithQuery ctx method path ∅ reqBody decode requireAuth c w.

(** The value a call with a result returns, its error wrapped. *)
Definition call_result {T} (what : string) (zero : T) (res : outcome (option T) * Ctx * W) : outcome T * Ctx * W :=
  let '(r, ctx, w) := res in (default zero <$> wrap_err what r, ctx, w).

Definition Authenticate (ctx : Ctx) c w : outcome unit * Ctx * APIClient * W :=
  let authReq := JObj [member "clientId" (JString (cc_ClientID (api_config c)))] in
  let zero := mkAuthResponse "" "" zero_time in
  match call_result "authentication failed" zero
          (doRequest ctx "POST" "/api/v1/auth/login" (Some authReq)
             (Some (λ b, Unmarshal auth_response_fields b zero)) false c w) with
  | (Ok resp, ctx, w) => (Ok (), ctx, SetToken (ar_Token resp) c, w)
  | (Err err, ctx, w) => (Err err, ctx, c, w)
  | (Panic m, ctx, w) => (Panic m, ctx, c, w)
  end.

(** The guard of the calls that need a token. *)
Definition authenticated {A} c (ctx : Ctx) (w : W) (call : outcome A * Ctx * W) : outcome A * Ctx * W :=
  if bool_decide (api_token c = ""%string) then (Err err_not_authenticated, ctx, w) else call.

(** The payload is given as what it is printed as. *)
Definition api_PublishEvent (ctx : Ctx) (topic : string) (payload : json) c w : outcome PublishResponse * Ctx * W :=
  let zero := mkPublishResponse "" 0 zero_time in
  authenticated c ctx w
    (call_result "failed to publish event" zero
       (doRequest ctx "POST" "/api/v1/events" (Some (JObj [member "topic" (JString topic); member "payload" payload]))
          (Some (λ b, Unmarshal publish_response_fields b zero)) true c w)).

Definition zero_subscription : SubscriptionResponse := mkSubscriptionResponse "" "" "" zero_time.

Definition api_CreateSubscription (ctx : Ctx) (topic : string) c w : outcome SubscriptionResponse * Ctx * W :=
  authenticated c ctx w
    (call_result "failed to create subscription" zero_subscription
       (doRequest ctx "POST" "/api/v1/subscriptions" (Some (JObj [member "topic" (JString topic)]))
          (Some (λ b, Unmarshal subscription_response_fields b zero_subscription)) true c w)).

Definition api_ListSubscriptions (ctx : Ctx) c w : outcome (list SubscriptionResponse) * Ctx * W :=
  authenticated c ctx w
    (call_result "failed to list subscriptions" []
       (doRequest ctx "GET" "/api/v1/subscriptions" None
          (Some (Unmarshal_slice subscription_response_fields zero_subscription)) true c w)).

Definition api_DeleteSubscription (ctx : Ctx) (subscriptionID : string) c w : outcome unit * Ctx * W :=
  authenticated c ctx w
    (call_result "failed to delete subscription" ()
       (doRequest ctx "DELETE" ("/api/v1/subscriptions/" +:+ subscriptionID) None None true c w)).

(** [url.PathEscape]. *)
Definition path_safe (b : ascii) : bool :=
  between 97 122 b || between 65 90 b || between 48 57 b || bool_decide (b ∈ bytes_of_string "-_.~$&+:=@").
Definition upper_hex (n : Z) : ascii := byte_of (if (n <? 10)%Z then 48 + n else 55 + n).
Definition PathEscape (s : string) : string :=
  string_of_bytes (bytes_of_string s ≫= λ b,
    if path_safe b then [b] else ["%"%char; upper_hex (Z.shiftr (code b) 4); upper_hex (Z.land (code b) 15)]).

Definition api_ReadEvents (ctx : Ctx) (topic : string) (offset limit : Z) c w : outcome ReadEventsResponse * Ctx * W :=
  let query : gmap string string := if bool_decide (0 ≤ offset)%Z then {["offset"%string := fmt_int offset]} else ∅ in
  let query := if bool_decide (0 < limit)%Z then <["limit"%string := fmt_int limit]> query else query in
  let zero := mkReadEventsResponse [] "" 0 0 in
  authenticated c ctx w
    (call_result "failed to read events" zero
       (doRequestWithQuery ctx "GET" ("/api/v1/topics/" +:+ PathEscape topic +:+ "/events") query None
          (Some (λ b, Unmarshal read_response_fields b zero)) true c w)).

(** The server answers 503 when it is unhealthy, and the call then fails. *)
Definition api_GetHealth (ctx : Ctx) c w : outcome HealthResponse * Ctx * W :=
  let zero := mkHealthResponse false false false false 0 0 "" in
  call_result "failed to get health status" zero
    (doRequest ctx "GET" "/api/v1/health" None (Some (λ b, Unmarshal health_response_fields b zero)) false c w).

Definition api_AdminListClients (ctx : Ctx) c w : outcome (list ClientInfo) * Ctx * W :=
  authenticated c ctx w
    (call_result "failed to list clients" []
       (doRequest ctx "GET" "/api/v1/admin/clients" None
          (Some (λ b, Unmarshal [("clients"%string, set_structs client_info_fields (mkClientInfo "" false zero_time []) (λ x _, x))] b []))
          true c w)).

Definition api_AdminListSubscriptions (ctx : Ctx) c w : outcome (list AdminSubscriptionInfo) * Ctx * W :=
  authenticated c ctx w
    (call_result "failed to list all subscriptions" []
       (doRequest ctx "GET" "/api/v1/admin/subscriptions" None
          (Some (λ b, Unmarshal [("subscriptions"%string,
             set_structs admin_subscription_fields (mkAdminSubscriptionInfo "" "" "" zero_time) (λ x _, x))] b []))
          true c w)).

Definition api_AdminGetStats (ctx : Ctx) c w : outcome AdminStatsResponse * Ctx * W :=
  let zero := mkAdminStatsResponse 0 0 0 0 in
  authenticated c ctx w
    (call_result "failed to get stats" zero
       (doRequest ctx "GET" "/api/v1/admin/stats" None (Some (λ b, Unmarshal stats_response_fields b zero)) true c w)).
End Requests.
