(* ===== verification/StreamClient.v ===== *)
(** * The streaming client ([pkg/httpclient/streaming.go])

    It keeps a subscription for each of its topics, reads the event stream line
    by line, remembers the last offset of every topic and sends these back as a
    cursor when it reconnects. *)
From S2P Require Import Prelude Topics EventLog PebbleStorage Utf8 Json SSECursor HTTP SSEMessage APIClient.

(** ** State *)
Record StreamConfig := mkStreamConfig {
  sc_Topics : list string;
  sc_BufferSize : Z;
  sc_ReconnectDelay : Z;
  sc_MaxReconnectAttempts : Z
}.

Definition sc_SetDefaults (c : StreamConfig) : StreamConfig :=
  mkStreamConfig (sc_Topics c)
    (if bool_decide (sc_BufferSize c = 0)%Z then 100 else sc_BufferSize c)%Z
    (if bool_decide (sc_ReconnectDelay c = 0)%Z then 2 * 1000000000 else sc_ReconnectDelay c)%Z
    (sc_MaxReconnectAttempts c).

(** The two channels hold what has been sent and not yet received. *)
Record StreamClient := mkStreamClient {
  sc_client : APIClient;
  sc_events : list EventStreamMessage;
  sc_events_cap : nat;
  sc_errors : list error;
  sc_temporary : gmap string string;
  sc_resumeNodeID : string;
  sc_resumeOffsets : gmap string Z
}.

Definition errors_cap : nat := 10.

Definition with_events l (sc : StreamClient) : StreamClient :=
  mkStreamClient (sc_client sc) l (sc_events_cap sc) (sc_errors sc) (sc_temporary sc) (sc_resumeNodeID sc) (sc_resumeOffsets sc).
Definition with_errors l (sc : StreamClient) : StreamClient :=
  mkStreamClient (sc_client sc) (sc_events sc) (sc_events_cap sc) l (sc_temporary sc) (sc_resumeNodeID sc) (sc_resumeOffsets sc).
Definition with_temporary m (sc : StreamClient) : StreamClient :=
  mkStreamClient (sc_client sc) (sc_events sc) (sc_events_cap sc) (sc_errors sc) m (sc_resumeNodeID sc) (sc_resumeOffsets sc).
Definition with_resume node offsets (sc : StreamClient) : StreamClient :=
  mkStreamClient (sc_client sc) (sc_events sc) (sc_events_cap sc) (sc_errors sc) (sc_temporary sc) node offsets.

(** [select { case ch <- x: case <-ctx.Done(): return; default: }]: the first
    component is the cause when the context is done; a full channel drops. *)
Definition offer_event (ctx : Ctx) (e : EventStreamMessage) (sc : StreamClient) : option error * Ctx * StreamClient :=
  match poll ctx with
  | (Some err, ctx) => (Some err, ctx, sc)
  | (None, ctx) =>
    (None, ctx, if bool_decide (length (sc_events sc) < sc_events_cap sc) then with_events (sc_events sc ++ [e]) sc else sc)
  end.

Definition offer_error (ctx : Ctx) (e : error) (sc : StreamClient) : option error * Ctx * StreamClient :=
  match poll ctx with
  | (Some err, ctx) => (Some err, ctx, sc)
  | (None, ctx) =>
    (None, ctx, if bool_decide (length (sc_errors sc) < errors_cap) then with_errors (sc_errors sc ++ [e]) sc else sc)
  end.

(** ** Topics *)
Fixpoint unique_loop (topics : list string) (seen : gset string) : list string :=
  match topics with
  | [] => []
  | topic :: topics =>
    let topic := TrimSpace topic in
    if bool_decide (topic = ""%string) then unique_loop topics seen
    else if bool_decide (topic ∈ seen) then unique_loop topics seen
    else topic :: unique_loop topics ({[topic]} ∪ seen)
  end.
Definition uniqueStreamTopics (topics : list string) : list string := unique_loop topics ∅.

Fixpoint matches_any (patterns : list string) (topic : string) : bool :=
  match patterns with
  | [] => false
  | pattern :: patterns => if matchesStreamTopic pattern topic then true else matches_any patterns topic
  end.
Definition matchesAnyStreamTopic (patterns : list string) (topic : string) : bool :=
  matches_any (uniqueStreamTopics patterns) topic.

(** ** The resume position *)
Definition recordResumeEventID (eventID : string) (sc : StreamClient) : StreamClient :=
  if bool_decide (eventID = ""%string) then sc
  else match decodeSSEEventCursor eventID with
  | Ok cursor =>
    let node := if bool_decide (sc_resumeNodeID sc = ""%string) then ec_NodeID cursor else sc_resumeNodeID sc in
    let '(node, offsets) :=
      if bool_decide (node ≠ ec_NodeID cursor) then (ec_NodeID cursor, ∅) else (node, sc_resumeOffsets sc) in
    match offsets !! ec_Topic cursor with
    | Some current =>
      if bool_decide (current < ec_Offset cursor)%Z
      then with_resume node (<[ec_Topic cursor := ec_Offset cursor]> offsets) sc else with_resume node offsets sc
    | None => with_resume node (<[ec_Topic cursor := ec_Offset cursor]> offsets) sc
    end
  | _ => sc
  end.

Definition resumeCursorHeader (sc : StreamClient) : outcome string :=
  if bool_decide (size (sc_resumeOffsets sc) = 0) then Ok ""%string
  else encodeSSEMultiTopicCursor (sc_resumeNodeID sc) (sc_resumeOffsets sc).

(** ** Lines ([bufio.Scanner] with [bufio.ScanLines])

    Lines end with a line feed, and one carriage return before it is dropped.
    The buffer holds 64 KiB, so a line of that length or more ends the scan. *)
Definition maxTokenSize : Z := 64 * 1024.
Definition err_token_too_long : error := ErrVar "bufio.ErrTooLong" "bufio.Scanner: token too long".

Fixpoint split_lines (b : bytes) : list bytes * bytes :=
  match b with
  | [] => ([], [])
  | c :: b =>
    let '(lines, rest) := split_lines b in
    if bool_decide (c = newline) then ([] :: lines, rest)
    else match lines with
    | [] => ([], c :: rest)
    | l :: lines => ((c :: l) :: lines, rest)
    end
  end.

Definition carriage_return : ascii := byte_of 13.
Definition dropCR (l : bytes) : bytes :=
  match reverse l with
  | c :: r => if bool_decide (c = carriage_return) then reverse r else l
  | [] => []
  end.

(** The lines up to one that is too long. *)
Fixpoint take_tokens (lines : list bytes) : list bytes * bool :=
  match lines with
  | [] => ([], true)
  | l :: lines =>
    if bool_decide (Z.of_nat (length l) < maxTokenSize)%Z
    then let '(ts, all) := take_tokens lines in (dropCR l :: ts, all)
    else ([], false)
  end.

(** The tokens of a body that ends with [read_err] ([None]: at its end), and the
    error of the scan. *)
Definition scan_lines (body : bytes) (read_err : option error) : list bytes * option error :=
  let '(lines, rest) := split_lines body in
  let lines := match rest with [] => lines | _ => lines ++ [rest] end in
  let '(tokens, all) := take_tokens lines in
  (tokens, if all then read_err else Some err_token_too_long).

(** [parseSSEField]: the value after the colon and one space. *)
Definition parseSSEField (line : bytes) (field : string) : option bytes :=
  match strip_prefix (bytes_of_string field ++ [":"%char]) line with
  | None => None
  | Some value =>
    Some match value with
         | c :: v => if bool_decide (c = " "%char) then v else value
         | [] => []
         end
  end.

(** ** Processing *)
Section Processing.
Context `{TF : !TextFormats}.

(** An event that has been parsed: its id is recorded before anything else. *)
Definition process_event (ctx : Ctx) (config : StreamConfig) (currentEventID : string) (event : EventStreamMessage)
    (sc : StreamClient) : option error * Ctx * StreamClient :=
  let event := if bool_decide (sm_EventID event = ""%string)
               then mkMessage currentEventID (sm_Topic event) (sm_Payload event) (sm_Timestamp event) (sm_Offset event)
               else event in
  let sc := recordResumeEventID (sm_EventID event) sc in
  if bool_decide (0 < length (sc_Topics config)) && negb (matchesAnyStreamTopic (sc_Topics config) (sm_Topic event))
  then (None, ctx, sc)
  else offer_event ctx event sc.

(** One line: the next event id, and the error that ends the stream. *)
Definition process_line (ctx : Ctx) (config : StreamConfig) (line : bytes) (currentEventID : string) (sc : StreamClient)
    : option error * Ctx * string * StreamClient :=
  match poll ctx with
  | (Some err, ctx) => (Some err, ctx, currentEventID, sc)
  | (None, ctx) =>
    match parseSSEField line "id" with
    | Some value => (None, ctx, TrimSpace (string_of_bytes value), sc)
    | None =>
      match parseSSEField line "data" with
      | None => (None, ctx, currentEventID, sc)
      | Some jsonData =>
        match Unmarshal_message jsonData with
        | Ok event =>
          let '(err, ctx, sc) := process_event ctx config currentEventID event sc in (err, ctx, ""%string, sc)
        | Err err =>
          let '(err, ctx, sc) := offer_error ctx (ErrWrap "failed to parse event" err) sc in (err, ctx, currentEventID, sc)
        | Panic _ => (None, ctx, currentEventID, sc)
        end
      end
    end
  end.

Fixpoint process_lines (ctx : Ctx) (config : StreamConfig) (lines : list bytes) (currentEventID : string) (sc : StreamClient)
    : option error * Ctx * StreamClient :=
  match lines with
  | [] => (None, ctx, sc)
  | line :: lines =>
    let '(err, ctx, currentEventID, sc) := process_line ctx config line currentEventID sc in
    match err with
    | Some err => (Some err, ctx, sc)
    | None => process_lines ctx config lines currentEventID sc
    end
  end.

Definition processSSEStream (ctx : Ctx) (body : bytes) (read_err : option error) (config : StreamConfig) (sc : StreamClient)
    : option error * Ctx * StreamClient :=
  let '(lines, scan_err) := scan_lines body read_err in
  let '(err, ctx, sc) := process_lines ctx config lines "" sc in
  match err with
  | Some err => (Some err, ctx, sc)
  | None => (ErrWrap "error reading SSE stream" <$> scan_err, ctx, sc)
  end.

(** ** Connections *)
Section Connection.
Context {W : Type} `{!Transport W, MO : !MapOrder}.
Implicit Types (c : APIClient) (w : W).

Fixpoint has_topic (topic : string) (subs : list SubscriptionResponse) : bool :=
  match subs with
  | [] => false
  | s :: subs => if bool_decide (sr_Topic s = topic) then true else has_topic topic subs
  end.

Definition ensureStreamSubscription (ctx : Ctx) (topic : string) c w : outcome string * Ctx * W :=
  let '(subs, ctx, w) := api_ListSubscriptions ctx c w in
  match wrap_err ("failed to check existing subscriptions for stream topic " +:+ format_quoted topic) subs with
  | Err err => (Err err, ctx, w)
  | Panic m => (Panic m, ctx, w)
  | Ok subs =>
    if has_topic topic subs then (Ok ""%string, ctx, w)
    else
      let '(sub, ctx, w) := api_CreateSubscription ctx topic c w in
      (sr_ID <$> wrap_err ("failed to create temporary stream subscription for topic " +:+ format_quoted topic) sub, ctx, w)
  end.

Fixpoint ensure_loop (ctx : Ctx) (topics : list string) (created : gmap string string) c w
    : outcome (gmap string string) * Ctx * W :=
  match topics with
  | [] => (Ok created, ctx, w)
  | topic :: topics =>
    let '(id, ctx, w) := ensureStreamSubscription ctx topic c w in
    match id with
    | Err err => (Err err, ctx, w)
    | Panic m => (Panic m, ctx, w)
    | Ok id => ensure_loop ctx topics (if bool_decide (id ≠ ""%string) then <[topic := id]> created else created) c w
    end
  end.

Definition ensureStreamSubscriptions (ctx : Ctx) (topics : list string) c w : outcome (gmap string string) * Ctx * W :=
  ensure_loop ctx (uniqueStreamTopics topics) ∅ c w.

(** [Stream]: the streaming goroutine is the rounds below. *)
Definition api_Stream (ctx : Ctx) (config : StreamConfig) c w : outcome StreamClient * Ctx * W :=
  if bool_decide (api_token c = ""%string) then (Err err_not_authenticated, ctx, w)
  else
    let config := sc_SetDefaults config in
    let '(subs, ctx, w) := ensureStreamSubscriptions ctx (sc_Topics config) c w in
    match subs with
    | Err err => (Err err, ctx, w)
    | Panic m => (Panic m, ctx, w)
    | Ok subs =>
      if make_slice_ok (sc_BufferSize config)
      then (Ok (mkStreamClient c [] (Z.to_nat (sc_BufferSize config)) [] subs "" ∅), ctx, w)
      else (Panic "makechan: size out of range", ctx, w)
    end.

Definition connectAndStream (ctx : Ctx) (config : StreamConfig) (sc : StreamClient) w
    : option error * Ctx * StreamClient * W :=
  match resumeCursorHeader sc with
  | Err err => (Some err, ctx, sc, w)
  | Panic _ => (None, ctx, sc, w)
  | Ok resumeCursor =>
    let headers : gmap string string :=
      {["Accept"%string := "text/event-stream"%string; "Cache-Control"%string := "no-cache"%string;
        "Authorization"%string := "Bearer " +:+ api_token (sc_client sc)]} in
    let headers := if bool_decide (resumeCursor ≠ ""%string) then <["Last-Event-ID"%string := resumeCursor]> headers else headers in
    match http_Do ctx (mkHTTPRequest "GET" (resolvePath "/api/v1/events/stream") ∅ headers None) w with
    | (Err err, ctx, w) => (Some (ErrWrap "failed to connect to stream" err), ctx, sc, w)
    | (Panic _, ctx, w) => (None, ctx, sc, w)
    | (Ok resp, ctx, w) =>
      if bool_decide (hr_StatusCode resp ≠ 200)%Z then
        (Some (ErrNew ("streaming failed with status " +:+ pretty (hr_StatusCode resp) +:+ ": " +:+
                       string_of_bytes (hr_Body resp))), ctx, sc, w)
      else
        let '(err, ctx, sc) := processSSEStream ctx (hr_Body resp) (hr_ReadErr resp) config sc in
        (err, ctx, sc, w)
    end
  end.

(** One round of [startStreaming].  [RoundBlocked]: the loop waits for room in
    the error channel to report that it gives up. *)
Inductive round_result := RoundContinue (attempts : Z) | RoundStop | RoundBlocked.

Definition stream_round (ctx : Ctx) (config : StreamConfig) (attempts : Z) (sc : StreamClient) w
    : round_result * Ctx * StreamClient * W :=
  match poll ctx with
  | (Some _, ctx) => (RoundStop, ctx, sc, w)
  | (None, ctx) =>
    let '(subs, ctx, w) := ensureStreamSubscriptions ctx (sc_Topics config) (sc_client sc) w in
    let '(stop, ctx, sc) :=
      match subs with
      | Ok subs => (None, ctx, with_temporary (subs ∪ sc_temporary sc) sc)
      | Err err => offer_error ctx (ErrWrap "stream subscription error" err) sc
      | Panic _ => (None, ctx, sc)
      end in
    match stop with
    | Some _ => (RoundStop, ctx, sc, w)
    | None =>
      let '(err, ctx, sc, w) := connectAndStream ctx config sc w in
      let '(stop, ctx, sc) :=
        match err with
        | Some err => offer_error ctx (ErrWrap "streaming error" err) sc
        | None => (None, ctx, sc)
        end in
      match stop with
      | Some _ => (RoundStop, ctx, sc, w)
      | None =>
        if bool_decide (0 < sc_MaxReconnectAttempts config)%Z && bool_decide (sc_MaxReconnectAttempts config ≤ attempts)%Z then
          let exceeded := ErrNew ("max reconnect attempts (" +:+ pretty (sc_MaxReconnectAttempts config) +:+ ") exceeded") in
          if bool_decide (length (sc_errors sc) < errors_cap)
          then (RoundStop, ctx, with_errors (sc_errors sc ++ [exceeded]) sc, w)
          else match poll ctx with
               | (Some _, ctx) => (RoundStop, ctx, sc, w)
               | (None, ctx) => (RoundBlocked, ctx, sc, w)
               end
        else
          (* the delay, or the end of the context during it *)
          match poll ctx with
          | (Some _, ctx) => (RoundStop, ctx, sc, w)
          | (None, ctx) => (RoundContinue (wrap64 (attempts + 1)), ctx, sc, w)
          end
      end
    end
  end.

(** [Close], after the goroutine has ended: every temporary subscription is
    deleted, and the errors are joined. *)
Fixpoint close_loop (ctx : Ctx) (subs : list (string * string)) (errs : list error) c w : list error * Ctx * W :=
  match subs with
  | [] => (errs, ctx, w)
  | (_, subscriptionID) :: subs =>
    let '(r, ctx, w) := api_DeleteSubscription ctx subscriptionID c w in
    close_loop ctx subs (match r with Err err => errs ++ [ErrWrap ("subscription " +:+ subscriptionID) err] | _ => errs end) c w
  end.

Definition StreamClient_Close (ctx : Ctx) (sc : StreamClient) w : list error * Ctx * StreamClient * W :=
  if bool_decide (size (sc_temporary sc) = 0) then ([], ctx, sc, w)
  else
    let '(errs, ctx, w) := close_loop ctx (range_map (sc_temporary sc)) [] (sc_client sc) w in
    (errs, ctx, with_temporary ∅ sc, w).
End Connection.
End Processing.
