(* ===== verification/StreamLines.v ===== *)
(** * What the client reads of a stream

    The payload of a frame, whatever bytes an event carries; the frames that the
    server writes are split into the lines it wrote, and the client takes the
    events in order. *)
From S2P Require Import Prelude Topics EventLog Utf8 Base64 Json JsonSpec SSECursor HTTP SSEMessage JsonValues SSEStream SSEReplay APIClient StreamClient.
#[local] Set Default Proof Using "Type*".

(** ** Lines *)

(** No control character. *)
Definition text_char (c : ascii) : bool := negb (between 0 31 c).
Definition is_text (b : bytes) : Prop := Forall (λ c, text_char c = true) b.

Lemma text_not_break c : text_char c = true → c ≠ newline ∧ c ≠ carriage_return.
Proof. by split; intros ->. Qed.

Lemma escape_ascii_text c : is_text (escape_ascii c).
Proof. destruct c as [[] [] [] [] [] [] [] []]; repeat constructor. Qed.

Lemma number_char_text c : number_char c = true → text_char c = true.
Proof. by destruct c as [[] [] [] [] [] [] [] []]. Qed.

Lemma high_text b : Forall (λ c, is_ascii c = false) b → is_text b.
Proof. intros Hb. eapply Forall_impl; [exact Hb|]. intros c. by destruct c as [[] [] [] [] [] [] [] []]. Qed.

Lemma hex_digit_text c : text_char (hex_digit (Z.land (code c) 15)) = true.
Proof. by destruct c as [[] [] [] [] [] [] [] []]. Qed.

Lemma print_string_text s : is_text (print_string s).
Proof.
  unfold print_string. constructor; [done|]. apply Forall_app. split; [|by repeat constructor].
  apply (runes_ind (λ _ l, is_text (l ≫= escape_rune))); [constructor| |].
  - intros r b Hr IH. rewrite bind_cons. apply Forall_app. split; [|done]. destruct r as [c|m|c].
    + apply escape_ascii_text.
    + cbn [escape_rune]. destruct (line_separator m); [|by apply high_text, rune_wf_high].
      repeat (constructor; [done|]). constructor; [apply hex_digit_text|constructor].
    + inversion Hr.
  - intros c b IH. rewrite bind_cons. apply Forall_app. split; [by repeat constructor|done].
Qed.

Lemma join_comma_text l : Forall is_text l → is_text (join_comma l).
Proof.
  induction 1 as [|x l Hx Hl IH]; [constructor|]. destruct l as [|y l]; [done|].
  rewrite join_comma_cons. apply Forall_app. split; [done|]. by constructor.
Qed.

Lemma print_text n j : json_wf n j → is_text (print j).
Proof.
  induction 1 as [| |n lit Hl| |n l _ IH|n ms _ IH]; cbn [print].
  - repeat constructor.
  - destruct b; repeat constructor.
  - eapply Forall_impl; [apply (num_chars _ Hl)|apply number_char_text].
  - apply print_string_text.
  - constructor; [done|]. apply Forall_app. split; [|by repeat constructor]. apply join_comma_text, Forall_map, Forall_forall, IH.
  - constructor; [done|]. apply Forall_app. split; [|by repeat constructor]. apply join_comma_text, Forall_map, Forall_forall.
    intros [k v] Hv. apply Forall_app. split; [apply print_string_text|]. constructor; [done|]. by eapply IH.
Qed.

(** Lines, each with its line feed. *)
Definition unlines (ls : list bytes) : bytes := ls ≫= λ l, l ++ [newline].

Lemma split_lines_line l b :
  is_text l → split_lines (l ++ newline :: b) = (l :: (split_lines b).1, (split_lines b).2).
Proof.
  induction 1 as [|c l Hc Hl IH]; cbn [split_lines app]; [by destruct (split_lines b)|].
  rewrite IH, bool_decide_eq_false_2 by (by apply text_not_break). done.
Qed.

Lemma split_lines_unlines ls : Forall is_text ls → split_lines (unlines ls) = (ls, []).
Proof.
  unfold unlines. induction 1 as [|l ls Hl Hls IH]; [done|]. rewrite bind_cons, <-(assoc_L (++)).
  cbn [app]. by rewrite split_lines_line, IH.
Qed.

Lemma dropCR_text l : is_text l → dropCR l = l.
Proof.
  intros Hl. unfold dropCR. destruct (reverse l) as [|c r] eqn:Hr.
  - by apply (f_equal reverse) in Hr; rewrite reverse_involutive in Hr.
  - rewrite bool_decide_eq_false_2; [done|]. apply (f_equal reverse) in Hr. rewrite reverse_involutive, reverse_cons in Hr.
    subst l. apply Forall_app in Hl as [_ Hc]. apply text_not_break. by inversion Hc.
Qed.

(** A line the scanner accepts and returns as it is. *)
Definition plain_line (l : bytes) : Prop := is_text l ∧ (Z.of_nat (length l) < maxTokenSize)%Z.

Lemma scan_lines_unlines ls err : Forall plain_line ls → scan_lines (unlines ls) err = (ls, err).
Proof.
  intros Hls. unfold scan_lines. rewrite split_lines_unlines by (eapply Forall_impl; [exact Hls|by intros ? []]).
  assert (take_tokens ls = (ls, true)) as ->; [|done].
  induction Hls as [|l ls [Ht Hlen] _ IH]; [done|]. cbn [take_tokens]. by rewrite bool_decide_eq_true_2, IH, dropCR_text.
Qed.

(** A payload that is not empty tells equivalent events apart. *)
Lemma equiv_payload e e' : contents (Payload e) ≠ [] → e' ≡ e → e' = e.
Proof.
  destruct e as [o t p ts hs], e' as [o' t' p' ts' hs']. intros Hp (Ho & Ht & Hp' & Hts & Hhs). simpl in *. subst.
  destruct p, p'; simpl in *; congruence.
Qed.

(** ** Frames *)
Section Frames.
Context `{TF : !TextFormats, TL : !TextFormatsLaws}.

Lemma payload_json_print m payload : std m payload → m ≤ N.to_nat maxNestingDepth → payload_json (Some (print payload)) = payload.
Proof.
  intros Hp Hm. unfold payload_json. rewrite (parse_json_print m) by (by apply std_wf || lia). rewrite (std_canon _ _ Hp).
  cbn [mbind option_bind]. by rewrite (std_interface _ _ Hp).
Qed.


(** The message that is read: its text has been made valid. *)
Definition received (nodeID : string) (e : Event) : EventStreamMessage :=
  mkMessage (event_id nodeID (Topic e) (Offset e)) (Topic e) (canon (payload_json (Payload e))) (Timestamp e) (Offset e).

Definition data_json (nodeID : string) (e : Event) (timestamp : bytes) : json :=
  JObj [member "eventId" (JString (event_id nodeID (Topic e) (Offset e))); member "topic" (JString (Topic e));
        member "payload" (payload_json (Payload e)); member "timestamp" (JStr timestamp); member "offset" (JInt (Offset e))].

(** The lines of an event's frame. *)
Definition event_lines (nodeID : string) (e : Event) : list bytes :=
  match format_time (Timestamp e) with
  | Some timestamp =>
    [bytes_of_string "id: " ++ bytes_of_string (event_id nodeID (Topic e) (Offset e));
     bytes_of_string "data: " ++ print (data_json nodeID e timestamp); []]
  | None => []
  end.

Lemma event_frame_lines nodeID e : printable e → event_frame nodeID e = unlines (event_lines nodeID e).
Proof.
  intros [ts Hts]. unfold event_frame, event_lines, eventToSSEMessage, message_json. rewrite encodeSSEEventCursor_ok.
  cbn [mbind outcome_bind sm_Timestamp]. rewrite Hts. cbn [mbind outcome_bind sm_EventID sm_Topic sm_Payload sm_Offset].
  fold (data_json nodeID e ts). unfold sse_frame, unlines. rewrite !bind_cons.
  change ([] ≫= _) with ([] : bytes). rewrite (right_id_L [] (++)), <-!(assoc_L (++)). done.
Qed.

(** An event that gets through: the client can read its id, its topic and its
    time, its payload leaves room for one more bracket, and its line is shorter
    than the scanner's buffer. *)
Record readable (nodeID : string) (e : Event) : Prop := {
  rd_topic : Topic e ≠ ""%string ∧ valid_text (Topic e);
  rd_offset : is_int64 (Offset e) ∧ (0 ≤ Offset e)%Z;
  rd_time : printable e;
  rd_depth : S (json_depth (payload_json (Payload e))) ≤ N.to_nat maxNestingDepth;
  rd_short : Forall (λ l, (Z.of_nat (length l) < maxTokenSize)%Z) (event_lines nodeID e)
}.

Lemma base64_text c : base64_char c → (text_char c = true ∧ is_ascii c = true) ∧ is_space (RuneASCII c) = false.
Proof.
  assert (Forall (λ c, (text_char c = true ∧ is_ascii c = true) ∧ is_space (RuneASCII c) = false) base64_alphabet) as Hall
    by (repeat (constructor; [by vm_compute|]); constructor).
  rewrite Forall_forall in Hall. apply Hall.
Qed.

Lemma TrimSpace_base64 b : TrimSpace (EncodeToString b) = EncodeToString b.
Proof.
  apply TrimSpace_ascii. eapply Forall_impl; [apply EncodeToString_base64|]. intros c Hc%base64_text. tauto.
Qed.

Lemma event_id_text nodeID topic offset : is_text (bytes_of_string (event_id nodeID topic offset)).
Proof. eapply Forall_impl; [apply EncodeToString_base64|]. intros c Hc%base64_text. tauto. Qed.

Lemma event_id_valid nodeID topic offset : valid_text (event_id nodeID topic offset).
Proof. apply ascii_valid. eapply Forall_impl; [apply EncodeToString_base64|]. intros c Hc%base64_text. tauto. Qed.

Lemma data_json_wf nodeID e ts : json_wf (S (json_depth (payload_json (Payload e)))) (data_json nodeID e ts).
Proof.
  destruct (payload_json_std (Payload e)) as (n & _ & Hwf). unfold data_json. constructor. intros k v. rewrite !elem_of_cons.
  intros [[= -> ->]|[[= -> ->]|[[= -> ->]|[[= -> ->]|[[= -> ->]|[]%not_elem_of_nil]]]]]; try (constructor; apply FormatInt_literal); try constructor.
  by eapply json_wf_depth.
Qed.

Lemma event_lines_plain nodeID e : readable nodeID e → Forall plain_line (event_lines nodeID e).
Proof.
  intros [_ _ [ts Hts] _ Hshort]. unfold event_lines in *. rewrite Hts in *.
  repeat (apply Forall_cons in Hshort as [? Hshort]). repeat (apply Forall_cons; split; [split; [|done]|]); [| |constructor..].
  - apply Forall_app. split; [by repeat constructor|apply event_id_text].
  - apply Forall_app. split; [by repeat constructor|]. eapply print_text, data_json_wf.
Qed.

Lemma set_time_print {T} (upd : Z → T → T) t ts x :
  format_time t = Some ts → set_time upd (canon (JStr ts)) x = Some (upd t x).
Proof.
  intros Ht. simpl. rewrite to_valid_id by by eapply format_time_ascii. by rewrite (parse_format_time _ _ Ht).
Qed.

Lemma interface_value_payload payload : interface_value (canon (payload_json payload)) = Some (canon (payload_json payload)).
Proof. destruct (payload_json_std payload) as (n & Hstd & _). by eapply std_interface. Qed.

(** The members of a message, as they are read. *)
Lemma set_message id topic p t ts o m0 :
  valid_text id → valid_text topic → interface_value p = Some p → format_time t = Some ts → is_int64 o →
  foldl (set_field stream_message_fields) (Some m0)
    [(to_valid (bytes_of_string "eventId"), canon (JString id)); (to_valid (bytes_of_string "topic"), canon (JString topic));
     (to_valid (bytes_of_string "payload"), p); (to_valid (bytes_of_string "timestamp"), canon (JStr ts));
     (to_valid (bytes_of_string "offset"), JInt o)] = Some (mkMessage id topic p t o).
Proof.
  intros Hid Ht Hp Hts Ho. assert (∀ T (upd : json → T → T) x, set_any upd p x = Some (upd p x)) as Hany
    by (intros T upd x; unfold set_any; by rewrite Hp).
  assign 0 @set_string_print. assign 1 @set_string_print. assign 2 Hany.
  cbn [foldl]. erewrite (set_field_found _ 3) by reflexivity. rewrite (set_time_print _ _ _ _ Hts).
  by assign 4 @set_int_print.
Qed.

Lemma Unmarshal_data nodeID e ts :
  readable nodeID e → format_time (Timestamp e) = Some ts →
  Unmarshal_message (print (data_json nodeID e ts)) = Ok (received nodeID e).
Proof.
  intros [[_ Ht] [Ho _] _ Hdepth _] Hts. unfold Unmarshal_message, Unmarshal.
  rewrite (parse_json_print _ _ (data_json_wf nodeID e ts)) by lia.
  change (canon (data_json nodeID e ts)) with
    (JObj [(to_valid (bytes_of_string "eventId"), canon (JString (event_id nodeID (Topic e) (Offset e))));
           (to_valid (bytes_of_string "topic"), canon (JString (Topic e)));
           (to_valid (bytes_of_string "payload"), canon (payload_json (Payload e)));
           (to_valid (bytes_of_string "timestamp"), canon (JStr ts)); (to_valid (bytes_of_string "offset"), JInt (Offset e))]).
  cbv iota. by rewrite (set_message _ _ _ _ _ _ _ (event_id_valid nodeID (Topic e) (Offset e)) Ht (interface_value_payload _) Hts Ho).
Qed.

(** ** Processing *)
Section Process.
Context (ctx : Ctx) (config : StreamConfig).
Hypothesis Hlive : ctx_live ctx.

(** What an event that has been read does to the client. *)
Definition take_message (sc : StreamClient) (m : EventStreamMessage) : StreamClient :=
  let sc := recordResumeEventID (sm_EventID m) sc in
  if bool_decide (0 < length (sc_Topics config)) && negb (matchesAnyStreamTopic (sc_Topics config) (sm_Topic m)) then sc
  else if bool_decide (length (sc_events sc) < sc_events_cap sc) then with_events (sc_events sc ++ [m]) sc
  else sc.

Lemma process_event_live cur m sc :
  sm_EventID m ≠ ""%string → process_event ctx config cur m sc = (None, ctx, take_message sc m).
Proof.
  intros Hid. unfold process_event, take_message. rewrite (bool_decide_eq_false_2 (sm_EventID m = ""%string)) by done.
  destruct (_ && _); [done|]. unfold offer_event. by rewrite poll_live.
Qed.

(** A line without a field of interest. *)
Lemma process_line_other line cur sc :
  parseSSEField line "id" = None → parseSSEField line "data" = None →
  process_line ctx config line cur sc = (None, ctx, cur, sc).
Proof. intros H1 H2. unfold process_line. by rewrite poll_live, H1, H2. Qed.

Lemma process_event_lines nodeID e ls sc :
  readable nodeID e →
  process_lines ctx config (event_lines nodeID e ++ ls) "" sc = process_lines ctx config ls "" (take_message sc (received nodeID e)).
Proof.
  intros Hr. pose proof Hr as [_ _ [ts Hts] _ _]. unfold event_lines. rewrite Hts. cbn [app process_lines].
  unfold process_line at 1. rewrite poll_live by done.
  change (parseSSEField (bytes_of_string "id: " ++ bytes_of_string (event_id nodeID (Topic e) (Offset e))) "id")
    with (Some (bytes_of_string (event_id nodeID (Topic e) (Offset e)))). cbv iota beta.
  unfold process_line at 1. rewrite poll_live by done.
  change (parseSSEField (bytes_of_string "data: " ++ print (data_json nodeID e ts)) "id") with (None (A:=bytes)).
  change (parseSSEField (bytes_of_string "data: " ++ print (data_json nodeID e ts)) "data")
    with (Some (print (data_json nodeID e ts))). cbv iota beta.
  rewrite (Unmarshal_data _ _ _ Hr Hts), process_event_live by apply event_id_nonempty. cbv iota beta.
  by rewrite process_line_other.
Qed.

Definition greeting_line : bytes := bytes_of_string ": SSE connection established for all topics".

(** Everything up to the end of the connection. *)
Lemma client_reads_stream nodeID evs sc :
  Forall (readable nodeID) evs →
  processSSEStream ctx (sse_greeting ++ (evs ≫= event_frame nodeID)) None config sc =
  (None, ctx, foldl take_message sc (received nodeID <$> evs)).
Proof.
  intros Hevs. assert (sse_greeting ++ (evs ≫= event_frame nodeID) =
    unlines (greeting_line :: [] :: (evs ≫= event_lines nodeID))) as ->.
  { unfold unlines. rewrite !bind_cons. change sse_greeting with ((greeting_line ++ [newline]) ++ [] ++ [newline]).
    rewrite <-!(assoc_L (++)). do 4 f_equal. induction Hevs as [|e evs He _ IH]; [done|].
    rewrite !bind_cons, bind_app, IH, event_frame_lines by apply He. done. }
  unfold processSSEStream. rewrite scan_lines_unlines.
  2:{ repeat (constructor; [split; [by repeat constructor|by vm_compute]|]).
      apply Forall_bind. eapply Forall_impl; [exact Hevs|]. apply event_lines_plain. }
  cbn [process_lines]. rewrite !process_line_other by done.
  assert (process_lines ctx config (evs ≫= event_lines nodeID) "" sc =
    (None, ctx, foldl take_message sc (received nodeID <$> evs))) as ->; [|done].
  revert sc. induction Hevs as [|e evs He _ IH]; intros sc; [done|].
  rewrite bind_cons, process_event_lines by done. apply IH.
Qed.
End Process.
End Frames.
