(* ===== verification/StreamResume.v ===== *)
(** * A client that reconnects

    The client reads a stream, reconnects with the cursor it has kept, and reads
    the stream that the server opens for that cursor. *)
From S2P Require Import Prelude Topics EventLog RoutingTable Peers Clients MeshNode NodeLifecycle Utf8 Base64 Json JsonSpec SSECursor HTTP SSEMessage JsonValues SSEStream SSEReplay APIClient StreamClient StreamLines.
#[local] Set Default Proof Using "Type*".

(** ** The positions a client keeps *)
Definition bump (offs : gmap string Z) (e : Event) : gmap string Z :=
  match offs !! Topic e with
  | Some current => if bool_decide (current < Offset e)%Z then <[Topic e := Offset e]> offs else offs
  | None => <[Topic e := Offset e]> offs
  end.
Definition positions (evs : list Event) : gmap string Z := foldl bump ∅ evs.

Definition latest (c : option Z) (o : Z) : option Z :=
  match c with Some c => Some (Z.max c o) | None => Some o end.

Definition of_topic (t : string) (evs : list Event) : list Event := filter (λ e, Topic e = t) evs.

Lemma of_topic_cons t e evs : of_topic t (e :: evs) = if decide (Topic e = t) then e :: of_topic t evs else of_topic t evs.
Proof. unfold of_topic. rewrite filter_cons. by case_decide. Qed.

Lemma lookup_bump offs e t :
  bump offs e !! t = if decide (Topic e = t) then latest (offs !! t) (Offset e) else offs !! t.
Proof.
  unfold bump. destruct (offs !! Topic e) as [c|] eqn:Hc; [case_bool_decide|]; try rewrite lookup_insert; case_decide as Ht; try done;
    rewrite <-Ht, Hc; simpl; f_equal; lia.
Qed.

Lemma lookup_bumps evs offs t :
  foldl bump offs evs !! t = foldl latest (offs !! t) (Offset <$> of_topic t evs).
Proof.
  revert offs. induction evs as [|e evs IH]; intros offs; [done|]. cbn [foldl]. rewrite IH, lookup_bump, of_topic_cons.
  by case_decide.
Qed.

Lemma latest_run k c : foldl latest (Some c) (seqZ (c + 1) (Z.of_nat k)) = Some (c + Z.of_nat k)%Z.
Proof.
  revert c. induction k as [|k IH]; intros c; [simpl; f_equal; lia|].
  rewrite seqZ_cons by lia. cbn [foldl latest]. rewrite Z.max_r by lia.
  replace (Z.pred (Z.of_nat (S k))) with (Z.of_nat k) by lia. rewrite <-Z.add_1_r, IH. f_equal. lia.
Qed.

(** The last offset of a run of a topic. *)
Lemma lookup_positions evs t s :
  Offset <$> of_topic t evs = seqZ s (Z.of_nat (length (of_topic t evs))) → of_topic t evs ≠ [] →
  positions evs !! t = Some (s + Z.of_nat (length (of_topic t evs)) - 1)%Z.
Proof.
  intros Hseq Hne. unfold positions. rewrite lookup_bumps, lookup_empty, Hseq.
  destruct (length (of_topic t evs)) as [|k] eqn:Hlen; [by apply nil_length_inv in Hlen|].
  rewrite seqZ_cons by lia. cbn [foldl latest]. replace (Z.pred (Z.of_nat (S k))) with (Z.of_nat k) by lia.
  rewrite <-Z.add_1_r, latest_run. f_equal. lia.
Qed.

Lemma lookup_positions_none evs t : of_topic t evs = [] → positions evs !! t = None.
Proof. intros Ht. unfold positions. by rewrite lookup_bumps, lookup_empty, Ht. Qed.

(** Offsets along a slice of a topic's log. *)
Lemma slice_offsets a t s (l : list Event) :
  abs_wf a → l ≡ take (length l) (drop s (abs_topic a t)) → Offset <$> l = seqZ (Z.of_nat s) (Z.of_nat (length l)).
Proof.
  intros [Hoff _] Hl. apply list_eq. intros i. rewrite list_lookup_fmap.
  pose proof (list_equiv_lookup l (take (length l) (drop s (abs_topic a t)))) as Heq. apply Heq with (i := i) in Hl. clear Heq.
  destruct (decide (i < length l)) as [Hi|Hi].
  - rewrite lookup_seqZ_lt by lia. rewrite take_drop_lookup, decide_True in Hl by done.
    destruct (l !! i) as [e|] eqn:He; [|by apply lookup_ge_None in He; lia].
    destruct (abs_topic a t !! (s + i)) as [e'|] eqn:He'; [|by inversion Hl]. inversion_clear Hl as [? ? Hee|].
    simpl. rewrite Hee. unfold abs_topic in He'. destruct (abs_events a !! t) as [evs|] eqn:Ht; [|done].
    rewrite (Hoff _ _ _ _ Ht He'). f_equal. lia.
  - rewrite lookup_ge_None_2 by lia. rewrite lookup_seqZ_ge by lia. done.
Qed.

(** ** The client *)
Section Client.
Context `{TF : !TextFormats, TL : !TextFormatsLaws}.
Context (config : StreamConfig) (nodeID : string).
Hypothesis Hnode : nodeID ≠ ""%string ∧ valid_text nodeID.

Lemma record_event e sc :
  readable nodeID e → sc_resumeNodeID sc = ""%string ∨ sc_resumeNodeID sc = nodeID →
  recordResumeEventID (event_id nodeID (Topic e) (Offset e)) sc = with_resume nodeID (bump (sc_resumeOffsets sc) e) sc.
Proof.
  intros [[Htopic Ht] [Ho Hpos] _ _ _] Hres. destruct Hnode as [Hne Hn]. unfold recordResumeEventID.
  rewrite bool_decide_eq_false_2 by apply event_id_nonempty. rewrite client_reads_event_id by done. cbn [ec_NodeID ec_Topic ec_Offset].
  assert ((if bool_decide (sc_resumeNodeID sc = ""%string) then nodeID else sc_resumeNodeID sc) = nodeID) as ->.
  { case_bool_decide; [done|]. by destruct Hres. }
  rewrite bool_decide_eq_false_2 by naive_solver. unfold bump.
  destruct (sc_resumeOffsets sc !! Topic e); [by case_bool_decide|done].
Qed.

(** The client is asked for the topic of the event. *)
Definition wanted (e : Event) : Prop :=
  sc_Topics config = [] ∨ matchesAnyStreamTopic (sc_Topics config) (Topic e) = true.

Lemma take_received e sc :
  readable nodeID e → wanted e → sc_resumeNodeID sc = ""%string ∨ sc_resumeNodeID sc = nodeID →
  take_message config sc (received nodeID e) =
    let sc := with_resume nodeID (bump (sc_resumeOffsets sc) e) sc in
    if bool_decide (length (sc_events sc) < sc_events_cap sc) then with_events (sc_events sc ++ [received nodeID e]) sc else sc.
Proof.
  intros Hr Hw Hres. unfold take_message. cbn [received sm_EventID sm_Topic]. rewrite record_event by done.
  assert (bool_decide (0 < length (sc_Topics config)) && negb (matchesAnyStreamTopic (sc_Topics config) (Topic e)) = false) as ->; [|done].
  destruct Hw as [->| ->]; [done|]. apply andb_false_r.
Qed.

Lemma take_all evs : ∀ sc,
  Forall (readable nodeID) evs → Forall wanted evs → sc_resumeNodeID sc = ""%string ∨ sc_resumeNodeID sc = nodeID →
  length (sc_events sc) + length evs ≤ sc_events_cap sc →
  let sc' := foldl (take_message config) sc (received nodeID <$> evs) in
  sc_events sc' = sc_events sc ++ (received nodeID <$> evs) ∧ sc_events_cap sc' = sc_events_cap sc ∧
  sc_resumeOffsets sc' = foldl bump (sc_resumeOffsets sc) evs ∧
  sc_resumeNodeID sc' = if decide (evs = []) then sc_resumeNodeID sc else nodeID.
Proof.
  induction evs as [|e evs IH]; intros sc Hread Hwant Hres Hroom sc'; subst sc'.
  { cbn. by rewrite (right_id_L [] (++)). }
  apply Forall_cons in Hread as [Hr Hread], Hwant as [Hw Hwant]. cbn [length] in Hroom. rewrite fmap_cons. cbn [foldl].
  rewrite take_received by done. cbn zeta. rewrite bool_decide_eq_true_2 by (cbn; lia). cbn [sc_events with_resume].
  destruct (IH (with_events (sc_events sc ++ [received nodeID e]) (with_resume nodeID (bump (sc_resumeOffsets sc) e) sc)))
    as (-> & -> & -> & ->); [done|done|by right|cbn; rewrite length_app; cbn; lia|].
  cbn. rewrite <-(assoc_L (++)). split_and!; [done..|]. by case_decide.
Qed.

(** An event that does not fit into the channel is dropped, and its position is
    kept all the same: the client will not ask for it again. *)
Lemma full_channel_loses_event e sc :
  readable nodeID e → wanted e → sc_resumeNodeID sc = ""%string ∨ sc_resumeNodeID sc = nodeID →
  sc_events_cap sc ≤ length (sc_events sc) →
  let sc' := take_message config sc (received nodeID e) in
  sc_events sc' = sc_events sc ∧ ∃ o, sc_resumeOffsets sc' !! Topic e = Some o ∧ (Offset e ≤ o)%Z.
Proof.
  intros Hr Hw Hres Hfull sc'. subst sc'. rewrite take_received by done. cbn zeta. rewrite bool_decide_eq_false_2 by (cbn; lia).
  split; [done|]. cbn [sc_resumeOffsets with_resume]. rewrite lookup_bump, decide_True by done.
  destruct (sc_resumeOffsets sc !! Topic e); eexists; (split; [done|lia]).
Qed.

(** The header it sends, and what the server makes of it. *)
Lemma resume_header `{!MapOrder} sc :
  sc_resumeNodeID sc = nodeID → sc_resumeOffsets sc ≠ ∅ →
  (∀ t o, sc_resumeOffsets sc !! t = Some o → t ≠ ""%string ∧ valid_text t ∧ is_int64 o ∧ (0 ≤ o)%Z) →
  ∃ h, resumeCursorHeader sc = Ok h ∧ ∀ r, r_header r "Last-Event-ID" = h →
    resumeCursorFromRequest r = Ok (Some (mkMultiCursor sseCursorVersion nodeID (sc_resumeOffsets sc))).
Proof.
  intros Hsc Hne Hoffs. destruct Hnode as [Hnode' Hn].
  destruct (server_reads_resume_header nodeID (sc_resumeOffsets sc)) as (h & Henc & Hh & Hdec); [done..|].
  exists h. unfold resumeCursorHeader. rewrite bool_decide_eq_false_2 by by rewrite map_size_empty_iff.
  rewrite Hsc. split; [done|]. intros r Hr. unfold resumeCursorFromRequest. rewrite Hr.
  assert (TrimSpace h = h) as ->.
  { revert Henc. unfold encodeSSEMultiTopicCursor, client_encodeSSECursor. destruct (_ || _); intros [= <-]; [done|]. apply TrimSpace_base64. }
  rewrite !(bool_decide_eq_false_2 (h = ""%string)) by done. by rewrite Hdec.
Qed.
End Client.

(** ** The server *)
Section Replayed.
Context `{TF : !TextFormats}.

(** Of the replayed runs, the events of one topic are the run of that topic. *)
Lemma of_topic_app t l1 l2 : of_topic t (l1 ++ l2) = of_topic t l1 ++ of_topic t l2.
Proof. apply filter_app. Qed.

Lemma of_topic_all t l : Forall (λ e, Topic e = t) l → of_topic t l = l.
Proof. induction 1 as [|e l He _ IH]; [done|]. by rewrite of_topic_cons, decide_True, IH. Qed.

Lemma of_topic_none t t' l : t' ≠ t → Forall (λ e, Topic e = t') l → of_topic t l = [].
Proof. intros Ht. induction 1 as [|e l He _ IH]; [done|]. by rewrite of_topic_cons, decide_False, IH by congruence. Qed.

Lemma of_topic_runs (entries : list (string * Z)) evss :
  NoDup entries.*1 → Forall2 (λ entry evs, Forall (λ e, Topic e = entry.1) evs) entries evss →
  (∀ t, t ∉ entries.*1 → of_topic t (concat evss) = []) ∧
  (∀ i entry evs, entries !! i = Some entry → evss !! i = Some evs → of_topic entry.1 (concat evss) = evs).
Proof.
  intros Hnd. induction 1 as [|entry evs entries evss Hevs _ IH]; [done|].
  cbn [concat] in *. rewrite fmap_cons in Hnd. apply NoDup_cons in Hnd as [Hin Hnd]. destruct (IH Hnd) as [Hout Hruns]. split.
  - intros t [Ht Hts]%not_elem_of_cons. rewrite of_topic_app, Hout, (of_topic_none t entry.1) by done. done.
  - intros [|i] entry' evs' He Hl; simplify_eq/=.
    + rewrite of_topic_app, (of_topic_all _ evs'), Hout by done. by rewrite (right_id_L [] (++)).
    + rewrite of_topic_app, (of_topic_none entry'.1 entry.1); [by eapply Hruns| |done].
      intros Heq. apply Hin. rewrite Heq. apply list_elem_of_fmap_2. by eapply list_elem_of_lookup_2.
Qed.

Lemma received_of_topic nodeID t l :
  filter (λ m, sm_Topic m = t) (received nodeID <$> l) = received nodeID <$> of_topic t l.
Proof.
  induction l as [|e l IH]; [done|]. rewrite fmap_cons, filter_cons, of_topic_cons, IH. cbn [sm_Topic received]. by case_decide.
Qed.

Lemma to_replay_id active entries :
  (∀ entry, entry ∈ entries → is_covered active entry = true) → to_replay active entries = entries.
Proof.
  induction entries as [|entry entries IH]; intros Hall; [done|]. rewrite to_replay_cons, Hall by by left.
  rewrite IH; [done|]. intros entry' ?. apply Hall. by right.
Qed.

(** A slice, and what follows it. *)
Lemma slice_rest {A} k (l : list A) : take k l ++ drop (length (take k l)) l = l.
Proof.
  rewrite length_take. destruct (decide (k ≤ length l)).
  - rewrite Nat.min_l by done. apply take_drop.
  - rewrite Nat.min_r, drop_all, take_ge, (right_id_L [] (++)) by lia. done.
Qed.
End Replayed.

Lemma take_min_length {A} k (l : list A) : take (k `min` length l) l = take k l.
Proof.
  destruct (decide (k ≤ length l)); [by rewrite Nat.min_l|]. by rewrite Nat.min_r, !take_ge by lia.
Qed.

Lemma equiv_elem (l l' : list Event) e : l ≡ l' → e ∈ l → ∃ e', e' ∈ l' ∧ e ≡ e'.
Proof.
  induction 1 as [|x y l l' Hx _ IH]; [by intros []%not_elem_of_nil|].
  intros [->|He]%elem_of_cons; [exists y; split; [by left|done]|].
  destruct (IH He) as (e' & ? & ?). exists e'. split; [by right|done].
Qed.

(** ** Both *)
Section Resume.
Context {L P : Type} `{!EventLog L, !PeerLink P, MO : !MapOrder, TF : !TextFormats, TL : !TextFormatsLaws, !EventLogSpec L}.
Variables (n : MeshNode L P) (a : AbsLog) (ctx : Ctx) (config : StreamConfig) (topics : list string).
Abbreviation nodeID := (GetNodeID n).
Hypothesis Hrep : log_rep (n_log n) a.
Hypothesis Hlive : ctx_live ctx.
Hypothesis Hopen : abs_closed a = false.
Hypothesis Hnode : nodeID ≠ ""%string ∧ valid_text nodeID.
Hypothesis Hsmall : ∀ t, (abs_end a t + maxSSEResumeReplayEvents ≤ max_int64)%Z.
Hypothesis Hlog : ∀ t e e', e ∈ abs_topic a t → e' ≡ e → Topic e' = t ∧ readable nodeID e'.

(** Runs of the log, one for each topic. *)
Variables (start : string → nat) (evs : list Event).
Hypothesis Hruns : ∀ t, ∃ k, of_topic t evs ≡ take k (drop (start t) (abs_topic a t)).
Hypothesis Hasked : ∀ e, e ∈ evs → topicCoveredBySubscriptions (Topic e) topics = true ∧ wanted config e.

Lemma run_slice t : of_topic t evs ≡ take (length (of_topic t evs)) (drop (start t) (abs_topic a t)).
Proof.
  destruct (Hruns t) as [k Hk]. assert (length (of_topic t evs) = length (take k (drop (start t) (abs_topic a t)))) as ->
    by by rewrite Hk.
  by rewrite length_take, take_min_length.
Qed.

Lemma run_in_log e : e ∈ evs → ∃ e', e' ∈ abs_topic a (Topic e) ∧ e ≡ e'.
Proof.
  intros He. assert (e ∈ of_topic (Topic e) evs) as Hin by by apply list_elem_of_filter.
  destruct (equiv_elem _ _ _ (run_slice (Topic e)) Hin) as (e' & He' & Heq). exists e'. split; [|done].
  apply elem_of_take in He' as (i & Hi & _). rewrite lookup_drop in Hi. by eapply list_elem_of_lookup_2.
Qed.

Lemma run_readable : Forall (readable nodeID) evs.
Proof. apply Forall_forall. intros e He. destruct (run_in_log e He) as (e' & Hin & Heq). by eapply Hlog. Qed.

Lemma run_wanted : Forall (wanted config) evs.
Proof. apply Forall_forall. intros e He. by apply Hasked. Qed.

(** The position kept for a topic is that of the last event of its run. *)
Lemma position_spec t o :
  positions evs !! t = Some o →
  (∃ e, e ∈ evs ∧ Topic e = t) ∧ o = (Z.of_nat (start t + length (of_topic t evs)) - 1)%Z ∧
  0 < start t + length (of_topic t evs) ≤ length (abs_topic a t).
Proof.
  intros Ho. destruct (decide (of_topic t evs = [])) as [Hnil|Hne]; [by rewrite lookup_positions_none in Ho|].
  rewrite (lookup_positions evs t (Z.of_nat (start t))) in Ho; [|eapply slice_offsets; [by eapply log_rep_wf|apply run_slice]|done].
  assert (length (of_topic t evs) ≤ length (abs_topic a t) - start t) as Hlen.
  { rewrite run_slice at 1. rewrite length_take, length_drop. lia. }
  assert (length (of_topic t evs) ≠ 0) by by intros ?%nil_length_inv.
  split; [|split; [injection Ho; lia|lia]].
  destruct (of_topic t evs) as [|e l] eqn:Hl; [done|].
  assert (e ∈ of_topic t evs) as [??]%list_elem_of_filter by (rewrite Hl; by left). by exists e.
Qed.

Lemma positions_complete e : e ∈ evs → is_Some (positions evs !! Topic e).
Proof.
  intros He. rewrite (lookup_positions evs (Topic e) (Z.of_nat (start (Topic e)))); [by eexists| |].
  - eapply slice_offsets; [by eapply log_rep_wf|apply run_slice].
  - intros Hnil. assert (e ∈ of_topic (Topic e) evs) as Hin by by apply list_elem_of_filter. rewrite Hnil in Hin. by apply not_elem_of_nil in Hin.
Qed.

Lemma positions_ok t o : positions evs !! t = Some o → t ≠ ""%string ∧ valid_text t ∧ is_int64 o ∧ (0 ≤ o)%Z.
Proof.
  intros Ho. destruct (position_spec t o Ho) as ((e & He & <-) & -> & Hpos).
  pose proof run_readable as Hr. rewrite Forall_forall in Hr. destruct (Hr e He) as [[??] _ _ _ _].
  pose proof (Hsmall (Topic e)) as Hs. unfold is_int64, abs_end, maxSSEResumeReplayEvents, max_int64 in *. split_and!; try done; lia.
Qed.

Lemma entries_ok : Forall (entry_ok a maxSSEResumeReplayEvents) (range_map (positions evs)).
Proof.
  apply Forall_forall. intros [t o] Ho%elem_of_range_map. destruct (positions_ok t o Ho) as (Ht & _ & Ho64 & Hpos).
  destruct (position_spec t o Ho) as (_ & Heq & Hlen). pose proof (Hsmall t) as Hs. unfold abs_end in Hs.
  split; cbn [fst snd]; [done|done|..]; unfold abs_end, maxSSEResumeReplayEvents, sseReplayBatchSize, max_int64 in *; [lia|lia|].
  apply Forall_forall. intros e He. by destruct (Hlog t e e He) as [_ []].
Qed.

(** All topics of the cursor are covered. *)
Lemma to_replay_all : to_replay topics (range_map (positions evs)) = range_map (positions evs).
Proof.
  apply to_replay_id. intros [t o] Ho%elem_of_range_map. unfold is_covered.
  destruct (position_spec t o Ho) as ((e & He & <-) & _). by apply Hasked.
Qed.

Lemma rest_of_run t o :
  positions evs !! t = Some o → of_topic t evs ++ rest a t (o + 1) ≡ drop (start t) (abs_topic a t).
Proof.
  intros Ho. destruct (position_spec t o Ho) as (_ & -> & Hpos). unfold rest.
  replace (Z.to_nat (Z.of_nat (start t + length (of_topic t evs)) - 1 + 1)) with (start t + length (of_topic t evs)) by lia.
  rewrite <-drop_drop. destruct (Hruns t) as [k Hk]. rewrite Hk. by rewrite slice_rest.
Qed.

(** The stream the server opens for the cursor, and its events. *)
Lemma stream_open_replays client h fuel :
  size (positions evs) ≤ 64 → (total_outstanding a (range_map (positions evs)) ≤ maxSSEResumeReplayEvents)%Z →
  is_int64 (sseResumeEventsReplayed h) → 11 ≤ fuel →
  ∃ evss h',
    Forall2 (λ entry evs, evs ≡ rest a entry.1 (entry.2 + 1)) (range_map (positions evs)) evss ∧
    Z.of_nat (length (concat evss)) = total_outstanding a (range_map (positions evs)) ∧
    stream_open fuel ctx (Some (mkMultiCursor sseCursorVersion nodeID (positions evs))) client topics h new_writer n =
    Some (Streaming ctx client topics, h',
          mkWriter (Some 200%Z) (sse_greeting ++ (concat evss ≫= event_frame nodeID)) None, n).
Proof.
  intros Hsize Htotal Hh Hfuel. set (cursor := mkMultiCursor sseCursorVersion nodeID (positions evs)).
  assert (validateSSEReplayPlan ctx cursor topics maxSSEResumeReplayEvents maxSSEResumeTopics n = (Ok (), ctx)) as Hplan.
  { rewrite (validateSSEReplayPlan_spec n a ctx Hrep Hlive Hopen); [|apply entries_ok|done].
    cbn [mc_Topics cursor]. rewrite to_replay_all, length_range_map. unfold maxSSEResumeTopics. split; [lia|done]. }
  destruct (replay_loop_ok n a ctx Hrep Hlive Hopen fuel topics (range_map (positions evs)) h
    (mkWriter (Some 200%Z) sse_greeting None)) as (evss & Hevss & Hlen & Hrun);
    [apply entries_ok|by eexists|done|done|by rewrite to_replay_all|done|].
  rewrite to_replay_all in Hevss, Hlen. eexists evss, _. split; [done|]. split; [done|].
  unfold stream_open. rewrite Hplan. cbv iota beta.
  change (Write sse_greeting (WriteHeader 200 new_writer)) with (@None error, mkWriter (Some 200%Z) sse_greeting None). cbv iota beta.
  unfold replaySSECursor. cbn [mc_Topics cursor]. by rewrite Hrun.
Qed.

Lemma replayed_topics evss :
  Forall2 (λ entry evs, evs ≡ rest a entry.1 (entry.2 + 1)) (range_map (positions evs)) evss →
  Forall (readable nodeID) (concat evss) ∧ Forall (wanted config) (concat evss) ∧
  ∀ t o, positions evs !! t = Some o → of_topic t (concat evss) ≡ rest a t (o + 1).
Proof.
  intros Hevss.
  assert (∀ i entry l, range_map (positions evs) !! i = Some entry → evss !! i = Some l →
    l ≡ rest a entry.1 (entry.2 + 1) ∧ ∀ e, e ∈ l → Topic e = entry.1 ∧ readable nodeID e) as Hrun.
  { intros i entry l Hi Hl. pose proof (Forall2_lookup_lr _ _ _ _ _ _ Hevss Hi Hl) as Heq. split; [done|].
    intros e He. destruct (equiv_elem _ _ _ Heq He) as (e' & He' & Hee). apply list_elem_of_lookup in He' as [j Hj].
    unfold rest in Hj. rewrite lookup_drop in Hj. eapply Hlog; [by eapply list_elem_of_lookup_2|done]. }
  assert (∀ e, e ∈ concat evss → readable nodeID e ∧ wanted config e) as Hall.
  { intros e (l & Hl & He)%list_elem_of_In%in_concat. apply list_elem_of_In in Hl, He. apply list_elem_of_lookup in Hl as [i Hl].
    destruct (Forall2_lookup_r _ _ _ _ _ Hevss Hl) as ([t o] & Hi & _). destruct (Hrun _ _ _ Hi Hl) as [_ Hev].
    destruct (Hev e He) as [Ht Hr]. split; [done|]. apply list_elem_of_lookup_2, elem_of_range_map, position_spec in Hi as ((e0 & He0 & Ht0) & _).
    cbn in Ht. apply Hasked in He0 as [_ Hw]. unfold wanted in *. by rewrite Ht, <-Ht0. }
  split; [|split]; [apply Forall_forall; by intros ? []%Hall..|]. intros t o Ho%elem_of_range_map.
  apply list_elem_of_lookup in Ho as [i Hi]. destruct (Forall2_lookup_l _ _ _ _ _ Hevss Hi) as (l & Hl & Heq).
  destruct (of_topic_runs (range_map (positions evs)) evss) as [_ Hof]; [apply NoDup_range_map_keys| |by rewrite (Hof i (t, o) l Hi Hl : of_topic t _ = _)].
  apply Forall2_same_length_lookup. split; [by eapply Forall2_length|]. intros j entry l' Hj Hl'.
  apply Forall_forall. intros e He. by destruct (Hrun j entry l' Hj Hl') as [_ Hev]; apply Hev.
Qed.
End Resume.

(** C9: a reconnecting client gets every event exactly once.  A fresh client
    that has read some events of a node, a run of consecutive events of each
    topic, and reconnects, sends a header that the server reads as the cursor
    of these positions; within the limits of a replay the server streams the
    rest, and together the client's channel holds, for each of the topics,
    all events from the first one read to the end of the log, once and in
    order. *)
Theorem resume_exactly_once {L P : Type} `{!EventLog L, !PeerLink P, MO : !MapOrder, TF : !TextFormats, TL : !TextFormatsLaws, !EventLogSpec L}
    (n : MeshNode L P) (a : AbsLog) (ctx : Ctx) (config : StreamConfig) (topics : list string) (start : string → nat)
    (evs : list Event) (sc : StreamClient) (client : Client) (h : Handlers) (fuel : nat)
    (Hrep : log_rep (n_log n) a) (Hlive : ctx_live ctx) (Hopen : abs_closed a = false)
    (Hnode : GetNodeID n ≠ ""%string ∧ valid_text (GetNodeID n))
    (Hsmall : ∀ t, (abs_end a t + maxSSEResumeReplayEvents ≤ max_int64)%Z)
    (Hlog : ∀ t e e', e ∈ abs_topic a t → e' ≡ e → Topic e' = t ∧ readable (GetNodeID n) e')
    (Hruns : ∀ t, ∃ k, of_topic t evs ≡ take k (drop (start t) (abs_topic a t)))
    (Hasked : ∀ e, e ∈ evs → topicCoveredBySubscriptions (Topic e) topics = true ∧ wanted config e)
    (Hfresh : sc_events sc = [] ∧ sc_resumeNodeID sc = ""%string ∧ sc_resumeOffsets sc = ∅) (Hne : evs ≠ [])
    (Hlimits : size (positions evs) ≤ 64 ∧ (total_outstanding a (range_map (positions evs)) ≤ maxSSEResumeReplayEvents)%Z)
    (Hroom : (Z.of_nat (length evs) + total_outstanding a (range_map (positions evs)) ≤ Z.of_nat (sc_events_cap sc))%Z)
    (Hh : is_int64 (sseResumeEventsReplayed h)) (Hfuel : 11 ≤ fuel) :
  let cursor := mkMultiCursor sseCursorVersion (GetNodeID n) (positions evs) in
  ∃ sc1 header h' w sc2,
    processSSEStream ctx (sse_greeting ++ (evs ≫= event_frame (GetNodeID n))) None config sc = (None, ctx, sc1) ∧
    resumeCursorHeader sc1 = Ok header ∧
    (∀ r, r_header r "Last-Event-ID" = header → resumeCursorFromRequest r = Ok (Some cursor)) ∧
    stream_open fuel ctx (Some cursor) client topics h new_writer n = Some (Streaming ctx client topics, h', w, n) ∧
    processSSEStream ctx (w_body w) None config sc1 = (None, ctx, sc2) ∧
    ∀ t, t ∈ Topic <$> evs → ∃ all, all ≡ drop (start t) (abs_topic a t) ∧
      filter (λ m, sm_Topic m = t) (sc_events sc2) = received (GetNodeID n) <$> all.
Proof.
  intros cursor. destruct Hfresh as (Hev & Hid & Hoffs), Hlimits as [Hsize Htotal].
  pose proof (run_readable n a config topics Hrep Hopen Hnode Hsmall Hlog start evs Hruns Hasked) as Hread. pose proof (run_wanted n a config topics Hrep Hopen Hnode Hsmall Hlog start evs Hruns Hasked) as Hwant.
  destruct (take_all config (GetNodeID n) Hnode evs sc) as (He1 & Hc1 & Ho1 & Hn1);
    [done|done|by left|rewrite Hev; pose proof (total_outstanding_nonneg n a Hrep Hopen (range_map (positions evs))); simpl; lia|].
  rewrite decide_False in Hn1 by done. rewrite Hoffs in Ho1. fold (positions evs) in Ho1. rewrite Hev in He1. cbn [app] in He1.
  set (sc1 := foldl (take_message config) sc (received (GetNodeID n) <$> evs)) in *.
  destruct (resume_header (GetNodeID n) Hnode sc1) as (header & Hheader & Hreq); [done| | |].
  { rewrite Ho1. destruct evs as [|e evs']; [done|]. destruct (positions_complete n a config topics Hrep Hopen Hnode Hsmall Hlog start (e :: evs') Hruns Hasked e) as [o Ho]; [by left|].
    intros Heq. by rewrite Heq, lookup_empty in Ho. }
  { rewrite Ho1. intros t o. by apply (positions_ok n a config topics Hrep Hopen Hnode Hsmall Hlog start evs Hruns Hasked). }
  destruct (stream_open_replays n a ctx config topics Hrep Hlive Hopen Hnode Hsmall Hlog start evs Hruns Hasked client h fuel)
    as (evss & h' & Hevss & Hlen & Hserve); [done..|].
  destruct (replayed_topics n a config topics Hrep Hopen Hnode Hsmall Hlog start evs Hruns Hasked evss Hevss) as (Hread2 & Hwant2 & Hrest).
  destruct (take_all config (GetNodeID n) Hnode (concat evss) sc1) as (He2 & _);
    [done|done|by right|rewrite He1, Hc1, length_fmap; lia|].
  eexists sc1, header, h', _, _. split; [by apply client_reads_stream|]. split; [done|].
  split; [intros r Hr; rewrite (Hreq r Hr); by rewrite Ho1|]. split; [done|]. cbn [w_body].
  split; [by apply client_reads_stream|]. intros t (e & -> & He)%list_elem_of_fmap.
  destruct (positions_complete n a config topics Hrep Hopen Hnode Hsmall Hlog start evs Hruns Hasked e He) as [o Ho].
  exists (of_topic (Topic e) (evs ++ concat evss)). split.
  - rewrite of_topic_app, (Hrest _ _ Ho). by apply (rest_of_run n a config topics Hrep Hopen Hnode Hsmall Hlog start evs Hruns Hasked).
  - by rewrite He2, He1, <-fmap_app, received_of_topic.
Qed.
