(* ===== verification/SSELive.v ===== *)
(** * A resumed stream beside everything else

    The replay of a resume cursor, read by read, and the stream that follows it,
    interleaved with appends and deliveries of publishes and of events from
    peers, each at its own pace ([InFlight.v]).  The stream's client is registered
    before the first read, so what is appended during the replay is delivered to
    its channel; what is not in the replay arrives there, in the order of
    the deliveries, unless the channel is full. *)
From S2P Require Import Prelude Topics EventLog RoutingTable Peers Clients MeshNode NodeLifecycle NodePublish InFlight NodeSubs Gossip.
From S2P Require Import Utf8 Json JsonSpec SSECursor HTTP SSEMessage SSEStream SSEReplay SSERegistry.
From S2P Require Import APIClient StreamClient StreamLines StreamResume.

#[local] Set Default Proof Using "Type*".

(** ** One read of the replay *)
Inductive batch_result :=
  | RoundMore (nextOffset : Z)          (* the batch was full *)
  | RoundDone                           (* the topic is finished *)
  | RoundFailed (r : outcome unit).

Section Round.
Context {L P : Type} `{!EventLog L, !PeerLink P, MO : !MapOrder, TF : !TextFormats}.
Implicit Types n : MeshNode L P.

(** The body of the loop over the batches of a topic. *)
Definition replay_round (ctx : Ctx) (topic : string) (nextOffset : Z) (h : Handlers) (w : Writer) n
    : batch_result * Ctx * Handlers * Writer :=
  let '(r, ctx) := ReadEvents ctx topic nextOffset sseReplayBatchSize (n_log n) in
  match r with
  | Err err => (RoundFailed (Err (ErrWrap ("read replay events for topic " +:+ topic) err)), ctx, h, w)
  | Panic m => (RoundFailed (Panic m), ctx, h, w)
  | Ok events =>
    if bool_decide (length events = 0) then (RoundDone, ctx, h, w)
    else match write_events (GetNodeID n) events w nextOffset with
    | (Some err, w, _) => (RoundFailed (Err err), ctx, h, w)
    | (None, w, nextOffset) =>
      let h := add_replayed (Z.of_nat (length events)) h in
      if bool_decide (Z.of_nat (length events) < sseReplayBatchSize)%Z then (RoundDone, ctx, h, w)
      else (RoundMore nextOffset, ctx, h, w)
    end
  end.

(** The replay of a topic on a node that nobody else touches is a run of these. *)
Lemma replay_topic_rounds fuel ctx topic nextOffset h w n :
  replay_topic (S fuel) ctx topic nextOffset h w n =
  match replay_round ctx topic nextOffset h w n with
  | (RoundMore nextOffset, ctx, h, w) => replay_topic fuel ctx topic nextOffset h w n
  | (RoundDone, ctx, h, w) => Some (Ok (), ctx, h, w)
  | (RoundFailed r, ctx, h, w) => Some (r, ctx, h, w)
  end.
Proof.
  unfold replay_round. cbn [replay_topic]. destruct (ReadEvents _ _ _ _ _) as [[events|err|m] ctx']; [|done..].
  case_bool_decide; [done|]. destruct (write_events _ _ _ _) as [[[err|] w'] next']; [done|]. by case_bool_decide.
Qed.

(** ** The stream and what goes on beside it *)

(** [lv_todo]: the topics still to replay, with the next offset to read; when it
    is empty the handler is in [streamWithKeepalive].  [lv_flights]: the
    deliveries in flight; [lv_lost]: those to the stream's client that were given
    up. *)
Record live := mkLive {
  lv_todo : list (string * Z);
  lv_handlers : Handlers;
  lv_writer : Writer;
  lv_node : MeshNode L P;
  lv_flights : list flight;
  lv_lost : list Event
}.

(** The topics of a cursor that are replayed, from the offset after the client's. *)
Definition replay_todo (active : list string) (cursor : gmap string Z) : list (string * Z) :=
  (λ '(topic, offset), (topic, wrap64 (offset + 1))) <$> to_replay active (range_map cursor).

(** What a stream consists of: events and keep-alive comments. *)
Definition chunk (nodeID : string) (item : option Event) : bytes :=
  match item with Some e => event_frame nodeID e | None => sse_ping end.
End Round.
Arguments mkLive {L P}.
Arguments live : clear implicits.

(** ** What a step writes *)
Section Writes.
Context `{TF : !TextFormats}.

Lemma Write_ok b w w' : Write b w = (None, w') → w_body w' = w_body w ++ b.
Proof. unfold Write. destruct (w_room w) as [[|room]|]; by intros [= <-]. Qed.

Lemma write_event_body nodeID e w m w' :
  eventToSSEMessage nodeID e = Ok m → writeSSEMessage w m = (None, w') → w_body w' = w_body w ++ event_frame nodeID e.
Proof.
  intros Hm. unfold writeSSEMessage, event_frame. rewrite Hm. cbn [mbind outcome_bind]. case_bool_decide; [done|].
  destruct (message_json m) as [j|err|p] eqn:Hj; [|done|].
  - intros Hw. rewrite (Write_ok _ _ _ Hw). done.
  - exfalso. revert Hj. unfold message_json. by destruct (format_time _).
Qed.

Lemma write_events_body nodeID evs w next w' next' :
  write_events nodeID evs w next = (None, w', next') →
  w_body w' = w_body w ++ (evs ≫= event_frame nodeID) ∧ next' = next_after next evs.
Proof.
  revert w next. induction evs as [|e evs IH]; intros w next; cbn [write_events].
  { intros [= <- <-]. by rewrite app_nil_r. }
  destruct (eventToSSEMessage nodeID e) as [m|err|p] eqn:Hm; [|done|].
  2: { exfalso. revert Hm. unfold eventToSSEMessage. by rewrite encodeSSEEventCursor_ok. }
  destruct (writeSSEMessage w m) as [[err|] w1] eqn:Hw; [done|]. intros [Hbody Hnext]%IH.
  rewrite Hbody, (write_event_body _ _ _ _ _ Hm Hw), bind_cons, (assoc_L (++)). split; [done|].
  rewrite Hnext. unfold next_after. rewrite last_cons. by destruct (last evs).
Qed.
End Writes.

(** ** Lists of events *)
(** A slice that is extended. *)
Lemma slice_extend {A} s m k (l : list A) :
  s ≤ m → drop s (take m l) ++ take k (drop m l) = drop s (take (m + k) l).
Proof.
  intros Hs. rewrite <-take_take_drop, drop_app, length_take. f_equal.
  destruct (decide (m ≤ length l)); [by replace (s - m `min` length l) with 0 by lia|].
  by rewrite (drop_ge l), take_nil, drop_nil by lia.
Qed.

Lemma take_length_take {A} k (l : list A) : take (length (take k l)) l = take k l.
Proof. rewrite length_take. apply take_min_length. Qed.

Lemma slice_snoc {A} s m (l : list A) x :
  m ≤ s `max` length l → drop s (take m (l ++ [x])) = drop s (take m l).
Proof.
  intros Hm. destruct (decide (m ≤ length l)); [by rewrite take_app_le|].
  rewrite !drop_ge; [done|rewrite length_take; lia|rewrite length_take; lia].
Qed.

(** ** The steps *)
Section Live.
Context {L P : Type} `{!EventLog L, !EventLogSpec L, !PeerLink P, !PeerLinkSpec P, MO : !MapOrder, TF : !TextFormats}.
Implicit Types (n : MeshNode L P) (s : live L P).

(** Anything else: it leaves the events of the log, the node's identity and the
    client's registration and channel alone. *)
Record elsewhere (ref : nat) n n' : Prop := {
  el_log a : log_rep (n_log n) a → log_rep (n_log n') a;
  el_config : n_config n' = n_config n;
  el_open : rt_closed (n_rt n) = false → rt_closed (n_rt n') = false;
  el_copies t : deliver_count ref (matching n' t) = deliver_count ref (matching n t);
  el_chan : eventChan (object_at (n_heap n') ref) = eventChan (object_at (n_heap n) ref)
}.

(** The appended event fits the log, and its topic is not near the end of the
    64-bit range. *)
Definition appendable n (e : Event) : Prop :=
  log_accepts (L := L) (Topic e) e ∧ ∀ a, log_rep (n_log n) a → (abs_end a (Topic e) + sseReplayBatchSize < max_int64)%Z.

(** What the handler does, as long as the stream goes on, and what is done beside
    it: a publish or an event from a peer is appended, which puts its delivery in
    flight; a delivery goes one step; or something else happens. *)
Inductive live_step (ctx : Ctx) (client : Client) (topics : list string) : live L P → live L P → Prop :=
  | live_more topic next todo next' h h' w w' n fs lost :
      replay_round ctx topic next h w n = (RoundMore next', ctx, h', w') →
      live_step ctx client topics (mkLive ((topic, next) :: todo) h w n fs lost) (mkLive ((topic, next') :: todo) h' w' n fs lost)
  | live_done topic next todo h h' w w' n fs lost :
      replay_round ctx topic next h w n = (RoundDone, ctx, h', w') →
      live_step ctx client topics (mkLive ((topic, next) :: todo) h w n fs lost) (mkLive todo h' w' n fs lost)
  | live_follow h w w' n n' fs lost :
      stream_step StreamReceive ctx client topics w n = Some (Streaming ctx client topics, w', n') →
      live_step ctx client topics (mkLive [] h w n fs lost) (mkLive [] h w' n' fs lost)
  | live_tick h w w' n n' fs lost :
      stream_step StreamTick ctx client topics w n = Some (Streaming ctx client topics, w', n') →
      live_step ctx client topics (mkLive [] h w n fs lost) (mkLive [] h w' n' fs lost)
  | live_publish ctx0 client0 e ev ctx1 log todo h w n fs lost :
      validatePublishRequest n client0 (Some e) = None →
      AppendEvent ctx0 (Topic e) (Some e) (n_log n) = (Ok ev, ctx1, log) → appendable n e →
      live_step ctx client topics (mkLive todo h w n fs lost) (mkLive todo h w (with_log log n) (mkFlight (Some ctx1) ev None :: fs) lost)
  | live_incoming ctx0 e ev ctx1 todo h w n n' fs lost :
      incoming_append ctx0 e n = (Ok ev, ctx1, n') → appendable n e →
      live_step ctx client topics (mkLive todo h w n fs lost) (mkLive todo h w n' (mkFlight None ev None :: fs) lost)
  | live_flight f f' n' todo h w n fs1 fs2 lost :
      flight_step f n = (f', n') →
      live_step ctx client topics (mkLive todo h w n (fs1 ++ f :: fs2) lost)
        (mkLive todo h w n' (fs1 ++ option_list f' ++ fs2) (lost ++ flight_lost (client_chan client) f n))
  | live_elsewhere todo h w n n' fs lost :
      elsewhere (client_chan client) n n' →
      live_step ctx client topics (mkLive todo h w n fs lost) (mkLive todo h w n' fs lost).

(** *** The node's operations are such steps *)

(** A delivery that is not interrupted. *)
Lemma flight_runs_live ctx client topics todo h w f n n' fs lost :
  flight_runs f n n' →
  ∃ lost', rtc (live_step ctx client topics) (mkLive todo h w n (f :: fs) lost) (mkLive todo h w n' fs lost').
Proof using Type.
  intros Hruns. revert lost. induction Hruns as [f n n' Hs|f f' n n1 n' Hs _ IH]; intros lost.
  - eexists. apply rtc_once. exact (live_flight ctx client topics f None n' todo h w n [] fs lost Hs).
  - destruct (IH (lost ++ flight_lost (client_chan client) f n)) as [lost' Hl]. exists lost'. eapply rtc_l; [|exact Hl].
    exact (live_flight ctx client topics f (Some f') n1 todo h w n [] fs lost Hs).
Qed.

Lemma elsewhere_link ref p n : elsewhere ref n (with_link p n).
Proof using Type. by split. Qed.

Lemma publish_deliver_link ctx ev n : ∃ p, (publish_deliver ctx ev n).2 = with_link p (deliverToLocalSubscribers ctx ev n).2.
Proof using Type.
  unfold publish_deliver. destruct (deliverToLocalSubscribers ctx ev n) as [[r ctx1] n1]. cbn [snd].
  assert (∃ p, n1 = with_link p n1) as Hsame by (exists (n_link n1); by destruct n1).
  destruct r as [res|err|m]; [|done..]. destruct (poll ctx1) as [[err|] ctx2]; [done|].
  assert (∃ p, (forwardToPeers ctx2 ev res n1).2 = with_link p n1) as [p Hp].
  { unfold forwardToPeers. destruct (GetConnectedPeers (n_link n1)); [|done..].
    destruct (forward_loop _ _ _ _ _) as [[r ctx3] p]. by exists p. }
  destruct (forwardToPeers ctx2 ev res n1) as [[r ctx3] n2]. cbn [snd] in Hp. subst n2. exists p.
  destruct r as [res'|err|m]; [|done..]. destruct (poll ctx3) as [[err|] ctx4]; [done|]. by destruct (HasFailures res').
Qed.

(** A publish whose event is appended, whatever becomes of it then. *)
Lemma publish_live ctx client topics todo h w n fs lost ctx0 client0 e ev ctx1 log :
  validatePublishRequest n client0 (Some e) = None →
  AppendEvent ctx0 (Topic e) (Some e) (n_log n) = (Ok ev, ctx1, log) → appendable n e →
  ∃ lost', rtc (live_step ctx client topics) (mkLive todo h w n fs lost)
    (mkLive todo h w (PublishEventWithResult ctx0 client0 (Some e) n).2 fs lost').
Proof using Type.
  intros Hv Happ Hok. unfold PublishEventWithResult. rewrite Hv, Happ.
  destruct (publish_deliver_link ctx1 ev (with_log log n)) as [p ->].
  destruct (flight_runs_live ctx client topics todo h w _ _ _ fs lost (deliverToLocal_runs ctx1 ev (with_log log n))) as [lost' Hl].
  exists lost'. eapply rtc_l; [by eapply live_publish|]. eapply rtc_r; [exact Hl|]. apply live_elsewhere, elsewhere_link.
Qed.

(** An event from a peer, likewise. *)
Lemma incoming_live ctx client topics todo h w n fs lost ctx0 e ctx1 ev n1 :
  incoming_running n = true → incoming_append ctx0 e n = (Ok ev, ctx1, n1) → Topic ev = Topic e → appendable n e →
  ∃ lost', rtc (live_step ctx client topics) (mkLive todo h w n fs lost)
    (mkLive todo h w (processIncomingUserEvent ctx0 e n).2 fs lost').
Proof using Type.
  intros Hr Happ Ht Hok. unfold processIncomingUserEvent. rewrite Hr, Happ, <-Ht.
  destruct (flight_runs_live ctx client topics todo h w _ _ _ fs lost (incoming_deliver_runs ev n1)) as [lost' Hl].
  exists lost'. eapply rtc_l; [by eapply live_incoming|exact Hl].
Qed.

(** *** One read *)
Lemma replay_round_spec ctx topic next h w n a r h' w' :
  replay_round ctx topic next h w n = (r, ctx, h', w') → (r = RoundDone ∨ ∃ next', r = RoundMore next') →
  log_rep (n_log n) a → ctx_live ctx → abs_closed a = false → topic ≠ ""%string → (0 ≤ next)%Z →
  (next + sseReplayBatchSize ≤ max_int64)%Z → (abs_end a topic ≤ max_int64)%Z →
  ∃ evs, evs ≡ take (length evs) (drop (Z.to_nat next) (abs_topic a topic)) ∧
    w_body w' = w_body w ++ (evs ≫= event_frame (GetNodeID n)) ∧
    Z.to_nat next + length evs ≤ Z.to_nat next `max` length (abs_topic a topic) ∧
    match r with
    | RoundMore next' => next' = (next + Z.of_nat (length evs))%Z ∧ length evs ≠ 0
    | _ => length (abs_topic a topic) ≤ Z.to_nat next + length evs
    end.
Proof.
  intros Hround Hr Hlog Hlive Hopen Ht Hnext Hfar Hend.
  destruct (read_batch n a ctx Hlog Hlive Hopen topic next Ht Hnext Hfar Hend) as (evs & Hread & Hevs).
  revert Hround. unfold replay_round. rewrite Hread. pose proof (length_equiv_length _ _ Hevs) as Hlen.
  assert (evs ≡ take (length evs) (drop (Z.to_nat next) (abs_topic a topic))) as Hevs'
    by (rewrite Hlen; unfold abs_slice; rewrite take_length_take; exact Hevs).
  unfold abs_slice in Hlen. rewrite length_take, length_drop in Hlen. change (Z.to_nat sseReplayBatchSize) with 1000 in Hlen.
  case_bool_decide as Hz.
  { intros [= <- <- <-]. exists []. split_and!; [done|by rewrite app_nil_r|cbn; lia|cbn; lia]. }
  destruct (write_events _ _ _ _) as [[[err|] w1] next1] eqn:Hw; [by intros [= <-]; destruct Hr as [|[]]|].
  apply write_events_body in Hw as [Hbody ->]. unfold sseReplayBatchSize in *.
  rewrite (next_after_batch n a Hlog Hopen topic next evs Hevs) by (done || by intros ->).
  case_bool_decide as Hshort; intros [= <- <- <-]; exists evs; do 2 (split; [done|]); (split; [lia|]); [lia|by split].
Qed.

(** *** The invariant *)
Section Invariant.
Variables (a0 : AbsLog) (todo0 : list (string * Z)) (w0 : Writer) (n0 : MeshNode L P) (early : list Event).
Variables (ctx : Ctx) (client : Client) (topics : list string).
Hypothesis Hctx : ctx_live ctx.

Abbreviation ref := (client_chan client).
Abbreviation nodeID := (GetNodeID n0).

(** How often an event of a topic is put into the client's channel, and the
    length of the topic's log when the client was registered. *)
Definition copies (t : string) : nat := deliver_count ref (matching n0 t).
Definition before (t : string) : nat := length (abs_topic a0 t).

Definition position (todo : list (string * Z)) (t : string) : option Z := list_to_map (M := gmap string Z) todo !! t.

(** What has been written: [replayed], then [followed], with keep-alive comments
    between them.  [lives] are the events appended since the client was
    registered; [early] is what was in its channel and in flight then. *)
Record live_inv (s : live L P) (a : AbsLog) (items : list (option Event)) (replayed followed lives : list Event) : Prop := {
  lv_log : log_rep (n_log (lv_node s)) a;
  lv_open : abs_closed a = false;
  lv_rt : rt_closed (n_rt (lv_node s)) = false;
  lv_copies t : deliver_count ref (matching (lv_node s) t) = copies t;
  lv_config : n_config (lv_node s) = n_config n0;
  lv_grown t : ∃ new, abs_topic a t = abs_topic a0 t ++ new;
  lv_topics t e : e ∈ abs_topic a t → Topic e = t;
  lv_end t : (abs_end a t + sseReplayBatchSize ≤ max_int64)%Z;
  lv_nodup : NoDup (lv_todo s).*1;
  lv_entry t next : (t, next) ∈ lv_todo s → t ≠ ""%string ∧ (0 ≤ next)%Z ∧ (next + sseReplayBatchSize ≤ max_int64)%Z ∧ is_Some (position todo0 t);
  lv_body : w_body (lv_writer s) = w_body w0 ++ (items ≫= chunk nodeID);
  lv_items : omap id items = replayed ++ followed;
  lv_idle : lv_todo s ≠ [] → followed = [];
  lv_lives t : of_topic t lives = drop (before t) (abs_topic a t);
  lv_account : same_events
    (followed ++ eventChan (object_at (n_heap (lv_node s)) ref) ++ lv_lost s ++ (lv_flights s ≫= due copies ref))
    (early ++ (lives ≫= λ e, replicate (copies (Topic e)) e));
  lv_replayed t :
    match position todo0 t with
    | None => of_topic t replayed = []
    | Some start => ∃ m, of_topic t replayed ≡ drop (Z.to_nat start) (take m (abs_topic a t)) ∧
        Z.to_nat start ≤ m ≤ Z.to_nat start `max` length (abs_topic a t) ∧
        match position (lv_todo s) t with Some next => m = Z.to_nat next | None => before t ≤ m end
    end
}.

Lemma chunk_events (evs : list Event) : ((Some <$> evs) ≫= chunk nodeID) = evs ≫= event_frame nodeID.
Proof. induction evs as [|e evs IH]; [done|]. rewrite fmap_cons, !bind_cons. by rewrite IH. Qed.

Lemma omap_events (evs : list Event) : omap id (Some <$> evs) = evs.
Proof. induction evs as [|e evs IH]; [done|]. cbn. by f_equal. Qed.

Lemma omap_id_app (l1 l2 : list (option Event)) : omap id (l1 ++ l2) = omap id l1 ++ omap id l2.
Proof. induction l1 as [|[e|] l1 IH]; cbn; [done|by f_equal|done]. Qed.

(** A read of the topic in turn. *)
Lemma inv_round topic next rest h h' w w' n fs lost a items replayed followed lives r todo' :
  live_inv (mkLive ((topic, next) :: rest) h w n fs lost) a items replayed followed lives →
  replay_round ctx topic next h w n = (r, ctx, h', w') →
  (r = RoundDone ∧ todo' = rest ∨ ∃ next', r = RoundMore next' ∧ todo' = (topic, next') :: rest) →
  ∃ items' replayed', live_inv (mkLive todo' h' w' n fs lost) a items' replayed' [] lives.
Proof.
  intros [] Hround Hr. cbn [lv_todo lv_handlers lv_writer lv_node lv_flights lv_lost] in *. rewrite (lv_idle0 ltac:(done)) in *. clear lv_idle0.
  destruct (lv_entry0 topic next) as (Ht & Hnext & Hfar & [start Hstart]); [by left|].
  destruct (replay_round_spec ctx topic next h w n a r h' w' Hround) as (evs & Hevs & Hbody & Hle & Hres); [|done..| |].
  { destruct Hr as [[-> _]|(next' & -> & _)]; [by left|right; by eexists]. }
  { specialize (lv_end0 topic). unfold sseReplayBatchSize in *. lia. }
  assert (GetNodeID n = nodeID) as Hid by (unfold GetNodeID; by rewrite lv_config0). rewrite Hid in Hbody.
  assert (Forall (λ e, Topic e = topic) evs) as Hall.
  { apply Forall_forall. intros e He. destruct (equiv_elem _ _ _ Hevs He) as (e' & (i & Hi & _)%elem_of_take & Heq).
    rewrite lookup_drop in Hi. assert (Topic e = Topic e') as -> by apply Heq. eapply lv_topics0. by eapply list_elem_of_lookup_2. }
  apply NoDup_cons in lv_nodup0 as [Hnotin Hnd].
  assert (∀ t, position rest t = if decide (t = topic) then None else position ((topic, next) :: rest) t) as Hpos.
  { intros t. unfold position. rewrite list_to_map_cons. case_decide as Heq; [subst; by apply not_elem_of_list_to_map_1|by rewrite lookup_insert_ne]. }
  assert (NoDup todo'.*1) as Hnd'.
  { destruct Hr as [[_ ->]|(next' & _ & ->)]; [done|]. by constructor. }
  assert (∀ t x, (t, x) ∈ todo' → t ≠ ""%string ∧ (0 ≤ x)%Z ∧ (x + sseReplayBatchSize ≤ max_int64)%Z ∧ is_Some (position todo0 t)) as Hentry'.
  { intros t x. destruct Hr as [[_ ->]|(next' & -> & ->)]; [intros Hin; apply lv_entry0; by right|].
    intros [[= -> ->]|Hin]%elem_of_cons; [|apply lv_entry0; by right]. destruct Hres as [-> Hne].
    split; [done|]. split; [lia|]. split; [|by eexists].
    specialize (lv_end0 topic). unfold abs_end in lv_end0. lia. }
  assert (∀ t, match position todo' t with
               | Some x => (t = topic ∧ x = (next + Z.of_nat (length evs))%Z) ∨ (t ≠ topic ∧ position ((topic, next) :: rest) t = Some x)
               | None => (t = topic ∧ length (abs_topic a topic) ≤ Z.to_nat next + length evs) ∨ (t ≠ topic ∧ position ((topic, next) :: rest) t = None)
               end) as Hpos'.
  { intros t. destruct Hr as [[-> ->]|(next' & -> & ->)].
    - rewrite Hpos. destruct (decide (t = topic)) as [->|Hne]; [by left|]. destruct (position _ t); by right.
    - destruct Hres as [-> _]. unfold position at 1. rewrite list_to_map_cons. destruct (decide (t = topic)) as [->|Hne].
      + rewrite lookup_insert_eq. by left.
      + rewrite lookup_insert_ne by done. specialize (Hpos t). rewrite decide_False in Hpos by done.
        unfold position in Hpos at 1. rewrite Hpos. destruct (position _ t); by right. }
  exists (items ++ (Some <$> evs)), (replayed ++ evs).
  split; cbn [lv_todo lv_handlers lv_writer lv_node]; try done.
  - rewrite Hbody, lv_body0, bind_app, chunk_events. by rewrite (assoc_L (++)).
  - rewrite omap_id_app, omap_events, lv_items0. by rewrite !app_nil_r.
  - intros t. rewrite of_topic_app. specialize (lv_replayed0 t). destruct (position todo0 t) as [start'|] eqn:Hs.
    + destruct lv_replayed0 as (m & Hm & Hrange & Hmpos). destruct (decide (t = topic)) as [->|Hne].
      * exists (Z.to_nat next + length evs). rewrite (of_topic_all topic evs) by done.
        unfold position in Hmpos. rewrite list_to_map_cons, lookup_insert_eq in Hmpos. subst m.
        split; [rewrite <-slice_extend by lia; by rewrite Hm, <-Hevs|]. split; [lia|].
        specialize (Hpos' topic). destruct (position todo' topic) as [x|].
        -- destruct Hpos' as [[_ ->]|[? _]]; [lia|done].
        -- destruct Hpos' as [[_ Hlen]|[? _]]; [|done]. destruct (lv_grown0 topic) as [new Hnew]. unfold before.
           rewrite Hnew, length_app in Hlen. lia.
      * exists m. rewrite (of_topic_none t topic evs), app_nil_r by (done || congruence). split; [done|]. split; [done|].
        specialize (Hpos' t). destruct (position todo' t) as [x|], Hpos' as [[? _]|[_ Hp]]; try done; by rewrite Hp in Hmpos.
    + assert (t ≠ topic) as Hne by (intros ->; congruence).
      rewrite lv_replayed0. rewrite (of_topic_none t topic evs) by (done || congruence). done.
Qed.

(** Something is appended, and its delivery is in flight. *)
Lemma inv_append ctx0 e ev ctx1 log fctx todo h w n fs lost a items replayed followed lives :
  live_inv (mkLive todo h w n fs lost) a items replayed followed lives →
  AppendEvent ctx0 (Topic e) (Some e) (n_log n) = (Ok ev, ctx1, log) → appendable n e →
  live_inv (mkLive todo h w (with_log log n) (mkFlight fctx ev None :: fs) lost) (abs_push a (Topic e) e) items replayed followed (lives ++ [ev]).
Proof.
  intros [] Happ [Hacc Hfar]. cbn [lv_todo lv_handlers lv_writer lv_node lv_flights lv_lost] in *. specialize (Hfar a lv_log0).
  destruct (publish_append ctx0 n a e lv_log0 Hacc) as [[err Herr]|(log' & Hok & Hlog' & _)];
    [unfold sseReplayBatchSize in Hfar; lia|congruence|]. rewrite Hok in Happ. injection Happ as <- _ <-.
  assert (∀ t, before t ≤ length (abs_topic a t)) as Hbefore.
  { intros t. destruct (lv_grown0 t) as [new Hnew]. unfold before. rewrite Hnew, length_app. lia. }
  split; cbn [lv_todo lv_handlers lv_writer lv_node lv_flights lv_lost n_log n_rt n_config n_heap with_log]; try done.
  - intros t. rewrite abs_topic_push. destruct (lv_grown0 t) as [new Hnew]. case_decide as Ht; [|by exists new].
    subst t. eexists (new ++ [_]). by rewrite Hnew, <-(assoc_L (++)).
  - intros t e'. rewrite abs_topic_push. case_decide as Ht; [|apply lv_topics0]. subst t.
    intros [He|He]%elem_of_app; [by apply lv_topics0|]. by apply list_elem_of_singleton in He as ->.
  - intros t. destruct (decide (Topic e = t)) as [<-|Hne]; [rewrite abs_end_push; lia|by rewrite abs_end_push_ne].
  - intros t. rewrite of_topic_app, lv_lives0, of_topic_cons, abs_topic_push. cbn [Topic WithOffset].
    change (of_topic t []) with ([] : list Event). case_decide as Ht; [|by rewrite (right_id_L [] (++))]. subst t. by rewrite drop_app_le.
  - unfold same_events in *. rewrite bind_app, bind_singleton. cbn [mbind list_bind]. unfold due at 1. cbn [ft_subs ft_event].
    rewrite !fmap_app in *. rewrite (assoc (++) (Copy <$> early)), <-lv_account0. solve_Permutation.
  - intros t. specialize (lv_replayed0 t). destruct (position todo0 t) as [start|]; [|done].
    destruct lv_replayed0 as (m & Hm & Hrange & Hpos). exists m. rewrite abs_topic_push. case_decide as Ht; [|done]. subst t.
    rewrite slice_snoc by lia. split; [done|]. rewrite length_app. split; [lia|]. done.
Qed.

(** A delivery goes on. *)
Lemma inv_flight f f' n' todo h w n fs1 fs2 lost a items replayed followed lives :
  live_inv (mkLive todo h w n (fs1 ++ f :: fs2) lost) a items replayed followed lives → flight_step f n = (f', n') →
  live_inv (mkLive todo h w n' (fs1 ++ option_list f' ++ fs2) (lost ++ flight_lost ref f n)) a items replayed followed lives.
Proof.
  intros [] Hstep. cbn [lv_todo lv_handlers lv_writer lv_node lv_flights lv_lost] in *.
  destruct (flight_step_account copies ref f n f' n' lv_copies0 lv_rt0 Hstep) as [[heap ->] Hacc].
  split; cbn [lv_todo lv_handlers lv_writer lv_node lv_flights lv_lost]; try done.
  unfold same_events in *. rewrite <-lv_account0. rewrite !bind_app, bind_cons.
  assert (option_list f' ≫= due copies ref = from_option (due copies ref) [] f') as ->
    by (destruct f'; [|done]; cbn; by rewrite (right_id_L [] (++))).
  rewrite !fmap_app in *.
  trans ((Copy <$> followed) ++ ((Copy <$> eventChan (object_at (n_heap n) ref)) ++ (Copy <$> due copies ref f)) ++
    (Copy <$> lost) ++ (Copy <$> (fs1 ≫= due copies ref)) ++ (Copy <$> (fs2 ≫= due copies ref))); [|solve_Permutation].
  rewrite Hacc. solve_Permutation.
Qed.

(** Something else. *)
Lemma inv_elsewhere n' todo h w n fs lost a items replayed followed lives :
  live_inv (mkLive todo h w n fs lost) a items replayed followed lives → elsewhere ref n n' →
  live_inv (mkLive todo h w n' fs lost) a items replayed followed lives.
Proof.
  intros [] []. cbn [lv_todo lv_handlers lv_writer lv_node lv_flights lv_lost] in *.
  split; cbn [lv_todo lv_handlers lv_writer lv_node lv_flights lv_lost]; try done; try congruence; auto.
Qed.

(** An event of the channel is written. *)
Lemma inv_follow h w w' n n' fs lost a items replayed followed lives :
  live_inv (mkLive [] h w n fs lost) a items replayed followed lives →
  stream_step StreamReceive ctx client topics w n = Some (Streaming ctx client topics, w', n') →
  ∃ e, live_inv (mkLive [] h w' n' fs lost) a (items ++ [Some e]) replayed (followed ++ [e]) lives.
Proof.
  intros [] Hstep. cbn [lv_todo lv_handlers lv_writer lv_node lv_flights lv_lost] in *. revert Hstep. unfold stream_step.
  unfold chan_receive. destruct (eventChan (object_at (n_heap n) ref)) as [|e buf] eqn:Hbuf; [done|]. cbn [mbind option_bind].
  set (n1 := with_heap _ n).
  assert (GetNodeID n1 = nodeID) as Hid by (unfold GetNodeID; subst n1; cbn [n_config with_heap]; by rewrite lv_config0). rewrite Hid.
  destruct (eventToSSEMessage nodeID e) as [m|err|p] eqn:Hm; [|done..].
  destruct (writeSSEMessage w m) as [[err|] w1] eqn:Hw; [done|]. intros [= <- <-].
  exists e. split; cbn [lv_todo lv_handlers lv_writer lv_node lv_flights lv_lost]; try done.
  - by rewrite (write_event_body _ _ _ _ _ Hm Hw), lv_body0, bind_app, bind_singleton, (assoc_L (++)).
  - rewrite omap_id_app, lv_items0. by rewrite <-(assoc_L (++)).
  - subst n1. cbn [n_heap with_heap]. rewrite object_at_insert, decide_True by done. cbn [eventChan]. by rewrite <-(assoc_L (++)).
Qed.

Lemma inv_tick h w w' n n' fs lost a items replayed followed lives :
  live_inv (mkLive [] h w n fs lost) a items replayed followed lives →
  stream_step StreamTick ctx client topics w n = Some (Streaming ctx client topics, w', n') →
  live_inv (mkLive [] h w' n' fs lost) a (items ++ [None]) replayed followed lives.
Proof.
  intros [] Hstep. cbn [lv_todo lv_handlers lv_writer lv_node lv_flights lv_lost] in *. revert Hstep. unfold stream_step.
  destruct (Write sse_ping w) as [[err|] w1] eqn:Hw; [done|]. intros [= <- <-].
  split; cbn [lv_todo lv_handlers lv_writer lv_node lv_flights lv_lost]; try done.
  - by rewrite (Write_ok _ _ _ Hw), lv_body0, bind_app, bind_singleton, (assoc_L (++)).
  - rewrite omap_id_app, lv_items0. by rewrite app_nil_r.
Qed.

Abbreviation inv s := (∃ a items replayed followed lives, live_inv s a items replayed followed lives).

Lemma inv_step s s' : live_step ctx client topics s s' → inv s → inv s'.
Proof.
  intros Hstep (a & items & replayed & followed & lives & Hinv).
  destruct Hstep as [topic next rest next' h h' w w' n fs lost Hr|topic next rest h h' w w' n fs lost Hr|h w w' n n' fs lost Hr|h w w' n n' fs lost Hr
    |ctx0 client0 e ev ctx1 log todo h w n fs lost _ Happ Hok|ctx0 e ev ctx1 todo h w n n' fs lost Happ Hok|f f' n' todo h w n fs1 fs2 lost Hf|todo h w n n' fs lost He].
  - edestruct (inv_round topic next rest h h' w w' n fs lost) as (items' & rep' & H'); [exact Hinv|exact Hr|right; by eexists|by eexists _, _, _, _, _].
  - edestruct (inv_round topic next rest h h' w w' n fs lost) as (items' & rep' & H'); [exact Hinv|exact Hr|by left|by eexists _, _, _, _, _].
  - destruct (inv_follow _ _ _ _ _ _ _ _ _ _ _ _ Hinv Hr) as [e H']. by eexists _, _, _, _, _.
  - eexists _, _, _, _, _. by eapply inv_tick.
  - eexists _, _, _, _, _. by eapply inv_append.
  - unfold incoming_append in Happ. destruct (AppendEvent _ _ _ _) as [[r ctx2] log] eqn:Ha. injection Happ as -> <- <-.
    eexists _, _, _, _, _. by eapply inv_append.
  - eexists _, _, _, _, _. by eapply inv_flight.
  - eexists _, _, _, _, _. by eapply inv_elsewhere.
Qed.

Lemma inv_steps s s' : rtc (live_step ctx client topics) s s' → inv s → inv s'.
Proof. induction 1 as [|s1 s2 s3 Hs _ IH]; [done|]. intros Hinv. by eapply IH, inv_step. Qed.
End Invariant.

(** *** Registration *)
Lemma register_loop_wf client subs : ∀ seen topics n r n',
  as_subscriber client = Some (SubClient client) → register_loop client subs seen topics n = (Ok r, n') → rt_wf (n_rt n) →
  rt_wf (n_rt n') ∧ n' = with_rt (n_rt n') n.
Proof using Type.
  induction subs as [|sub subs IH]; intros seen topics n r n' Hcl; cbn [register_loop].
  { intros [= _ <-]. split; [done|by destruct n]. }
  case_bool_decide; [by apply IH|]. rewrite Hcl. unfold rt_Subscribe. case_bool_decide; [done|].
  destruct (rt_closed (n_rt n)) eqn:Hc; [done|]. intros Hr Hwf. destruct (IH _ _ _ _ _ Hcl Hr) as [Hwf' Heq].
  - cbn [n_rt with_rt]. pose proof (rt_wf_insert (n_rt n) (cs_Topic sub) (SubClient client) Hc Hwf) as Hi. by rewrite Hc in Hi.
  - split; [done|]. by rewrite Heq.
Qed.

Lemma covered_elem t topics :
  topicCoveredBySubscriptions t topics = true → ∃ pattern, pattern ∈ topics ∧ topic_matches pattern t.
Proof.
  induction topics as [|pattern topics IH]; [done|]. cbn [topicCoveredBySubscriptions]. rewrite matchesTopicPattern_spec.
  case_bool_decide as Hm; [exists pattern; split; [by left|done]|]. intros (p & ? & ?)%IH. exists p. split; [by right|done].
Qed.

Lemma registered_copies client ref n t pattern :
  deliver_ref (SubClient client) = Some ref → rt_entries n !! (pattern, client_ID client) = Some (SubClient client) →
  topic_matches pattern t → 0 < deliver_count ref (matching n t).
Proof.
  intros Href He Hm. unfold deliver_count. enough (SubClient client ∈ filter (λ x, deliver_ref x = Some ref) (matching n t)) as Hin.
  { destruct (filter _ _); [by apply not_elem_of_nil in Hin|simpl; lia]. }
  apply list_elem_of_filter. split; [done|]. unfold matching, at_matching. apply list_elem_of_fmap.
  exists ((pattern, client_ID client), SubClient client). split; [done|]. apply elem_of_map_to_list, map_lookup_filter_Some. by split.
Qed.

Lemma replay_todo_keys topics cursor : NoDup (replay_todo topics cursor).*1.
Proof.
  unfold replay_todo. rewrite <-list_fmap_compose, (list_fmap_ext _ fst) by by intros ? [].
  eapply sublist_NoDup; [exact (NoDup_range_map_keys cursor)|]. apply fmap_sublist, sublist_filter.
Qed.

(** What a registered stream has: an entry of its client for each of its topics. *)
Definition registered (client : Client) (topics : list string) n : Prop :=
  as_subscriber client = Some (SubClient client) ∧ rt_closed (n_rt n) = false ∧
  ∀ pattern, pattern ∈ topics → rt_entries n !! (pattern, client_ID client) = Some (SubClient client).

(** So does [registerSSEClient] leave it. *)
Lemma register_registered client subs topics n n' :
  as_subscriber client = Some (SubClient client) → Forall (λ sub, cs_Topic sub ≠ ""%string) subs → rt_closed (n_rt n) = false →
  rt_wf (n_rt n) → registerSSEClient client subs n = (Ok topics, n') →
  registered client topics n' ∧ n' = with_rt (n_rt n') n.
Proof.
  intros Hclient Hsubs Hrt Hwf Hreg. unfold registerSSEClient in Hreg.
  destruct (register_loop_wf _ _ _ _ _ _ _ Hclient Hreg Hwf) as [_ Hn'].
  destruct (register_loop_spec client subs ∅ [] n Hclient Hrt Hsubs) as (ts & rt & Hreg' & Hopen & _ & Hkeys).
  rewrite Hreg in Hreg'. injection Hreg' as -> Heq. split; [|done]. split; [done|]. rewrite Heq. split; [exact Hopen|].
  intros pattern Hp. rewrite Hkeys, decide_True by by split. done.
Qed.

(** The start: the client is registered and nothing has been read yet. *)
Lemma inv_start (a : AbsLog) (cursor : gmap string Z) w n0 client topics h fs :
  log_rep (n_log n0) a → abs_closed a = false → rt_closed (n_rt n0) = false →
  (∀ t e, e ∈ abs_topic a t → Topic e = t) → (∀ t, abs_end a t + sseReplayBatchSize ≤ max_int64)%Z →
  (∀ t o, cursor !! t = Some o → t ≠ ""%string ∧ (0 ≤ o)%Z ∧ (o + 1 + sseReplayBatchSize ≤ max_int64)%Z) →
  live_inv a (replay_todo topics cursor) w n0
    (eventChan (object_at (n_heap n0) (client_chan client)) ++ (fs ≫= due (copies n0 client) (client_chan client))) client
    (mkLive (replay_todo topics cursor) h w n0 fs []) a [] [] [] [].
Proof.
  intros Hlog Hopen Hrt Htopics Hend Hcursor.
  assert (∀ t x, (t, x) ∈ replay_todo topics cursor → ∃ o, cursor !! t = Some o ∧ x = (o + 1)%Z) as Hin.
  { intros t x ([t' o] & [= -> ->] & [_ Ho%elem_of_range_map]%list_elem_of_filter)%list_elem_of_fmap. exists o. split; [done|].
    destruct (Hcursor _ _ Ho) as (_ & ? & ?). unfold sseReplayBatchSize, max_int64 in *. rewrite wrap64_id; [done|unfold is_int64; lia]. }
  split; cbn [lv_todo lv_handlers lv_writer lv_node lv_flights lv_lost]; try done.
  - intros t. exists []. by rewrite app_nil_r.
  - apply replay_todo_keys.
  - intros t x Hx. destruct (Hin t x Hx) as (o & Ho & ->). destruct (Hcursor t o Ho) as (? & ? & ?).
    split_and!; [done|lia|done|]. unfold position. exists (o + 1)%Z. apply elem_of_list_to_map_1; [apply replay_todo_keys|done].
  - by rewrite app_nil_r.
  - intros t. unfold before. by rewrite drop_ge.
  - unfold same_events. change (([] : list Event) ≫= _) with ([] : list Event). by rewrite (right_id_L [] (++)).
  - intros t. destruct (position (replay_todo topics cursor) t) as [x|] eqn:Hx; [|done]. exists (Z.to_nat x).
    rewrite drop_ge by (rewrite length_take; lia). split; [done|]. split; [lia|done].
Qed.

Lemma todo_position topics cursor t o :
  cursor !! t = Some o → topicCoveredBySubscriptions t topics = true → is_int64 (o + 1) →
  position (replay_todo topics cursor) t = Some (o + 1)%Z.
Proof.
  intros Ho Hcov Hr. apply elem_of_list_to_map_1; [apply replay_todo_keys|]. apply list_elem_of_fmap. exists (t, o).
  split; [by rewrite wrap64_id|]. apply list_elem_of_filter. split; [done|by apply elem_of_range_map].
Qed.

Lemma todo_no_position topics cursor t :
  cursor !! t = None ∨ topicCoveredBySubscriptions t topics = false → position (replay_todo topics cursor) t = None.
Proof.
  intros Hno. apply not_elem_of_list_to_map_1. intros ([t' x] & Heq & Hin)%list_elem_of_fmap. cbn in Heq. subst t'.
  apply list_elem_of_fmap in Hin as ([t' o] & [= -> ->] & [Hcov Ho%elem_of_range_map]%list_elem_of_filter). cbn in Hcov.
  unfold is_covered in Hcov. cbn in Hcov. destruct Hno; congruence.
Qed.

Lemma same_events_elem l l' e : same_events l l' → e ∈ l' → ∃ e', e' ∈ l ∧ e' ≡ e.
Proof.
  intros Hs He. assert (Copy e ∈ Copy <$> l) as (e' & Heq & Hin)%list_elem_of_fmap
    by (unfold same_events in Hs; rewrite Hs; apply list_elem_of_fmap; by exists e).
  exists e'. split; [done|]. destruct e, e'. unfold Copy, copy_bytes in Heq. cbn in Heq. injection Heq as -> -> Hp -> ->.
  by repeat split.
Qed.

(** C10: a resumed stream loses nothing that is not reported lost.  From a node on
    which a stream's client is registered for its topics, with deliveries already in
    flight, the topics of a resume cursor are replayed read by read and then the
    client's channel is followed, while publishes and events from peers
    are appended and delivered step by step, in any interleaving with each other and
    with whatever else leaves the client's registration alone.  As long as
    the stream goes on:
    - the stream consists of a replayed part and of what was taken from the channel,
      which begins when the replay is over;
    - for every covered topic of the cursor the replayed part is exactly the
      events from the one after the client's position up to some point, each once
      and in order; no other topic is replayed;
    - the events taken from the channel, those waiting in it, those given up (the
      channel was full, or the publisher's context had ended) and those still to be
      delivered are, in some order, exactly what was in the channel or in flight at the
      registration and, for each event appended since, one copy per matching
      subscription of the client: none more and none less;
    - once the replay is over, every event after the position is in the stream or in
      the channel, or was given up, or is still to be delivered.
    The order of what comes through the channel is that of the deliveries, which
    need not be that of the offsets; and an event can come twice, from the replay and
    from the channel, if it was delivered after the registration and
    appended before the last read of its topic. *)
Theorem resume_loses_nothing (ctx : Ctx) (client : Client) (topics : list string)
    (cursor : gmap string Z) (h h' : Handlers) (w w' : Writer) (n n' : MeshNode L P) (a : AbsLog)
    (todo : list (string * Z)) (flights flights' : list flight) (lost : list Event)
    (Hctx : ctx_live ctx) (Hreg : registered client topics n)
    (Hlog : log_rep (n_log n) a) (Hopen : abs_closed a = false)
    (Htopics : ∀ t e, e ∈ abs_topic a t → Topic e = t) (Hend : ∀ t, (abs_end a t + sseReplayBatchSize ≤ max_int64)%Z)
    (Hcursor : ∀ t o, cursor !! t = Some o → t ≠ ""%string ∧ (0 ≤ o)%Z ∧ (o + 1 + sseReplayBatchSize ≤ max_int64)%Z)
    (Hsteps : rtc (live_step ctx client topics) (mkLive (replay_todo topics cursor) h w n flights []) (mkLive todo h' w' n' flights' lost)) :
  let chan n := eventChan (object_at (n_heap n) (client_chan client)) in
  let copies t := deliver_count (client_chan client) (matching n t) in
  let in_flight fs := fs ≫= due copies (client_chan client) in
  ∃ a' items replayed followed appended,
    log_rep (n_log n') a' ∧ (∀ t, ∃ new, abs_topic a' t = abs_topic a t ++ new) ∧
    w_body w' = w_body w ++ (items ≫= chunk (GetNodeID n)) ∧ omap id items = replayed ++ followed ∧ (todo ≠ [] → followed = []) ∧
    (∀ t, of_topic t appended = drop (length (abs_topic a t)) (abs_topic a' t)) ∧
    same_events (followed ++ chan n' ++ lost ++ in_flight flights')
      ((chan n ++ in_flight flights) ++ (appended ≫= λ e, replicate (copies (Topic e)) e)) ∧
    ∀ t, (topicCoveredBySubscriptions t topics = true → 0 < copies t) ∧
      (cursor !! t = None ∨ topicCoveredBySubscriptions t topics = false → of_topic t replayed = []) ∧
      ∀ o, cursor !! t = Some o → topicCoveredBySubscriptions t topics = true →
        ∃ m, of_topic t replayed ≡ drop (Z.to_nat (o + 1)) (take m (abs_topic a' t)) ∧
          (todo = [] → length (abs_topic a t) ≤ m ∧
           ∀ i e, abs_topic a' t !! i = Some e → (o < Z.of_nat i)%Z →
             ∃ e', e' ≡ e ∧ (e' ∈ omap id items ++ chan n' ∨ e' ∈ lost ∨ e' ∈ in_flight flights')).
Proof.
  intros chan copies0 in_flight. destruct Hreg as (Hclient & Hrt & Hentries).
  destruct (inv_steps a (replay_todo topics cursor) w n (chan n ++ in_flight flights) ctx client topics Hctx _ _ Hsteps)
    as (a' & items & replayed & followed & appended & []).
  { exists a, [], [], [], []. by apply inv_start. }
  cbn [lv_todo lv_handlers lv_writer lv_node lv_flights lv_lost] in *. exists a', items, replayed, followed, appended.
  do 7 (split; [done|]). intros t. specialize (lv_replayed0 t).
  assert (topicCoveredBySubscriptions t topics = true → 0 < copies0 t) as Hcopies.
  { intros (pattern & Hp & Hm)%covered_elem. eapply (registered_copies client _ n t pattern); [|by apply Hentries|done]. by destruct client. }
  split; [done|]. split.
  { intros Hno. by rewrite (todo_no_position topics cursor t Hno) in lv_replayed0. }
  intros o Ho Hcov. destruct (Hcursor t o Ho) as (_ & Ho0 & Homax).
  rewrite (todo_position topics cursor t o Ho Hcov) in lv_replayed0
    by (unfold is_int64, sseReplayBatchSize, max_int64 in *; lia).
  destruct lv_replayed0 as (m & Hm & Hrange & Hmpos). exists m. split; [exact Hm|]. intros ->.
  change (length (abs_topic a t) ≤ m) in Hmpos. split; [done|]. intros i e Hi Hio.
  destruct (decide (i < m)) as [Him|Him].
  - assert (e ∈ drop (Z.to_nat (o + 1)) (take m (abs_topic a' t))) as Hin.
    { apply (list_elem_of_lookup_2 _ (i - Z.to_nat (o + 1))). rewrite lookup_drop, lookup_take_lt by lia.
      by replace (Z.to_nat (o + 1) + (i - Z.to_nat (o + 1))) with i by lia. }
    destruct (equiv_elem _ _ e (symmetry Hm) Hin) as (e' & [_ He']%list_elem_of_filter & Heq). exists e'. split; [done|]. left.
    rewrite lv_items0. set_solver.
  - assert (e ∈ appended) as Hin.
    { enough (e ∈ of_topic t appended) as [_ ?]%list_elem_of_filter by done. rewrite lv_lives0.
      apply (list_elem_of_lookup_2 _ (i - length (abs_topic a t))). unfold before. rewrite lookup_drop.
      by replace (length (abs_topic a t) + (i - length (abs_topic a t))) with i by lia. }
    assert (Topic e = t) as Ht by (eapply lv_topics0, list_elem_of_lookup_2, Hi).
    destruct (same_events_elem _ _ e lv_account0) as (e' & He' & Heq).
    { apply elem_of_app. right. apply list_elem_of_bind. exists e. split; [|done]. apply elem_of_replicate.
      split; [done|]. rewrite Ht. enough (0 < copies n client t) by lia. exact (Hcopies Hcov). }
    exists e'. split; [done|]. rewrite lv_items0. set_solver.
Qed.
End Live.
