(* ===== verification/EndToEnd.v ===== *)
(** * The client talks to the server

    The HTTP client's transport is the server itself: logging in, publishing
    and reading go through both, down to the bytes of requests and responses.
    Redirects of GET requests are followed, as [http.Client] does. *)
From S2P Require Import Prelude Topics EventLog RoutingTable Peers Clients MeshNode NodeLifecycle NodePublish Utf8 Json JsonSpec SSECursor HTTP SSEMessage JsonValues SSEStream HTTPHandlers HTTPServer APIClient StreamClient StreamLines.
#[local] Set Default Proof Using "Type*".

(** ** Texts *)
Lemma strip_prefix_app p b : strip_prefix p (p ++ b) = Some b.
Proof. induction p as [|c p IH]; [done|]. simpl. by rewrite bool_decide_eq_true_2, IH. Qed.

Lemma TrimPrefix_app p s : TrimPrefix (p +:+ s) p = s.
Proof. unfold TrimPrefix. rewrite bytes_of_app, strip_prefix_app. apply string_of_bytes_of_string. Qed.

Lemma HasPrefix_app p s : HasPrefix (p +:+ s) p = true.
Proof. unfold HasPrefix. by rewrite bytes_of_app, strip_prefix_app. Qed.

Lemma strip_suffix_app s suffix : strip_suffix (s +:+ suffix) suffix = Some s.
Proof.
  unfold strip_suffix. rewrite bytes_of_app, reverse_app, strip_prefix_app. simpl.
  by rewrite reverse_involutive, string_of_bytes_of_string.
Qed.

(** A valid topic is plain ASCII, and the same in a path. *)
Lemma topic_bytes topic :
  validateTopic topic = None →
  topic ≠ ""%string ∧ Forall (λ c, topic_char (RuneASCII c) = true) (bytes_of_string topic).
Proof.
  unfold validateTopic. case_bool_decide; [done|]. case_bool_decide; [done|].
  destruct (forallb _ _) eqn:Hall; [|done]. intros _. split; [done|].
  rewrite <-(runes_bytes (bytes_of_string topic)). apply Forall_bind.
  apply Forall_forall. intros r Hr. rewrite forallb_forall in Hall. specialize (Hall r).
  destruct r; [|by (exfalso; specialize (Hall ltac:(by apply list_elem_of_In)))..].
  constructor; [|constructor]. apply Hall. by apply list_elem_of_In.
Qed.

Lemma topic_char_ascii c : topic_char (RuneASCII c) = true → is_ascii c = true ∧ path_safe c = true.
Proof. by destruct c as [[] [] [] [] [] [] [] []]. Qed.

Lemma topic_valid topic : validateTopic topic = None → valid_text topic.
Proof.
  intros [_ Ht]%topic_bytes. apply ascii_valid. eapply Forall_impl; [exact Ht|]. intros c Hc. by apply topic_char_ascii.
Qed.

Lemma PathEscape_topic topic : validateTopic topic = None → PathEscape topic = topic.
Proof.
  intros [_ Ht]%topic_bytes. unfold PathEscape. rewrite <-(string_of_bytes_of_string topic) at 2. f_equal.
  induction Ht as [|c b Hc _ IH]; [done|]. rewrite bind_cons, IH. by rewrite (proj2 (topic_char_ascii c Hc)).
Qed.

(** The path of a topic's events: no segment of it is a dot segment, unless the
    topic is [..]. *)
Definition topic_path (topic : string) : string := "/api/v1/topics/" +:+ (topic +:+ "/events").

Lemma topic_segment topic : validateTopic topic = None → topic ≠ ".."%string → plain_segment topic.
Proof.
  intros Hv Hdd. destruct (topic_bytes topic Hv) as [Hne Ht]. split; [done|]. split.
  { intros ->. by vm_compute in Hv. }
  split; [done|]. unfold no_slash. eapply Forall_impl; [exact Ht|]. intros c Hc ->. done.
Qed.

Lemma topic_path_clean topic :
  plain_segment topic → resolvePath (topic_path topic) = topic_path topic ∧ cleanPath (topic_path topic) = topic_path topic.
Proof.
  intros Hp. pose proof Hp as (Hne & Hd & Hdd & Hs).
  assert (split_path (topic_path topic) = [""; "api"; "v1"; "topics"; topic; "events"]%string) as Hsplit.
  { unfold topic_path. transitivity ("" :: "api" :: "v1" :: "topics" :: split_path (topic +:+ "/events"))%string; [reflexivity|].
    by rewrite (split_path_segment topic "events" Hs). }
  split.
  - unfold resolvePath. rewrite Hsplit.
    change (foldl resolve_segment [] _) with (resolve_segment (resolve_segment ["topics"; "v1"; "api"; ""]%string topic) "events").
    rewrite (resolve_plain _ topic Hp). reflexivity.
  - unfold cleanPath. rewrite bool_decide_eq_false_2 by done.
    change (match topic_path topic with String c _ => if Ascii.eqb c "/" then topic_path topic else "/" +:+ topic_path topic | _ => topic_path topic end)
      with (topic_path topic). rewrite Hsplit.
    change (foldl clean_segment [] _) with (clean_segment (clean_segment ["topics"; "v1"; "api"]%string topic) "events").
    rewrite (clean_plain _ topic Hp). reflexivity.
Qed.

Lemma topic_path_served topic method : plain_segment topic → mux_redirect method (topic_path topic) = None.
Proof.
  intros Hp. destruct (topic_path_clean topic Hp) as [_ Hc]. unfold mux_redirect. rewrite Hc.
  assert ((if bool_decide (method = "CONNECT"%string) then topic_path topic else topic_path topic) = topic_path topic) as -> by by case_bool_decide.
  rewrite bool_decide_eq_false_2 by done. by rewrite bool_decide_eq_true_2.
Qed.

Lemma fmt_int_valid z : Forall (λ c, is_ascii c = true) (bytes_of_string (fmt_int z)).
Proof.
  unfold fmt_int. rewrite bytes_of_string_of_bytes. eapply Forall_impl; [apply (num_chars _ (FormatInt_literal z))|].
  intros c. by destruct c as [[] [] [] [] [] [] [] []].
Qed.

Lemma plain_event_id_valid topic offset : validateTopic topic = None → valid_text (plain_event_id topic offset).
Proof.
  intros [_ Ht]%topic_bytes. apply ascii_valid. unfold plain_event_id. rewrite !bytes_of_app.
  apply Forall_app. split; [eapply Forall_impl; [exact Ht|]; intros c Hc; by apply topic_char_ascii|].
  apply Forall_app. split; [by repeat constructor|apply fmt_int_valid].
Qed.

Lemma ParseInt_fmt z : is_int64 z → strconv_ParseInt (fmt_int z) = Some z.
Proof.
  intros Hz. unfold strconv_ParseInt, fmt_int. rewrite bytes_of_string_of_bytes.
  destruct (FormatInt_head z) as (c & b & Hf & Hc). pose proof (ParseInt64_FormatInt z Hz) as Hp. rewrite Hf in *.
  rewrite bool_decide_eq_false_2; [done|]. intros ->. by vm_compute in Hc.
Qed.

Lemma fmt_int_nonempty z : fmt_int z ≠ ""%string.
Proof. unfold fmt_int. destruct (FormatInt_head z) as (c & b & -> & _). done. Qed.

(** ** Bodies *)
Lemma decode_print {T} (fields : list (string * setter T)) n ms t :
  json_wf n (JObj ms) → (N.of_nat n ≤ maxNestingDepth)%N →
  decode_body fields (print (JObj ms)) t =
    match foldl (set_field fields) (Some t) (map canon_member ms) with
    | Some t' => Ok t' | None => Err err_json_type
    end.
Proof.
  intros Hj Hn. unfold decode_body. pose proof (parse_value_print n (JObj ms) (S (length (print (JObj ms)))) 0 [] Hj) as Hp.
  rewrite (right_id_L [] (++)) in Hp. rewrite Hp by (done || lia). reflexivity.
Qed.

Lemma Unmarshal_line {T} (fields : list (string * setter T)) n ms t :
  json_wf n (JObj ms) → (N.of_nat n ≤ maxNestingDepth)%N →
  Unmarshal fields (encode_json (JObj ms)) t =
    match foldl (set_field fields) (Some t) (map canon_member ms) with
    | Some t' => Ok t' | None => Err err_json_type
    end.
Proof. intros Hj Hn. unfold Unmarshal, encode_json. by rewrite (parse_json_line n). Qed.

(** ** The wire *)
Section Wire.
Context {L P : Type} `{!EventLog L, !PeerLink P, MO : !MapOrder, TF : !TextFormats, !JWT}.

Definition wire_request (ctx : Ctx) (q : HTTPRequest) : Request :=
  mkRequest ctx (hq_Method q) (hq_Path q) (hq_Header q) (hq_Query q) (default [] (hq_Body q)) None "" "".

(** Where a redirect sends a request: the path and the query of its [Location]. *)
Definition redirect_location (r : Request) : option (string * gmap string string) :=
  match mux_redirect (r_Method r) (r_Path r) with
  | Some path => Some (path, r_Query r)
  | None =>
    match find_route (r_Path r) with
    | RouteEvents => Some ("/api/v1/events/stream"%string, ∅)
    | _ => None
    end
  end.

(** [http.Client.Do] over the server: a request is served at once, at the time
    [clk], and the redirects of a [GET] are followed. *)
Fixpoint follow (hops fuel : nat) (clk : Clock) (ctx : Ctx) (q : HTTPRequest) (s : Server L P)
    : outcome HTTPResponse * Ctx * Server L P :=
  let r := wire_request ctx q in
  match ServeHTTP fuel clk r new_writer s with
  | None => (Err (ErrNew "timeout"), ctx, s)
  | Some (_, w, s) =>
    let status := default 200%Z (w_status w) in
    let response := mkHTTPResponse status (fmt_int status +:+ " " +:+ StatusText status) (w_body w) None in
    if (bool_decide (status = 301%Z) || bool_decide (status = 307%Z)) && bool_decide (hq_Method q = "GET"%string) then
      match hops, redirect_location r with
      | S hops, Some (path, query) => follow hops fuel clk ctx (mkHTTPRequest "GET" path query (hq_Header q) None) s
      | O, Some _ => (Err (ErrNew "stopped after 10 redirects"), ctx, s)
      | _, None => (Ok response, ctx, s)
      end
    else (Ok response, ctx, s)
  end.

Definition wire (fuel : nat) (clk : Clock) : Transport (Server L P) := follow 10 fuel clk.

(** The headers of a request with a body. *)
Definition json_headers (requireAuth : bool) (token : string) : gmap string string :=
  let headers : gmap string string := {["Content-Type"%string := "application/json"%string]} in
  if requireAuth && bool_decide (token ≠ ""%string) then <["Authorization"%string := "Bearer " +:+ token]> headers else headers.
Definition plain_headers (requireAuth : bool) (token : string) : gmap string string :=
  if requireAuth && bool_decide (token ≠ ""%string) then <["Authorization"%string := "Bearer " +:+ token]> ∅ else ∅.

(** A call whose request is served with success. *)
Lemma call_served {T} fuel clk ctx method path query (body : option json) (decode : bytes → outcome T) (auth : bool)
    (c : APIClient) (s s' : Server L P) st code resp :
  ServeHTTP fuel clk (wire_request ctx (mkHTTPRequest method (resolvePath path) query
    (match body with Some _ => json_headers | None => plain_headers end auth (api_token c)) (print <$> body))) new_writer s =
    Some (st, mkWriter (Some code) resp None, s') → (code < 300)%Z →
  doRequestWithQuery (W := Server L P) (Transport0 := wire fuel clk) ctx method path query body (Some decode) auth c s =
    (Some <$> wrap_err "failed to parse response" (decode resp), ctx, s').
Proof.
  intros Hserve Hcode. unfold doRequestWithQuery, http_Do, wire.
  destruct body; unfold json_headers, plain_headers in Hserve; cbv zeta in *; cbn [follow];
    rewrite Hserve; cbn [w_status w_body]; change (default 200%Z (Some code)) with code;
    rewrite (bool_decide_eq_false_2 (code = 301%Z)), (bool_decide_eq_false_2 (code = 307%Z)) by lia;
    cbn [orb andb hr_ReadErr hr_StatusCode hr_Body]; (rewrite bool_decide_eq_false_2; [done|lia]).
Qed.

Lemma finish_json j code (s : Server L P) :
  finish None (writeJSON j code new_writer) s = Some (StreamEnded, mkWriter (Some code) (encode_json j) None, s).
Proof. done. Qed.

Context `{TL : !TextFormatsLaws, JL : !JWTLaws}.

(** The header a client sends carries its token. *)
Lemma extract_sent_token r token :
  r_header r "Authorization" = "Bearer " +:+ token → extractToken r = token.
Proof.
  intros Hr. unfold extractToken. rewrite Hr, bool_decide_eq_false_2 by done. by rewrite HasPrefix_app, TrimPrefix_app.
Qed.

Lemma ValidateToken_signed key c issued expires token now :
  jwt_Sign key c issued expires = Ok token → (now < expires / jwt_second * jwt_second)%Z → ValidateToken key now token = Ok c.
Proof.
  intros Hs Hnow. destruct (jwt_token_text _ _ _ _ _ Hs) as [Hne Hp]. unfold ValidateToken.
  rewrite bool_decide_eq_false_2 by done. unfold TrimPrefix. rewrite Hp. by rewrite (jwt_roundtrip _ _ _ _ _ _ Hs Hnow).
Qed.

Definition login_json (clientID : string) : json := JObj [member "clientId" (JString clientID)].

Lemma decode_login clientID : valid_text clientID → decode_body auth_fields (print (login_json clientID)) ""%string = Ok clientID.
Proof.
  intros Hid. unfold login_json. rewrite (decode_print _ 1); [|constructor; intros k v [= -> ->]%list_elem_of_singleton; constructor|done].
  change (map canon_member [member "clientId" (JString clientID)]) with [(to_valid (bytes_of_string "clientId"), canon (JString clientID))].
  by assign 0 @set_string_print.
Qed.

(** The response to a login, and what the client makes of it. *)
Definition token_json (token clientID : string) (expires : bytes) : json :=
  JObj [member "token" (JString token); member "clientId" (JString clientID); member "expiresAt" (JStr expires)].

Lemma serve_login key now ctx path query headers clientID token ts :
  headers !! "Content-Type"%string = Some "application/json"%string → (2 ≤ len_string clientID)%Z → valid_text clientID →
  jwt_Sign key (mkClaims clientID (bool_decide (clientID = "admin"%string))) now (now + token_lifetime) = Ok token →
  format_time (now + token_lifetime) = Some ts →
  h_Login key now (wire_request ctx (mkHTTPRequest "POST" path query headers (Some (print (login_json clientID))))) new_writer =
  writeJSON (token_json token clientID ts) 200 new_writer.
Proof.
  intros Hct Hlen Htext Hsign Htime. assert (clientID ≠ ""%string) as Hne by (intros ->; by vm_compute in Hlen).
  unfold h_Login, validateJSON, r_header. cbn [wire_request r_Header hq_Header r_Body hq_Body]. rewrite Hct.
  change (default [] (Some (print (login_json clientID)))) with (print (login_json clientID)).
  change (default ""%string (Some "application/json"%string)) with "application/json"%string.
  rewrite bool_decide_eq_false_2 by naive_solver. rewrite decode_login by done.
  unfold validateAuthRequest. rewrite !bool_decide_eq_false_2 by (done || lia).
  unfold GenerateToken. rewrite bool_decide_eq_false_2 by done. rewrite Hsign. cbn [wrap_err mbind outcome_bind].
  unfold time_json. by rewrite Htime.
Qed.

Lemma Unmarshal_token token clientID t ts zero :
  valid_text token → valid_text clientID → format_time t = Some ts →
  Unmarshal auth_response_fields (encode_json (token_json token clientID ts)) zero = Ok (mkAuthResponse token clientID t).
Proof.
  intros Htok Hid Hts. unfold token_json. rewrite (Unmarshal_line _ 1); [| |done].
  2:{ constructor. intros k v. rewrite !elem_of_cons. intros [[= -> ->]|[[= -> ->]|[[= -> ->]|[]%not_elem_of_nil]]]; constructor. }
  change (map canon_member _) with [(to_valid (bytes_of_string "token"), canon (JString token));
    (to_valid (bytes_of_string "clientId"), canon (JString clientID)); (to_valid (bytes_of_string "expiresAt"), canon (JStr ts))].
  assign 0 @set_string_print. assign 1 @set_string_print.
  cbn [foldl]. erewrite (set_field_found _ 2) by reflexivity. by rewrite (set_time_print _ _ _ _ Hts).
Qed.

(** *** Requests with a token *)
Lemma serve_authenticated fuel clk r w (s : Server L P) rt claims token :
  r_Method r ≠ "OPTIONS"%string → mux_redirect (r_Method r) (r_Path r) = None → find_route (r_Path r) = rt → route_protection rt = Authenticated → srv_noAuth s = false →
  r_header r "Authorization" = "Bearer " +:+ token → token ≠ ""%string →
  ValidateToken (srv_secretKey s) (clk_now clk) token = Ok claims →
  ServeHTTP fuel clk r w s = route_handler fuel clk rt (with_claims claims r) w s.
Proof.
  intros Hm Hmux <- Hp Hno Hr Hne Hv. unfold ServeHTTP. rewrite Hmux. unfold serve_route. rewrite bool_decide_eq_false_2, Hp by done.
  unfold AuthRequired. by rewrite Hno, (extract_sent_token _ _ Hr), bool_decide_eq_false_2, Hv.
Qed.

Lemma json_headers_sent token :
  token ≠ ""%string → json_headers true token !! "Authorization"%string = Some ("Bearer " +:+ token) ∧
  json_headers true token !! "Content-Type"%string = Some "application/json"%string.
Proof. intros Ht. unfold json_headers. cbn [andb]. by rewrite bool_decide_eq_true_2. Qed.

Lemma plain_headers_sent token :
  token ≠ ""%string → plain_headers true token !! "Authorization"%string = Some ("Bearer " +:+ token).
Proof. intros Ht. unfold plain_headers. cbn [andb]. by rewrite bool_decide_eq_true_2. Qed.

Lemma plain_headers_other auth token key : key ≠ "Authorization"%string → plain_headers auth token !! key = None.
Proof.
  intros Hk. unfold plain_headers. destruct (_ && _); [|apply lookup_empty]. rewrite lookup_insert_ne by congruence. apply lookup_empty.
Qed.

(** *** Publishing *)
Definition publish_json (topic : string) (payload : json) : json :=
  JObj [member "topic" (JString topic); member "payload" payload].

Lemma decode_publish n topic payload q :
  valid_text topic → std n payload → S n ≤ N.to_nat maxNestingDepth →
  decode_body publish_fields (print (publish_json topic payload)) q = Ok (mkPublishRequest topic payload).
Proof.
  intros Ht Hp Hn. unfold publish_json. rewrite (decode_print _ (S n)); [| |lia].
  2:{ constructor. intros k v. rewrite !elem_of_cons. intros [[= -> ->]|[[= -> ->]|[]%not_elem_of_nil]]; [constructor|by apply std_wf]. }
  change (map canon_member _) with [(to_valid (bytes_of_string "topic"), canon (JString topic));
    (to_valid (bytes_of_string "payload"), canon payload)]. rewrite (std_canon _ _ Hp).
  assert (∀ T (upd : json → T → T) x, set_any upd payload x = Some (upd payload x)) as Hany
    by (intros T upd x; unfold set_any; by rewrite (std_interface _ _ Hp)).
  assign 0 @set_string_print. by assign 1 Hany.
Qed.

Definition published_json (topic : string) (k : Z) (ts : bytes) : json :=
  JObj [member "eventId" (JString (plain_event_id topic k)); member "offset" (JInt k); member "timestamp" (JStr ts)].

Lemma Unmarshal_published topic k t ts zero :
  validateTopic topic = None → is_int64 k → format_time t = Some ts →
  Unmarshal publish_response_fields (encode_json (published_json topic k ts)) zero = Ok (mkPublishResponse (plain_event_id topic k) k t).
Proof.
  intros Ht Hk Hts. pose proof (plain_event_id_valid topic k Ht). unfold published_json. rewrite (Unmarshal_line _ 1); [| |done].
  2:{ constructor. intros key v. rewrite !elem_of_cons.
      intros [[= -> ->]|[[= -> ->]|[[= -> ->]|[]%not_elem_of_nil]]]; constructor. apply FormatInt_literal. }
  change (map canon_member _) with [(to_valid (bytes_of_string "eventId"), canon (JString (plain_event_id topic k)));
    (to_valid (bytes_of_string "offset"), JInt k); (to_valid (bytes_of_string "timestamp"), canon (JStr ts))].
  assign 0 @set_string_print. assign 1 @set_int_print.
  cbn [foldl]. erewrite (set_field_found _ 2) by reflexivity. by rewrite (set_time_print _ _ _ _ Hts).
Qed.

(** *** Reading *)
Definition message_members (topic : string) (payload : json) (k : Z) (ts : bytes) : list (bytes * json) :=
  [member "eventId" (JString (plain_event_id topic k)); member "topic" (JString topic); member "payload" payload;
   member "timestamp" (JStr ts); member "offset" (JInt k)].

Definition read_json (topic : string) (payload : json) (k : Z) (ts : bytes) : json :=
  JObj [member "events" (JArr [JObj (message_members topic payload k ts)]); member "topic" (JString topic);
        member "startOffset" (JInt k); member "count" (JInt 1)].

Lemma read_json_wf n topic payload k ts : std n payload → json_wf (S (S (S n))) (read_json topic payload k ts).
Proof.
  intros Hp. unfold read_json. constructor. intros key v. rewrite !elem_of_cons.
  intros [[= -> ->]|[[= -> ->]|[[= -> ->]|[[= -> ->]|[]%not_elem_of_nil]]]]; try (constructor; apply FormatInt_literal); constructor.
  intros j ->%list_elem_of_singleton. constructor. intros key' v'. unfold message_members. rewrite !elem_of_cons.
  intros [[= -> ->]|[[= -> ->]|[[= -> ->]|[[= -> ->]|[[= -> ->]|[]%not_elem_of_nil]]]]]; try (constructor; apply FormatInt_literal); try constructor.
  by apply std_wf.
Qed.

Lemma Unmarshal_read n topic payload k t ts zero :
  validateTopic topic = None → std n payload → n + 3 ≤ N.to_nat maxNestingDepth → is_int64 k → format_time t = Some ts →
  Unmarshal read_response_fields (encode_json (read_json topic payload k ts)) zero =
  Ok (mkReadEventsResponse [mkMessage (plain_event_id topic k) topic payload t k] topic k 1).
Proof.
  intros Ht Hp Hn Hk Hts. pose proof (topic_valid topic Ht). pose proof (plain_event_id_valid topic k Ht) as Hid.
  unfold read_json. rewrite (Unmarshal_line _ (S (S (S n)))); [|by apply read_json_wf|lia].
  change (map canon_member _) with
    [(to_valid (bytes_of_string "events"), JArr [JObj (map canon_member (message_members topic payload k ts))]);
     (to_valid (bytes_of_string "topic"), canon (JString topic)); (to_valid (bytes_of_string "startOffset"), JInt k);
     (to_valid (bytes_of_string "count"), JInt 1)].
  assert (foldl (set_field stream_message_fields) (Some zero_message) (map canon_member (message_members topic payload k ts)) =
    Some (mkMessage (plain_event_id topic k) topic payload t k)) as Hmsg.
  { rewrite <-(set_message _ _ payload _ ts k zero_message Hid (topic_valid topic Ht)); [|by eapply std_interface|done|done].
    unfold message_members. cbn [map canon_member member]. by rewrite (std_canon _ _ Hp). }
  cbn [foldl]. erewrite (set_field_found _ 0) by reflexivity. unfold set_structs. cbn [mapM]. rewrite Hmsg. cbn [mbind option_bind mret option_ret].
  assign 1 @set_string_print. assign 2 @set_int_print. by assign 3 @set_int_print.
Qed.

(** *** The handlers *)
Definition published_event (now : Z) (topic : string) (payload : json) : Event := NewEvent now topic (Some (print payload)).

(** Without a payload an event holds an empty text, which is read as a string;
    the durable log gives no payload back, and that is read as [null]. *)
Lemma null_payload_is_text now topic :
  payload_json (Payload (NewEvent now topic None)) = JStr [] ∧ payload_json None = JNull.
Proof. by split. Qed.

Lemma serve_publish now r claims m topic payload ts k (n n' : MeshNode L P) ctx' :
  r_header r "Content-Type" = "application/json"%string → r_Body r = print (publish_json topic payload) → r_claims r = Some claims →
  validateTopic topic = None → std m payload → S m ≤ N.to_nat maxNestingDepth → payload ≠ JNull → format_time now = Some ts →
  (let '(client, heap) := NewHTTPClient now (jwt_ClientID claims) (n_heap n) in
   PublishEventWithResult (r_ctx r) (Some client) (Some (published_event now topic payload)) (with_heap heap n)) =
    (Ok (WithOffset (published_event now topic payload) k), ctx', n') →
  h_PublishEvent now r new_writer n = (None, writeJSON (published_json topic k ts) 201 new_writer, n').
Proof.
  intros Hct Hbody Hcl Ht Hp Hm Hnull Hts Hpub. unfold h_PublishEvent, validateJSON. rewrite Hct, bool_decide_eq_false_2 by naive_solver.
  rewrite Hbody, (decode_publish m) by (done || by apply topic_valid). unfold http_validatePublishRequest. cbn [pr_Topic pr_Payload].
  rewrite Ht, Hcl. unfold published_event, NewHTTPClient in *. cbv zeta in *.
  destruct payload; [done|..]; rewrite Hpub; cbn [WithOffset Timestamp NewEvent Offset Topic]; unfold time_json; by rewrite Hts.
Qed.

Lemma serve_read r claims topic payload ts k m t (n : MeshNode L P) e :
  r_claims r = Some claims → r_topic r = topic → validateTopic topic = None →
  r_query r "offset" = fmt_int k → r_query r "limit" = fmt_int 1 → is_int64 k → (0 ≤ k)%Z →
  (ReadEvents (r_ctx r) topic k 1 (n_log n)).1 = Ok [e] →
  Topic e = topic → Offset e = k → Timestamp e = t → Payload e = Some (print payload) →
  std m payload → m ≤ N.to_nat maxNestingDepth → format_time t = Some ts →
  h_ReadTopicEvents r new_writer n = (None, writeJSON (read_json topic payload k ts) 200 new_writer).
Proof.
  intros Hcl Hrt Ht Hoff Hlim Hk Hpos Hread Het Heo Hets Hep Hp Hm Hts. unfold h_ReadTopicEvents. rewrite Hcl, Hrt, Ht.
  rewrite bool_decide_eq_false_2 by by apply topic_bytes. unfold parse_offset, parse_limit. rewrite Hoff, Hlim.
  rewrite !bool_decide_eq_false_2 by apply fmt_int_nonempty. rewrite ParseInt_fmt by done.
  rewrite bool_decide_eq_false_2 by lia. rewrite (ParseInt_fmt 1) by done. cbn [bool_decide_pack orb].
  change (bool_decide (1 ≤ 0)%Z || bool_decide (1000 < 1)%Z) with false. cbv iota. rewrite Hread.
  unfold read_response, read_message. cbn [fmap list_fmap sequence]. rewrite Het, Heo, Hets, Hep.
  unfold message_json. cbn [sm_Timestamp]. rewrite Hts. cbn [mbind outcome_bind].
  cbn [sm_EventID sm_Topic sm_Payload sm_Offset]. by rewrite (payload_json_print m).
Qed.

Lemma topic_path_route topic : find_route ("/api/v1/topics/" +:+ (topic +:+ "/events")) = RouteTopics.
Proof. reflexivity. Qed.

Lemma serve_topic_events r topic w (s : Server L P) :
  topic ≠ ""%string → r_Method r = "GET"%string → r_Path r = "/api/v1/topics/" +:+ (topic +:+ "/events") ->
  handleTopicEvents r w s = on_writer (h_ReadTopicEvents (with_topic topic r) w (srv_node s)) s.
Proof.
  intros Ht Hm Hp. unfold handleTopicEvents. rewrite Hp, HasPrefix_app, TrimPrefix_app. cbn [negb].
  rewrite bool_decide_eq_false_2 by by destruct topic. rewrite strip_suffix_app, bool_decide_eq_false_2 by done.
  by rewrite Hm, bool_decide_eq_true_2.
Qed.

(** The event is read back from the log it was appended to. *)
Lemma read_back `{!EventLogSpec L} ctx topic payload now (l : L) a :
  ctx_live ctx → abs_closed a = false → topic ≠ ""%string → (abs_end a topic < max_int64)%Z →
  print payload ≠ [] → log_rep l (abs_push a topic (published_event now topic payload)) →
  ∃ e, (ReadEvents ctx topic (abs_end a topic) 1 l).1 = Ok [e] ∧ Topic e = topic ∧ Offset e = abs_end a topic ∧
    Timestamp e = now ∧ Payload e = Some (print payload).
Proof.
  intros Hlive Hopen Ht Hend Hprint Hrep.
  assert (0 ≤ abs_end a topic)%Z as Hpos by (unfold abs_end; lia).
  destruct (read_ok ctx topic (abs_end a topic) 1 l _ Hrep Hlive) as (evs & Hread & Hevs).
  - unfold abs_guard, read_args. rewrite (poll_live _ Hlive), !bool_decide_eq_false_2 by (done || lia). cbn [fst abs_push abs_closed]. by rewrite Hopen.
  - lia.
  - done.
  - rewrite abs_end_push. lia.
  - unfold abs_slice in Hevs. rewrite abs_topic_push, decide_True in Hevs by done.
    unfold abs_end in Hevs at 1. rewrite Nat2Z.id, drop_app_length in Hevs. simpl in Hevs.
    inversion Hevs as [|e e' evs' evs'' He Hnil]; subst. inversion Hnil; subst. exists e. rewrite Hread. split; [done|].
    by rewrite (equiv_payload (WithOffset (published_event now topic payload) (abs_end a topic)) e Hprint He).
Qed.

(** *** The topic [..]

    Its path is resolved to that of publishing, whose [GET] is redirected to the
    stream; without the header of a stream it answers a greeting, which is not
    JSON. *)
Definition read_refused_error : error := ErrWrap "failed to read events" (ErrWrap "failed to parse response" err_json_syntax).

Lemma serve_greeting fuel clk r w (s : Server L P) claims :
  r_claims r = Some claims → r_Query r = ∅ → r_header r "Accept" = ""%string → resumeCursorFromRequest r = Ok None →
  serve_stream fuel (clk_now clk) r w s = Some (StreamEnded, (Write sse_greeting (WriteHeader 200 w)).2, s).
Proof.
  intros Hcl Hq Ha Hres. unfold serve_stream, StreamEvents. rewrite Hcl, Hres. unfold r_query. rewrite Hq.
  change (TrimSpace (default ""%string ((∅ : gmap string string) !! "topic"%string))) with ""%string.
  rewrite bool_decide_eq_false_2 by (intros Hne; by apply Hne).
  unfold stream_subscribed, is_streaming, r_query. rewrite Ha, Hq. cbn. by destruct s.
Qed.

Lemma read_dotdot fuel clk ctx k limit (c : APIClient) (s : Server L P) claims :
  srv_noAuth s = false → api_token c ≠ ""%string → ValidateToken (srv_secretKey s) (clk_now clk) (api_token c) = Ok claims →
  @api_ReadEvents (Server L P) (wire fuel clk) TF ctx ".." k limit c s = (Err read_refused_error, ctx, s).
Proof.
  intros Hauth Htok Hv. pose proof (plain_headers_sent (api_token c) Htok) as Hh.
  unfold api_ReadEvents, authenticated, doRequestWithQuery. rewrite bool_decide_eq_false_2 by done.
  change (if true && bool_decide (api_token c ≠ ""%string) then _ else _) with (plain_headers true (api_token c)).
  set (query := if bool_decide (0 < limit)%Z then _ else _). clearbody query.
  change (resolvePath _) with "/api/v1/events"%string. unfold http_Do, wire. cbn [follow].
  erewrite (serve_authenticated _ _ _ _ s RouteEvents claims (api_token c));
    [|done..|by unfold r_header; cbn [wire_request r_Header hq_Header]; rewrite Hh|done|done].
  cbn [route_handler]. change (handleEvents _ _ _ _) with (Some (StreamEnded, mkWriter (Some 307%Z) [] None, s)). cbv beta iota zeta.
  match goal with |- context [if ?b then _ else _] => change b with true end. cbv iota.
  match goal with |- context [redirect_location ?r] => assert (redirect_location r = Some ("/api/v1/events/stream"%string, ∅)) as -> by reflexivity end.
  cbn [follow hq_Header].
  erewrite (serve_authenticated _ _ _ _ s RouteStream claims (api_token c));
    [|done..|by unfold r_header; cbn [wire_request r_Header hq_Header]; rewrite Hh|done|done].
  cbn [route_handler].
  assert (∀ key, key ≠ "Authorization"%string → plain_headers true (api_token c) !! key = None) as Hother
    by (intros key Hk; by apply plain_headers_other).
  rewrite (serve_greeting _ _ _ _ _ claims); [|done..| |].
  - change ((Write sse_greeting (WriteHeader 200 new_writer)).2) with (mkWriter (Some 200%Z) sse_greeting None).
    match goal with |- context [if ?b then match _ with _ => _ end else _] => change b with false end. cbv beta iota zeta.
    cbn [hr_ReadErr hr_StatusCode hr_Body w_body]. change (bool_decide (400 ≤ _)%Z) with false. cbv iota.
    unfold Unmarshal. assert (parse_json sse_greeting = None) as -> by by vm_compute. reflexivity.
  - unfold r_header. cbn [with_claims wire_request r_Header hq_Header]. by rewrite Hother.
  - unfold resumeCursorFromRequest, r_header. cbn [with_claims wire_request r_Header hq_Header]. by rewrite Hother.
Qed.

Lemma topic_headers_query token topic ctx k :
  let r := wire_request ctx (mkHTTPRequest "GET" ("/api/v1/topics/" +:+ topic +:+ "/events")
    (<["limit"%string := fmt_int 1]> {["offset"%string := fmt_int k]}) (plain_headers true token) None) in
  r_query r "offset" = fmt_int k ∧ r_query r "limit" = fmt_int 1.
Proof. by split. Qed.
End Wire.

(** C20: logging in yields a token that works.  A client with an id of at least
    two characters that logs in over the wire holds a token; until its whole
    seconds run out, a request that carries it is let through with the claims
    of that client, and through to the administrative routes exactly when the
    client is [admin]. *)
Theorem login_token {L P : Type} `{!EventLog L, !PeerLink P, MO : !MapOrder, TF : !TextFormats, TL : !TextFormatsLaws, !JWT, !JWTLaws}
    (fuel : nat) (clk : Clock) (ctx : Ctx) (c : APIClient) (s : Server L P) (clientID token : string) (ts : bytes)
    (Hid : cc_ClientID (api_config c) = clientID) (Hlen : (2 ≤ len_string clientID)%Z) (Htext : valid_text clientID)
    (Htoken : valid_text token) (Htime : format_time (clk_now clk + token_lifetime) = Some ts)
    (Hsign : jwt_Sign (srv_secretKey s) (mkClaims clientID (bool_decide (clientID = "admin"%string))) (clk_now clk)
               (clk_now clk + token_lifetime) = Ok token) :
  let claims := mkClaims clientID (bool_decide (clientID = "admin"%string)) in
  @Authenticate (Server L P) (wire fuel clk) TF ctx c s = (Ok (), ctx, SetToken token c, s) ∧
  ∀ now r w, r_header r "Authorization" = "Bearer " +:+ token →
    (now < (clk_now clk + token_lifetime) / jwt_second * jwt_second)%Z →
    AuthRequired now r w s = inl (with_claims (if srv_noAuth s then mkClaims "dev-client" false else claims) r) ∧
    AdminRequired now r w s =
      (if bool_decide (clientID = "admin"%string) then inl (with_claims claims r)
       else inr (writeError "Admin privileges required" 403 w)).
Proof.
  intros claims. assert (clientID ≠ ""%string) as Hne by (intros ->; by vm_compute in Hlen). split.
  - unfold Authenticate, doRequest. rewrite Hid.
    rewrite (call_served fuel clk ctx "POST" "/api/v1/auth/login" ∅ (Some (login_json clientID)) _ false c s s StreamEnded 200%Z
      (encode_json (token_json token clientID ts))); [| |done].
    2:{ change (ServeHTTP fuel clk (wire_request ctx _) new_writer s) with (finish None (h_Login (srv_secretKey s) (clk_now clk)
          (wire_request ctx (mkHTTPRequest "POST" "/api/v1/auth/login" ∅ (json_headers false (api_token c))
            (Some (print (login_json clientID))))) new_writer) s).
        erewrite serve_login; [by rewrite finish_json|reflexivity|done..]. }
    by rewrite (Unmarshal_token _ _ _ _ _ Htoken Htext Htime).
  - intros now r w Hr Hnow. unfold AuthRequired, AdminRequired. rewrite (extract_sent_token _ _ Hr).
    destruct (jwt_token_text _ _ _ _ _ Hsign) as [Htne _]. rewrite !(bool_decide_eq_false_2 (token = ""%string)) by done.
    rewrite (ValidateToken_signed _ _ _ _ _ _ Hsign Hnow). cbn [jwt_IsAdmin].
    split; [by destruct (srv_noAuth s)|]. by destruct (bool_decide _).
Qed.

(** *** Publishing and reading

    The server and the client's token at which a publish goes through, at the
    time of [clk], and a read at the time of [clk2]: a running node whose log
    is open and takes the event, room in the matching clients' channels, a link
    that sends to its peers, and a token of a client [claims] that is valid at
    both times; the payload is a value that is stable and not too deep. *)
Record publish_ready {L P : Type} `{!EventLog L, !PeerLink P, MO : !MapOrder, TF : !TextFormats, !JWT, !EventLogSpec L, !PeerLinkSpec P}
    (clk clk2 : Clock) (ctx : Ctx) (token : string) (s : Server L P) (a : AbsLog) (claims : JWTClaims)
    (topic : string) (payload : json) (depth : nat) (ts : bytes) (peers : list PeerNode) : Prop := {
  ready_ctx : ctx_live ctx;
  ready_running : n_started (srv_node s) = true ∧ n_closed (srv_node s) = false;
  ready_log : log_rep (n_log (srv_node s)) a;
  ready_open : abs_closed a = false;
  ready_offset : (abs_end a topic < max_int64)%Z;
  ready_accepts : log_accepts topic (published_event (clk_now clk) topic payload);
  ready_table : rt_wf (n_rt (srv_node s));
  ready_table_open : rt_closed (n_rt (srv_node s)) = false;
  ready_room : room_for (NewHTTPClient (clk_now clk) (jwt_ClientID claims) (n_heap (srv_node s))).2 (matching (srv_node s) topic);
  ready_peers : GetConnectedPeers (n_link (srv_node s)) = Ok peers;
  ready_link : link_accepts ctx (WithOffset (published_event (clk_now clk) topic payload) (abs_end a topic))
    (interested (srv_node s) topic) (n_link (srv_node s));
  ready_auth : srv_noAuth s = false;
  ready_token : token ≠ ""%string;
  ready_valid : ValidateToken (srv_secretKey s) (clk_now clk) token = Ok claims ∧
                ValidateToken (srv_secretKey s) (clk_now clk2) token = Ok claims;
  ready_topic : validateTopic topic = None;
  ready_payload : std depth payload ∧ payload ≠ JNull;
  ready_depth : depth + 3 ≤ N.to_nat maxNestingDepth;
  ready_size : (Z.of_nat (length (print payload)) ≤ MaxEventPayloadSize)%Z;
  ready_time : format_time (clk_now clk) = Some ts
}.

(** The publish, and what it does to the node. *)
Lemma publish_served {L P : Type} `{!EventLog L, !PeerLink P, MO : !MapOrder, TF : !TextFormats, TL : !TextFormatsLaws, !JWT, !JWTLaws, !EventLogSpec L, !PeerLinkSpec P}
    (fuel : nat) (clk clk2 : Clock) (ctx : Ctx) (c : APIClient) (s : Server L P) (a : AbsLog) (claims : JWTClaims)
    (topic : string) (payload : json) (depth : nat) (ts : bytes) (peers : list PeerNode) :
  publish_ready clk clk2 ctx (api_token c) s a claims topic payload depth ts peers →
  let k := abs_end a topic in let e := published_event (clk_now clk) topic payload in
  let '(client, heap) := NewHTTPClient (clk_now clk) (jwt_ClientID claims) (n_heap (srv_node s)) in
  ∃ n', PublishEventWithResult ctx (Some client) (Some e) (with_heap heap (srv_node s)) = (Ok (WithOffset e k), ctx, n') ∧
    log_rep (n_log n') (abs_push a topic e) ∧
    @api_PublishEvent (Server L P) (wire fuel clk) TF ctx topic payload c s =
      (Ok (mkPublishResponse (plain_event_id topic k) k (clk_now clk)), ctx, with_node n' s).
Proof.
  intros [Hlive Hrun Hlog Hopen Hend Hacc Hwf Hrt Hroom Hpeers Hlink Hauth Htoken [Hv1 Hv2] Htopic [Hstd Hnull] Hdepth Hsize Htime] k e.
  destruct (topic_bytes topic Htopic) as [Hne _]. assert (is_int64 k) as Hk by (unfold is_int64, k, abs_end, max_int64 in *; lia).
  destruct (NewHTTPClient _ _ _) as [client heap] eqn:Hc.
  destruct (publish_accepted ctx client e (with_heap heap (srv_node s)) a peers)
    as (n' & Hpub & Hrep); [done|done|by injection Hc as <- <-|done..|]. exists n'. split; [done|]. split; [done|].
  destruct (json_headers_sent (api_token c) Htoken) as [Hh1 Hh2].
  unfold api_PublishEvent, authenticated, doRequest. rewrite bool_decide_eq_false_2 by done. fold (publish_json topic payload).
  rewrite (call_served fuel clk ctx "POST" "/api/v1/events" ∅ (Some (publish_json topic payload)) _ true c s (with_node n' s) StreamEnded 201%Z
    (encode_json (published_json topic k ts))); [by rewrite (Unmarshal_published _ _ _ _ _ Htopic Hk Htime)| |done].
  erewrite (serve_authenticated _ _ _ _ s RouteEvents claims (api_token c)); [|done..|by unfold r_header; cbn [wire_request r_Header hq_Header]; rewrite Hh1|done|done].
  cbn [route_handler]. unfold handleEvents. change (r_Method _) with "POST"%string. rewrite bool_decide_eq_true_2 by done.
  erewrite serve_publish; [reflexivity| |reflexivity|reflexivity|done|exact Hstd|lia|done|exact Htime|].
  - unfold r_header. cbn [wire_request with_claims r_Header hq_Header]. by rewrite Hh2.
  - rewrite Hc. exact Hpub.
Qed.

Lemma publish_then_read {L P : Type} `{!EventLog L, !PeerLink P, MO : !MapOrder, TF : !TextFormats, TL : !TextFormatsLaws, !JWT, !JWTLaws, !EventLogSpec L, !PeerLinkSpec P}
    (fuel : nat) (clk clk2 : Clock) (ctx : Ctx) (c : APIClient) (s : Server L P) (a : AbsLog) (claims : JWTClaims)
    (topic : string) (payload : json) (depth : nat) (ts : bytes) (peers : list PeerNode) :
  publish_ready clk clk2 ctx (api_token c) s a claims topic payload depth ts peers →
  let k := abs_end a topic in
  ∃ s', @api_PublishEvent (Server L P) (wire fuel clk) TF ctx topic payload c s =
      (Ok (mkPublishResponse (plain_event_id topic k) k (clk_now clk)), ctx, s') ∧
    @api_ReadEvents (Server L P) (wire fuel clk2) TF ctx topic k 1 c s' =
      (if decide (topic = ".."%string) then Err read_refused_error
       else Ok (mkReadEventsResponse [mkMessage (plain_event_id topic k) topic payload (clk_now clk) k] topic k 1), ctx, s').
Proof.
  intros Hready. pose proof Hready as [Hlive Hrun Hlog Hopen Hend Hacc Hwf Hrt Hroom Hpeers Hlink Hauth Htoken [Hv1 Hv2] Htopic [Hstd Hnull] Hdepth Hsize Htime]. intros k. destruct (topic_bytes topic Htopic) as [Hne _].
  assert (0 ≤ k)%Z as Hpos by (unfold k, abs_end; lia). assert (is_int64 k) as Hk by (unfold is_int64; unfold max_int64 in *; lia).
  set (e := published_event (clk_now clk) topic payload) in *.
  pose proof (publish_served fuel clk clk2 ctx c s a claims topic payload depth ts peers Hready) as Hserved. cbv zeta in Hserved.
  destruct (NewHTTPClient _ _ _) as [client heap]. destruct Hserved as (n' & _ & Hrep & Hpublish).
  pose proof (plain_headers_sent (api_token c) Htoken) as Hh3. exists (with_node n' s). split; [exact Hpublish|].
  case_decide as Hdd; [subst topic; by eapply read_dotdot|].
  destruct (topic_path_clean topic (topic_segment topic Htopic Hdd)) as [Hres _].
  pose proof (topic_path_served topic "GET" (topic_segment topic Htopic Hdd)) as Hmux.
  unfold api_ReadEvents, authenticated. rewrite bool_decide_eq_false_2 by done. rewrite (PathEscape_topic _ Htopic).
    rewrite !bool_decide_eq_true_2 by (done || lia).
    change ("/api/v1/topics/" +:+ (topic +:+ "/events")) with (topic_path topic).
    rewrite (call_served fuel clk2 ctx "GET" (topic_path topic) _ None _ true c (with_node n' s) (with_node n' s) StreamEnded 200%Z
      (encode_json (read_json topic payload k ts))); [by rewrite (Unmarshal_read depth _ _ _ _ _ _ Htopic Hstd Hdepth Hk Htime)| |done].
    rewrite Hres. erewrite (serve_authenticated _ _ _ _ (with_node n' s) RouteTopics claims (api_token c));
      [|done|exact Hmux|done..|by unfold r_header; cbn [wire_request r_Header hq_Header]; rewrite Hh3|done|done].
    cbn [route_handler]. rewrite (serve_topic_events _ topic) by done.
    destruct (read_back ctx topic payload (clk_now clk) (n_log n') a) as (ev & Hread & H1 & H2 & H3 & H4);
      [done|done|done|done|by eapply print_nonnil, std_wf|exact Hrep|].
    erewrite (serve_read _ claims topic payload ts k depth (clk_now clk)); [reflexivity|..]; try done; lia.
Qed.

(** C12: what is published is read back.  On a running node with a working link
    and room in its clients' channels, a publish over the wire by a client with
    a valid token succeeds and answers with the topic's next offset, and a read
    of that offset yields the event: its topic, its payload, its time and its
    offset.  The one exception is the topic [..], which is accepted as well: the
    client resolves the path of its events to another one, follows a redirect to
    the stream, and fails on the answer. *)
Theorem publish_read_roundtrip {L P : Type} `{!EventLog L, !PeerLink P, MO : !MapOrder, TF : !TextFormats, TL : !TextFormatsLaws, !JWT, !JWTLaws, !EventLogSpec L, !PeerLinkSpec P}
    (fuel : nat) (clk clk2 : Clock) (ctx : Ctx) (c : APIClient) (s : Server L P) (a : AbsLog) (claims : JWTClaims)
    (topic : string) (payload : json) (depth : nat) (ts : bytes) (peers : list PeerNode)
    (Hready : publish_ready clk clk2 ctx (api_token c) s a claims topic payload depth ts peers) :
  let k := abs_end a topic in
  ∃ s', @api_PublishEvent (Server L P) (wire fuel clk) TF ctx topic payload c s =
      (Ok (mkPublishResponse (plain_event_id topic k) k (clk_now clk)), ctx, s') ∧
    @api_ReadEvents (Server L P) (wire fuel clk2) TF ctx topic k 1 c s' =
      (if decide (topic = ".."%string) then Err read_refused_error
       else Ok (mkReadEventsResponse [mkMessage (plain_event_id topic k) topic payload (clk_now clk) k] topic k 1), ctx, s').
Proof. by eapply publish_then_read. Qed.
