(* ===== verification/StreamAcross.v ===== *)
(** * From an HTTP client of one node to an HTTP client of another

    A publish over HTTP on one node, the gRPC link, the other node's log, and the
    event stream of a client there, down to the message that client reads. *)
From S2P Require Import Prelude Topics EventLog RoutingTable Peers Clients PebbleStorage MeshNode NodeLifecycle NodePublish NodeSubs Gossip.
From S2P Require Import PeerMessages GRPCLink LinkLifecycle LinkStreams LinkSpec LinkInvariant LinkGossip Inbound Delivery.
From S2P Require Import Utf8 Json JsonSpec SSECursor HTTP SSEMessage JsonValues SSEStream SSEReplay SSERegistry HTTPHandlers HTTPServer.
From S2P Require Import APIClient StreamClient StreamLines StreamResume SSELive EndToEnd.

#[local] Set Default Proof Using "Type*".

(** ** Following a stream *)
Section Follow.
Context {L P : Type} `{!EventLog L, !PeerLink P, MO : !MapOrder, TF : !TextFormats}.
Implicit Types n : MeshNode L P.

(** [streamWithKeepalive], as long as it receives events: [k] rounds of it. *)
Fixpoint stream_receives (k : nat) (ctx : Ctx) (client : Client) (topics : list string) (w : Writer) n
    : option (stream_state * Writer * MeshNode L P) :=
  match k with
  | 0 => Some (Streaming ctx client topics, w, n)
  | S k =>
    '(st, w, n) ← stream_step StreamReceive ctx client topics w n;
    match st with
    | Streaming ctx client topics => stream_receives k ctx client topics w n
    | _ => Some (st, w, n)
    end
  end.

(** What waits in the client's channel is written in order. *)
Lemma stream_receives_all ctx client topics evs : ∀ w n,
  eventChan (object_at (n_heap n) (client_chan client)) = evs → Forall printable evs → is_Some (w_status w) → w_room w = None →
  ∃ n', stream_receives (length evs) ctx client topics w n =
    Some (Streaming ctx client topics, mkWriter (w_status w) (w_body w ++ (evs ≫= event_frame (GetNodeID n))) None, n') ∧
    eventChan (object_at (n_heap n') (client_chan client)) = [].
Proof.
  induction evs as [|e evs IH]; intros w n Hch Hpr Hst Hroom; cbn [length stream_receives].
  { exists n. rewrite app_nil_r. split; [|done]. do 2 f_equal. by destruct w; cbn in *; subst. }
  apply Forall_cons in Hpr as [He Hpr]. unfold stream_step, chan_receive. rewrite Hch. cbn [mbind option_bind].
  set (n1 := with_heap _ n). change (GetNodeID n1) with (GetNodeID n).
  destruct (writeSSEMessage_event (GetNodeID n) e w He Hst Hroom) as (m & -> & ->).
  set (w1 := mkWriter _ _ None). destruct (IH w1 n1) as (n' & Hr & Hn'); [|done|done|done|].
  { subst n1. cbn [n_heap with_heap]. by rewrite object_at_insert, decide_True. }
  exists n'. cbn [mbind option_bind]. rewrite Hr. subst w1. cbn [w_status w_body]. by rewrite bind_cons, (assoc_L (++)).
Qed.
End Follow.

(** ** Opening the stream *)

(** Registering a stream for the client's own subscriptions changes who is
    delivered to, not what the node is interested in. *)
Lemma register_agree {L P : Type} `{!EventLog L, !PeerLink P, MO : !MapOrder} (client : Client) (subs : list ClientSubscription)
    (topics : list string) (n n1 : MeshNode L P) :
  as_subscriber client = Some (SubClient client) → registerSSEClient client subs n = (Ok topics, n1) → tables_agree n →
  Forall (λ sub, ∃ id sub', meta n !! (client_ID client, id) = Some sub' ∧ cs_Topic sub' = cs_Topic sub) subs →
  tables_agree n1.
Proof.
  intros Hcl Hreg [Hrt Hopen Hb Htopic Hsync] Hown. unfold registerSSEClient in Hreg.
  destruct (register_loop_wf _ _ _ _ _ _ _ Hcl Hreg Hrt) as [Hwf Hn].
  destruct (register_loop_spec client subs ∅ [] n Hcl Hopen) as (ts & rt & Hreg' & Hop & Hts & Hkeys).
  { eapply Forall_impl; [exact Hown|]. intros sub (id & sub' & Hm & <-). by eapply Htopic. }
  rewrite Hreg in Hreg'. injection Hreg' as -> ->. split; try done.
  intros topic cid. specialize (Hkeys (topic, cid)). unfold rt_entries in Hkeys. rewrite Hkeys. case_decide as Ho; [|apply Hsync].
  split; [intros _|by eexists]. destruct Ho as [Hid Hin]. cbn in Hid, Hin. subst cid.
  apply Hts in Hin as [(sub & -> & Hin)%list_elem_of_fmap _]. rewrite Forall_forall in Hown. by apply Hown.
Qed.

(** ** From one client to the other *)
Section Across.
Context {L L' : Type} `{!EventLog L, !EventLogSpec L, !EventLog L', !EventLogSpec L', MO : !MapOrder} {NW : Network}.
Context `{TF : !TextFormats, TL : !TextFormatsLaws, JW : !JWT, JL : !JWTLaws}.

(** The event as the other node's log has it. *)
Definition arrived (now1 now2 : Z) (topic : string) (payload : json) (k j : Z) : Event :=
  WithOffset (received_as now2 (WithOffset (published_event now1 topic payload) k)) j.

Lemma arrived_payload now1 now2 topic payload k j :
  print payload ≠ [] → Payload (arrived now1 now2 topic payload k j) = Some (print payload).
Proof using Type. intros Hne. cbn. unfold append_nil. by case_bool_decide || destruct (print payload). Qed.

(** C2: what one client publishes another one reads, on another node.  A client
    with a valid token publishes over HTTP on a node whose gRPC link takes the
    event.  At another node, for whose interest the first node's view is
    accurate and whose event consumer keeps up with the link, a second
    client's event stream is open, with nothing waiting and one matching
    subscription.  Then the publish is answered with the topic's next offset, and once the
    consumer has taken what waits, the handler of the stream has exactly one event to write;
    the second client, reading the body written so far, gets exactly one
    message: the topic, the same payload, the time at which the event arrived and the offset
    that the second node's log gave it. *)
Theorem stream_across_nodes (fuel : nat) (clk clk2 : Clock) (ctx ctx2 : Ctx) (c : APIClient) (s : Server L GRPCPeerLink)
    (m : MeshNode L' GRPCPeerLink) (a b : AbsLog) (claims : JWTClaims) (topic : string) (payload : json) (depth : nat) (ts : bytes)
    (peers : list PeerNode) (ech ich : nat) (iops : list inbound_op) (sub : Client) (topics : list string)
    (config : StreamConfig) (sc : StreamClient)
    (Hready : publish_ready clk clk2 ctx (api_token c) s a claims topic payload depth ts peers)
    (Hctx : ctx_live ctx2) :
  let '(client, heap) := NewHTTPClient (clk_now clk) (jwt_ClientID claims) (n_heap (srv_node s)) in
  let n := with_heap heap (srv_node s) in
  let k := abs_end a topic in
  let j := abs_end b topic in
  let e := published_event (clk_now clk) topic payload in
  let n' := (PublishEventWithResult ctx (Some client) (Some e) n).2 in
  let now := g_now (n_link m) in
  ∀ (Hpath : delivery n m [(ctx, client, e)] [WithOffset e k] n' a b ech ich iops)
    (Hsub : deliver_count (client_chan sub) (matching m topic) = 1)
    (Hempty : eventChan (object_at (n_heap m) (client_chan sub)) = [])
    (Hread : readable (GetNodeID m) (arrived (clk_now clk) now topic payload k j))
    (Hnode : GetNodeID m ≠ ""%string ∧ valid_text (GetNodeID m))
    (Hwanted : sc_Topics config = [] ∨ matchesAnyStreamTopic (sc_Topics config) topic = true)
    (Hsc : sc_resumeNodeID sc = ""%string ∨ sc_resumeNodeID sc = GetNodeID m)
    (Hroom : length (sc_events sc) < sc_events_cap sc),
  @api_PublishEvent (Server L GRPCPeerLink) (wire fuel clk) TF ctx topic payload c s =
    (Ok (mkPublishResponse (plain_event_id topic k) k (clk_now clk)), ctx, with_node n' s) ∧
  ∃ w m2 sc2,
    stream_receives 1 ctx2 sub topics (mkWriter (Some 200%Z) sse_greeting None) (taken_all ech ich iops ctx2 m) =
      Some (Streaming ctx2 sub topics, w, m2) ∧
    eventChan (object_at (n_heap m2) (client_chan sub)) = [] ∧
    processSSEStream ctx2 (w_body w) None config sc = (None, ctx2, sc2) ∧
    sc_events sc2 = sc_events sc ++ [mkMessage (event_id (GetNodeID m) topic j) topic payload now j].
Proof.
  destruct (NewHTTPClient _ _ _) as [client heap] eqn:Hc. intros n k j e n' now Hpath Hsub Hempty Hread Hnode Hwanted Hsc Hroom.
  pose proof (publish_served fuel clk clk2 ctx c s a claims topic payload depth ts peers Hready) as Hserved.
  cbv zeta in Hserved. rewrite Hc in Hserved. destruct Hserved as (n1 & Hpub & _ & Hapi).
  fold e k n in Hpub. assert (n' = n1) as Hn by (subst n'; by rewrite Hpub). clearbody n'. subst n1. split; [exact Hapi|].
  destruct (ready_payload _ _ _ _ _ _ _ _ _ _ _ _ Hready) as [Hstd _]. pose proof (ready_depth _ _ _ _ _ _ _ _ _ _ _ _ Hready) as Hdepth.
  destruct (delivery_reaches n m [(ctx, client, e)] [WithOffset e k] n' a b ech ich iops ctx2 Hpath) as (_ & _ & _ & _ & Hframe & Hch);
    [by cbn [publish_all]; rewrite Hpub|done|].
  set (m' := taken_all ech ich iops ctx2 m) in *. set (e' := arrived (clk_now clk) now topic payload k j) in *.
  assert (Payload e' = Some (print payload)) as Hprinted by (apply arrived_payload; by eapply print_nonnil, std_wf).
  assert (eventChan (object_at (n_heap m') (client_chan sub)) = [e']) as Hwaits.
  { specialize (Hch (client_chan sub)). rewrite Hempty in Hch. cbn [published fmap list_fmap with_offsets app] in Hch.
    rewrite filter_cons, decide_True in Hch by (cbn; intros Hm; cbn in Hsub; by rewrite Hm in Hsub).
    unfold handed in Hch. cbn [filter list_filter fmap list_fmap with_offsets mbind list_bind app] in Hch.
    change (Topic (WithOffset (received_as _ _) _)) with topic in Hch. rewrite Hsub in Hch. cbn [replicate app] in Hch.
    inversion Hch as [|x y l l' Hx Hl Hx1 Hx2]; subst. inversion Hl; subst. f_equal. apply equiv_payload; [|exact Hx].
    rewrite Hprinted. by eapply print_nonnil, std_wf. }
  destruct (stream_receives_all ctx2 sub topics [e'] (mkWriter (Some 200%Z) sse_greeting None) m' Hwaits) as (m2 & Hrun & Hdone);
    [constructor; [by apply Hread|done]|by eexists|done|].
  assert (GetNodeID m' = GetNodeID m) as Hid by (unfold GetNodeID; by destruct Hframe as [-> _]). rewrite Hid in Hrun.
  eexists _, m2, _. split; [exact Hrun|]. split; [exact Hdone|]. cbn [w_body].
  split; [apply client_reads_stream; [done|by constructor]|].
  destruct (take_all config (GetNodeID m) Hnode [e'] sc) as (-> & _); [by constructor|by constructor|done|cbn; lia|].
  f_equal. cbn [fmap list_fmap]. unfold received. rewrite Hprinted.
  rewrite (payload_json_print depth), (std_canon _ _ Hstd) by (done || lia). done.
Qed.
End Across.
