(* ===== verification/HTTPWitness.v ===== *)
(** * Concrete text formats, tokens and servers

    Instances of the parameters of the HTTP layer, for which their laws hold,
    and the layer's theorems at a concrete node. *)
From stdpp Require Import countable.
From S2P Require Import Prelude Topics EventLog MemoryLog PebbleStorage RoutingTable Peers Clients MeshNode.
From S2P Require Import NodeLifecycle NodePublish InFlight NodeWitness Utf8 Json JsonSpec SSECursor HTTP SSEMessage SSEStream.
From S2P Require Import SSEReplay SSERegistry HTTPHandlers HTTPServer HTTPIsolation APIClient StreamClient StreamLines StreamResume SSELive JsonValues EndToEnd.

#[local] Existing Instance map_order_id.

(** ** Text formats: integers only, and times as their nanoseconds *)
#[export] Instance plain_formats : TextFormats := {|
  format_float lit := FormatInt <$> ParseInt64 lit;
  format_time t := if bool_decide (is_int64 t) then Some (FormatInt t) else None;
  parse_time := ParseInt64;
  format_quoted s := s
|}.

#[export] Instance plain_formats_laws : TextFormatsLaws.
Proof.
  split.
  - intros lit lit' (z & _ & ->)%fmap_Some. apply FormatInt_literal.
  - intros lit lit' Hl. simpl in *. apply fmap_Some in Hl as (z & Hz & ->).
    rewrite ParseInt64_FormatInt; [done|]. unfold ParseInt64 in Hz.
    apply bind_Some in Hz as (y & _ & Hy). by case_bool_decide; simplify_eq.
  - intros t b. simpl. case_bool_decide; [|done]. intros [= <-]. apply ascii_valid.
    destruct (FormatInt_digits t) as (sign & u & -> & _ & Hs). apply Forall_app; split; [by destruct Hs as [->| ->]; repeat constructor|].
    unfold digits. by induction u; simpl; constructor.
  - intros t b. simpl. case_bool_decide; [|done]. intros [= <-]. by apply ParseInt64_FormatInt.
Qed.

(** ** Tokens: the key and the claims as bits *)
Definition token_bits (key : string) (c : JWTClaims) (expires : Z) : bytes :=
  bits_of_pos (encode (key, jwt_ClientID c, jwt_IsAdmin c, expires)).

Definition err_token : error := ErrVar "jwt.ErrTokenInvalid" "token is invalid".

#[export] Instance plain_jwt : JWT := {|
  jwt_Sign key c issued expires := Ok (String "t" (string_of_bytes (token_bits key c expires)));
  jwt_Parse key now token :=
    match decode (pos_of_bits (bytes_of_string (String.substring 1 (String.length token) token)))
          : option (string * string * bool * Z) with
    | Some (key', clientID, isAdmin, expires) =>
      if bool_decide (key' = key) && (now <? expires / jwt_second * jwt_second)%Z then Ok (mkClaims clientID isAdmin) else Err err_token
    | None => Err err_token
    end
|}.

Lemma substring_all s m : String.length s ≤ m → String.substring 0 m s = s.
Proof. revert m. induction s as [|c s IH]; intros [|m] Hm; simpl in *; [done..|lia|]. by rewrite IH by lia. Qed.

#[export] Instance plain_jwt_laws : JWTLaws.
Proof.
  split.
  - intros key c issued expires token now [= <-] Hnow. cbn [jwt_Parse plain_jwt].
    cbn [String.substring String.length]. rewrite substring_all by lia. rewrite bytes_of_string_of_bytes.
    unfold token_bits. rewrite pos_of_bits_of_pos, decode_encode, bool_decide_eq_true_2 by done.
    rewrite (proj2 (Z.ltb_lt _ _)) by done. by destruct c.
  - by intros key c issued expires token [= <-].
Qed.

(** ** Streams *)
Definition alice_sub (id topic : string) : ClientSubscription := mkClientSubscription id topic "alice" 0.
Definition alice1 : Client := HTTPClient "alice" true 0 1.
Definition alice2 : Client := HTTPClient "alice" true 0 2.

Lemma streams_share_entries_witness :
  ∃ topics n1 topics2 n2,
    registerSSEClient alice1 [alice_sub "s1" "orders.*"] base_node = (Ok topics, n1) ∧
    registerSSEClient alice2 [alice_sub "s1" "orders.*"] n1 = (Ok topics2, n2) ∧
    rt_entries n1 !! ("orders.*", "alice")%string = Some (SubClient alice1) ∧
    rt_entries n2 !! ("orders.*", "alice")%string = Some (SubClient alice2) ∧
    rt_entries (unregisterSSEClient alice1 topics n2) !! ("orders.*", "alice")%string = None.
Proof.
  destruct (streams_share_entries alice1 alice2 [alice_sub "s1" "orders.*"] base_node)
    as (topics & n1 & topics2 & n2 & H1 & H2 & Ht & Hk1 & _ & Hk2 & Hk3);
    [reflexivity|reflexivity|reflexivity|reflexivity|by repeat constructor|].
  assert ("orders.*"%string ∈ topics) as Hin by (apply Ht; by left).
  exists topics, n1, topics2, n2. split; [done|]. split; [done|].
  rewrite Hk1, Hk2, Hk3. by rewrite !decide_True by (by split).
Defined.

(** ** Replay *)

(** Two events of one topic, of which the client has the first. *)
Definition second_event : Event := NewEvent 8 "orders.created" (Some (bytes_of_string "{}")).
Definition created_log : AbsLog := abs_push (abs_push abs_empty "orders.created" created_event) "orders.created" second_event.

Definition node_log (l : InMemoryEventLog) : Node :=
  mkMeshNode (NewConfig "A" "localhost:9090") l carol_table (mkRecordingLink [peer_B] [] []) ∅ true false
    (Some 0) [0] {["carol" := carol]} ∅ {["B" := {["*.created" := true]}]} no_counters.

Definition mem_append (e : Event) (l : InMemoryEventLog) : InMemoryEventLog :=
  (AppendEvent ctx_Background (Topic e) (Some e) l).2.
Definition created_mem : InMemoryEventLog := mem_append second_event (mem_append created_event NewInMemoryEventLog).

Lemma created_mem_rep : log_rep created_mem created_log.
Proof.
  destruct (append_ok ctx_Background "orders.created" created_event NewInMemoryEventLog abs_empty)
    as (l1 & H1 & R1); [apply mem_rep_new|reflexivity|done|by vm_compute|].
  destruct (append_ok ctx_Background "orders.created" second_event l1 (abs_push abs_empty "orders.created" created_event))
    as (l2 & H2 & R2); [done|reflexivity|done|by vm_compute|].
  assert (mem_append created_event NewInMemoryEventLog = l1) as He by exact (f_equal snd H1).
  unfold created_mem. rewrite He. assert (mem_append second_event l1 = l2) as -> by exact (f_equal snd H2). exact R2.
Qed.

Definition one_cursor : sseMultiTopicCursor := mkMultiCursor 1 "A" {["orders.created" := 0%Z]}.
Definition open_writer : Writer := mkWriter (Some 200%Z) [] None.

Lemma created_log_topic : abs_topic created_log "orders.created" = [WithOffset created_event 0; WithOffset second_event 1].
Proof. vm_compute. reflexivity. Qed.

Lemma created_log_printable : Forall printable (abs_topic created_log "orders.created").
Proof. rewrite created_log_topic. repeat constructor; by eexists. Qed.

Lemma one_cursor_entries : range_map (mc_Topics one_cursor) = [("orders.created"%string, 0%Z)].
Proof. vm_compute. reflexivity. Qed.

Lemma replay_exact_witness :
  ∃ evs, evs ≡ rest created_log "orders.created" 1 ∧
    replaySSECursor 11 ctx_Background one_cursor ["orders.*"%string] NewHandlers open_writer (node_log created_mem) =
    Some (Ok (), ctx_Background, add_replayed (Z.of_nat (length evs)) NewHandlers,
          mkWriter (Some 200%Z) (evs ≫= event_frame "A") None).
Proof.
  destruct (replay_exact (node_log created_mem) created_log ctx_Background one_cursor ["orders.*"%string] NewHandlers
    open_writer 11) as [Hplan Hrun]; [exact created_mem_rep|reflexivity|reflexivity| |by eexists|reflexivity|by vm_compute|lia|].
  - rewrite one_cursor_entries. apply Forall_singleton. split; [done|by vm_compute|by vm_compute|by vm_compute|].
    exact created_log_printable.
  - rewrite one_cursor_entries in *. destruct Hrun as (evss & Hevss & _ & Hreplay); [apply Hplan; split; vm_compute; [lia|done]|].
    apply Forall2_cons_inv_l in Hevss as (evs & evss' & Hevs & ->%Forall2_nil_inv_l & ->).
    exists evs. split; [exact Hevs|]. cbn [concat] in Hreplay. rewrite (right_id_L [] (++)) in Hreplay. exact Hreplay.
Defined.

(** ** Resuming: the client has read the first of the two events *)
Lemma created_log_other t : t ≠ "orders.created"%string → abs_topic created_log t = [].
Proof.
  intros Ht. unfold created_log. rewrite !abs_topic_push. by rewrite !decide_False by done.
Qed.

Lemma created_readable e : e ∈ abs_topic created_log "orders.created" → readable "A" e ∧ contents (Payload e) ≠ [].
Proof.
  rewrite created_log_topic. intros [->|[->|[]%not_elem_of_nil]%elem_of_cons]%elem_of_cons;
    (split; [|done]; split; [by split; vm_compute|by split; vm_compute|by eexists|apply Nat.leb_le; by vm_compute|]);
    repeat (constructor; [by vm_compute|]); constructor.
Qed.

Definition all_topics_config : StreamConfig := mkStreamConfig [] 100 0 0.
Definition fresh_client : StreamClient :=
  mkStreamClient (mkAPIClient (mkClientConfig "http://localhost:8081" "alice" "" 0 0) "t") [] 100 [] ∅ "" ∅.
Definition first_read : list Event := [WithOffset created_event 0].

Lemma first_read_positions : range_map (positions first_read) = [("orders.created"%string, 0%Z)].
Proof. vm_compute. reflexivity. Qed.

Lemma resume_exactly_once_witness :
  ∃ sc2 all, all ≡ abs_topic created_log "orders.created" ∧
    filter (λ m, sm_Topic m = "orders.created"%string) (sc_events sc2) = received "A" <$> all.
Proof.
  destruct (resume_exactly_once (node_log created_mem) created_log ctx_Background all_topics_config ["orders.*"%string]
    (λ _, 0) first_read fresh_client alice1 NewHandlers 11) as (sc1 & header & h' & w & sc2 & _ & _ & _ & _ & _ & Hall).
  - exact created_mem_rep.
  - reflexivity.
  - reflexivity.
  - by split; vm_compute.
  - intros t. unfold abs_end. destruct (decide (t = "orders.created"%string)) as [->|Ht];
      [by rewrite created_log_topic|by rewrite created_log_other].
  - intros t e e' He Heq. destruct (decide (t = "orders.created"%string)) as [->|Ht];
      [|rewrite created_log_other in He by done; by apply not_elem_of_nil in He].
    destruct (created_readable e He) as [Hr Hp]. rewrite (equiv_payload e e' Hp Heq). split; [|exact Hr].
    rewrite created_log_topic in He. by apply elem_of_cons in He as [->|[->|[]%not_elem_of_nil]%elem_of_cons].
  - intros t. destruct (decide (t = "orders.created"%string)) as [->|Ht]; [exists 1; by rewrite created_log_topic|].
    exists 0. unfold of_topic, first_read. by rewrite filter_cons, decide_False by (intros Heq; by apply Ht).
  - intros e ->%list_elem_of_singleton. split; [by vm_compute|by left].
  - done.
  - done.
  - rewrite first_read_positions. split; [by vm_compute; lia|by vm_compute].
  - rewrite first_read_positions. by vm_compute.
  - by vm_compute.
  - lia.
  - destruct (Hall "orders.created"%string) as (all & Heq & Hf); [by left|]. exists sc2, all. split; [exact Heq|exact Hf].
Defined.

(** ** Two publishes between registration and replay, delivered in reverse order

    The stream replays both and then receives the later one first. *)
Definition third_event : Event := NewEvent 9 "orders.created" (Some (bytes_of_string "[]")).
Definition fourth_event : Event := NewEvent 10 "orders.created" (Some (bytes_of_string "{}")).
Definition resume_cursor : gmap string Z := {["orders.created" := 0%Z]}.
Definition resume_node : Node := (registerSSEClient alice1 [alice_sub "s1" "orders.*"] (node_log created_mem)).2.
Definition appended_to (e : Event) (n : Node) : Node := with_log (AppendEvent ctx_Background (Topic e) (Some e) (n_log n)).2 n.
Definition third_flight : flight := mkFlight (Some ctx_Background) (WithOffset third_event 2) None.
Definition fourth_flight : flight := mkFlight (Some ctx_Background) (WithOffset fourth_event 3) None.

(** A delivery to its end, with what it gave up. *)
Fixpoint run_flight (fuel : nat) (f : flight) (n : Node) (lost : list Event) : option (Node * list Event) :=
  match fuel with
  | 0 => None
  | S fuel =>
    match flight_step f n with
    | (None, n') => Some (n', lost ++ flight_lost (client_chan alice1) f n)
    | (Some f', n') => run_flight fuel f' n' (lost ++ flight_lost (client_chan alice1) f n)
    end
  end.

Lemma run_flight_live fuel ctx topics todo h w f n lost n' lost' fs :
  run_flight fuel f n lost = Some (n', lost') →
  rtc (live_step ctx alice1 topics) (mkLive todo h w n (f :: fs) lost) (mkLive todo h w n' fs lost').
Proof.
  revert f n lost. induction fuel as [|fuel IH]; intros f n lost; cbn [run_flight]; [done|].
  pose proof (λ f' n1, live_flight ctx alice1 topics f f' n1 todo h w n [] fs lost) as Hstep.
  destruct (flight_step f n) as [[f'|] n1]; specialize (Hstep _ _ eq_refl).
  - intros Hrun. eapply rtc_l; [exact Hstep|by apply IH].
  - intros [= <- <-]. by apply rtc_once.
Qed.

Definition twice_node : Node := appended_to fourth_event (appended_to third_event resume_node).
Definition fourth_delivered : Node := from_option fst twice_node (run_flight 9 fourth_flight twice_node []).
Definition both_delivered : Node := from_option fst twice_node (run_flight 9 third_flight fourth_delivered []).
Definition replayed_writer : Writer := (replay_round ctx_Background "orders.created" 1 NewHandlers open_writer both_delivered).2.
Definition followed : option (stream_state * Writer * Node) :=
  stream_step StreamReceive ctx_Background alice1 ["orders.*"%string] replayed_writer both_delivered.
Definition followed_writer : Writer := from_option (λ x, x.1.2) open_writer followed.
Definition followed_node : Node := from_option snd both_delivered followed.

Lemma resume_registered :
  registerSSEClient alice1 [alice_sub "s1" "orders.*"] (node_log created_mem) = (Ok ["orders.*"%string], resume_node).
Proof. apply injective_projections; [by vm_compute|reflexivity]. Qed.

Lemma run_flight_done fuel f n : from_option (λ r, bool_decide (r.2 = [])) false (run_flight fuel f n []) = true →
  run_flight fuel f n [] = Some (from_option fst n (run_flight fuel f n []), []).
Proof. destruct (run_flight _ _ _ _) as [[n' lost]|]; [|done]. by intros Hl%bool_decide_eq_true; cbn in *; subst. Qed.

Lemma fourth_runs : run_flight 9 fourth_flight twice_node [] = Some (fourth_delivered, []).
Proof. apply run_flight_done. vm_compute. exact eq_refl. Qed.

Lemma third_runs : run_flight 9 third_flight fourth_delivered [] = Some (both_delivered, []).
Proof.
  assert (from_option (λ r, bool_decide (r.2 = [])) false (run_flight 9 third_flight fourth_delivered []) = true) as Hd
    by (vm_compute; exact eq_refl).
  revert Hd. unfold both_delivered. generalize (run_flight 9 third_flight fourth_delivered []).
  intros [[n lost]|]; [|discriminate]. intros Hl%bool_decide_eq_true. cbn in *. by subst.
Qed.

Lemma append_live (e ev : Event) (n : Node) todo h w fs lost :
  validatePublishRequest n (Some carol) (Some e) = None →
  (AppendEvent ctx_Background (Topic e) (Some e) (n_log n)).1 = (Ok ev, ctx_Background) → appendable n e →
  live_step ctx_Background alice1 ["orders.*"%string] (mkLive todo h w n fs lost)
    (mkLive todo h w (appended_to e n) (mkFlight (Some ctx_Background) ev None :: fs) lost).
Proof.
  intros Hv Hok Happ. unfold appended_to. destruct (AppendEvent ctx_Background (Topic e) (Some e) (n_log n)) as [[r ctx1] log] eqn:Ha.
  cbn in Hok. injection Hok as -> ->. by eapply live_publish.
Qed.

Lemma third_appendable : appendable resume_node third_event.
Proof. split; [done|]. intros a Ha. unfold abs_end. rewrite <-(mem_rep_topic _ _ _ Ha). by vm_compute. Qed.

Lemma fourth_appendable : appendable (appended_to third_event resume_node) fourth_event.
Proof. split; [done|]. intros a Ha. unfold abs_end. rewrite <-(mem_rep_topic _ _ _ Ha). by vm_compute. Qed.

Lemma replayed_round :
  replay_round ctx_Background "orders.created" 1 NewHandlers open_writer both_delivered =
  (RoundDone, ctx_Background, add_replayed 3 NewHandlers, replayed_writer).
Proof. apply injective_projections; [by vm_compute|reflexivity]. Qed.

Lemma followed_streaming : followed = Some (Streaming ctx_Background alice1 ["orders.*"%string], followed_writer, followed_node).
Proof.
  assert (from_option (λ x, x.1.1) StreamEnded followed = Streaming ctx_Background alice1 ["orders.*"%string]) as Hs by by vm_compute.
  unfold followed_writer, followed_node. destruct followed as [[[st w] n]|]; [by rewrite <-Hs|done].
Qed.

Lemma resume_steps :
  rtc (live_step ctx_Background alice1 ["orders.*"%string])
    (mkLive (replay_todo ["orders.*"%string] resume_cursor) NewHandlers open_writer resume_node [] [])
    (mkLive [] (add_replayed 3 NewHandlers) followed_writer followed_node [] []).
Proof.
  assert (replay_todo ["orders.*"%string] resume_cursor = [("orders.created"%string, 1%Z)]) as -> by by vm_compute.
  eapply rtc_l; [apply (append_live third_event (WithOffset third_event 2)); [by vm_compute|by vm_compute|exact third_appendable]|].
  eapply rtc_l; [apply (append_live fourth_event (WithOffset fourth_event 3)); [by vm_compute|by vm_compute|exact fourth_appendable]|].
  etrans; [exact (run_flight_live _ _ _ _ _ _ _ _ _ _ _ _ fourth_runs)|].
  etrans; [exact (run_flight_live _ _ _ _ _ _ _ _ _ _ _ _ third_runs)|].
  eapply rtc_l; [apply live_done, replayed_round|]. apply rtc_once, live_follow, followed_streaming.
Qed.

(** The first that comes through the channel is the later of the two. *)
Example reordered :
  (λ e, Offset e) <$> eventChan (object_at (n_heap both_delivered) 1) = [3; 2]%Z ∧
  (λ e, Offset e) <$> eventChan (object_at (n_heap followed_node) 1) = [2]%Z.
Proof. by vm_compute. Qed.

Lemma resume_alice : registered alice1 ["orders.*"%string] resume_node.
Proof.
  destruct (register_registered alice1 [alice_sub "s1" "orders.*"] ["orders.*"%string] (node_log created_mem) resume_node)
    as [Hreg _]; [reflexivity|by repeat constructor|reflexivity|exact carol_table_wf|exact resume_registered|exact Hreg].
Qed.

Lemma nowhere_else {A} (Q : Prop) (x : A) : Q ∨ x ∈ [] ∨ x ∈ [] → Q.
Proof. by intros [Hq|[[]%not_elem_of_nil|[]%not_elem_of_nil]]. Qed.

Lemma resume_loses_nothing_witness :
  ∃ a' items, log_rep (n_log followed_node) a' ∧ w_body followed_writer = items ≫= chunk "A" ∧
    ∀ i e, abs_topic a' "orders.created" !! i = Some e → (0 < Z.of_nat i)%Z →
      ∃ e', e' ≡ e ∧ e' ∈ omap id items ++ eventChan (object_at (n_heap followed_node) 1).
Proof.
  destruct (resume_loses_nothing ctx_Background alice1 ["orders.*"%string] resume_cursor
    NewHandlers (add_replayed 3 NewHandlers) open_writer followed_writer resume_node followed_node
    created_log [] [] [] []) as (a' & items & rep & fol & app & Hlog & _ & Hbody & _ & _ & _ & _ & Hall).
  - by split; vm_compute.
  - exact resume_alice.
  - exact created_mem_rep.
  - reflexivity.
  - intros t e He. destruct (decide (t = "orders.created"%string)) as [->|Ht].
    + rewrite created_log_topic in He. by apply elem_of_cons in He as [->|[->|[]%not_elem_of_nil]%elem_of_cons].
    + rewrite created_log_other in He by done. by apply not_elem_of_nil in He.
  - intros t. unfold abs_end. destruct (decide (t = "orders.created"%string)) as [->|Ht];
      [rewrite created_log_topic|rewrite created_log_other by done]; by vm_compute.
  - intros t o Hto. unfold resume_cursor in Hto. apply lookup_singleton_Some in Hto as [<- <-]. by split_and!; vm_compute.
  - exact resume_steps.
  - exists a', items. split; [exact Hlog|]. split; [exact Hbody|].
    destruct (Hall "orders.created"%string) as (_ & _ & Hc).
    destruct (Hc 0%Z eq_refl ltac:(by vm_compute)) as (m & _ & Hdone). destruct (Hdone eq_refl) as [_ Hcov]. intros i e Hi Hlt.
    destruct (Hcov i e Hi Hlt) as (e' & He & Hin). exists e'. split; [exact He|exact (nowhere_else _ _ Hin)].
Defined.

(** ** Isolation: [alice] subscribes with her token *)
Definition sample_server : Server InMemoryEventLog RecordingLink := NewServer base_node "k" false.
Definition alice_token : string := default "" (match jwt_Sign "k" (mkClaims "alice" false) 0 token_lifetime with Ok t => Some t | _ => None end).
Definition subscribe_request : Request :=
  mkRequest ctx_Background "POST" "/api/v1/subscriptions"
    {["Content-Type" := "application/json"; "Authorization" := "Bearer " +:+ alice_token]}%string ∅
    (print (JObj [member "topic" (JString "orders.eu")])) None "" "".

Definition sample_clock : Clock := mkClock 1 2 3.

Lemma base_keyed : clients_keyed (srv_node sample_server).
Proof. intros id c Hc. cbn in Hc. by rewrite lookup_empty in Hc. Qed.

Definition sample_run : option (stream_state * Writer * Server InMemoryEventLog RecordingLink) :=
  ServeHTTP 11 sample_clock subscribe_request new_writer sample_server.

Lemma sample_run_result :
  (λ x, (w_status x.1.2, bool_decide (is_Some (n_subs (srv_node x.2) !! "alice"%string)))) <$> sample_run =
  Some (Some 201%Z, true).
Proof. vm_compute. reflexivity. Qed.

Lemma alice_claims :
  ValidateToken (srv_secretKey sample_server) (clk_now sample_clock) (extractToken subscribe_request) =
  Ok (mkClaims "alice" false).
Proof. vm_compute. reflexivity. Qed.

Lemma client_isolation_witness :
  ∃ st w' s', sample_run = Some (st, w', s') ∧ w_status w' = Some 201%Z ∧
    is_Some (n_subs (srv_node s') !! "alice"%string) ∧ only_client "alice" (srv_node sample_server) (srv_node s').
Proof.
  pose proof sample_run_result as Hr. destruct sample_run as [[[st w'] s']|] eqn:Hs; [|discriminate Hr].
  exists st, w', s'. split; [done|]. cbn in Hr. injection Hr as Hst Hsub%bool_decide_eq_true.
  split; [done|]. split; [done|].
  destruct (client_isolation 11 sample_clock subscribe_request new_writer w' sample_server s' st base_keyed Hs)
    as (_ & _ & [Heq|(c & [[Hno _]|Hv] & Ho)] & _); [|discriminate Hno|].
  - rewrite Heq in Hsub. by destruct Hsub.
  - rewrite alice_claims in Hv. by injection Hv as <-.
Defined.

(** ** End to end: [alice] logs in, publishes and reads *)
Definition alice_claims_of : JWTClaims := mkClaims "alice" false.
Definition signed_token (now : Z) : string := String "t" (string_of_bytes (token_bits "k" alice_claims_of (now + token_lifetime))).
Definition alice_client (token : string) : APIClient := mkAPIClient (mkClientConfig "http://localhost:8081" "alice" "" 0 0) token.

Definition alice_request : Request :=
  mkRequest ctx_Background "GET" "/api/v1/subscriptions" {["Authorization"%string := "Bearer " +:+ signed_token 1]} ∅ [] None "" "".

Lemma alice_request_header : r_header alice_request "Authorization" = "Bearer " +:+ signed_token 1.
Proof. unfold r_header, alice_request. cbn [r_Header]. by rewrite lookup_singleton_eq. Qed.

Lemma login_token_witness :
  @Authenticate _ (wire 11 sample_clock) _ ctx_Background (alice_client "") sample_server =
    (Ok (), ctx_Background, alice_client (signed_token 1), sample_server) ∧
  ∃ r, AuthRequired 1000000000 alice_request new_writer sample_server = inl r.
Proof.
  destruct (login_token 11 sample_clock ctx_Background (alice_client "") sample_server "alice" (signed_token 1)
    (FormatInt (1 + token_lifetime))) as [Hlogin Hauth];
    [reflexivity|by vm_compute|by vm_compute|by vm_compute|by vm_compute|reflexivity|].
  split; [exact Hlogin|]. eexists.
  exact (proj1 (Hauth 1000000000%Z alice_request new_writer alice_request_header ltac:(by vm_compute))).
Defined.

Definition sample_payload : json := JObj [member "total" (JInt 7)].

Lemma sample_payload_std : std 1 sample_payload.
Proof.
  constructor; [by intros k v [= -> ->]%list_elem_of_singleton| |by vm_compute].
  intros k v [= -> ->]%list_elem_of_singleton. constructor. by vm_compute.
Qed.

Lemma sample_ready :
  publish_ready sample_clock sample_clock ctx_Background (signed_token 0) sample_server
    abs_empty alice_claims_of "orders.eu" sample_payload 1 (FormatInt 1) [peer_B].
Proof.
  split.
  - reflexivity.
  - by split.
  - apply mem_rep_new.
  - reflexivity.
  - by vm_compute.
  - done.
  - apply rt_wf_new.
  - reflexivity.
  - split; [intros x Hx; by apply not_elem_of_nil in Hx|]. intros ref. by right.
  - reflexivity.
  - by vm_compute.
  - reflexivity.
  - done.
  - by split; vm_compute.
  - reflexivity.
  - split; [exact sample_payload_std|done].
  - apply Nat.leb_le. by vm_compute.
  - by vm_compute.
  - reflexivity.
Qed.

Lemma publish_read_roundtrip_witness :
  ∃ s', @api_ReadEvents _ (wire 11 sample_clock) _ ctx_Background "orders.eu" 0 1 (alice_client (signed_token 0)) s' =
    (Ok (mkReadEventsResponse [mkMessage "orders.eu-0" "orders.eu" sample_payload 1 0] "orders.eu" 0 1), ctx_Background, s').
Proof.
  destruct (publish_read_roundtrip 11 sample_clock sample_clock ctx_Background (alice_client (signed_token 0)) sample_server
    abs_empty alice_claims_of "orders.eu" sample_payload 1 (FormatInt 1) [peer_B] sample_ready) as (s' & _ & Hread).
  exists s'. exact Hread.
Defined.

(** The topic [..] is published to and cannot be read. *)
Example dotdot_published :
  (@api_PublishEvent _ (wire 11 sample_clock) _ ctx_Background ".." sample_payload (alice_client (signed_token 0)) sample_server).1.1 =
    Ok (mkPublishResponse "..-0" 0 1).
Proof. by vm_compute. Qed.
Example dotdot_not_read :
  (@api_ReadEvents _ (wire 11 sample_clock) _ ctx_Background ".." 0 1 (alice_client (signed_token 0)) sample_server).1.1 = Err read_refused_error.
Proof. by vm_compute. Qed.

(** ** A payload that is neither JSON nor UTF-8 *)
Definition raw_payload : bytes := [ascii_of_N 255; ascii_of_N 10; ascii_of_N 97].

