(* ===== verification/AcrossWitness.v ===== *)
(** * A publish that crosses two nodes

    The theorem of [StreamAcross.v] at concrete nodes: [alice] publishes over
    HTTP on node A, and [bob]'s event stream is open on node B. *)
From S2P Require Import Prelude Topics EventLog MemoryLog PebbleStorage RoutingTable Peers Clients MeshNode NodeLifecycle NodePublish.
From S2P Require Import NodeSubs Gossip NodeWitness PeerMessages GRPCLink LinkLifecycle LinkStreams LinkSpec LinkInvariant LinkGossip Inbound Delivery LinkWitness.
From S2P Require Import Utf8 Json JsonSpec SSECursor HTTP SSEMessage SSEStream SSEReplay SSERegistry HTTPHandlers HTTPServer.
From S2P Require Import APIClient StreamClient StreamLines StreamResume JsonValues EndToEnd StreamAcross HTTPWitness.

#[local] Existing Instance map_order_id.
#[local] Existing Instance sample_network.

Definition bob : Client := HTTPClient "bob" true 0 5.
Definition bob_stream : Client := HTTPClient "bob" true 0 6.
Definition bob_sub : ClientSubscription := mkClientSubscription "bob-sub" "orders.*" "bob" 1.

(** [bob] has subscribed on B, and A has heard of it. *)
Definition subscribed_B : MeshNode InMemoryEventLog GRPCPeerLink :=
  sub_run [OpSubscribe ctx_Background 1 2 (Some bob) "orders.*"] (handleIncomingDataPlaneEvents_start starting_node).2.
Definition streaming_B : MeshNode InMemoryEventLog GRPCPeerLink := (registerSSEClient bob_stream [bob_sub] subscribed_B).2.
Definition server_A : Server InMemoryEventLog GRPCPeerLink := NewServer publisher_node "k" false.

Definition alice_heap : Client * Heap := NewHTTPClient (clk_now sample_clock) "alice" (n_heap publisher_node).
Definition ready_A : MeshNode InMemoryEventLog GRPCPeerLink := with_heap alice_heap.2 publisher_node.
Definition paid_event : Event := published_event (clk_now sample_clock) "orders.eu" sample_payload.
Definition published_A : MeshNode InMemoryEventLog GRPCPeerLink :=
  (PublishEventWithResult ctx_Background (Some alice_heap.1) (Some paid_event) ready_A).2.
Definition crossing : list inbound_op := Arrive "A" <$> wires (pending dataPlaneMessage "B" (n_link published_A)).

Lemma bob_registered : registerSSEClient bob_stream [bob_sub] subscribed_B = (Ok ["orders.*"%string], streaming_B).
Proof. apply injective_projections; [by vm_compute|reflexivity]. Qed.

Lemma streaming_B_agree : tables_agree streaming_B.
Proof.
  apply (register_agree bob_stream [bob_sub] ["orders.*"%string] subscribed_B); [done|exact bob_registered| |].
  - apply sub_run_agree; [by repeat split|]. by apply tables_agree_new.
  - apply Forall_singleton. exists "sub-bob-1"%string, (mkClientSubscription "sub-bob-1" "orders.*" "bob" 2).
    by split; [vm_compute|].
Qed.

Lemma ready_to_publish :
  publish_ready sample_clock sample_clock ctx_Background (signed_token 0) server_A
    abs_empty alice_claims_of "orders.eu" sample_payload 1 (FormatInt 1) [peer_B].
Proof.
  split.
  - reflexivity.
  - by split.
  - apply mem_rep_new.
  - reflexivity.
  - by vm_compute.
  - done.
  - apply rt_wf_new.
  - reflexivity.
  - split; [intros x Hx; by apply not_elem_of_nil in Hx|]. intros ref. by right.
  - by vm_compute.
  - vm_compute. by eexists.
  - reflexivity.
  - done.
  - by split; vm_compute.
  - reflexivity.
  - split; [exact sample_payload_std|done].
  - apply Nat.leb_le. by vm_compute.
  - by vm_compute.
  - reflexivity.
Qed.

Lemma streaming_B_ready : receiver_ready 0 streaming_B abs_empty [received_as 0 (WithOffset paid_event 0)].
Proof.
  split.
  - split; [reflexivity|]. split; [vm_compute; set_solver|]. exists (make_chan recv_chan_cap). by split; [vm_compute|].
  - by split.
  - apply mem_rep_new.
  - reflexivity.
  - apply streaming_B_agree.
  - reflexivity.
  - intros e s ->%list_elem_of_singleton Hs _. assert (matching streaming_B "orders.eu" = [SubClient bob_stream]) as Hm by by vm_compute.
    change (Topic _) with "orders.eu"%string in Hs. rewrite Hm in Hs. apply list_elem_of_singleton in Hs as ->. by eexists.
  - intros ref. destruct (decide (6 = ref)) as [<-|Hne]; [left; apply Nat.leb_le; by vm_compute|].
    right. unfold handed. cbn [with_offsets mbind list_bind]. change (Topic _) with "orders.eu"%string.
    assert (matching streaming_B "orders.eu" = [SubClient bob_stream]) as -> by by vm_compute.
    unfold deliver_count. cbn [filter list_filter deliver_ref bob_stream]. rewrite decide_False by congruence. reflexivity.
  - repeat constructor; done.
  - intros t. rewrite abs_end_empty. by vm_compute.
Qed.

Lemma crossing_path :
  delivery ready_A streaming_B [(ctx_Background, alice_heap.1, paid_event)] [WithOffset paid_event 0] published_A
    abs_empty abs_empty 0 1 crossing.
Proof.
  split.
  - apply mem_rep_new.
  - apply rt_wf_new.
  - by repeat constructor.
  - intros t. rewrite abs_end_empty. by vm_compute.
  - exists [peer_B]. by split; vm_compute.
  - by vm_compute.
  - exact streaming_B_agree.
  - by vm_compute.
  - by vm_compute.
  - by vm_compute.
  - vm_compute. repeat (split; [lia|]). exact I.
  - by vm_compute; repeat constructor.
  - rewrite filter_cons, decide_True by by vm_compute. exact streaming_B_ready.
Qed.

Definition new_reader : StreamClient :=
  mkStreamClient (mkAPIClient (mkClientConfig "http://localhost:8082" "bob" "" 0 0) "t") [] 100 [] ∅ "" ∅.

Lemma paid_event_readable : readable "B" (arrived 1 0 "orders.eu" sample_payload 0 0).
Proof.
  split; [by split; vm_compute|by split; vm_compute|by eexists|apply Nat.leb_le; by vm_compute|].
  repeat (constructor; [by vm_compute|]). constructor.
Qed.

Lemma stream_across_nodes_witness :
  @api_PublishEvent (Server InMemoryEventLog GRPCPeerLink) (wire 11 sample_clock) _ ctx_Background "orders.eu" sample_payload
      (alice_client (signed_token 0)) server_A =
    (Ok (mkPublishResponse "orders.eu-0" 0 1), ctx_Background, with_node published_A server_A) ∧
  ∃ w m2 sc2,
    stream_receives 1 ctx_Background bob_stream ["orders.*"%string] (mkWriter (Some 200%Z) sse_greeting None)
      (taken_all 0 1 crossing ctx_Background streaming_B) = Some (Streaming ctx_Background bob_stream ["orders.*"%string], w, m2) ∧
    processSSEStream ctx_Background (w_body w) None all_topics_config new_reader = (None, ctx_Background, sc2) ∧
    sc_events sc2 = [mkMessage (event_id "B" "orders.eu" 0) "orders.eu" sample_payload 0 0].
Proof.
  pose proof (stream_across_nodes 11 sample_clock sample_clock ctx_Background ctx_Background (alice_client (signed_token 0)) server_A
    streaming_B abs_empty abs_empty alice_claims_of "orders.eu" sample_payload 1 (FormatInt 1) [peer_B] 0 1 crossing bob_stream
    ["orders.*"%string] all_topics_config new_reader ready_to_publish eq_refl) as H.
  change (NewHTTPClient _ _ _) with alice_heap in H. rewrite (surjective_pairing alice_heap) in H. cbv zeta in H.
  destruct (H crossing_path) as (Hpublish & w & m2 & sc2 & Hrun & _ & Hread & Hevents).
  - by vm_compute.
  - by vm_compute.
  - exact paid_event_readable.
  - by split; vm_compute.
  - by left.
  - by left.
  - apply Nat.leb_le. by vm_compute.
  - split; [exact Hpublish|]. exists w, m2, sc2. split; [exact Hrun|]. split; [exact Hread|exact Hevents].
Defined.
