(* ===== verification/Daemon.v ===== *)
(** * The daemon ([cmd/eventmesh/main.go])

    What the command line and the environment make of the packages: the
    configuration, the event log, the node on its peer link, the HTTP server in
    front of it, the peers to connect to, and the shutdown on a signal.  [Flags]
    holds the parsed command line ([CommandLine.v]); what the program logs is in
    [Startup.v], what it prints before it exits is kept here. *)
From S2P Require Import Prelude Topics EventLog MemoryLog PebbleKeys PebbleStorage PebbleLog RoutingTable Peers Clients MeshNode NodeLifecycle.
From S2P Require Import PeerMessages GRPCLink LinkLifecycle Utf8 Json SSECursor HTTP SSEMessage SSEStream HTTPHandlers HTTPServer.

(** ** The node's event log

    The node holds an [eventlog.EventLog]: a value of one of two types. *)
Inductive NodeLog (DB : Type) :=
  | MemoryBackend (log : InMemoryEventLog)
  | PebbleBackend (log : PebbleEventLog DB).
Arguments MemoryBackend {DB} log.
Arguments PebbleBackend {DB} log.

Section NodeLog.
Context {DB : Type} `{!PebbleDB DB, MO : !MapOrder, !ProtoCodec}.

(** A call goes to the method of the value's type. *)
Definition on_backend {A} (mem : InMemoryEventLog → A) (peb : PebbleEventLog DB → A) (log : NodeLog DB) : A :=
  match log with MemoryBackend log => mem log | PebbleBackend log => peb log end.

Definition nl_AppendEvent (ctx : Ctx) (topic : string) (event : option Event) : NodeLog DB → outcome Event * Ctx * NodeLog DB :=
  on_backend (λ log, let '(r, ctx, log) := AppendEvent ctx topic event log in (r, ctx, MemoryBackend log))
             (λ log, let '(r, ctx, log) := AppendEvent ctx topic event log in (r, ctx, PebbleBackend log)).

Definition nl_Close : NodeLog DB → outcome unit * NodeLog DB :=
  on_backend (λ log, let '(r, log) := CloseLog log in (r, MemoryBackend log))
             (λ log, let '(r, log) := CloseLog log in (r, PebbleBackend log)).

#[export] Instance NodeLog_ops : EventLog (NodeLog DB) := {|
  AppendEvent := nl_AppendEvent;
  ReadEvents ctx topic startOffset maxCount := on_backend (ReadEvents ctx topic startOffset maxCount) (ReadEvents ctx topic startOffset maxCount);
  GetTopicEndOffset ctx topic := on_backend (GetTopicEndOffset ctx topic) (GetTopicEndOffset ctx topic);
  ReplayEvents ctx topic startOffset := on_backend (ReplayEvents ctx topic startOffset) (ReplayEvents ctx topic startOffset);
  Compact ctx := on_backend (Compact ctx) (Compact ctx);
  GetStatistics ctx := on_backend (GetStatistics ctx) (GetStatistics ctx);
  CloseLog := nl_Close
|}.
End NodeLog.

(** ** Texts of the command line *)

(** [strings.SplitN(s, sep, 2)] of a text that contains [sep]. *)
Fixpoint split_first (sep : ascii) (s : string) : option (string * string) :=
  match s with
  | EmptyString => None
  | String c s =>
    if bool_decide (c = sep) then Some (""%string, s)
    else (λ '(before, after), (String c before, after)) <$> split_first sep s
  end.

(** [strings.ToLower], as far as a comparison with ASCII text can tell: two
    characters beyond ASCII become ASCII letters, U+0130 and U+212A. *)
Definition lower_rune (r : rune) : rune :=
  match r with
  | RuneASCII c => RuneASCII (if between 65 90 c then byte_of (code c + 32) else c)
  | RuneMulti b =>
    if bool_decide (b = byte_of <$> [0xC4; 0xB0]%Z) then RuneASCII "i"%char
    else if bool_decide (b = byte_of <$> [0xE2; 0x84; 0xAA]%Z) then RuneASCII "k"%char
    else r
  | RuneBad _ => r
  end.
Definition ToLower (s : string) : string :=
  string_of_bytes ((lower_rune <$> runes (bytes_of_string s)) ≫= rune_bytes).

Section Flags.
Context `{TF : !TextFormats}.

Fixpoint connect_peers_loop (parts : list string) (peers : list PeerNode) : outcome (list PeerNode) :=
  match parts with
  | [] => Ok peers
  | part :: parts =>
    let part := TrimSpace part in
    if bool_decide (part = ""%string) then connect_peers_loop parts peers
    else
      let '(id, address) := match split_first "="%char part with
                            | Some (before, after) => (TrimSpace before, TrimSpace after)
                            | None => (part, part)
                            end in
      if bool_decide (id = ""%string) || bool_decide (address = ""%string)
      then Err (ErrNew ("peer " +:+ format_quoted part +:+ " must be address or id=address"))
      else connect_peers_loop parts (peers ++ [mkPeerNode id address])
  end.

Definition parseConnectPeers (raw : string) : outcome (list PeerNode) :=
  peers ← connect_peers_loop (strings_Split raw ","%char) [];
  if bool_decide (length peers = 0) then Err (ErrNew "at least one peer is required") else Ok peers.

(** The seed list in [main]. *)
Definition parseSeedNodes (raw : string) : option (list string) :=
  if bool_decide (raw = ""%string) then None
  else Some (TrimSpace <$> strings_Split (TrimSpace raw) ","%char).

(** The factory put into the configuration, as what it returns; [open] is
    [pebble.Open]. *)
Definition applyEventLogConfig {DB} (open : string → outcome DB) (backend path : string)
    : outcome (option (outcome (option (NodeLog DB)))) :=
  let name := ToLower (TrimSpace backend) in
  if bool_decide (name ∈ [""; "memory"; "inmemory"; "in-memory"]%string) then Ok None
  else if bool_decide (name = "pebble"%string) then
    if bool_decide (TrimSpace path = ""%string)
    then Err (ErrNew "--eventlog-path is required when --eventlog-backend=pebble")
    else Ok (Some ((λ log, Some (PebbleBackend log)) <$> NewPebbleEventLog open path))
  else Err (ErrNew ("unknown EventLog backend " +:+ format_quoted backend)).
End Flags.

Inductive slog_Level := LevelDebug | LevelInfo | LevelWarn | LevelError.

(** The level, and the warning printed for an unknown one. *)
Definition setupLogging (levelStr : string) : slog_Level * option string :=
  let name := ToLower levelStr in
  if bool_decide (name = "debug"%string) then (LevelDebug, None)
  else if bool_decide (name = "info"%string) then (LevelInfo, None)
  else if bool_decide (name = "warn"%string) || bool_decide (name = "warning"%string) then (LevelWarn, None)
  else if bool_decide (name = "error"%string) then (LevelError, None)
  else (LevelInfo, Some ("Warning: unknown log level '" +:+ levelStr +:+ "', using 'info'")%string).

Definition getDefaultNodeID (hostname : outcome string) : string :=
  match hostname with Ok name => "eventmesh-" +:+ name | _ => "eventmesh-node-1" end.

Definition healthStatus (healthy : bool) : string := if healthy then "✅ Healthy" else "❌ Unhealthy".

(** ** State *)
Record Flags := mkFlags {
  fl_NodeID : option string;   (* None: not given *)
  fl_Listen : string;
  fl_PeerListen : string;
  fl_ConnectPeer : string;
  fl_HTTP : bool;
  fl_HTTPPort : string;
  fl_NoAuth : bool;
  fl_Version : bool;
  fl_Health : bool;
  fl_SeedNodes : string;
  fl_LogLevel : string;
  fl_EventLogBackend : string;
  fl_EventLogPath : string
}.

Definition default_flags : Flags :=
  mkFlags None ":8080" ":9090" "" false "8081" false false false "" "info" "memory" "".

(** [os.Hostname], [EVENTMESH_JWT_SECRET] (empty when unset) and the disk. *)
Record Environment (DB : Type) := mkEnvironment {
  env_Hostname : outcome string;
  env_JWTSecret : string;
  env_open : string → outcome DB
}.
Arguments mkEnvironment {DB}.
Arguments env_Hostname {DB}.
Arguments env_JWTSecret {DB}.
Arguments env_open {DB}.

(** The HTTP server beside the node that it serves; it answers while it has a
    listener and has not been stopped. *)
Record HTTPState := mkHTTPState {
  ht_Port : string;
  ht_SecretKey : string;
  ht_NoAuth : bool;
  ht_handlers : Handlers;
  ht_listener : option string;
  ht_stopped : bool
}.

Abbreviation DaemonNode DB := (MeshNode (NodeLog DB) GRPCPeerLink).

Record Daemon (DB : Type) := mkDaemon { d_node : DaemonNode DB; d_http : option HTTPState }.
Arguments mkDaemon {DB}.
Arguments d_node {DB}.
Arguments d_http {DB}.

(** The process ends with a code and what it printed ([log.Fatalf] as an
    error), ends by a panic, or runs. *)
Inductive boot (DB : Type) :=
  | Exited (code : Z) (stdout : list string) (fatal : option error)
  | Crashed (m : string)
  | Running (d : Daemon DB).
Arguments Exited {DB}.
Arguments Crashed {DB}.
Arguments Running {DB}.

Definition Fatalf {DB} (what : string) (err : error) : boot DB := Exited 1 [] (Some (ErrWrap what err)).

(** ** The HTTP server's listener ([internal/httpapi/server.go]) *)
Section Listener.
Context {NW : Network}.

Definition http_Start (h : HTTPState) : outcome HTTPState :=
  addr ← net_Listen (":" +:+ ht_Port h);
  Ok (mkHTTPState (ht_Port h) (ht_SecretKey h) (ht_NoAuth h) (ht_handlers h) (Some addr) (ht_stopped h)).

(** [Shutdown]: no further request is accepted; the server keeps the listener it
    has closed.  It then waits for the handlers in progress, for 30 seconds at
    most, and a stream is left to end with the process: a handler is one step
    here, so a shutdown comes before or after it. *)
Definition http_Stop (h : HTTPState) : HTTPState :=
  mkHTTPState (ht_Port h) (ht_SecretKey h) (ht_NoAuth h) (ht_handlers h) (ht_listener h) true.

Definition http_GetListeningAddress (h : HTTPState) : string := default ""%string (ht_listener h).
End Listener.

Section Daemon.
Context {DB : Type} `{!PebbleDB DB, MO : !MapOrder, !ProtoCodec, TF : !TextFormats, !JWT} {NW : Network}.
Implicit Types (n : DaemonNode DB) (d : Daemon DB).

(** ** Starting up *)

(** [--health]: the report of a node that has not been started. *)
Definition showHealthStatus (ctx : Ctx) n : boot DB :=
  match (GetHealth ctx n).1 with
  | Err err => Fatalf "❌ Failed to get health status" err
  | Panic m => Crashed m
  | Ok health =>
    Exited (if Healthy health then 0 else 1)
      ["EventMesh Node Health Status:"%string;
       "  Overall: " +:+ healthStatus (Healthy health);
       "  EventLog: " +:+ healthStatus (EventLogHealthy health);
       "  RoutingTable: " +:+ healthStatus (RoutingTableHealthy health);
       "  PeerLink: " +:+ healthStatus (PeerLinkHealthy health);
       "  Connected Clients: " +:+ fmt_int (ConnectedClients health);
       "  Connected Peers: " +:+ fmt_int (ConnectedPeers health);
       "  Message: " +:+ Message health] None
  end.

(** [node.GetPeerLink().Connect] for every peer, up to the first failure. *)
Fixpoint connect_all (peers : list PeerNode) n : option (PeerNode * outcome unit) * DaemonNode DB :=
  match peers with
  | [] => (None, n)
  | peer :: peers =>
    let '(r, p) := Connect peer (n_link n) in
    let n := with_link p n in
    match r with
    | Ok _ => connect_all peers n
    | _ => (Some (peer, r), n)
    end
  end.

Definition connect_configured (fl : Flags) n (http : option HTTPState) : boot DB :=
  if bool_decide (fl_ConnectPeer fl = ""%string) then Running (mkDaemon n http)
  else match parseConnectPeers (fl_ConnectPeer fl) with
  | Err err => Fatalf "❌ Invalid --connect-peer value" err
  | Panic m => Crashed m
  | Ok peers =>
    match connect_all peers n with
    | (None, n) => Running (mkDaemon n http)
    | (Some (peer, Err err), _) =>
      Fatalf ("❌ Failed to connect to peer " +:+ peer_ID peer +:+ " at " +:+ peer_Address peer) err
    | (Some (_, Panic m), _) => Crashed m
    | (Some (_, Ok _), n) => Running (mkDaemon n http)
    end
  end.

(** From the node to the wait for a signal.  A server that cannot listen is
    only logged. *)
Definition boot_node (ctx : Ctx) (fl : Flags) (secret : string) n : boot DB :=
  let jwtSecret := if bool_decide (secret = ""%string) then default_secret_key else secret in
  let http := if fl_HTTP fl then
                let s := NewServer n jwtSecret (fl_NoAuth fl) in
                Some (mkHTTPState (fl_HTTPPort fl) (srv_secretKey s) (srv_noAuth s) (srv_handlers s) None false)
              else None in
  if fl_Health fl then showHealthStatus ctx n
  else match node_Start n with
  | (Err err, _) => Fatalf "❌ Failed to start mesh node" err
  | (Panic m, _) => Crashed m
  | (Ok _, n) =>
    let http := (λ h, match http_Start h with Ok h => h | _ => h end) <$> http in
    connect_configured fl n http
  end.

Definition daemon_main (ctx : Ctx) (now : Z) (fl : Flags) (env : Environment DB) : boot DB :=
  if fl_Version fl then Exited 0 ["EventMesh v0.1.0"%string] None
  else
    let nodeID := default (getDefaultNodeID (env_Hostname env)) (fl_NodeID fl) in
    let peerLinkConfig := lc_SetDefaults (mkLinkConfig nodeID (fl_PeerListen fl) 0 0 0 0 0 0) in
    let config := mkConfig nodeID (fl_Listen fl) (parseSeedNodes (fl_SeedNodes fl)) in
    match applyEventLogConfig (env_open env) (fl_EventLogBackend fl) (fl_EventLogPath fl) with
    | Err err => Fatalf "❌ Invalid EventLog configuration" err
    | Panic m => Crashed m
    | Ok factory =>
      match cfg_Validate config (lc_Validate peerLinkConfig) with
      | Some err => Fatalf "❌ Invalid configuration" err
      | None =>
        match NewGRPCMeshNode (Some config) (lc_Validate peerLinkConfig) factory
                (MemoryBackend NewInMemoryEventLog) (NewGRPCPeerLink peerLinkConfig now) with
        | Err err => Fatalf "❌ Failed to create mesh node" err
        | Panic m => Crashed m
        | Ok n => boot_node ctx fl (env_JWTSecret env) n
        end
      end
    end.

(** ** Serving *)
Definition daemon_server d : option (Server (NodeLog DB) GRPCPeerLink) :=
  h ← d_http d; _ ← ht_listener h;
  if ht_stopped h then None else Some (mkServer (ht_SecretKey h) (ht_NoAuth h) (ht_handlers h) (d_node d)).

Definition daemon_serve (fuel : nat) (clk : Clock) (r : Request) (w : Writer) d
    : option (stream_state * Writer * Daemon DB) :=
  h ← d_http d; s ← daemon_server d;
  '(st, w, s) ← ServeHTTP fuel clk r w s;
  Some (st, w, mkDaemon (srv_node s)
    (Some (mkHTTPState (ht_Port h) (ht_SecretKey h) (ht_NoAuth h) (srv_handlers s) (ht_listener h) (ht_stopped h)))).

(** ** Shutting down

    On the first signal the server is stopped, then the node; the main function
    returns and its deferred call closes the node.  Errors are only logged. *)
Definition shutdown d : Daemon DB :=
  let http := http_Stop <$> d_http d in
  let '(_, n) := node_Stop (d_node d) in
  let '(_, n) := node_Close n in
  mkDaemon n http.
End Daemon.
