(* ===== verification/CommandLine.v ===== *)
(** * The daemon's command line ([cmd/eventmesh/main.go], the [flag] package)

    The flags [main] defines and [flag.Parse] as the standard library does it:
    one or two dashes, a value after an equals sign or as the next argument,
    boolean flags without a value, and an end at the first argument that is no
    flag or at two dashes.  What is accepted is characterised exactly, and the
    last occurrence of a flag wins. *)
From S2P Require Import Prelude EventLog PebbleStorage PebbleLog MeshNode GRPCLink LinkLifecycle Utf8 Json SSECursor HTTP SSEMessage HTTPHandlers HTTPServer Daemon.

#[local] Set Default Proof Using "Type*".

(** ** The flags of [main] *)

(** Name and, for a boolean flag, [true]. *)
Definition flag_definitions : list (string * bool) := [
  ("node-id", false); ("listen", false); ("peer-listen", false); ("connect-peer", false); ("http", true);
  ("http-port", false); ("no-auth", true); ("version", true); ("health", true); ("seed-nodes", false);
  ("log-level", false); ("eventlog-backend", false); ("eventlog-path", false)]%string.

(** [f.formal[name]]: whether the flag is boolean. *)
Definition formal (name : string) : option bool := list_to_map (M := gmap string bool) flag_definitions !! name.

(** The values set so far; a boolean one as [true] or [false]. *)
Abbreviation FlagValues := (gmap string string).

Definition string_flag (name value : string) (values : FlagValues) : string := default value (values !! name).
Definition bool_flag (name : string) (values : FlagValues) : bool := bool_decide (values !! name = Some "true"%string).

Definition flags_of (values : FlagValues) : Flags := {|
  fl_NodeID := values !! "node-id"%string;
  fl_Listen := string_flag "listen" ":8080" values;
  fl_PeerListen := string_flag "peer-listen" ":9090" values;
  fl_ConnectPeer := string_flag "connect-peer" "" values;
  fl_HTTP := bool_flag "http" values;
  fl_HTTPPort := string_flag "http-port" "8081" values;
  fl_NoAuth := bool_flag "no-auth" values;
  fl_Version := bool_flag "version" values;
  fl_Health := bool_flag "health" values;
  fl_SeedNodes := string_flag "seed-nodes" "" values;
  fl_LogLevel := string_flag "log-level" "info" values;
  fl_EventLogBackend := string_flag "eventlog-backend" "memory" values;
  fl_EventLogPath := string_flag "eventlog-path" "" values
|}.

(** ** [strconv.ParseBool] *)
Definition ParseBool (s : string) : option bool :=
  if bool_decide (s ∈ ["1"; "t"; "T"; "TRUE"; "true"; "True"]%string) then Some true
  else if bool_decide (s ∈ ["0"; "f"; "F"; "FALSE"; "false"; "False"]%string) then Some false
  else None.

Definition FormatBool (b : bool) : string := if b then "true" else "false".

(** ** [FlagSet.Parse] *)
Definition ErrHelp : error := ErrVar "flag.ErrHelp" "flag: help requested".

(** What an argument is, looked at alone. *)
Inductive token :=
  | Operand                                        (* not a flag: the flags end before it *)
  | Terminator                                     (* two dashes: the flags end after it *)
  | BadSyntax
  | FlagToken (name : string) (value : option string).

(** The value begins after the first equals sign that is not in front. *)
Definition split_value (name : string) : string * option string :=
  match split_first "="%char name with Some (name, value) => (name, Some value) | None => (name, None) end.

(** The name after the dashes. *)
Definition flag_name_token (name : string) : token :=
  match name with
  | EmptyString => BadSyntax
  | String c _ =>
    if bool_decide (c = "-"%char) || bool_decide (c = "="%char) then BadSyntax
    else let '(name, value) := split_value name in FlagToken name value
  end.

Definition read_token (s : string) : token :=
  match s with
  | String c1 ((String c2 rest) as name) =>
    if negb (bool_decide (c1 = "-"%char)) then Operand
    else if negb (bool_decide (c2 = "-"%char)) then flag_name_token name
    else match rest with EmptyString => Terminator | _ => flag_name_token rest end
  | _ => Operand
  end.

(** The process ends with its usage on the error stream, or goes on. *)
Inductive process (DB : Type) :=
  | Usage (code : Z) (err : error)
  | Process (r : boot DB).
Arguments Usage {DB}.
Arguments Process {DB}.

Section Parse.
Context `{TF : !TextFormats}.

Definition failf (msg : string) {A} : outcome A := Err (ErrNew msg).

(** [flag.Value.Set] for the flag, with the value given or, for a boolean flag,
    without one. *)
Definition set_bool_flag (name : string) (value : option string) (values : FlagValues) : outcome FlagValues :=
  match value with
  | None => Ok (<[name := "true"%string]> values)
  | Some value =>
    match ParseBool value with
    | Some b => Ok (<[name := FormatBool b]> values)
    | None => failf ("invalid boolean value " +:+ format_quoted value +:+ " for -" +:+ name +:+ ": parse error")
    end
  end.

(** [parseOne] until it says that there are no more flags; the arguments left. *)
Fixpoint parse_args (args : list string) (values : FlagValues) : outcome (FlagValues * list string) :=
  match args with
  | [] => Ok (values, [])
  | s :: args' =>
    match read_token s with
    | Operand => Ok (values, s :: args')
    | Terminator => Ok (values, args')
    | BadSyntax => failf ("bad flag syntax: " +:+ s)
    | FlagToken name value =>
      match formal name with
      | None =>
        if bool_decide (name = "help"%string) || bool_decide (name = "h"%string) then Err ErrHelp
        else failf ("flag provided but not defined: -" +:+ name)
      | Some true => values ← set_bool_flag name value values; parse_args args' values
      | Some false =>
        match value, args' with
        | Some value, _ => parse_args args' (<[name := value]> values)
        | None, value :: args'' => parse_args args'' (<[name := value]> values)
        | None, [] => failf ("flag needs an argument: -" +:+ name)
        end
      end
    end
  end.

(** [flag.Parse] with [flag.ExitOnError]. *)
Definition Parse (args : list string) : outcome Flags := (λ '(values, _), flags_of values) <$> parse_args args ∅.

Definition usage_code (err : error) : Z := if bool_decide (err = ErrHelp) then 0 else 2.

Definition run_main {DB} `{!PebbleDB DB, MO : !MapOrder, !ProtoCodec, !JWT} {NW : Network}
    (ctx : Ctx) (now : Z) (args : list string) (env : Environment DB) : process DB :=
  match Parse args with
  | Ok fl => Process (daemon_main ctx now fl env)
  | Err err => Usage (usage_code err) err
  | Panic m => Process (Crashed m)
  end.

(** ** How a flag may be written *)
Inductive form := Joined | Separate | Bare.

Record occurrence := mkOccurrence { oc_long : bool; oc_name : string; oc_form : form; oc_value : string }.

Definition oc_ok (o : occurrence) : Prop :=
  match formal (oc_name o), oc_form o with
  | Some true, Joined => is_Some (ParseBool (oc_value o))
  | Some true, Bare => oc_value o = "true"%string
  | Some false, (Joined | Separate) => True
  | _, _ => False
  end.

#[export] Instance oc_ok_dec o : Decision (oc_ok o).
Proof. unfold oc_ok. destruct (formal (oc_name o)) as [[]|], (oc_form o); apply _. Defined.

Definition dashes (long : bool) : string := if long then "--" else "-".

Definition write_flag (o : occurrence) : list string :=
  let name := dashes (oc_long o) +:+ oc_name o in
  match oc_form o with
  | Joined => [name +:+ String "="%char (oc_value o)]
  | Separate => [name; oc_value o]
  | Bare => [name]
  end.

(** What an occurrence sets its flag to. *)
Definition oc_set (values : FlagValues) (o : occurrence) : FlagValues :=
  <[oc_name o := match formal (oc_name o), ParseBool (oc_value o) with
                 | Some true, Some b => FormatBool b
                 | _, _ => oc_value o
                 end]> values.

(** Where the flags end. *)
Definition operands (tail : list string) : option (list string) :=
  match tail with
  | [] => Some []
  | s :: rest => match read_token s with Operand => Some tail | Terminator => Some rest | _ => None end
  end.

(** *** Names *)
Definition good_name (name : string) : bool :=
  match name with
  | EmptyString => false
  | String c _ => negb (bool_decide (c = "-"%char)) && negb (bool_decide ("="%char ∈ bytes_of_string name))
  end.

Lemma formal_elem name b : formal name = Some b → (name, b) ∈ flag_definitions.
Proof. apply elem_of_list_to_map_2. Qed.

Lemma formal_good name b : formal name = Some b → good_name name = true.
Proof.
  intros Hin%formal_elem. assert (Forall (λ p, good_name p.1 = true) flag_definitions) as Hall
    by by repeat constructor.
  rewrite Forall_forall in Hall. exact (Hall _ Hin).
Qed.

Lemma split_first_none sep s : sep ∉ bytes_of_string s → split_first sep s = None.
Proof.
  induction s as [|c s IH]; [done|]. cbn [bytes_of_string String.list_ascii_of_string]. intros [Hc Hs]%not_elem_of_cons.
  simpl. by rewrite bool_decide_eq_false_2, IH.
Qed.

Lemma split_first_eq sep s t : sep ∉ bytes_of_string s → split_first sep (s +:+ String sep t) = Some (s, t).
Proof.
  induction s as [|c s IH]; [intros _; simpl; by rewrite bool_decide_eq_true_2|].
  cbn [bytes_of_string String.list_ascii_of_string]. intros [Hc Hs]%not_elem_of_cons.
  simpl. by rewrite bool_decide_eq_false_2, (IH Hs).
Qed.

Lemma split_first_some sep s a b : split_first sep s = Some (a, b) → s = a +:+ String sep b.
Proof.
  revert a. induction s as [|c s IH]; intros a; [done|]. simpl. case_bool_decide as Hc; [intros [= <- <-]; by subst|].
  destruct (split_first sep s) as [[a' b']|]; [|done]. cbn. intros [= <- <-]. by rewrite (IH a') at 1.
Qed.

(** *** An argument that writes a flag is read as that flag *)
Lemma read_dashes long name :
  good_name name = true → ∀ rest, read_token (dashes long +:+ name +:+ rest) = flag_name_token (name +:+ rest).
Proof.
  destruct name as [|c name]; [done|]. cbn [good_name]. intros [Hc _]%andb_prop rest.
  apply negb_true_iff, bool_decide_eq_false_1 in Hc. destruct long; simpl.
  - done.
  - by rewrite (bool_decide_eq_false_2 (c = _)).
Qed.

Lemma name_token name rest :
  good_name name = true →
  flag_name_token (name +:+ rest) = let '(n, value) := split_value (name +:+ rest) in FlagToken n value.
Proof.
  destruct name as [|c name]; [done|]. cbn [good_name bytes_of_string String.list_ascii_of_string]. intros [Hc Hn]%andb_prop.
  apply negb_true_iff, bool_decide_eq_false_1 in Hc, Hn. apply not_elem_of_cons in Hn as [Hn _].
  change (String c name +:+ rest) with (String c (name +:+ rest)). cbn [flag_name_token].
  by rewrite !bool_decide_eq_false_2.
Qed.

Lemma good_no_equals name : good_name name = true → "="%char ∉ bytes_of_string name.
Proof. destruct name; [done|]. cbn [good_name]. by intros [_ H%negb_true_iff%bool_decide_eq_false_1]%andb_prop. Qed.

Lemma read_joined long name value :
  good_name name = true → read_token ((dashes long +:+ name) +:+ String "="%char value) = FlagToken name (Some value).
Proof.
  intros Hg. rewrite text_app_assoc, read_dashes, name_token by done. unfold split_value.
  by rewrite split_first_eq by by apply good_no_equals.
Qed.

Lemma read_bare long name : good_name name = true → read_token (dashes long +:+ name) = FlagToken name None.
Proof.
  intros Hg. pose proof (read_dashes long name Hg "") as H. pose proof (name_token name "" Hg) as H'.
  rewrite text_app_nil_r in H, H'. rewrite H, H'. unfold split_value. by rewrite split_first_none by by apply good_no_equals.
Qed.

(** *** and the other way round *)
Lemma token_written s name value :
  read_token s = FlagToken name value →
  ∃ long, s = dashes long +:+ name +:+ match value with Some value => String "="%char value | None => ""%string end.
Proof.
  assert (∀ t, flag_name_token t = FlagToken name value →
    t = name +:+ match value with Some value => String "="%char value | None => ""%string end) as Hname.
  { intros [|c t]; [done|]. cbn [flag_name_token]. destruct (_ || _); [done|]. unfold split_value.
    destruct (split_first _ _) as [[a b]|] eqn:Hs; intros [= <- <-]; [by apply split_first_some in Hs|by rewrite text_app_nil_r]. }
  destruct s as [|c1 [|c2 rest]]; [done..|]. cbn [read_token]. case_bool_decide as H1; [|done]. cbn [negb].
  case_bool_decide as H2; cbn [negb].
  - destruct rest as [|c3 rest]; [done|]. intros H%Hname. exists true. subst. cbn. by rewrite <-H.
  - intros H%Hname. exists false. subst. cbn. by rewrite <-H.
Qed.

(** *** Parsing *)
Lemma parse_occurrence o args values :
  oc_ok o → parse_args (write_flag o ++ args) values = parse_args args (oc_set values o).
Proof.
  destruct o as [long name f value]. unfold oc_ok, oc_set, write_flag. cbn [oc_long oc_name oc_form oc_value].
  destruct (formal name) as [b|] eqn:Hf; [|done]. pose proof (formal_good _ _ Hf) as Hg.
  destruct f, b; try done; cbn [app parse_args]; rewrite ?read_joined, ?read_bare, ?Hf by done.
  - intros [b Hb]. cbn [set_bool_flag]. by rewrite Hb.
  - done.
  - done.
  - intros ->. by cbn.
Qed.

Lemma parse_occurrences os args values :
  Forall oc_ok os → parse_args ((os ≫= write_flag) ++ args) values = parse_args args (foldl oc_set values os).
Proof.
  revert values. induction os as [|o os IH]; intros values; [done|]. intros [Ho Hos]%Forall_cons.
  cbn [mbind list_bind foldl]. by rewrite <-(assoc_L (++)), parse_occurrence, IH.
Qed.

#[local] Ltac written o rest tac :=
  match goal with Hstep : ∀ o args', oc_ok o → _, Hf : formal _ = _ |- _ =>
    apply (Hstep o rest);
    [unfold oc_ok; cbn [oc_name oc_form oc_value]; rewrite Hf; by tac
    |unfold write_flag; cbn [oc_name oc_form oc_value oc_long app]; by rewrite ?text_app_assoc, ?text_app_nil_r
    |lia
    |unfold oc_set; cbn [oc_name oc_value]; rewrite Hf; by tac]
  end.

Lemma parse_accepted args values values' rest :
  parse_args args values = Ok (values', rest) →
  ∃ os tail, Forall oc_ok os ∧ args = (os ≫= write_flag) ++ tail ∧ operands tail = Some rest ∧ values' = foldl oc_set values os.
Proof.
  remember (length args) as n eqn:Hn. assert (length args ≤ n) as Hle by lia. clear Hn. revert args Hle values.
  induction n as [|n IH]; intros args Hle values.
  { destruct args; [|simpl in Hle; lia]. intros [= <- <-]. by exists [], []. }
  destruct args as [|s args]; [intros [= <- <-]; by exists [], []|]. simpl in Hle. cbn [parse_args].
  destruct (read_token s) as [| | |name value] eqn:Ht; [..|].
  - intros [= <- <-]. exists [], (s :: args). split_and!; [done..| |done]. cbn [operands]. by rewrite Ht.
  - intros [= <- <-]. exists [], (s :: args). split_and!; [done..| |done]. cbn [operands]. by rewrite Ht.
  - done.
  - destruct (formal name) as [b|] eqn:Hf; [|by destruct (_ || _)]. apply token_written in Ht as [long ->].
    assert (∀ o args', oc_ok o → (dashes long +:+ name +:+ match value with Some value => String "="%char value | None => ""%string end) :: args =
              write_flag o ++ args' → length args' ≤ n → parse_args args' (oc_set values o) = Ok (values', rest) →
      ∃ os tail, Forall oc_ok os ∧ (dashes long +:+ name +:+ match value with Some value => String "="%char value | None => ""%string end) :: args =
        (os ≫= write_flag) ++ tail ∧ operands tail = Some rest ∧ values' = foldl oc_set values os) as Hstep.
    { intros o args' Ho Hw Hlen (os & tail & Hos & -> & Htail & ->)%IH; [|done]. exists (o :: os), tail.
      split_and!; [by constructor| |done..]. cbn [mbind list_bind]. by rewrite Hw, <-(assoc_L (++)). }
    destruct b; [destruct value as [value|]; cbn [set_bool_flag]|destruct value as [value|]].
    + destruct (ParseBool value) as [b|] eqn:Hb; [|done]. cbn [mbind outcome_bind]. intros Hp.
      written (mkOccurrence long name Joined value) args ltac:(rewrite Hb).
    + cbn [mbind outcome_bind]. intros Hp. written (mkOccurrence long name Bare "true") args idtac.
    + intros Hp. written (mkOccurrence long name Joined value) args idtac.
    + destruct args as [|value args]; [done|]. intros Hp. simpl in Hle.
      written (mkOccurrence long name Separate value) args idtac.
Qed.

(** *** The flags of a daemon as arguments *)
Definition write_flags (fl : Flags) : list occurrence :=
  (match fl_NodeID fl with Some id => [mkOccurrence true "node-id" Joined id] | None => [] end) ++
  [mkOccurrence false "listen" Separate (fl_Listen fl); mkOccurrence true "peer-listen" Joined (fl_PeerListen fl);
   mkOccurrence true "connect-peer" Separate (fl_ConnectPeer fl); mkOccurrence false "http" Joined (FormatBool (fl_HTTP fl));
   mkOccurrence true "http-port" Joined (fl_HTTPPort fl); mkOccurrence true "no-auth" Joined (FormatBool (fl_NoAuth fl));
   mkOccurrence true "version" Joined (FormatBool (fl_Version fl)); mkOccurrence true "health" Joined (FormatBool (fl_Health fl));
   mkOccurrence true "seed-nodes" Joined (fl_SeedNodes fl); mkOccurrence false "log-level" Joined (fl_LogLevel fl);
   mkOccurrence true "eventlog-backend" Joined (fl_EventLogBackend fl); mkOccurrence true "eventlog-path" Separate (fl_EventLogPath fl)].

Lemma write_flags_ok fl : Forall oc_ok (write_flags fl).
Proof.
  unfold write_flags. apply Forall_app. split; [destruct (fl_NodeID fl); by repeat constructor|].
  repeat constructor; unfold oc_ok; cbn [oc_name oc_form oc_value]; vm_compute formal; simpl;
    match goal with |- context [FormatBool ?b] => destruct b | _ => idtac end; by eexists.
Qed.

Lemma write_flags_of fl : flags_of (foldl oc_set ∅ (write_flags fl)) = fl.
Proof. destruct fl as [[id|] ? ? ? [] ? [] [] [] ? ? ? ?]; reflexivity. Qed.

(** The last value written for a flag. *)
Fixpoint last_value (name : string) (os : list occurrence) : option occurrence :=
  match os with
  | [] => None
  | o :: os => match last_value name os with
               | Some o => Some o
               | None => if bool_decide (oc_name o = name) then Some o else None
               end
  end.

Lemma foldl_last name os values :
  foldl oc_set values os !! name = match last_value name os with Some o => oc_set ∅ o !! name | None => values !! name end.
Proof.
  revert values. induction os as [|o os IH]; intros values; [done|]. cbn [foldl last_value]. rewrite IH.
  destruct (last_value name os); [done|]. unfold oc_set. case_bool_decide as Hn.
  - subst. by rewrite !lookup_insert_eq.
  - by rewrite lookup_insert_ne.
Qed.

Lemma parse_no_panic args values m : parse_args args values ≠ Panic m.
Proof.
  remember (length args) as n eqn:Hn. assert (length args ≤ n) as Hle by lia. clear Hn. revert args Hle values.
  induction n as [|n IH]; intros args Hle values; (destruct args as [|s args]; [done|simpl in Hle; try lia]).
  cbn [parse_args]. destruct (read_token s) as [| | |name value]; [done..|].
  destruct (formal name) as [[]|]; [| |by destruct (_ || _)].
  - assert (∀ m, set_bool_flag name value values ≠ Panic m) as Hset by (intros m'; unfold set_bool_flag; by repeat case_match).
    destruct (set_bool_flag name value values) as [values'| |m']; [apply IH; lia|done|by destruct (Hset m')].
  - destruct value as [value|]; [apply IH; lia|]. destruct args as [|value args]; [done|]. apply IH. simpl in Hle. lia.
Qed.

(** C17: the command line.  The arguments that are accepted are exactly those
    that write flags of the program, each in one of its forms, followed by
    nothing, by two dashes or by an argument that is no flag; a flag has the
    value of its last occurrence, and its default without one; every
    configuration of the daemon can be written, and the program run with
    it is the daemon with that configuration; what is not accepted ends the process
    with its usage, with code 0 if help was asked for and 2 otherwise. *)
Theorem command_line_exact {DB} `{!PebbleDB DB, MO : !MapOrder, !ProtoCodec, !JWT} {NW : Network}
    (ctx : Ctx) (now : Z) (env : Environment DB) (os : list occurrence) (args tail rest : list string) (fl : Flags) :
  (Forall oc_ok os → operands tail = Some rest →
   parse_args ((os ≫= write_flag) ++ tail) ∅ = Ok (foldl oc_set ∅ os, rest)) ∧
  (∀ values, parse_args args ∅ = Ok (values, rest) →
   ∃ os tail, Forall oc_ok os ∧ args = (os ≫= write_flag) ++ tail ∧ operands tail = Some rest ∧ values = foldl oc_set ∅ os) ∧
  (∀ name, foldl oc_set ∅ os !! name = match last_value name os with Some o => oc_set ∅ o !! name | None => None end) ∧
  run_main ctx now (write_flags fl ≫= write_flag) env = Process (daemon_main ctx now fl env) ∧
  ((∃ fl, run_main ctx now args env = Process (daemon_main ctx now fl env)) ∨
   (∃ err, Parse args = Err err ∧ run_main ctx now args env = Usage (if bool_decide (err = ErrHelp) then 0 else 2) err)).
Proof.
  split_and!.
  - intros Hos Htail. rewrite parse_occurrences by done. destruct tail as [|s tail]; cbn in Htail |- *; [by injection Htail as <-|].
    destruct (read_token s); try done; by injection Htail as <-.
  - intros values. apply parse_accepted.
  - intros name. by rewrite foldl_last.
  - unfold run_main, Parse. rewrite <-(app_nil_r (_ ≫= _)), parse_occurrences by apply write_flags_ok.
    cbn [parse_args fmap outcome_fmap]. by rewrite write_flags_of.
  - unfold run_main, Parse. destruct (parse_args args ∅) as [[values rest']|err|m] eqn:Hp.
    + left. by eexists.
    + right. by eexists.
    + by apply parse_no_panic in Hp.
Qed.
End Parse.
