(* ===== verification/Startup.v ===== *)
(** * What the daemon logs ([cmd/eventmesh/main.go])

    The lines [main] writes while it starts, when it gives up and when it stops,
    and which of them the log level lets through.  [slog.SetDefault] also takes
    over the output of the [log] package: its lines, those of [log.Fatalf]
    included, become lines of level [Info].  The lines other packages write in
    between are not part of this. *)
From S2P Require Import Prelude Topics EventLog MemoryLog PebbleKeys PebbleStorage PebbleLog RoutingTable Peers Clients MeshNode NodeLifecycle.
From S2P Require Import PeerMessages GRPCLink LinkLifecycle ComposedLink Utf8 Json SSECursor HTTP SSEMessage SSEStream HTTPHandlers HTTPServer Daemon.

(** ** Lines *)
Record line := mkLine { ln_level : slog_Level; ln_msg : string; ln_attrs : list (string * string) }.

Definition slog_Info (msg : string) : line := mkLine LevelInfo msg [].

(** [log.Printf], and what [log.Fatalf] writes before it exits. *)
Definition Printf (msg : string) : line := mkLine LevelInfo msg [].
Definition Fatalf_line (what : string) (err : error) : line := Printf (what +:+ ": " +:+ error_String err).

Definition level_value (lv : slog_Level) : Z :=
  match lv with LevelDebug => -4 | LevelInfo => 0 | LevelWarn => 4 | LevelError => 8 end.

(** [HandlerOptions.Level]: the lines that reach standard output. *)
Definition shown (threshold : slog_Level) (lines : list line) : list line :=
  filter (λ l, (level_value threshold ≤ level_value (ln_level l))%Z) lines.

(** ** The node's components, as [main] sees them *)

(** The two types of this program with the methods of [CompletePeerLink]. *)
Inductive peer_link_value :=
  | VGRPC (g : GRPCPeerLink)
  | VComposed (c : composedPeerLink).

(** The assertion of type [*peerlink.GRPCPeerLink]. *)
Definition as_GRPCPeerLink (v : peer_link_value) : option GRPCPeerLink :=
  match v with VGRPC g => Some g | VComposed _ => None end.

(** [%T] *)
Definition link_type (v : peer_link_value) : string :=
  match v with VGRPC _ => "*peerlink.GRPCPeerLink" | VComposed _ => "meshnode.composedPeerLink" end.
Definition log_type {DB} (log : NodeLog DB) : string :=
  match log with MemoryBackend _ => "*eventlog.InMemoryEventLog" | PebbleBackend _ => "*eventlog.PebbleEventLog" end.

(** main.go's own [formatAddress]. *)
Definition main_formatAddress (addr : string) : string :=
  if bool_decide (addr = ""%string) then ""
  else if String.prefix "[::]:" addr
  then "localhost:" +:+ String.substring 5 (String.length addr - 5) addr
  else addr.

Section Startup.
Context {DB : Type} `{!PebbleDB DB, MO : !MapOrder, !ProtoCodec, TF : !TextFormats, !JWT} {NW : Network}.
Implicit Types (n : DaemonNode DB) (d : Daemon DB).

(** [GetEventLog], [GetRoutingTable], [GetPeerLink]; the node's one link is the
    object all its fields refer to. *)
Definition GetEventLog n : NodeLog DB := n_log n.
Definition GetRoutingTable n : InMemoryRoutingTable MeshSubscriber := n_rt n.
Definition node_GetPeerLink (_ : DaemonNode DB) : peer_link_value :=
  VComposed (GetPeerLink (setPeerLink (Some 0) (mkLinkFields None None None))).

Definition showStartupInfo (ctx : Ctx) n : list line :=
  match (GetHealth ctx n).1 with
  | Err err => [Printf ("⚠️  Could not get health status: " +:+ error_String err)]
  | Panic _ => []
  | Ok health =>
    [Printf "🏥 Health Status:";
     Printf ("   Overall: " +:+ healthStatus (Healthy health));
     Printf ("   EventLog: " +:+ healthStatus (EventLogHealthy health));
     Printf ("   RoutingTable: " +:+ healthStatus (RoutingTableHealthy health));
     Printf ("   PeerLink: " +:+ healthStatus (PeerLinkHealthy health));
     Printf ("   Connected Clients: " +:+ fmt_int (ConnectedClients health));
     Printf ("   Connected Peers: " +:+ fmt_int (ConnectedPeers health))] ++
    (if negb (Healthy health) then [Printf ("⚠️  Health issues: " +:+ Message health)] else []) ++
    [Printf "🔧 Components:";
     Printf ("   EventLog: " +:+ log_type (GetEventLog n));
     Printf "   RoutingTable: *routingtable.InMemoryRoutingTable";
     Printf ("   PeerLink: " +:+ link_type (node_GetPeerLink n))]
  end.

(** The summary; [link] is what [GetPeerLink] returned, [ms] the time since
    [startTime]. *)
Definition logNodeReady (ms : Z) (link : peer_link_value) (http : option HTTPState)
    (nodeID logLevel : string) (noAuth : bool) (seedNodes : Z) : list line :=
  let '(peerListenAddress, connectedPeers) :=
    match as_GRPCPeerLink link with
    | Some g => (GetListeningAddress g, match GetConnectedPeerSummary g with Ok peers => peers | _ => [] end)
    | None => (""%string, [])
    end in
  let peersConnected := length connectedPeers in
  let httpAddress := match http with Some h => http_GetListeningAddress h | None => ""%string end in
  let authMode := if noAuth then "disabled"%string else "enabled"%string in
  [slog_Info "🚀 Node Ready Summary:";
   slog_Info ("   Node ID: " +:+ nodeID);
   slog_Info "   Version: 0.1.0";
   slog_Info ("   Startup Time: " +:+ fmt_int ms +:+ "ms");
   slog_Info ("   Peer Listen: " +:+ main_formatAddress peerListenAddress)] ++
  (if bool_decide (httpAddress = ""%string) then [] else [slog_Info ("   HTTP API: " +:+ main_formatAddress httpAddress)]) ++
  (if bool_decide (0 < peersConnected)
   then slog_Info ("   Connected Peers (" +:+ fmt_int (Z.of_nat peersConnected) +:+ "):") ::
        ((λ peer, slog_Info ("     • " +:+ peer)) <$> connectedPeers)
   else [slog_Info "   Connected Peers: 0"]) ++
  [slog_Info ("   Auth Mode: " +:+ authMode)] ++
  (if bool_decide (0 < seedNodes)%Z then [slog_Info ("   Seed Nodes: " +:+ fmt_int seedNodes)] else []) ++
  [slog_Info ("   Log Level: " +:+ logLevel)].

(** ** [main], phase by phase *)
Definition starting_lines (fl : Flags) (nodeID : string) : list line := [
  mkLine LevelInfo "starting EventMesh"
    [("app", "EventMesh"); ("version", "0.1.0"); ("node_id", nodeID); ("log_level", fl_LogLevel fl)]%string;
  mkLine LevelInfo "server configuration"
    [("client_listen", fl_Listen fl); ("peer_listen", fl_PeerListen fl); ("http_enabled", if fl_HTTP fl then "true" else "false");
     ("http_port", fl_HTTPPort fl); ("no_auth", if fl_NoAuth fl then "true" else "false")]%string].

Definition seed_count (fl : Flags) : Z := match parseSeedNodes (fl_SeedNodes fl) with Some seeds => Z.of_nat (length seeds) | None => 0 end.

Definition seed_lines (fl : Flags) : list line :=
  match parseSeedNodes (fl_SeedNodes fl) with
  | Some seeds => [mkLine LevelInfo "bootstrap configuration"
                     [("seed_node_count", fmt_int (Z.of_nat (length seeds))); ("seed_nodes", format_list seeds)]%string]
  | None => []
  end.

Definition http_lines (fl : Flags) (secret : string) : list line :=
  if fl_HTTP fl then
    mkLine LevelDebug "creating HTTP API server" [("http_port"%string, fl_HTTPPort fl)] ::
    (if fl_NoAuth fl then
       [mkLine LevelWarn "running in NO-AUTH mode - authentication is DISABLED"
          [("security_warning", "INSECURE - development/testing only");
           ("admin_endpoints_note", "admin endpoints still require valid JWT tokens")]%string] else []) ++
    (if bool_decide (secret = ""%string) then
       [mkLine LevelWarn "using default JWT secret"
          [("security_warning", "set EVENTMESH_JWT_SECRET environment variable for production")]%string] else [])
  else [].

(** The deferred call: the node is closed when [main] returns or panics. *)
Definition closing_lines n : list line :=
  Printf "🛑 Closing mesh node..." ::
  match (node_Close n).1 with Err err => [Printf ("⚠️  Error closing node: " +:+ error_String err)] | _ => [] end.

(** The peers up to the first failure. *)
Fixpoint connect_lines (peers : list PeerNode) n : list line :=
  match peers with
  | [] => []
  | peer :: peers =>
    let '(r, p) := Connect peer (n_link n) in
    Printf ("🤝 Connecting to peer " +:+ peer_ID peer +:+ " at " +:+ peer_Address peer) ::
    match r with
    | Ok _ => connect_lines peers (with_link p n)
    | Err err => [Fatalf_line ("❌ Failed to connect to peer " +:+ peer_ID peer +:+ " at " +:+ peer_Address peer) err]
    | Panic _ => closing_lines (with_link p n)
    end
  end.

(** The server before its goroutine listens. *)
Definition unbound (h : HTTPState) : HTTPState :=
  mkHTTPState (ht_Port h) (ht_SecretKey h) (ht_NoAuth h) (ht_handlers h) None (ht_stopped h).

(** The end of start-up, for a daemon that runs; [listening]: whether the
    server's goroutine has got to listen by then. *)
Definition ready_lines (ctx : Ctx) (ms : Z) (listening : bool) (fl : Flags) (nodeID : string) d : list line :=
  let http := if listening then d_http d else unbound <$> d_http d in
  showStartupInfo ctx (d_node d) ++
  logNodeReady ms (node_GetPeerLink (d_node d)) http nodeID (fl_LogLevel fl) (fl_NoAuth fl) (seed_count fl).

Definition boot_lines (ctx : Ctx) (ms : Z) (listening : bool) (fl : Flags) (secret nodeID : string) n : list line :=
  http_lines fl secret ++
  if fl_Health fl then
    match (GetHealth ctx n).1 with
    | Err err => [Fatalf_line "❌ Failed to get health status" err]
    | Panic _ => closing_lines n
    | Ok _ => []
    end
  else mkLine LevelDebug "starting mesh node" [("node_id"%string, nodeID)] ::
  match node_Start n with
  | (Err err, _) => [Fatalf_line "❌ Failed to start mesh node" err]
  | (Panic _, n) => closing_lines n
  | (Ok _, n') =>
    (if fl_HTTP fl then [mkLine LevelDebug "starting HTTP API server" [("port"%string, fl_HTTPPort fl)]] else []) ++
    (if bool_decide (fl_ConnectPeer fl = ""%string) then []
     else match parseConnectPeers (fl_ConnectPeer fl) with
     | Err err => [Fatalf_line "❌ Invalid --connect-peer value" err]
     | Panic _ => closing_lines n'
     | Ok peers => connect_lines peers n'
     end) ++
    match boot_node ctx fl secret n with Running d => ready_lines ctx ms listening fl nodeID d | _ => [] end
  end.

(** Everything [main] logs until it waits for a signal or ends. *)
Definition main_lines (ctx : Ctx) (now ms : Z) (listening : bool) (fl : Flags) (env : Environment DB) : list line :=
  if fl_Version fl then []
  else
    let nodeID := default (getDefaultNodeID (env_Hostname env)) (fl_NodeID fl) in
    let peerLinkConfig := lc_SetDefaults (mkLinkConfig nodeID (fl_PeerListen fl) 0 0 0 0 0 0) in
    let config := mkConfig nodeID (fl_Listen fl) (parseSeedNodes (fl_SeedNodes fl)) in
    starting_lines fl nodeID ++ seed_lines fl ++
    match applyEventLogConfig (env_open env) (fl_EventLogBackend fl) (fl_EventLogPath fl) with
    | Err err => [Fatalf_line "❌ Invalid EventLog configuration" err]
    | Panic _ => []
    | Ok factory =>
      match cfg_Validate config (lc_Validate peerLinkConfig) with
      | Some err => [Fatalf_line "❌ Invalid configuration" err]
      | None =>
        mkLine LevelDebug "creating mesh node" [("node_id"%string, nodeID)] ::
        match NewGRPCMeshNode (Some config) (lc_Validate peerLinkConfig) factory
                (MemoryBackend NewInMemoryEventLog) (NewGRPCPeerLink peerLinkConfig now) with
        | Err err => [Fatalf_line "❌ Failed to create mesh node" err]
        | Panic _ => []
        | Ok n => boot_lines ctx ms listening fl (env_JWTSecret env) nodeID n
        end
      end
    end.

(** What reaches standard output. *)
Definition main_output (ctx : Ctx) (now ms : Z) (listening : bool) (fl : Flags) (env : Environment DB) : list line :=
  shown (setupLogging (fl_LogLevel fl)).1 (main_lines ctx now ms listening fl env).

(** The signal handler and the rest of [main]; [stop_err] is the HTTP server's. *)
Definition shutdown_lines (sig : string) (stop_err : option error) (nodeID : string) d : list line :=
  [mkLine LevelInfo "received shutdown signal" [("signal", sig); ("action", "shutting down gracefully")]%string] ++
  match d_http d with
  | Some _ => slog_Info "stopping HTTP API server" ::
              match stop_err with Some err => [mkLine LevelError "error stopping HTTP server" [("error"%string, error_String err)]] | None => [] end
  | None => []
  end ++
  [slog_Info "stopping mesh node"] ++
  match (node_Stop (d_node d)).1 with
  | Err err => [mkLine LevelError "error during graceful stop" [("error"%string, error_String err)]]
  | _ => []
  end ++
  [mkLine LevelInfo "node stopped" [("app", "EventMesh"); ("node_id", nodeID)]%string] ++
  closing_lines (node_Stop (d_node d)).2.
End Startup.
