(* ===== verification/DaemonSpec.v ===== *)
(** * The daemon: start-up, running and shutdown

    What a daemon that runs was configured to be, that it stays up whatever it
    serves, and what the shutdown leaves behind. *)
From S2P Require Import Prelude Topics EventLog MemoryLog PebbleKeys PebbleStorage PebbleLog PebbleSpec RoutingTable Peers Clients MeshNode NodeLifecycle.
From S2P Require Import NodeHealth PeerMessages GRPCLink LinkLifecycle LinkInvariant Utf8 Json JsonSpec SSECursor HTTP SSEMessage SSEStream HTTPHandlers HTTPServer HTTPIsolation EndToEnd Daemon.

#[local] Set Default Proof Using "Type*".

(** ** The contract of the node's event log *)
Section NodeLogSpec.
Context {DB : Type} `{!PebbleDB DB, !PebbleDBLaws DB, MO : !MapOrder, !ProtoCodec, !ProtoCodecLaws}.

Definition nl_rep (log : NodeLog DB) (a : AbsLog) : Prop := on_backend (λ log, log_rep log a) (λ log, log_rep log a) log.

#[local] Ltac by_backend law :=
  intros; match goal with log : NodeLog DB |- _ => destruct log end;
  first [by eapply (law InMemoryEventLog _ _)|by eapply (law (PebbleEventLog DB) _ _)].

#[export] Instance NodeLog_spec : EventLogSpec (NodeLog DB).
Proof.
  refine {| log_rep := nl_rep; log_accepts := λ topic e, log_accepts (L := PebbleEventLog DB) topic e |}.
  - by_backend @log_rep_wf.
  - intros ctx topic event [log|log] a err Hr Hg; cbn [AppendEvent NodeLog_ops]; unfold nl_AppendEvent, on_backend; by erewrite append_refused.
  - intros ctx topic e [log|log] a Hr Hg Hacc Hend; cbn [AppendEvent NodeLog_ops]; unfold nl_AppendEvent, on_backend.
    + destruct (append_ok ctx topic e log a Hr Hg I Hend) as (log' & -> & Hr'). by exists (MemoryBackend log').
    + destruct (append_ok ctx topic e log a Hr Hg Hacc Hend) as (log' & -> & Hr'). by exists (PebbleBackend log').
  - by_backend @read_refused.
  - by_backend @read_ok.
  - by_backend @end_refused.
  - by_backend @end_ok.
  - by_backend @replay_refused.
  - by_backend @replay_ok.
  - by_backend @stats_refused.
  - by_backend @stats_ok.
  - by_backend @compact_spec.
  - intros [log|log] a Hr; cbn [CloseLog NodeLog_ops]; unfold nl_Close, on_backend.
    + destruct (close_spec log a Hr) as (log' & -> & Hr'). by exists (MemoryBackend log').
    + destruct (close_spec log a Hr) as (log' & -> & Hr'). by exists (PebbleBackend log').
Defined.

(** Closing never fails. *)
Lemma nl_Close_ok (log : NodeLog DB) : (CloseLog log).1 = Ok ().
Proof.
  destruct log as [log|log]; simpl; unfold nl_Close, on_backend; simpl.
  - unfold mem_Close. by destruct (mem_closed log).
  - unfold peb_Close. destruct (peb_closed log); [done|]. apply db_Close_law.
Qed.
End NodeLogSpec.

(** ** The peers of the command line *)
Section ConnectPeers.
Context `{TF : !TextFormats}.

(** A text that stands for itself in a list of peers. *)
Definition flag_char (c : ascii) : Prop := (is_ascii c = true ∧ is_space (RuneASCII c) = false) ∧ c ≠ ","%char.
Definition flag_text (s : string) : Prop := s ≠ ""%string ∧ Forall flag_char (bytes_of_string s).

Definition peer_arg (p : PeerNode) : string := peer_ID p +:+ (String "="%char (peer_Address p)).
Definition peer_arg_ok (p : PeerNode) : Prop :=
  flag_text (peer_ID p) ∧ ("="%char ∉ bytes_of_string (peer_ID p)) ∧ flag_text (peer_Address p).

Lemma TrimSpace_flag s : Forall flag_char (bytes_of_string s) → TrimSpace s = s.
Proof. intros Hs. apply TrimSpace_ascii. eapply Forall_impl; [exact Hs|by intros ? []]. Qed.

Lemma split_first_app sep s t : sep ∉ bytes_of_string s → split_first sep (s +:+ String sep t) = Some (s, t).
Proof.
  induction s as [|c s IH]; intros Hn.
  - simpl. by rewrite bool_decide_eq_true_2.
  - cbn [bytes_of_string String.list_ascii_of_string] in Hn. apply not_elem_of_cons in Hn as [Hc Hn].
    simpl. rewrite bool_decide_eq_false_2 by done. by rewrite (IH Hn).
Qed.

Lemma strings_Split_Join parts sep :
  parts ≠ [] → Forall (λ p, sep ∉ bytes_of_string p) parts → strings_Split (strings_Join parts sep) sep = parts.
Proof.
  assert (∀ s, sep ∉ bytes_of_string s → strings_Split s sep = [s]) as Hone.
  { induction s as [|c s IH]; intros Hn; [done|]. apply not_elem_of_cons in Hn as [Hc Hn].
    cbn [strings_Split]. by rewrite bool_decide_eq_false_2, IH. }
  assert (∀ s t, sep ∉ bytes_of_string s → strings_Split (s +:+ String sep t) sep = s :: strings_Split t sep) as Hcons.
  { induction s as [|c s IH]; intros t Hn; [simpl; by rewrite bool_decide_eq_true_2|]. apply not_elem_of_cons in Hn as [Hc Hn].
    change (String c s +:+ String sep t) with (String c (s +:+ String sep t)). cbn [strings_Split].
    by rewrite bool_decide_eq_false_2, IH. }
  induction parts as [|p parts IH]; intros Hne Hp; [done|]. apply Forall_cons in Hp as [Hp Hps].
  destruct parts as [|q parts]; [by apply Hone|].
  change (strings_Join (p :: q :: parts) sep) with (p +:+ String sep (strings_Join (q :: parts) sep)).
  rewrite Hcons by done. by rewrite IH.
Qed.

Lemma peer_arg_chars p : peer_arg_ok p → Forall flag_char (bytes_of_string (peer_arg p)).
Proof.
  intros ([_ Hid] & _ & [_ Haddr]). unfold peer_arg. rewrite bytes_of_app. apply Forall_app. split; [done|].
  cbn [bytes_of_string String.list_ascii_of_string]. constructor; [by repeat split|done].
Qed.

Lemma connect_peers_parts peers acc :
  Forall peer_arg_ok peers → connect_peers_loop (peer_arg <$> peers) acc = Ok (acc ++ peers).
Proof.
  revert acc. induction peers as [|p peers IH]; intros acc Hp; [by rewrite app_nil_r|].
  apply Forall_cons in Hp as [Hp Hps]. cbn [fmap list_fmap connect_peers_loop].
  rewrite (TrimSpace_flag _ (peer_arg_chars p Hp)). destruct Hp as ([Hne Hid] & Heq & [Hne' Haddr]).
  rewrite bool_decide_eq_false_2 by (unfold peer_arg; by destruct (peer_ID p)).
  unfold peer_arg at 1. rewrite split_first_app by done. rewrite !TrimSpace_flag by done.
  rewrite !bool_decide_eq_false_2 by done. cbn [orb]. rewrite IH by done.
  rewrite <-(assoc_L (++)). by destruct p.
Qed.

Lemma connect_peers_accepted parts acc peers :
  connect_peers_loop parts acc = Ok peers → Forall (λ p, peer_ID p ≠ ""%string ∧ peer_Address p ≠ ""%string) acc →
  Forall (λ p, peer_ID p ≠ ""%string ∧ peer_Address p ≠ ""%string) peers.
Proof.
  revert acc. induction parts as [|part parts IH]; intros acc; cbn [connect_peers_loop]; [by intros [= ->]|].
  case_bool_decide; [by apply IH|]. destruct (match split_first _ _ with Some _ => _ | None => _ end) as [id address].
  do 2 case_bool_decide; try done. cbn [orb]. intros Hl Hacc. eapply IH; [exact Hl|].
  apply Forall_app. split; [done|]. by apply Forall_singleton.
Qed.

(** The peers of the command line.  Peers written as [id=address], separated
    by commas, are read as themselves and in order, if their texts are ASCII
    without blanks and commas and the ids without an equals sign; and whatever
    list is accepted is not empty and names no peer without id or address. *)
Theorem connect_peers_roundtrip (peers : list PeerNode) (raw : string) :
  (peers ≠ [] → Forall peer_arg_ok peers → parseConnectPeers (strings_Join (peer_arg <$> peers) ","%char) = Ok peers) ∧
  (parseConnectPeers raw = Ok peers →
   peers ≠ [] ∧ Forall (λ p, peer_ID p ≠ ""%string ∧ peer_Address p ≠ ""%string) peers).
Proof.
  split; unfold parseConnectPeers.
  - intros Hne Hp. rewrite strings_Split_Join; [|by destruct peers|].
    + rewrite connect_peers_parts by done. cbn [mbind outcome_bind app]. by rewrite bool_decide_eq_false_2 by by destruct peers.
    + apply Forall_fmap. eapply Forall_impl; [exact Hp|]. intros p Hok%peer_arg_chars Hin. cbn in Hin.
      rewrite Forall_forall in Hok. by destruct (Hok _ Hin) as [_ ?].
  - destruct (connect_peers_loop _ _) as [l|err|m] eqn:Hl; [|done..]. cbn [mbind outcome_bind].
    case_bool_decide as Hlen; [done|]. intros [= ->]. split; [by intros ->|]. eapply connect_peers_accepted; [exact Hl|by constructor].
Qed.
End ConnectPeers.

(** ** A daemon that runs *)
#[local] Set Default Proof Using "All".

Section Running.
Context {DB : Type} `{!PebbleDB DB, MO : !MapOrder, !ProtoCodec, TF : !TextFormats, !JWT} {NW : Network}.
Implicit Types (n : DaemonNode DB) (d : Daemon DB) (g : GRPCPeerLink).

(** What goes on in it: requests and streams, its goroutines, and the peer link
    at work on its own.  Each may happen at any time and in any order. *)
Inductive daemon_step : Daemon DB → Daemon DB → Prop :=
  | step_request fuel clk r w st w' d d' :
      daemon_serve fuel clk r w d = Some (st, w', d') → daemon_step d d'
  | step_stream ev ctx client topics w st w' n n' http :
      stream_step ev ctx client topics w n = Some (st, w', n') → daemon_step (mkDaemon n http) (mkDaemon n' http)
  | step_event ctx event n http :
      daemon_step (mkDaemon n http) (mkDaemon (processIncomingUserEvent ctx event n).2 http)
  | step_interest message n http :
      daemon_step (mkDaemon n http) (mkDaemon (processIncomingInterestMessage message n) http)
  | step_resync ctx seen n http :
      daemon_step (mkDaemon n http) (mkDaemon (resync_tick ctx seen n).2 http)
  | step_link g n http :
      link_step (n_link n) g → daemon_step (mkDaemon n http) (mkDaemon (with_link g n) http).

(** *** None of it starts or stops the node *)
Definition kept n n' : Prop := same_life n n' ∧ n_clients n' = n_clients n.

Lemma kept_refl n : kept n n.
Proof. done. Qed.

Lemma kept_trans n1 n2 n3 : kept n1 n2 → kept n2 n3 → kept n1 n3.
Proof. unfold kept, same_life. intros [(? & ? & ? & ?) ?] [(? & ? & ? & ?) ?]. split_and!; congruence. Qed.

Lemma resync_loop_kept ctx peers seen n : kept n (resync_loop ctx peers seen n).2.
Proof.
  revert ctx seen n. induction peers as [|peer peers IH]; intros ctx seen n; [done|]. cbn [resync_loop].
  case_bool_decide; [apply IH|]. unfold syncLocalSubscriptionsToPeer.
  destruct (SendInterestSnapshot _ _ _ _) as [[[[]|err|m] ctx'] p]; cbn [wrap_err]; [|eapply kept_trans; [|by apply IH]; done|done].
  eapply kept_trans; [|by apply IH]. done.
Qed.

Lemma resync_tick_kept ctx seen n : kept n (resync_tick ctx seen n).2.
Proof.
  unfold resync_tick. destruct (GetConnectedPeers (n_link n)) as [peers|err|m]; [|done..].
  pose proof (resync_loop_kept ctx peers seen n) as Hl. by destruct (resync_loop _ _ _ _) as [[r ctx'] n'].
Qed.

Lemma incoming_event_kept ctx event n : kept n (processIncomingUserEvent ctx event n).2.
Proof. unfold processIncomingUserEvent, incoming_running, incoming_append, incoming_deliver. by repeat case_match; simplify_eq. Qed.

Lemma incoming_interest_kept message n : kept n (processIncomingInterestMessage message n).
Proof.
  destruct message as [message|]; [|done]. unfold processIncomingInterestMessage.
  destruct (im_Update message); [done|]. by destruct (im_Snapshot message).
Qed.

Lemma unregister_kept client topics n : kept n (unregisterSSEClient client topics n).
Proof. revert n. induction topics as [|t topics IH]; intros n; [done|]. eapply kept_trans; [|by apply IH]. done. Qed.

Lemma stream_step_kept ev ctx client topics w st w' n n' :
  stream_step ev ctx client topics w n = Some (st, w', n') → kept n n'.
Proof.
  assert (∀ st0 w0, Some (st0, w0, unregisterSSEClient client topics n) = Some (st, w', n') → kept n n') as Hleave
    by (intros st0 w0 [= _ _ <-]; apply unregister_kept).
  unfold stream_step. destruct ev; [by apply Hleave| |].
  - destruct (Write _ _) as [[err|] w0]; [by apply Hleave|]. by intros [= _ _ <-].
  - destruct (chan_receive _ _) as [[event heap]|]; [|done]. cbn [mbind option_bind].
    assert (kept n (unregisterSSEClient client topics (with_heap heap n))) as Hheap
      by (eapply kept_trans; [|apply unregister_kept]; done).
    repeat case_match; intros [= _ _ <-]; done.
Qed.

(** *** The invariant of a running daemon *)
Record daemon_up d : Prop := {
  up_started : n_started (d_node d) = true;
  up_open : n_closed (d_node d) = false;
  up_life : life_wf (d_node d);
  up_keyed : clients_keyed (d_node d)
}.

Lemma daemon_up_kept n n' http http' :
  kept n n' → daemon_up (mkDaemon n http) → daemon_up (mkDaemon n' http').
Proof.
  intros [Hl Hcl] [H1 H2 H3 H4]. pose proof Hl as (Hs & Hc & _ & _).
  split; cbn [d_node] in *; [by rewrite Hs|by rewrite Hc|by eapply life_wf_same|]. unfold clients_keyed. by rewrite Hcl.
Qed.

Lemma daemon_step_up d d' : daemon_step d d' → daemon_up d → daemon_up d'.
Proof.
  intros Hstep Hup. destruct Hstep as [fuel clk r w st w' d d' Hs|ev ctx client topics w st w' n n' http Hs| | | |].
  - destruct Hup as [H1 H2 H3 H4]. revert Hs. unfold daemon_serve, daemon_server.
    destruct (d_http d) as [h|]; [|done]. cbn [mbind option_bind]. destruct (ht_listener h); [|done]. cbn [mbind option_bind]. destruct (ht_stopped h); [done|]. cbn [mbind option_bind].
    destruct (ServeHTTP _ _ _ _ _) as [[[st0 w0] s0]|] eqn:Hserve; [|done]. cbn [mbind option_bind]. intros [= _ _ <-].
    apply serve_only_client in Hserve as [id [_ _ _ Hk Hh]]; [|done]. cbn [srv_node] in Hk, Hh.
    unfold held in Hh. injection Hh as Hcfg Hs Hc Hl Hr Hp.
    split; cbn [d_node]; [congruence|congruence|eapply life_wf_same; [|exact H3]; done|by apply Hk].
  - eapply daemon_up_kept; [by eapply stream_step_kept|done].
  - eapply daemon_up_kept; [apply incoming_event_kept|done].
  - eapply daemon_up_kept; [apply incoming_interest_kept|done].
  - eapply daemon_up_kept; [apply resync_tick_kept|done].
  - by eapply (daemon_up_kept n).
Qed.

(** *** Start-up *)

(** What starting a node and connecting it leaves alone. *)
Definition same_parts n n' : Prop := n_log n' = n_log n ∧ n_config n' = n_config n ∧ n_clients n' = n_clients n.

Lemma node_Start_parts n n' :
  node_Start n = (Ok (), n') → n_started n = false → n_closed n = false →
  n_started n' = true ∧ n_closed n' = false ∧ same_parts n n'.
Proof.
  unfold node_Start. intros Hstart Hs Hc. rewrite Hs, Hc in Hstart. revert Hstart.
  destruct (StartLink (n_link n)) as [[[]|err|m] p]; [|done..]. set (n0 := with_link p n).
  assert (∀ r n1, (match cfg_SeedNodes (n_config n0) with
                   | Some ((_ :: _) as seeds) => runDiscovery seeds n0 | _ => (Ok (), n0) end) = (r, n1) →
                  n_closed n1 = false ∧ same_parts n n1) as Hdisc.
  { intros r n1. destruct (cfg_SeedNodes _) as [[|x l]|]; [by intros [= _ <-]| |by intros [= _ <-]].
    unfold runDiscovery. destruct (discovery_loop _ _ _) as [r1 p1]. by intros [= _ <-]. }
  destruct (match cfg_SeedNodes _ with Some _ => _ | None => _ end) as [r n1]. destruct (Hdisc r n1 eq_refl) as [Hc1 Hp1].
  destruct r; [| |done]; (destruct (StartHeartbeats (n_link n1)) as [[[]|err'|m'] p']; [|done..]; by intros [= <-]).
Qed.

Lemma node_Start_up n n' http :
  node_Start n = (Ok (), n') → n_started n = false → n_closed n = false → n_lifecycle n = None → n_running n = [] →
  n_clients n = ∅ → daemon_up (mkDaemon n' http).
Proof.
  intros Hstart Hs Hc Hl Hr Hcl.
  assert (life_wf n) as Hwf by (split; [by rewrite Hl|intros _; rewrite Hs, Hl; split; [done|by intros [??]]|congruence]).
  apply (life_step_wf LifeStart) in Hwf. cbn [life_step] in Hwf. rewrite Hstart in Hwf.
  destruct (node_Start_parts n n' Hstart Hs Hc) as (H1 & H2 & _ & _ & H3).
  split; [done..|]. intros id c. cbn [d_node]. by rewrite H3, Hcl, lookup_empty.
Qed.

Lemma connect_all_kept peers n : kept n (connect_all peers n).2 ∧ same_parts n (connect_all peers n).2.
Proof.
  revert n. induction peers as [|peer peers IH]; intros n; [done|]. cbn [connect_all].
  destruct (Connect peer (n_link n)) as [[[]|err|m] p]; [|done..]. destruct (IH (with_link p n)) as [Hk Hp].
  split; [by eapply kept_trans; [|exact Hk]|exact Hp].
Qed.

(** A peer that was connected to stays entered. *)
Lemma connections_registerPeer peerID g : connections (registerPeer peerID g) = connections g.
Proof. unfold registerPeer, register_queue. by repeat case_match. Qed.

Lemma Connect_connections peer g r g' :
  grpc_Connect peer g = (r, g') →
  (∀ id, is_Some (connections g !! id) → is_Some (connections g' !! id)) ∧
  (r = Ok () → is_Some (connections g' !! peer_ID peer)).
Proof.
  unfold grpc_Connect. destruct (g_closed g); [intros [= <- <-]; by split|].
  destruct (connections g !! peer_ID peer) as [conn|] eqn:Hconn; [intros [= <- <-]; split; [done|by rewrite Hconn]|].
  assert (∀ id, id = peer_ID peer ∨ is_Some (connections g !! id) →
    is_Some (<[peer_ID peer := mkConnectionInfo peer None]> (connections g) !! id)) as Hin.
  { intros id Hid. rewrite lookup_insert. case_decide; [done|]. by destruct Hid. }
  destruct (grpc_NewClient _); intros [= <- <-]; cbn; rewrite connections_registerPeer; split; auto.
Qed.

Lemma connect_all_connected peers n n' :
  connect_all peers n = (None, n') →
  (∀ id, is_Some (connections (n_link n) !! id) → is_Some (connections (n_link n') !! id)) ∧
  (∀ peer, peer ∈ peers → is_Some (connections (n_link n') !! peer_ID peer)).
Proof.
  revert n. induction peers as [|peer peers IH]; intros n; cbn [connect_all].
  - intros [= <-]. split; [done|]. by intros ? ?%not_elem_of_nil.
  - destruct (Connect peer (n_link n)) as [r p] eqn:Hc. apply Connect_connections in Hc as [Hmono Hok].
    destruct r as [[]|err|m]; [|done..]. intros [Hm Hp]%IH. split; [by auto|].
    intros q [->|Hq]%elem_of_cons; [by apply Hm, Hok|by apply Hp].
Qed.
(** The server of a daemon that has started. *)
Definition http_state (fl : Flags) (secret : string) : option HTTPState :=
  if fl_HTTP fl then
    Some (mkHTTPState (fl_HTTPPort fl) (if bool_decide (secret = ""%string) then default_secret_key else secret)
            (fl_NoAuth fl) NewHandlers
            (match net_Listen (":" +:+ fl_HTTPPort fl) with Ok addr => Some addr | _ => None end) false)
  else None.

Definition peers_connected (fl : Flags) n : Prop :=
  fl_ConnectPeer fl ≠ ""%string →
  ∃ peers, parseConnectPeers (fl_ConnectPeer fl) = Ok peers ∧
    ∀ peer, peer ∈ peers → is_Some (connections (n_link n) !! peer_ID peer).

Lemma connect_configured_running fl n http d :
  connect_configured fl n http = Running d →
  d_http d = http ∧ kept n (d_node d) ∧ same_parts n (d_node d) ∧ peers_connected fl (d_node d).
Proof.
  unfold connect_configured, peers_connected. case_bool_decide; [by intros [= <-]|].
  destruct (parseConnectPeers _) as [peers|err|m] eqn:Hparse; [|done..].
  pose proof (connect_all_kept peers n) as [Hk Hp].
  destruct (connect_all peers n) as [[[peer r]|] n'] eqn:Hconn.
  - destruct r as [[]|err|m]; [|done..]. exfalso. revert Hconn. clear. revert n. induction peers as [|q peers IH]; intros n; [done|].
    cbn [connect_all]. destruct (Connect q (n_link n)) as [[[]|err|m] p]; [apply IH|done..].
  - intros [= <-]. apply connect_all_connected in Hconn as [_ Hc]. cbn [d_node d_http]. split_and!; [done..|]. intros _. by exists peers.
Qed.

Lemma boot_node_running ctx fl secret n d :
  boot_node ctx fl secret n = Running d →
  ∃ n1, node_Start n = (Ok (), n1) ∧ d_http d = http_state fl secret ∧
    kept n1 (d_node d) ∧ same_parts n1 (d_node d) ∧ peers_connected fl (d_node d).
Proof.
  unfold boot_node. destruct (fl_Health fl).
  { unfold showHealthStatus. by destruct (GetHealth ctx n) as [[h|err|m] ctx']. }
  destruct (node_Start n) as [[[]|err|m] n1]; [|done..]. intros (Hh & Hk & Hp & Hc)%connect_configured_running.
  exists n1. split; [done|]. split; [|done]. rewrite Hh. unfold http_state, http_Start, NewServer.
  destruct (fl_HTTP fl); [|done]. cbn [fmap option_fmap option_map ht_Port srv_secretKey srv_noAuth srv_handlers].
  replace (bool_decide ((if bool_decide (secret = ""%string) then default_secret_key else secret) = ""%string)) with false
    by (symmetry; apply bool_decide_eq_false_2; by case_bool_decide).
  by destruct (net_Listen _).
Qed.

(** The steps of a start-up that succeeds. *)
Lemma daemon_main_running ctx now fl env d :
  daemon_main ctx now fl env = Running d →
  ∃ factory log, applyEventLogConfig (env_open env) (fl_EventLogBackend fl) (fl_EventLogPath fl) = Ok factory ∧
    match factory with None => log = MemoryBackend NewInMemoryEventLog | Some r => r = Ok (Some log) end ∧
    daemon_up d ∧ n_log (d_node d) = log ∧
    GetNodeID (d_node d) = default (getDefaultNodeID (env_Hostname env)) (fl_NodeID fl) ∧ GetNodeID (d_node d) ≠ ""%string ∧
    d_http d = http_state fl (env_JWTSecret env) ∧ peers_connected fl (d_node d).
Proof.
  unfold daemon_main. destruct (fl_Version fl); [done|].
  destruct (applyEventLogConfig _ _ _) as [factory|err|m] eqn:Hfac; [|done..].
  set (config := mkConfig _ _ _). set (link := lc_SetDefaults _).
  destruct (cfg_Validate config (lc_Validate link)) eqn:Hval; [done|].
  destruct (NewGRPCMeshNode _ _ _ _ _) as [n|err|m] eqn:Hnew; [|done..].
  intros (n1 & Hstart & Hh & Hk & (Hlog & Hcfg & Hcl) & Hpeers)%boot_node_running.
  assert (cfg_NodeID config ≠ ""%string) as Hid by (unfold cfg_Validate in Hval; by case_bool_decide).
  revert Hnew. unfold NewGRPCMeshNode. rewrite Hval.
  destruct (match factory with None => _ | Some _ => _ end) as [log| |] eqn:Hl; [|done..]. cbn [mbind outcome_bind].
  destruct (wrap_err _ _) as [p| |]; [|done..]. cbn [mbind outcome_bind]. intros [= <-].
  pose proof (node_Start_up _ n1 (d_http d) Hstart eq_refl eq_refl eq_refl eq_refl eq_refl) as Hup.
  destruct (node_Start_parts _ n1 Hstart eq_refl eq_refl) as (_ & _ & Hlog1 & Hcfg1 & _). cbn [n_log n_config] in Hlog1, Hcfg1.
  exists factory, log. split; [done|]. split.
  { destruct factory as [[[flog|]| |]|]; cbn in Hl; congruence. }
  split; [destruct d; by eapply daemon_up_kept|]. unfold GetNodeID. rewrite Hlog, Hlog1, Hcfg, Hcfg1. done.
Qed.

(** C16: what runs is what was configured.  A daemon that has started runs a
    node with the id of the flag or, without it, of the host; its event log is
    in memory or the durable one at the given path, as the backend flag names,
    case and blanks aside; its server, if it was asked for, has the given port,
    secret and authentication; and it is connected to every configured peer. *)
Theorem boot_configured (ctx : Ctx) (now : Z) (fl : Flags) (env : Environment DB) (d : Daemon DB)
    (Hboot : daemon_main ctx now fl env = Running d) :
  daemon_up d ∧
  GetNodeID (d_node d) = default (getDefaultNodeID (env_Hostname env)) (fl_NodeID fl) ∧ GetNodeID (d_node d) ≠ ""%string ∧
  (let backend := ToLower (TrimSpace (fl_EventLogBackend fl)) in
   if bool_decide (backend = "pebble"%string)
   then ∃ log, NewPebbleEventLog (env_open env) (fl_EventLogPath fl) = Ok log ∧ n_log (d_node d) = PebbleBackend log
   else backend ∈ [""; "memory"; "inmemory"; "in-memory"]%string ∧ n_log (d_node d) = MemoryBackend NewInMemoryEventLog) ∧
  d_http d = http_state fl (env_JWTSecret env) ∧ peers_connected fl (d_node d).
Proof.
  apply daemon_main_running in Hboot as (factory & log & Hfac & Hl & Hup & Hlog & Hid & Hne & Hh & Hpeers).
  split_and!; [done..| |done|done]. rewrite Hlog. revert Hfac. unfold applyEventLogConfig. cbv zeta.
  case_bool_decide as Hmem.
  - intros [= <-]. subst log. rewrite bool_decide_eq_false_2; [done|]. intros Heq. rewrite Heq in Hmem. set_solver.
  - case_bool_decide; [|done]. case_bool_decide; [done|]. intros [= <-]. revert Hl.
    destruct (NewPebbleEventLog _ _) as [plog| |]; [|done..]. cbn. intros [= <-]. by exists plog.
Qed.

(** *** Shutting down *)
Lemma daemon_steps_up d d' : rtc daemon_step d d' → daemon_up d → daemon_up d'.
Proof. induction 1 as [|d1 d2 d3 Hs _ IH]; [done|]. intros Hup. by eapply IH, daemon_step_up. Qed.

Lemma Close_opened n r n' :
  node_Close n = (r, n') → (CloseLog (n_log n)).1 = Ok () → n_closed n = false →
  r = Ok () ∧ n_started n' = false ∧ n_closed n' = true ∧ n_running n' = n_running n ∧ n_log n' = (CloseLog (n_log n)).2 ∧
  n_link n' = (link_Close (n_link n)).2 ∧ rt_closed (n_rt n') = true.
Proof.
  unfold node_Close. intros Hclose Hlog Hc. rewrite Hc in Hclose. revert Hclose.
  destruct (CloseLog (n_log n)) as [r0 log]. cbn [fst] in Hlog. subst r0. cbn [rt_Close].
  assert ((link_Close (n_link n)).1 = Ok ()) as Hlink by (unfold link_Close; by repeat case_match).
  change (CloseLink ?g) with (link_Close g). cbn [n_link with_rt with_log]. destruct (link_Close (n_link n)) as [r1 g].
  cbn [fst] in Hlink. subst r1. by intros [= <- <-].
Qed.

(** The link when the node has been stopped and closed. *)
Definition link_down g : Prop :=
  g_closed g = true ∧ g_started g = false ∧ heartbeatCancel g = None ∧ heartbeatsRunning g = false.

Lemma link_Close_down g :
  g_started g = false → heartbeatCancel g = None → heartbeatsRunning g = false → link_down (link_Close g).2.
Proof. intros H1 H2 H3. unfold link_down, link_Close. destruct (g_closed g) eqn:Hc; [done|]. by rewrite H2, H1. Qed.

Lemma node_Stop_link n :
  n_started n = true →
  let n' := (node_Stop n).2 in
  n_log n' = n_log n ∧ g_started (n_link n') = false ∧ heartbeatCancel (n_link n') = None ∧ heartbeatsRunning (n_link n') = false.
Proof.
  intros Hs. unfold node_Stop. rewrite Hs. cbn [negb]. set (n1 := with_life _ _ _ _ n).
  change (StopHeartbeats ?g) with (link_StopHeartbeats g). change (StopLink ?g) with (link_Stop g).
  unfold link_StopHeartbeats. cbn [n_link with_link]. unfold link_Stop. cbn [g_started with_heartbeats].
  destruct (g_started (n_link n1)) eqn:Hg; cbn; split_and!; try done.
Qed.

(** C15: a daemon stays up until it is told to stop, and then stops cleanly.
    Whatever requests it serves and whatever its goroutines, its streams and
    its peer link do, the node remains started with its one set of background
    goroutines; on the signal the node is stopped and closed, no background
    goroutine is left, the routing table, the link and the event log are closed
    with the log's events unchanged, and no request is served any more. *)
Theorem graceful_shutdown `{!PebbleDBLaws DB, !ProtoCodecLaws} (ctx : Ctx) (now : Z) (fl : Flags) (env : Environment DB) (d0 d : Daemon DB)
    (Hboot : daemon_main ctx now fl env = Running d0) (Hsteps : rtc daemon_step d0 d) :
  let n := d_node (shutdown d) in
  daemon_up d ∧ length (n_running (d_node d)) = 1 ∧
  n_started n = false ∧ n_closed n = true ∧ n_running n = [] ∧ rt_closed (n_rt n) = true ∧ link_down (n_link n) ∧
  (∀ a, log_rep (n_log (d_node d)) a → log_rep (n_log n) (mkAbsLog (abs_events a) true)) ∧
  daemon_server (shutdown d) = None.
Proof.
  apply daemon_main_running in Hboot as (_ & _ & _ & _ & Hup & _).
  pose proof (daemon_steps_up _ _ Hsteps Hup) as Hd. clear Hup Hsteps. pose proof Hd as [Hs Hc [Hr Hl _] _].
  destruct (proj1 (Hl Hc) Hs) as [l Hlife]. rewrite Hlife in Hr. cbn [option_list] in Hr.
  intros n. split; [done|]. split; [by rewrite Hr|].
  assert (daemon_server (shutdown d) = None) as Hnone.
  { unfold shutdown. destruct (node_Stop (d_node d)) as [r0 n0]. destruct (node_Close n0). unfold daemon_server. cbn. destruct (d_http d) as [h|]; [|done]. cbn. by destruct (ht_listener h). }
  subst n. revert Hnone. unfold shutdown. pose proof (node_Stop_link (d_node d) Hs) as (Hlog & Hg & Hb & Hb').
  destruct (Stop_cases (d_node d)) as [[? _]|(_ & Hs1 & Hc1 & _ & Hr1)]; [congruence|].
  destruct (node_Stop (d_node d)) as [r1 n1]. cbn [snd] in *.
  destruct (node_Close n1) as [r2 n2] eqn:Hclose. cbn [d_node]. intros Hnone.
  apply Close_opened in Hclose as (_ & E1 & E2 & E3 & E4 & E5 & E6); [|rewrite Hlog; apply nl_Close_ok|congruence].
  split_and!; [done..| |done| | |done].
  - rewrite E3, Hr1, Hlife, Hr. simpl. rewrite filter_cons_False; [done|]. by intros ?.
  - rewrite E5. by apply link_Close_down.
  - intros a Ha. rewrite E4, Hlog. destruct (close_spec _ _ Ha) as (log' & -> & Hrep). exact Hrep.
Qed.

(** *** The health flag

    A fresh node with the in-memory log is reported as healthy, with the
    complaint that it is not started; [--health] asks such a node, never a
    running daemon. *)
Lemma health_of_fresh_node (ctx : Ctx) n :
  ctx_live ctx → n_started n = false → n_closed n = false → n_log n = MemoryBackend NewInMemoryEventLog →
  n_rt n = NewInMemoryRoutingTable → g_closed (n_link n) = false → n_clients n = ∅ → connections (n_link n) = ∅ →
  showHealthStatus ctx n =
  Exited 0 ["EventMesh Node Health Status:"; "  Overall: ✅ Healthy"; "  EventLog: ✅ Healthy"; "  RoutingTable: ✅ Healthy";
            "  PeerLink: ✅ Healthy"; "  Connected Clients: 0"; "  Connected Peers: 0";
            "  Message: Issues detected: [node is not started]"]%string None.
Proof.
  intros Hlive Hs Hc Hlog Hrt Hg Hcl Hconn. unfold showHealthStatus, GetHealth. rewrite Hc, Hlog, Hrt.
  change (GetStatistics ctx (MemoryBackend NewInMemoryEventLog)) with (mem_GetStatistics ctx NewInMemoryEventLog).
  change (@GetConnectedPeers GRPCPeerLink _) with grpc_GetConnectedPeers.
  unfold mem_GetStatistics, mem_checkContext, grpc_GetConnectedPeers, mem_count_topics. rewrite Hg, Hconn, Hcl, (poll_live _ Hlive).
  unfold rt_GetSubscribers, lifecycle_messages. rewrite Hs, Hc. simpl. rewrite !range_map_empty.
  cbn [foldl fmap list_fmap length mbind outcome_bind fst]. by rewrite map_size_empty.
Qed.

(** A fresh daemon asked for its health always answers that it is healthy. *)
Lemma health_flag (ctx : Ctx) (now : Z) (fl : Flags) (env : Environment DB) :
  ctx_live ctx → fl_Version fl = false → fl_Health fl = true → fl_EventLogBackend fl = "memory"%string →
  default (getDefaultNodeID (env_Hostname env)) (fl_NodeID fl) ≠ ""%string → fl_Listen fl ≠ ""%string → fl_PeerListen fl ≠ ""%string →
  ∃ lines, daemon_main ctx now fl env = Exited 0 lines None ∧
    "  Overall: ✅ Healthy"%string ∈ lines ∧ "  Message: Issues detected: [node is not started]"%string ∈ lines.
Proof.
  intros Hlive Hv Hh Hb Hid Hl Hp. eexists. split; [|split].
  { unfold daemon_main. rewrite Hv, Hb.
    change (applyEventLogConfig _ "memory" _) with (@Ok (option (outcome (option (NodeLog DB)))) None). cbv iota zeta.
    unfold NewGRPCMeshNode, NewGRPCPeerLink, cfg_Validate, lc_Validate.
    cbn [cfg_NodeID cfg_ListenAddress lc_SetDefaults lc_NodeID lc_ListenAddress]. rewrite !bool_decide_eq_false_2 by done.
    cbn [wrap_err mbind outcome_bind]. unfold boot_node. rewrite Hh. by apply health_of_fresh_node. }
  - set_solver.
  - set_solver.
Qed.
End Running.
