(* ===== verification/CLI.v ===== *)
(** * The command-line client ([cmd/eventmesh-cli])

    A run of the program parses its flags, makes a client of
    [pkg/httpclient] and calls it once or twice.  A command is a function of
    the flags, the client and the transport: it yields the lines it prints, its
    error and the transport's state.  Flag parsing ([cobra]) is not modelled:
    [GlobalFlags] and the commands' arguments hold its result. *)
From S2P Require Import Prelude EventLog PebbleStorage MeshNode Utf8 Json SSECursor HTTP SSEMessage APIClient StreamClient.

(** ** Formats *)

(** [time.Time.Format] with two layouts, to the second and to the millisecond. *)
Class TimeLayouts := {
  format_datetime : Z → string;
  format_datetime_ms : Z → string
}.

Definition fmt_bool (b : bool) : string := if b then "true" else "false".

(** [json.MarshalIndent]. *)
Definition indent_line (prefix indent : string) (depth : nat) : bytes :=
  newline :: bytes_of_string prefix ++ concat (replicate depth (bytes_of_string indent)).

Fixpoint join_with (sep : bytes) (l : list bytes) : bytes :=
  match l with
  | [] => []
  | [x] => x
  | x :: l => x ++ sep ++ join_with sep l
  end.

Fixpoint print_indent (prefix indent : string) (depth : nat) (j : json) : bytes :=
  let line := indent_line prefix indent in
  match j with
  | JArr ((_ :: _) as l) =>
    "["%char :: line (S depth) ++
    join_with (","%char :: line (S depth)) (map (print_indent prefix indent (S depth)) l) ++ line depth ++ ["]"%char]
  | JObj ((_ :: _) as ms) =>
    "{"%char :: line (S depth) ++
    join_with (","%char :: line (S depth))
      (map (λ '(k, v), print_string k ++ bytes_of_string ": " ++ print_indent prefix indent (S depth) v) ms) ++
    line depth ++ ["}"%char]
  | _ => print j
  end.

(** ** The program's state *)
Record GlobalFlags := mkGlobalFlags {
  gf_serverURL : string;
  gf_clientID : string;
  gf_token : string;
  gf_timeout : Z;
  gf_noAuth : bool
}.

(** [initializeClient]; [skip] for [help] and the root command. *)
Definition initializeClient (url_parses : string → outcome unit) (skip : bool) (gf : GlobalFlags) : outcome (option APIClient) :=
  if skip then Ok None
  else if negb (gf_noAuth gf) && bool_decide (gf_clientID gf = ""%string)
  then Err (ErrNew "client-id is required (unless using --no-auth)")
  else
    let effectiveClientID := if gf_noAuth gf && bool_decide (gf_clientID gf = ""%string) then "dev-client"%string else gf_clientID gf in
    client ← wrap_err "failed to create client" (NewClient url_parses (mkClientConfig (gf_serverURL gf) effectiveClientID "" (gf_timeout gf) 0));
    Ok (Some (if bool_decide (gf_token gf ≠ ""%string) then SetToken (gf_token gf) client
              else if gf_noAuth gf then SetToken "no-auth-mode" client else client)).

Definition err_not_initialized : error := ErrNew "client not initialized".
Definition err_run_auth_first : error := ErrNew "not authenticated - run 'eventmesh-cli auth' first or provide --token".

Definition requireAuthentication (gf : GlobalFlags) (client : option APIClient) : outcome APIClient :=
  match client with
  | None => Err err_not_initialized
  | Some c => if gf_noAuth gf then Ok c else if IsAuthenticated c then Ok c else Err err_run_auth_first
  end.

(** ** Commands *)
Section Commands.
Context {W : Type} `{!Transport W, MO : !MapOrder, TF : !TextFormats, TL : !TimeLayouts}.
Implicit Types (gf : GlobalFlags) (client : option APIClient) (w : W).

Abbreviation cli_result := (list string * outcome unit * W)%type.

(** The guard of a command, and what follows with the client. *)
Definition guarded gf client w (body : APIClient → cli_result) : cli_result :=
  match requireAuthentication gf client with
  | Ok c => body c
  | Err err => ([], Err err, w)
  | Panic m => ([], Panic m, w)
  end.

(** The error of a call ends the command; its value is printed. *)
Definition report {A} (printed : list string) (what : string) (res : outcome A * Ctx * W) (show : A → list string) : cli_result :=
  match res with
  | (Ok a, _, w) => (printed ++ show a, Ok (), w)
  | (Err err, _, w) => (printed, Err (ErrWrap what err), w)
  | (Panic m, _, w) => (printed, Panic m, w)
  end.

(** *** [auth.go] and [health.go]: no guard *)
Definition runAuth (ctx : Ctx) gf client w : cli_result :=
  let printed := ["Authenticating with server " +:+ gf_serverURL gf +:+ " as client " +:+ gf_clientID gf +:+ "..."]%string in
  match client with
  | None => (printed, Panic nil_dereference, w)
  | Some c =>
    let '(r, ctx, c, w) := Authenticate ctx c w in
    report printed "authentication failed" (r, ctx, w) (λ _,
      let token := GetToken c in
      ["✅ Authentication successful!"; "Token: " +:+ token; ""; "You can now use other commands or save this token for future use:";
       "  export EVENTMESH_TOKEN=" +:+ (String dquote token +:+ String dquote "");
       "  eventmesh-cli --token " +:+ (String dquote ("$EVENTMESH_TOKEN" +:+ String dquote
         (" publish --topic test.events --payload '{" +:+ String dquote ("msg" +:+ String dquote (":" +:+ String dquote
            ("hello" +:+ String dquote "}'"))))))]%string)
  end.

Definition runHealth (ctx : Ctx) gf client w : cli_result :=
  let printed := ["Checking health of " +:+ gf_serverURL gf +:+ "..."]%string in
  match client with
  | None => (printed, Panic nil_dereference, w)
  | Some c =>
    report printed "failed to check health" (api_GetHealth ctx c w) (λ health,
      [(if hl_Healthy health then "✅ Server is healthy!" else "❌ Server is not healthy!");
       "EventLog: " +:+ fmt_bool (hl_EventLogHealthy health);
       "RoutingTable: " +:+ fmt_bool (hl_RoutingTableHealthy health);
       "PeerLink: " +:+ fmt_bool (hl_PeerLinkHealthy health);
       "Connected Clients: " +:+ fmt_int (hl_ConnectedClients health);
       "Connected Peers: " +:+ fmt_int (hl_ConnectedPeers health)]%string ++
      (if bool_decide (hl_Message health ≠ ""%string) then [("Message: " +:+ hl_Message health)%string] else []))
  end.

(** *** [publish.go] and [subscribe.go] *)

(** The payload as what it is printed as; an empty text is [nil]. *)
Definition parse_payload (payloadStr : string) : outcome json :=
  if bool_decide (payloadStr = ""%string) then Ok JNull
  else match parse_json (bytes_of_string payloadStr) with
  | None => Err (ErrWrap "invalid JSON payload" err_json_syntax)
  | Some j => match interface_value j with
              | Some payload => Ok payload
              | None => Err (ErrWrap "invalid JSON payload" err_json_type)
              end
  end.

Definition runPublish (ctx : Ctx) gf (topic payloadStr : string) client w : cli_result :=
  guarded gf client w (λ c,
    match parse_payload payloadStr with
    | Err err => ([], Err err, w)
    | Panic m => ([], Panic m, w)
    | Ok payload =>
      report ["Publishing event to topic '" +:+ topic +:+ "'..."]%string "failed to publish event"
        (api_PublishEvent ctx topic payload c w) (λ response,
        ["✅ Event published successfully!"; "Event ID: " +:+ pb_EventID response; "Offset: " +:+ fmt_int (pb_Offset response);
         "Timestamp: " +:+ format_datetime (pb_Timestamp response)]%string)
    end).

Definition runSubscribe (ctx : Ctx) gf (topic : string) client w : cli_result :=
  guarded gf client w (λ c,
    report ["Creating subscription to topic '" +:+ topic +:+ "'..."]%string "failed to create subscription"
      (api_CreateSubscription ctx topic c w) (λ response,
      ["✅ Subscription created successfully!"; "Subscription ID: " +:+ sr_ID response; "Topic: " +:+ sr_Topic response;
       "Client ID: " +:+ sr_ClientID response; "Created At: " +:+ format_datetime (sr_CreatedAt response)]%string)).

(** *** Numbered listings: a blank line between two items *)
Fixpoint numbered {A} (show : string → A → list string) (i : Z) (l : list A) : list string :=
  match l with
  | [] => []
  | [x] => show (fmt_int i) x
  | x :: l => show (fmt_int i) x ++ [""%string] ++ numbered show (i + 1) l
  end.

Definition listing {A} (none what : string) (show : string → A → list string) (l : list A) : list string :=
  match l with
  | [] => [none]
  | _ => ["" ; "Found " +:+ fmt_int (Z.of_nat (length l)) +:+ what; ""]%string ++ numbered show 1 l
  end.

(** *** [subscriptions.go] *)
Definition runSubscriptionsList (ctx : Ctx) gf client w : cli_result :=
  guarded gf client w (λ c,
    report ["Listing subscriptions for client '" +:+ gf_clientID gf +:+ "'..."]%string "failed to list subscriptions"
      (api_ListSubscriptions ctx c w)
      (listing "No subscriptions found" " subscription(s):" (λ i sub,
         [i +:+ ". ID: " +:+ sr_ID sub; "   Topic: " +:+ sr_Topic sub; "   Created: " +:+ format_datetime (sr_CreatedAt sub)]%string))).

Definition runSubscriptionsDelete (ctx : Ctx) gf (subscriptionID : string) client w : cli_result :=
  guarded gf client w (λ c,
    report ["Deleting subscription '" +:+ subscriptionID +:+ "'..."]%string "failed to delete subscription"
      (api_DeleteSubscription ctx subscriptionID c w) (λ _, ["✅ Subscription deleted successfully!"%string])).

(** *** [admin.go] *)
Definition runAdminClients (ctx : Ctx) gf client w : cli_result :=
  guarded gf client w (λ c,
    report ["Fetching connected clients..."%string] "failed to list clients" (api_AdminListClients ctx c w)
      (listing "No clients currently connected" " connected client(s):" (λ i info,
         [i +:+ ". Client ID: " +:+ ci_ID info; "   Authenticated: " +:+ fmt_bool (ci_Authenticated info);
          "   Connected At: " +:+ format_datetime (ci_ConnectedAt info);
          "   Subscriptions: " +:+ fmt_int (Z.of_nat (length (ci_Subscriptions info))) +:+ " topics"]%string ++
         (if bool_decide (0 < length (ci_Subscriptions info))
          then [("   Topics: " +:+ format_list (ci_Subscriptions info))%string] else [])))).

Definition runAdminSubscriptions (ctx : Ctx) gf client w : cli_result :=
  guarded gf client w (λ c,
    report ["Fetching all subscriptions..."%string] "failed to list subscriptions" (api_AdminListSubscriptions ctx c w)
      (listing "No subscriptions found in the system" " subscription(s) across all clients:" (λ i sub,
         [i +:+ ". Subscription ID: " +:+ as_ID sub; "   Topic: " +:+ as_Topic sub; "   Client ID: " +:+ as_ClientID sub;
          "   Created At: " +:+ format_datetime (as_CreatedAt sub)]%string))).

Definition runAdminStats (ctx : Ctx) gf client w : cli_result :=
  guarded gf client w (λ c,
    report ["Fetching system statistics..."%string] "failed to get stats" (api_AdminGetStats ctx c w) (λ response,
      [""; "📊 EventMesh System Statistics:"; ""; "Connected Clients: " +:+ fmt_int (st_ConnectedClients response);
       "Total Subscriptions: " +:+ fmt_int (st_TotalSubscriptions response); "Total Topics: " +:+ fmt_int (st_TotalTopics response);
       "Events Published: " +:+ fmt_int (st_EventsPublished response)]%string)).

(** *** Events ([printEvent] of [stream.go]) *)
Definition spaces12 : string := "            ".

Definition printEvent (event : EventStreamMessage) (count : Z) (pretty : bool) : list string :=
  ["📨 Event #" +:+ fmt_int count +:+ ":"; "   ID: " +:+ sm_EventID event; "   Topic: " +:+ sm_Topic event;
   "   Offset: " +:+ fmt_int (sm_Offset event); "   Time: " +:+ format_datetime_ms (sm_Timestamp event)]%string ++
  match sm_Payload event with
  | JNull => ["   Payload: null"%string]
  | payload =>
    if pretty
    then ["   Payload: "; spaces12 +:+ string_of_bytes (print_indent spaces12 "  " 0 payload)]%string
    else [("   Payload: " +:+ string_of_bytes (print payload))%string]
  end ++ [""%string].

Fixpoint print_events (events : list EventStreamMessage) (count : Z) (pretty : bool) : list string :=
  match events with
  | [] => []
  | event :: events => printEvent event count pretty ++ print_events events (count + 1) pretty
  end.

(** *** [replay.go] *)
Definition runReplay (ctx : Ctx) gf (topic : string) (offset limit : Z) (pretty : bool) client w : cli_result :=
  guarded gf client w (λ c,
    report ["🔄 Replaying events from topic '" +:+ topic +:+ "' (offset: " +:+ fmt_int offset +:+ ", limit: " +:+ fmt_int limit +:+ ")..."]%string
      "failed to read events" (api_ReadEvents ctx topic offset limit c w) (λ response,
      ["📋 Found " +:+ fmt_int (re_Count response) +:+ " events (requested offset: " +:+ fmt_int offset +:+ ", actual start: " +:+
       fmt_int (re_StartOffset response) +:+ ")"; ""]%string ++
      match re_Events response with
      | [] => ["🔍 No events found for topic '" +:+ topic +:+ "' starting from offset " +:+ fmt_int offset]%string
      | events => print_events events 1 pretty ++
          ["✅ Replay completed: " +:+ fmt_int (Z.of_nat (length events)) +:+ " events from topic '" +:+ topic +:+ "'"]%string
      end)).

(** *** [topics.go] *)
Definition maxInt64 (a b : Z) : Z := if bool_decide (b < a)%Z then a else b.

Definition topic_info (topic : string) (firstEvent lastEvent : EventStreamMessage) (count : Z) : list string :=
  ["📊 Topic Information:"; "   Topic: " +:+ topic;
   "   First available offset: " +:+ fmt_int (sm_Offset firstEvent);
   "   First event timestamp: " +:+ format_datetime_ms (sm_Timestamp firstEvent);
   "   Sample shows " +:+ fmt_int count +:+ " events (offset " +:+ fmt_int (sm_Offset firstEvent) +:+ " to " +:+ fmt_int (sm_Offset lastEvent) +:+ ")";
   "   Latest sampled timestamp: " +:+ format_datetime_ms (sm_Timestamp lastEvent)]%string ++
  (if bool_decide (count = 100)%Z then ["   (Topic may contain more events - showing first 100)"%string] else []) ++
  [""; "💡 Usage Examples:";
   "   Replay from beginning:     eventmesh-cli replay --topic " +:+ topic +:+ " --offset 0";
   "   Replay recent events:      eventmesh-cli replay --topic " +:+ topic +:+ " --offset " +:+
     fmt_int (maxInt64 0 (wrap64 (sm_Offset lastEvent - 9))) +:+ " --limit 10";
   "   Stream from beginning:     eventmesh-cli stream --topic " +:+ topic +:+ " --offset 0";
   "   Stream real-time only:     eventmesh-cli stream --topic " +:+ topic]%string.

Definition runTopicsInfo (ctx : Ctx) gf (topic : string) client w : cli_result :=
  guarded gf client w (λ c,
    report ["🔍 Inspecting topic '" +:+ topic +:+ "'..."; ""]%string "failed to inspect topic" (api_ReadEvents ctx topic 0 100 c w) (λ response,
      match re_Events response with
      | [] => ["📭 Topic '" +:+ topic +:+ "' is empty or does not exist"; "   Start offset: 0"; "   Event count: 0"]%string
      | (firstEvent :: _) as events =>
        topic_info topic firstEvent (default firstEvent (last events)) (Z.of_nat (length events))
      end)).

(** *** [stream.go] *)
Fixpoint cli_unique_loop (topics : list string) (seen : gset string) : list string :=
  match topics with
  | [] => []
  | topic :: topics =>
    let topic := TrimSpace topic in
    if bool_decide (topic = ""%string) then cli_unique_loop topics seen
    else if bool_decide (topic ∈ seen) then cli_unique_loop topics seen
    else topic :: cli_unique_loop topics ({[topic]} ∪ seen)
  end.
Definition streamTopics (topics : list string) : list string := cli_unique_loop topics ∅.

Fixpoint join_comma_space (l : list string) : string :=
  match l with
  | [] => ""
  | [x] => x
  | x :: l => x +:+ ", " +:+ join_comma_space l
  end.

Definition stream_banner gf (topics : list string) (offset : Z) : list string :=
  (if bool_decide (0 ≤ offset)%Z then
     ["📝 Note: Offset-based streaming will first replay historical events from offset " +:+ fmt_int offset +:+
      ", then continue with real-time events";
      "   (For batch historical event reading only, use 'eventmesh-cli replay' instead)"; ""]%string else []) ++
  ["🌊 Starting event stream from " +:+ gf_serverURL gf +:+
   (if bool_decide (0 < length topics) then " (topics: " +:+ join_comma_space topics +:+ ")" else " (all topics)") +:+
   (if bool_decide (0 ≤ offset)%Z then " from offset " +:+ fmt_int offset else "") +:+ "...";
   "Press Ctrl+C to stop streaming"]%string.

(** Up to the loop: the client's stream, with the topics it filters by.  The
    offset is printed, and nothing else is done with it. *)
Definition runStream_open (ctx : Ctx) gf (topics : list string) (offset bufferSize : Z) client w
    : list string * outcome StreamClient * W :=
  match requireAuthentication gf client with
  | Err err => ([], Err err, w)
  | Panic m => ([], Panic m, w)
  | Ok c =>
    let config := mkStreamConfig (streamTopics topics) bufferSize 0 0 in
    let printed := stream_banner gf (sc_Topics config) offset in
    match api_Stream ctx config c w with
    | (Ok sc, _, w) => (printed, Ok sc, w)
    | (Err err, _, w) => (printed, Err (ErrWrap "failed to start streaming" err), w)
    | (Panic m, _, w) => (printed, Panic m, w)
    end
  end.

(** What its loop receives, and what it prints: [None] ends the loop. *)
Inductive stream_input :=
  | InterruptInput
  | EventInput (event : EventStreamMessage)
  | EventsClosed
  | ErrorInput (err : error)
  | ErrorsClosed
  | StreamFinished.

Definition stream_input_step (input : stream_input) (eventCount : Z) (pretty : bool) : list string * option Z :=
  let bye what := (["" ; what +:+ " Received " +:+ fmt_int eventCount +:+ " events."]%string, None) in
  match input with
  | InterruptInput => bye "✅ Stream stopped."%string
  | EventsClosed => bye "🔌 Event stream closed."%string
  | ErrorsClosed => bye "🔌 Error stream closed."%string
  | StreamFinished => bye "🔌 Stream finished."%string
  | EventInput event =>
    let eventCount := wrap64 (eventCount + 1) in (printEvent event eventCount pretty, Some eventCount)
  | ErrorInput err => (["❌ Stream error: " +:+ error_String err]%string, Some eventCount)
  end.

(** The loop on a sequence of inputs; the stream client is closed at the end. *)
Fixpoint stream_inputs (inputs : list stream_input) (eventCount : Z) (pretty : bool) : list string :=
  match inputs with
  | [] => []
  | input :: inputs =>
    match stream_input_step input eventCount pretty with
    | (lines, Some eventCount) => lines ++ stream_inputs inputs eventCount pretty
    | (lines, None) => lines
    end
  end.

(** The text of [errors.Join]. *)
Fixpoint join_errors (errs : list error) : string :=
  match errs with
  | [] => ""
  | [err] => error_String err
  | err :: errs => error_String err +:+ (String newline (join_errors errs))
  end.

Definition runStream_close (ctx : Ctx) (sc : StreamClient) w : list string * W :=
  let '(errs, _, _, w) := StreamClient_Close ctx sc w in
  (match errs with [] => [] | _ => ["Warning: failed to close stream client: " +:+ join_errors errs]%string end, w).

(** ** The commands together *)
Inductive command :=
  | CmdAuth
  | CmdHealth
  | CmdPublish (topic payload : string)
  | CmdSubscribe (topic : string)
  | CmdSubscriptionsList
  | CmdSubscriptionsDelete (id : string)
  | CmdAdminClients
  | CmdAdminSubscriptions
  | CmdAdminStats
  | CmdReplay (topic : string) (offset limit : Z) (pretty : bool)
  | CmdTopicsInfo (topic : string).

Definition run_command (ctx : Ctx) gf (cmd : command) client w : cli_result :=
  match cmd with
  | CmdAuth => runAuth ctx gf client w
  | CmdHealth => runHealth ctx gf client w
  | CmdPublish topic payload => runPublish ctx gf topic payload client w
  | CmdSubscribe topic => runSubscribe ctx gf topic client w
  | CmdSubscriptionsList => runSubscriptionsList ctx gf client w
  | CmdSubscriptionsDelete id => runSubscriptionsDelete ctx gf id client w
  | CmdAdminClients => runAdminClients ctx gf client w
  | CmdAdminSubscriptions => runAdminSubscriptions ctx gf client w
  | CmdAdminStats => runAdminStats ctx gf client w
  | CmdReplay topic offset limit pretty => runReplay ctx gf topic offset limit pretty client w
  | CmdTopicsInfo topic => runTopicsInfo ctx gf topic client w
  end.

(** [main]: the exit code, what is printed, and the error on [stderr].  Errors
    of the set-up end the program like those of the command. *)
Definition cli_main (url_parses : string → outcome unit) (ctx : Ctx) gf (cmd : command) w : Z * list string * option error * W :=
  match initializeClient url_parses false gf with
  | Err err => (1, [], Some err, w)
  | Panic m => (2, [], None, w)
  | Ok client =>
    match run_command ctx gf cmd client w with
    | (lines, Ok _, w) => (0, lines, None, w)
    | (lines, Err err, w) => (1, lines, Some err, w)
    | (lines, Panic m, w) => (2, lines, None, w)
    end
  end%Z.
End Commands.
