(* ===== verification/CLISpec.v ===== *)
(** * The command-line client: what its commands do

    The guard of the commands, and the program run against the server: an event
    that is published by one run is shown by the next. *)
From S2P Require Import Prelude Topics EventLog PebbleStorage RoutingTable Peers Clients MeshNode NodeLifecycle NodePublish Utf8 Json JsonSpec SSECursor HTTP SSEMessage JsonValues SSEStream.
From S2P Require Import HTTPHandlers HTTPServer APIClient StreamClient StreamLines EndToEnd CLI.

#[local] Set Default Proof Using "Type*".

(** ** The client of a run *)

(** The client that the flags describe, once the URL has been accepted. *)
Definition flag_client (gf : GlobalFlags) : APIClient :=
  let id := if gf_noAuth gf && bool_decide (gf_clientID gf = ""%string) then "dev-client"%string else gf_clientID gf in
  mkAPIClient (cc_SetDefaults (mkClientConfig (gf_serverURL gf) id "" (gf_timeout gf) 0))
    (if bool_decide (gf_token gf ≠ ""%string) then gf_token gf else if gf_noAuth gf then "no-auth-mode"%string else ""%string).

Lemma initializeClient_ok url_parses gf :
  gf_noAuth gf = true ∨ gf_clientID gf ≠ ""%string → gf_serverURL gf ≠ ""%string → url_parses (gf_serverURL gf) = Ok () →
  initializeClient url_parses false gf = Ok (Some (flag_client gf)).
Proof.
  intros Hid Hs Hu. unfold initializeClient, flag_client.
  assert (negb (gf_noAuth gf) && bool_decide (gf_clientID gf = ""%string) = false) as ->.
  { destruct Hid as [->|Hid]; [done|]. rewrite bool_decide_eq_false_2 by done. apply andb_false_r. }
  set (id := if _ && _ then _ else _). assert (id ≠ ""%string) as Hne.
  { subst id. destruct Hid as [->|Hid]; [by case_bool_decide|]. rewrite (bool_decide_eq_false_2 _ Hid), andb_false_r. exact Hid. }
  unfold NewClient. cbn [cc_SetDefaults cc_ServerURL cc_ClientID]. rewrite (bool_decide_eq_false_2 _ Hs), (bool_decide_eq_false_2 _ Hne), Hu.
  cbn [wrap_err mbind outcome_bind]. unfold SetToken. cbn [api_config]. by case_bool_decide; [|destruct (gf_noAuth gf)].
Qed.

Section Guard.
Context {W : Type} `{!Transport W, MO : !MapOrder, TF : !TextFormats, TL : !TimeLayouts}.

Definition needs_token (cmd : command) : bool := match cmd with CmdAuth | CmdHealth => false | _ => true end.

(** Without a token a command that needs one is refused before it prints or
    sends anything, however often [auth] has been run: a run that logs in shows
    its token and keeps it nowhere. *)
Lemma no_token_refused url_parses ctx gf cmd (w : W) :
  gf_noAuth gf = false → gf_token gf = ""%string → gf_clientID gf ≠ ""%string → gf_serverURL gf ≠ ""%string →
  url_parses (gf_serverURL gf) = Ok () → needs_token cmd = true →
  cli_main url_parses ctx gf cmd w = (1%Z, [], Some err_run_auth_first, w).
Proof.
  intros Hno Ht Hid Hs Hu Hcmd. unfold cli_main. rewrite initializeClient_ok by auto.
  assert (∀ body, guarded gf (Some (flag_client gf)) w body = ([], Err err_run_auth_first, w)) as Hg.
  { intros body. unfold guarded, requireAuthentication, IsAuthenticated, flag_client. cbn [api_token]. rewrite Hno, Ht.
    by rewrite !bool_decide_eq_false_2 by (intros H; by apply H). }
  destruct cmd; try done; cbn [run_command]; unfold runPublish, runSubscribe, runSubscriptionsList, runSubscriptionsDelete,
    runAdminClients, runAdminSubscriptions, runAdminStats, runReplay, runTopicsInfo; by rewrite Hg.
Qed.

(** The topics of a stream are the client's own. *)
Lemma streamTopics_unique topics : streamTopics topics = uniqueStreamTopics topics.
Proof.
  unfold streamTopics, uniqueStreamTopics. generalize (∅ : gset string).
  induction topics as [|t topics IH]; intros seen; [done|]. cbn [cli_unique_loop unique_loop]. by repeat case_bool_decide; rewrite ?IH.
Qed.

(** The offset of [stream] changes what is printed and nothing else. *)
Lemma stream_offset_unused ctx gf topics offset offset' size client (w : W) :
  (runStream_open ctx gf topics offset size client w).1.2 = (runStream_open ctx gf topics offset' size client w).1.2 ∧
  (runStream_open ctx gf topics offset size client w).2 = (runStream_open ctx gf topics offset' size client w).2.
Proof.
  unfold runStream_open. destruct (requireAuthentication gf client) as [c|err|m]; [|done..].
  by destruct (api_Stream ctx _ c w) as [[[sc|err|m] ctx'] w'].
Qed.
End Guard.

(** ** Publishing and replaying *)
Definition replaying (topic : string) (k : Z) : string :=
  "🔄 Replaying events from topic '" +:+ topic +:+ "' (offset: " +:+ fmt_int k +:+ ", limit: 1)...".

Definition replay_lines `{!TextFormats, !TimeLayouts} (topic : string) (k : Z) (pretty : bool) (e : EventStreamMessage) : list string :=
  [replaying topic k;
   "📋 Found 1 events (requested offset: " +:+ fmt_int k +:+ ", actual start: " +:+ fmt_int k +:+ ")"; ""]%string ++
  printEvent e 1 pretty ++ ["✅ Replay completed: 1 events from topic '" +:+ topic +:+ "'"]%string.

(** C14: two runs of the program.  With a token that is valid at both times, a
    run that publishes a JSON payload to a topic of a running server exits
    with 0 and prints the topic's next offset; a run that replays one event from
    that offset then exits with 0 and prints exactly that event, with its
    payload, and leaves the server as it was.  Only for the topic [..] the second
    run fails: it says what it replays, and exits with 1. *)
Theorem cli_publish_replay {L P : Type} `{!EventLog L, !PeerLink P, MO : !MapOrder, TF : !TextFormats, TFL : !TextFormatsLaws, !JWT, !JWTLaws, !EventLogSpec L, !PeerLinkSpec P, TL : !TimeLayouts}
    (fuel : nat) (clk clk2 : Clock) (ctx : Ctx) (url_parses : string → outcome unit) (gf : GlobalFlags) (s : Server L P) (a : AbsLog)
    (claims : JWTClaims) (topic payloadStr : string) (payload : json) (depth : nat) (ts : bytes) (peers : list PeerNode) (pretty : bool)
    (Hflags : gf_noAuth gf = false ∧ gf_clientID gf ≠ ""%string ∧ gf_serverURL gf ≠ ""%string)
    (Hurl : url_parses (gf_serverURL gf) = Ok ())
    (Hparse : parse_payload payloadStr = Ok payload)
    (Hready : publish_ready clk clk2 ctx (gf_token gf) s a claims topic payload depth ts peers) :
  let k := abs_end a topic in
  ∃ s', @cli_main (Server L P) (wire fuel clk) TF TL url_parses ctx gf (CmdPublish topic payloadStr) s =
      (0%Z, ["Publishing event to topic '" +:+ topic +:+ "'..."; "✅ Event published successfully!";
             "Event ID: " +:+ plain_event_id topic k; "Offset: " +:+ fmt_int k; "Timestamp: " +:+ format_datetime (clk_now clk)]%string, None, s') ∧
    @cli_main (Server L P) (wire fuel clk2) TF TL url_parses ctx gf (CmdReplay topic k 1 pretty) s' =
      (if decide (topic = ".."%string) then (1%Z, [replaying topic k], Some (ErrWrap "failed to read events" read_refused_error), s')
       else (0%Z, replay_lines topic k pretty (mkMessage (plain_event_id topic k) topic payload (clk_now clk) k), None, s')).
Proof.
  destruct Hflags as (Hno & Hid & Hs). intros k. pose proof (ready_token _ _ _ _ _ _ _ _ _ _ _ _ Hready) as Htok.
  assert (api_token (flag_client gf) = gf_token gf) as Hct by (unfold flag_client; cbn [api_token]; by rewrite bool_decide_eq_true_2).
  rewrite <-Hct in Hready. apply (publish_then_read fuel) in Hready as (s' & Hpub & Hread).
  exists s'. unfold cli_main. rewrite (initializeClient_ok url_parses gf) by auto. cbn [run_command].
  unfold runPublish, runReplay, guarded, requireAuthentication, IsAuthenticated. rewrite Hno, Hct, bool_decide_eq_true_2 by done.
  subst k. rewrite Hparse, Hpub, Hread.
  split; [done|]. case_decide; [done|]. cbn [report re_Events print_events]. by rewrite app_nil_r.
Qed.
