(* ===== verification/DaemonWitness.v ===== *)
(** * A concrete daemon and a concrete run of the command-line client

    A daemon on a durable log, with its server, that connects to two peers; and
    two runs of the command-line client against the server of [HTTPWitness.v]. *)
From S2P Require Import Prelude Topics EventLog MemoryLog PebbleKeys PebbleStorage PebbleLog PebbleSpec RoutingTable Peers Clients MeshNode NodeLifecycle.
From S2P Require Import NodeWitness PeerMessages GRPCLink LinkLifecycle LinkInvariant LinkWitness Utf8 Json SSECursor HTTP SSEMessage SSEStream HTTPHandlers HTTPServer EndToEnd APIClient HTTPWitness Daemon CommandLine DaemonSpec CLI CLISpec.

#[local] Existing Instances map_order_id bit_codec bit_codec_laws sample_network.

Definition sample_flags : Flags :=
  mkFlags None ":8080" ":9090" " B=localhost:9091, localhost:9092" true "8081" false false false "" "info" " Pebble " "data".
Definition sample_env : Environment MapDB := mkEnvironment (Ok "host"%string) "" (λ _, Ok ∅).

Lemma sample_boots : ∃ d, daemon_main ctx_Background 0 sample_flags sample_env = Running d.
Proof. eexists. vm_compute. reflexivity. Qed.

Lemma boot_configured_witness :
  ∃ d, daemon_main ctx_Background 0 sample_flags sample_env = Running d ∧
    GetNodeID (d_node d) = "eventmesh-host"%string ∧ is_Some (connections (n_link (d_node d)) !! "B"%string).
Proof.
  destruct sample_boots as [d Hd]. exists d. split; [done|].
  destruct (boot_configured ctx_Background 0 sample_flags sample_env d Hd) as (_ & Hid & _ & _ & _ & Hp). split; [exact Hid|].
  destruct (Hp ltac:(done)) as (peers & Hparse & Hconn). vm_compute in Hparse. injection Hparse as <-.
  apply (Hconn (mkPeerNode "B" "localhost:9091")). by left.
Defined.

Lemma graceful_shutdown_witness :
  ∃ d0 d, daemon_main ctx_Background 0 sample_flags sample_env = Running d0 ∧ rtc daemon_step d0 d ∧
    n_running (d_node (shutdown d)) = [] ∧ n_closed (d_node (shutdown d)) = true.
Proof.
  destruct sample_boots as [[n http] Hd].
  assert (rtc daemon_step (mkDaemon n http) (mkDaemon (processIncomingUserEvent ctx_Background created_event n).2 http)) as Hsteps
    by apply rtc_once, step_event.
  eexists _, _. split; [exact Hd|]. split; [exact Hsteps|].
  destruct (graceful_shutdown ctx_Background 0 sample_flags sample_env _ _ Hd Hsteps) as (_ & _ & _ & Hc & Hr & _). done.
Defined.

(** Two ports are given; the second one counts, and the peer after the operand
    is not read. *)
Definition sample_arguments : list string :=
  ["-http-port"; "9001"; "--http"; "--no-auth=F"; "--http-port=9002"; "start"; "--connect-peer=x"]%string.

Lemma command_line_exact_witness :
  parse_args sample_arguments ∅ =
    Ok (<["http-port" := "9002"%string]> (<["no-auth" := "false"%string]> (<["http" := "true"%string]> {["http-port" := "9001"%string]})),
        ["start"; "--connect-peer=x"]%string) ∧
  run_main ctx_Background 0 (write_flags sample_flags ≫= write_flag) sample_env =
    Process (daemon_main ctx_Background 0 sample_flags sample_env).
Proof.
  destruct (command_line_exact ctx_Background 0 sample_env
    [mkOccurrence false "http-port" Separate "9001"; mkOccurrence true "http" Bare "true";
     mkOccurrence true "no-auth" Joined "F"; mkOccurrence true "http-port" Joined "9002"]
    [] ["start"; "--connect-peer=x"]%string ["start"; "--connect-peer=x"]%string sample_flags) as (Hread & _ & _ & Hmain & _).
  split; [|exact Hmain]. refine (eq_trans (Hread _ _) _); [|done|by vm_compute].
  apply (bool_decide_unpack _). by vm_compute.
Defined.

Example unknown_flag_stops : Parse ["--http"; "--port=1"]%string = Err (ErrNew "flag provided but not defined: -port").
Proof. reflexivity. Qed.
Example help_asked : Parse ["-help"]%string = Err ErrHelp.
Proof. reflexivity. Qed.

(** The lists of peers that are refused. *)
Example no_peers : parseConnectPeers " , " = Err (ErrNew "at least one peer is required").
Proof. reflexivity. Qed.
Example peer_without_address : parseConnectPeers "a=b,B=" = Err (ErrNew "peer B= must be address or id=address").
Proof. reflexivity. Qed.

(** ** The command-line client *)
#[local] Instance plain_layouts : TimeLayouts := {| format_datetime := fmt_int; format_datetime_ms := fmt_int |}.

Definition alice_flags : GlobalFlags := mkGlobalFlags "http://localhost:8081" "alice" (signed_token 0) 0 false.

(** The text [{total:7}], its name in quotes. *)
Definition total7 : string := String "{" (String dquote ("total" +:+ (String dquote ":7}"))).

Lemma cli_publish_replay_witness :
  ∃ s', @cli_main _ (wire 11 sample_clock) _ _ (λ _, Ok ()) ctx_Background alice_flags (CmdReplay "orders.eu" 0 1 false) s' =
    (0%Z, ["🔄 Replaying events from topic 'orders.eu' (offset: 0, limit: 1)...";
           "📋 Found 1 events (requested offset: 0, actual start: 0)"; ""; "📨 Event #1:"; "   ID: orders.eu-0"; "   Topic: orders.eu";
           "   Offset: 0"; "   Time: 1"; "   Payload: " +:+ total7; ""; "✅ Replay completed: 1 events from topic 'orders.eu'"]%string, None, s').
Proof.
  destruct (cli_publish_replay 11 sample_clock sample_clock ctx_Background (λ _, Ok ()) alice_flags sample_server abs_empty alice_claims_of
    "orders.eu" total7 sample_payload 1 (FormatInt 1) [peer_B] false) as (s' & _ & Hreplay);
    [by split_and!|reflexivity|by vm_compute|exact sample_ready|]. exists s'. exact Hreplay.
Defined.
