(* ===== verification/StartupSpec.v ===== *)
(** * What the daemon says about its start

    A daemon that runs ends its start-up log with the report of its health and
    the summary; one that gives up ends it with its error, which the log level
    may hide; and the summary never shows the peer link. *)
From S2P Require Import Prelude Topics EventLog MemoryLog PebbleKeys PebbleStorage PebbleLog PebbleSpec RoutingTable Peers Clients MeshNode NodeLifecycle.
From S2P Require Import NodeWitness PeerMessages GRPCLink LinkLifecycle LinkWitness ComposedLink Utf8 Json SSECursor HTTP SSEMessage SSEStream HTTPHandlers HTTPServer HTTPWitness.
From S2P Require Import Daemon DaemonSpec Startup DaemonWitness.

#[local] Set Default Proof Using "All".

(** ** The log level *)
Lemma shown_elem th lines l : l ∈ shown th lines ↔ l ∈ lines ∧ (level_value th ≤ level_value (ln_level l))%Z.
Proof. unfold shown. rewrite list_elem_of_filter. tauto. Qed.

Lemma shown_last th lines l :
  last lines = Some l → (level_value th ≤ level_value (ln_level l))%Z → last (shown th lines) = Some l.
Proof.
  intros (l' & ->)%last_Some Hlv. unfold shown. by rewrite filter_app, filter_cons_True, filter_nil, last_snoc.
Qed.

Lemma last_app_some {A} (l k : list A) x : last k = Some x → last (l ++ k) = Some x.
Proof. intros (k' & ->)%last_Some. by rewrite (assoc_L (++)), last_snoc. Qed.

Lemma last_cons_some {A} (y : A) k x : last k = Some x → last (y :: k) = Some x.
Proof. apply (last_app_some [y]). Qed.

#[local] Hint Resolve last_app_some last_cons_some : core.

Section Startup.
Context {DB : Type} `{!PebbleDB DB, MO : !MapOrder, !ProtoCodec, TF : !TextFormats, !JWT} {NW : Network}.
Implicit Types (n : DaemonNode DB) (d : Daemon DB).

(** ** The end of the log *)
Definition told (ctx : Ctx) (ms : Z) (listening : bool) (fl : Flags) (nodeID : string) (r : boot DB) (lines : list line) : Prop :=
  match r with
  | Running d => ∃ before, lines = before ++ ready_lines ctx ms listening fl nodeID d
  | Exited code _ (Some err) => code = 1%Z ∧ last lines = Some (Printf (error_String err))
  | _ => True
  end.

Lemma told_app ctx ms listening fl nodeID r before lines :
  told ctx ms listening fl nodeID r lines → told ctx ms listening fl nodeID r (before ++ lines).
Proof.
  destruct r as [code out [err|]| |d]; [|done..|].
  - intros [? ?]. split; [done|]. by apply last_app_some.
  - intros [before' ->]. exists (before ++ before'). by rewrite (assoc_L (++)).
Qed.

Lemma told_fatal ctx ms listening fl nodeID what err : told ctx ms listening fl nodeID (Fatalf what err) [Fatalf_line what err].
Proof. done. Qed.

Lemma connect_lines_last peers n peer err n' :
  connect_all peers n = (Some (peer, Err err), n') →
  last (connect_lines peers n) = Some (Fatalf_line ("❌ Failed to connect to peer " +:+ peer_ID peer +:+ " at " +:+ peer_Address peer) err).
Proof.
  revert n. induction peers as [|q peers IH]; intros n; [done|]. cbn [connect_all connect_lines].
  destruct (Connect q (n_link n)) as [[[]|err'|m] p]; [|intros [= -> -> _]; done|done].
  intros Hl%IH. by apply last_cons_some.
Qed.

Lemma told_boot ctx ms listening fl secret nodeID n :
  told ctx ms listening fl nodeID (boot_node ctx fl secret n) (boot_lines ctx ms listening fl secret nodeID n).
Proof.
  unfold boot_lines. apply told_app. unfold boot_node at 1. destruct (fl_Health fl) eqn:Hhealth.
  { unfold showHealthStatus. by destruct (GetHealth ctx n).1. }
  apply (told_app _ _ _ _ _ _ [_]). pose proof (eq_refl (boot_node ctx fl secret n)) as Hboot. revert Hboot.
  unfold boot_node at 1. rewrite Hhealth. destruct (node_Start n) as [[[]|err|m] n1]; [|done..]. cbv zeta.
  set (http := _ <$> _). intros Hboot. rewrite <-Hboot. apply told_app. clear Hboot.
  unfold connect_configured. case_bool_decide as Hc.
  - exists []. done.
  - destruct (parseConnectPeers _) as [peers|err|m]; [|done..].
    destruct (connect_all peers n1) as [[[peer r]|] n'] eqn:Hconn.
    + destruct r as [[]|err|m]; [| |done].
      * eexists. done.
      * split; [done|]. rewrite app_nil_r. by apply connect_lines_last in Hconn.
    + eexists. done.
Qed.

Lemma told_main ctx now ms listening fl env :
  told ctx ms listening fl (default (getDefaultNodeID (env_Hostname env)) (fl_NodeID fl)) (daemon_main ctx now fl env)
    (main_lines ctx now ms listening fl env).
Proof.
  unfold daemon_main, main_lines. destruct (fl_Version fl); [done|]. cbv zeta. do 2 apply told_app.
  destruct (applyEventLogConfig _ _ _) as [factory|err|m]; [|done..].
  destruct (cfg_Validate _ _); [done|]. apply (told_app _ _ _ _ _ _ [_]).
  destruct (NewGRPCMeshNode _ _ _ _ _) as [n|err|m]; [|done..]. apply told_boot.
Qed.

(** ** The summary *)
Lemma ready_summary_blind ms n http nodeID logLevel noAuth seeds :
  slog_Info "   Peer Listen: " ∈ logNodeReady ms (node_GetPeerLink n) http nodeID logLevel noAuth seeds ∧
  slog_Info "   Connected Peers: 0" ∈ logNodeReady ms (node_GetPeerLink n) http nodeID logLevel noAuth seeds.
Proof.
  unfold logNodeReady. cbn [as_GRPCPeerLink node_GetPeerLink length]. rewrite (bool_decide_eq_false_2 (0 < 0)) by lia.
  split; rewrite !elem_of_app; [left; by do 4 right; left|right; right; left; by left].
Qed.

Lemma ready_summary_sighted ms g http nodeID logLevel noAuth seeds id conn :
  g_closed g = false → connections g !! id = Some conn →
  slog_Info ("     • " +:+ (peer_ID (ci_node conn) +:+ "@" +:+ peer_Address (ci_node conn))) ∈
    logNodeReady ms (VGRPC g) http nodeID logLevel noAuth seeds.
Proof.
  intros Hc Hconn. unfold logNodeReady. cbn [as_GRPCPeerLink]. unfold GetConnectedPeerSummary, grpc_GetConnectedPeers. rewrite Hc.
  cbn [fmap outcome_fmap]. set (peers := _ <$> (_ <$> range_map (connections g))).
  assert (peer_ID (ci_node conn) +:+ "@" +:+ peer_Address (ci_node conn) ∈ peers) as Hin.
  { subst peers. apply list_elem_of_fmap. exists (ci_node conn). split; [done|].
    apply list_elem_of_fmap. exists (id, conn). split; [done|]. by apply elem_of_range_map. }
  clearbody peers. rewrite (bool_decide_eq_true_2 (0 < length peers)) by (destruct peers; [by apply not_elem_of_nil in Hin|simpl; lia]).
  rewrite !elem_of_app. right. right. left. right. apply list_elem_of_fmap. by eexists.
Qed.

(** C18: the start-up log.  A daemon that runs has ended it with the report of its
    node's health and the summary, made for the link as [GetPeerLink] hands it out: it shows no
    listening address and no peer, however many are connected, although a
    summary made for the link itself names each of them.  A daemon that gives up with an error has
    exit code 1 and that error as the last line of its log; the line is printed
    exactly when the log level is debug or info, and with a higher level
    the process ends without a word about it. *)
Theorem startup_reported (ctx : Ctx) (now ms : Z) (listening : bool) (fl : Flags) (env : Environment DB) :
  let lines := main_lines ctx now ms listening fl env in
  (∀ d, daemon_main ctx now fl env = Running d →
   ∃ before summary, lines = before ++ showStartupInfo ctx (d_node d) ++ summary ∧
     summary = logNodeReady ms (node_GetPeerLink (d_node d)) (if listening then d_http d else unbound <$> d_http d)
                 (GetNodeID (d_node d)) (fl_LogLevel fl) (fl_NoAuth fl) (seed_count fl) ∧
     slog_Info "   Peer Listen: " ∈ summary ∧ slog_Info "   Connected Peers: 0" ∈ summary) ∧
  (∀ g http nodeID logLevel noAuth seeds id conn, g_closed g = false → connections g !! id = Some conn →
   slog_Info ("     • " +:+ (peer_ID (ci_node conn) +:+ "@" +:+ peer_Address (ci_node conn))) ∈
     logNodeReady ms (VGRPC g) http nodeID logLevel noAuth seeds) ∧
  (∀ code out err, daemon_main ctx now fl env = Exited code out (Some err) →
   code = 1%Z ∧ last lines = Some (Printf (error_String err)) ∧
   match (setupLogging (fl_LogLevel fl)).1 with
   | LevelDebug | LevelInfo => last (main_output ctx now ms listening fl env) = Some (Printf (error_String err))
   | LevelWarn | LevelError => Printf (error_String err) ∉ main_output ctx now ms listening fl env
   end).
Proof.
  pose proof (told_main ctx now ms listening fl env) as Htold. cbv zeta. split_and!.
  - intros d Hd. rewrite Hd in Htold. destruct Htold as [before ->].
    apply daemon_main_running in Hd as (factory & log & _ & _ & _ & _ & Hid & _). rewrite <-Hid.
    eexists before, _. split; [done|]. split; [done|]. apply ready_summary_blind.
  - intros. by eapply ready_summary_sighted.
  - intros code out err Hd. rewrite Hd in Htold. destruct Htold as [Hcode Hlast]. split_and!; [done..|].
    unfold main_output. destruct (setupLogging _).1.
    1,2: by apply shown_last.
    all: by intros [_ Hlv]%shown_elem.
Qed.
End Startup.

(** ** Witness *)
#[local] Existing Instances map_order_id bit_codec bit_codec_laws sample_network.

(** The daemon of [DaemonWitness.v], which is connected to two peers. *)
Definition sample_lines : list line := main_lines ctx_Background 0 12 true sample_flags sample_env.

Definition quiet_flags : Flags := mkFlags None ":8080" ":9090" "" false "8081" false false false "" "error" "disk" "".

Lemma startup_reported_witness :
  (∃ before summary, sample_lines = before ++ summary ∧ slog_Info "   Connected Peers: 0" ∈ summary) ∧
  main_output ctx_Background 0 12 true quiet_flags sample_env = [].
Proof.
  split; [|by vm_compute]. destruct sample_boots as [d Hd].
  destruct (startup_reported ctx_Background 0 12 true sample_flags sample_env) as (Hrun & _ & _).
  destruct (Hrun d Hd) as (before & summary & Hlines & _ & _ & Hin).
  exists (before ++ showStartupInfo ctx_Background (d_node d)), summary. split; [|exact Hin].
  refine (eq_trans Hlines _). by rewrite (assoc_L (++)).
Defined.

(** The daemon with the unknown backend fails. *)
Example quiet_fails : daemon_main ctx_Background 0 quiet_flags sample_env =
  Fatalf "❌ Invalid EventLog configuration" (ErrNew "unknown EventLog backend disk").
Proof. by vm_compute. Qed.
Example sample_summary : drop 20 ((λ l, ln_msg l) <$> sample_lines) =
  ["🚀 Node Ready Summary:"; "   Node ID: eventmesh-host"; "   Version: 0.1.0"; "   Startup Time: 12ms"; "   Peer Listen: ";
   "   HTTP API: :8081"; "   Connected Peers: 0"; "   Auth Mode: enabled"; "   Log Level: info"]%string.
Proof. by vm_compute. Qed.
